(* ===== verification/_CoqProject ===== *)
-Q . S2P
Prelude.v
JsString.v
Utf8.v
NodePath.v
Json.v
VaultPath.v
Splice.v
Artifact.v
FileSystem.v
IsoDate.v
AuditLog.v
FolderMetadata.v
VaultOps.v
VaultCalls.v
MutationQueue.v
Confinement.v
CallEffects.v
VaultView.v
VaultErrors.v
MetadataStore.v
ExampleVault.v
VaultListing.v
Search.v
PendingFrames.v
PendingRequests.v
Base64.v
DocStream.v
StreamMux.v
StreamMuxProps.v
StreamMuxDelivery.v
StreamMuxLeak.v
RelayFrame.v
HistoryData.v
HistoryMessage.v
Sha256.v
FileHistory.v
HistoryPending.v
HistoryFlush.v
HistoryCommits.v
HistoryRead.v
SessionProtocol.v
SessionMessages.v
DocSession.v
DocSessionProps.v
DocSessionLiveness.v
DocSessionReconcile.v
DocSessionAcks.v
SessionSocket.v
SessionSocketProps.v
SessionManager.v
SessionManagerProps.v
SessionManagerTable.v
SessionManagerSteps.v
SessionManagerMutations.v
SessionManagerMoves.v
SessionManagerGoes.v
SessionManagerRuns.v
SessionManagerUses.v
SessionManagerServed.v
HttpAssembler.v
TunnelPaths.v
TunnelRpc.v
TunnelMessages.v
TunnelClient.v
TunnelEffects.v
TunnelClientProps.v
TunnelClientWork.v
TunnelClientRuns.v
TunnelClientDeaf.v
TunnelResponse.v
ExampleHistory.v
Examples.v
ExampleSession.v
ExampleSocket.v
ExampleTunnel.v
ExampleManager.v
