(* ===== verification/Prelude.v ===== *)
(** KB-1 Local: a verification library for the core packages of the daemon.

    KB-1 Local is a daemon that serves a vault, a directory of notes, to a browser
    client, to agents (over MCP) and, through a relay, to remote clients.  The library
    follows the packages that carry its logic:

    - [packages/vault-core]: what a vault is and what may be done to it: paths
      ([path.ts]), text edits ([splice.ts]), kinds of files ([artifact.ts],
      [folder-metadata-options.ts]), the audit log ([audit.ts]), the operations on files
      and folders ([vault-ops.ts]), search ([search.ts]) and the history of notes
      ([file-history.ts]);
    - [packages/tunnel-protocol/src/index.ts]: the frames of the relay and the codecs,
      buffers and tables both ends share;
    - [packages/tunnel-client]: the daemon's end of the relay: the document streams
      ([stream-mux.ts]) and the reconnecting client ([index.ts]);
    - [packages/doc-session]: documents that several clients edit at once, over Yjs: the
      session of a file ([session.ts]), its messages ([protocol.ts]), its sockets
      ([websocket.ts]) and the table of sessions of a vault ([manager.ts]);
    - the queue of [packages/vault-service/src/index.ts] in front of the history.

    * How the parts are put together

    Foundations.  [Prelude.v] (exceptions as [result], tactics, list lemmas),
    [JsString.v] (strings as UTF-16 code units and the methods of [String.prototype]),
    [Utf8.v], [NodePath.v] ([node:path]), [Json.v] (values, [JSON.stringify],
    [JSON.parse]), [IsoDate.v] ([toISOString]), [Base64.v] ([btoa], [atob]), [Sha256.v].
    These are standard behaviour of the language and of Node, as executable functions.

    The world.  [FileSystem.v] holds the state in which the operations of the vault run:
    a POSIX tree (a finite map from lists of segments to files and directories), a clock,
    the supply of random identifiers, the handlers of audit events; and the calls of
    [node:fs/promises] as functions on it, in the monad [M] of state and exceptions.

    The vault.  [VaultPath.v] ([path.ts]), [Splice.v] ([splice.ts]), [Artifact.v],
    [AuditLog.v] ([audit.ts]), [FolderMetadata.v] and [VaultOps.v] ([vault-ops.ts]: the
    whole of every exported operation), [Search.v] ([search.ts]).  An operation of the
    source is the Rocq function of the same name; [async] functions are functions in [M],
    [throw] is [throw], [try]/[catch] is [try_catch], a [VaultResult] is [VOk] or [VFail].
    The metadata operations run one at a time by [withFolderMetadataMutation]: the queue
    itself, as a step relation over promises, is [MutationQueue.v].

    The history.  [HistoryData.v] (buckets, contributors, commit messages and their
    trailers), [FileHistory.v] (the operations of [file-history.ts] in the monad [HM]: the
    world, the repository and the two maps of the module).  [git] is the class [GitTool]:
    what a command line answers and what it does to the tree and the repository.

    The relay.  [RelayFrame.v] (parsing and printing frames), [DocStream.v]
    ([DocumentStreamCodec]: chunks, window, acknowledgements), [PendingFrames.v]
    ([PendingFrameBuffer]), [PendingRequests.v] ([RelayPendingRequestTable]),
    [StreamMux.v] (the streams and their loopback sockets: an object store, because the
    callbacks of a socket keep the object of a stream that may have left the map).

    The client of the relay.  [HttpAssembler.v] (requests that come in chunks),
    [TunnelPaths.v] (how the router of the daemon reads a path, and which URLs are
    refused), [TunnelRpc.v] (remote procedure calls: what is accepted, what is answered),
    [TunnelMessages.v] (what is sent: texts, sizes, headers; the delay of a reconnect), and
    [TunnelClient.v], the whole of [TunnelClient] as a machine: sockets, timers, requests,
    calls and chunks that wait for acknowledgements are objects with an address, the
    asynchronous functions are jobs whose states are their awaits, and [tunnel_step] is a
    call of a method, an event of a socket, a timer that fires, or an answer of the daemon.
    [TunnelEffects.v] cuts every step into small effects, over which invariants are proved.

    Documents.  [SessionProtocol.v] (events, attributions, binary messages),
    [DocSession.v]: the asynchronous functions of [OneFileDocumentSession] (opening, the
    persist loop, the check of the file, the calls of [flush]) as state machines whose
    states are their awaits, run interleaved over a map of files by [session_step]; a step
    is one of them going on, a call of a client, a timer, or another program writing a
    file.  [SessionSocket.v]: a session with its sockets, by [server_step]; what a socket
    has sent is a list of typed messages, and an acknowledgement carries the number of the
    flush it answers.  [SessionManager.v]: [DocumentSessionManager], the table of sessions,
    by [manager_step]; sessions, clients, operations, timers, reservations and structure
    mutations are objects with an address, and a mutation's phase is the await it is at.
    The same session is an object of the manager and the state of [session_step]: a step
    [SessionRuns] lets it do what it does, as far as the manager sees it.

    * What the theorems show

    Vaults.  A path is accepted exactly when it is valid, and what is resolved lies below
    the root ([VaultPath.v]).  Whatever sequence of operations runs, nothing outside the
    root changes and the tree stays well formed ([Confinement.v], from the effects of the
    calls in [VaultCalls.v]).  [VaultView.v] is the abstract specification: a vault is a
    finite map from visible paths to folders and bytes, and an operation that succeeds did
    what its specification says and logged it ([CallEffects.v] has the effect of each
    step).  [VaultErrors.v]: every outcome of the operations that fail.  [MetadataStore.v]:
    folder metadata as a store.  [VaultListing.v]: a listing is complete or the cap is
    exceeded, and the walk ends.  [Search.v]: a search answers a page of all hits.
    [MutationQueue.v]: mutations of one key are disjoint in time and ordered, no mutation
    is stuck, the map of queues is emptied.

    Histories.  The message of a commit is read back as its entry, when the entry has no
    line breaks and separators in the places the message does not escape
    ([HistoryMessage.v], with what goes wrong otherwise).
    The pending versions stay well formed, one per note and bucket, whatever git answers
    ([HistoryPending.v], [HistoryFlush.v]); a flush removes exactly the versions whose
    commit git has answered, also when it throws, and the commits of one that answers are
    the selected versions, oldest first ([HistoryCommits.v], by journals of the git
    processes); versions of one bucket become one entry; pages enumerate the history, the
    walk along the commits ends, and a version whose record says how its hash was made is
    answered only with a text of that hash ([HistoryRead.v]).

    Streams.  Frames round trip and the parser accepts exactly the well-formed ones
    ([RelayFrame.v]).  Two codecs joined by wires deliver in order, stay within the
    window, and drain ([DocStream.v]).  Every stream of the multiplexer stays within its
    bounds ([StreamMuxProps.v]) and its socket gets the acknowledged messages in order, and
    is closed at most once per opening ([StreamMuxDelivery.v]), but never when it was
    still connecting at the end of its stream ([StreamMuxLeak.v]).  The buffers and tables of
    the protocol are bounded, and a request ends once.

    The client of the relay, in every run ([tunnel_runs]).  A client that is started has a
    control socket that has not closed or a reconnect that is scheduled
    ([TunnelClientProps.v]); the relay reaches no private path of the daemon through HTTP
    requests, the calls it still waits for and the table of its calls are bounded and no
    entry is left behind (calls aborted when the control socket closes are under way
    outside the table, and not counted), a chunk that waits has a timeout that ends the
    wait, and a socket is only given up after four probes without an answer
    ([TunnelClientRuns.v], by the decomposition of [TunnelClientWork.v]).  A client whose
    older socket is replaced stops for good although it is connected
    ([TunnelClientDeaf.v]).  A response in chunks arrives whole ([TunnelResponse.v]), a
    request in chunks is assembled exactly ([HttpAssembler.v]), an escaped path is read as
    the router reads it ([TunnelPaths.v]), a tool call is accepted exactly when it is
    well-formed and its answer calls no mutation cancelled or expired that may have happened
    ([TunnelRpc.v]).  [ExampleTunnel.v] has the runs that go wrong: a client that replaces
    itself, frames lost while there is no control socket, a stream to another origin, a
    request without an answer.

    Documents.  A run of a session is calm when nobody else writes its file, no write fails
    after the rename of the file, and two interleavings of the session itself do not occur:
    a request between the end of a persist loop and the [finally] of its promise, and a
    check of the file that resumes with a read older than a persist ([calm] of
    [DocSessionProps.v], which also asks that a flush comes to an open session and that the
    session is not closed).  In every calm run: a flush that answers has saved, a session
    at rest without a recorded failure has its text in its file, nothing but clients
    changes the text ([DocSessionProps.v]), and from every state steps of the persist loop,
    with a flush in between when a failure is recorded, save it ([DocSessionLiveness.v]).  An acknowledgement of a
    socket means that its update is saved ([DocSessionAcks.v], [SessionSocketProps.v]); an
    update of another history is refused.  Without calm: a reconciliation takes the text of
    the file ([DocSessionReconcile.v]), and [ExampleSession.v] and [ExampleSocket.v] run the
    situations that [calm] excludes, each of which loses or withholds something.  Messages
    round trip ([SessionMessages.v]).

    The table of sessions, in every calm run: no session fails to write under its new path
    once it has taken it, no session of a folder fails to move with it unless the move on
    disk has failed, and no folder moves below or above itself ([calm] of
    [SessionManagerRuns.v]; failures of the first two kinds do happen, when a disk is full).  A session that is used is in the table; no two
    sessions write the same path; a session that is closed because it is idle is reachable
    by nobody; mutations run one at a time in order and none is stuck; a manager that has
    closed has an empty table ([SessionManagerServed.v]).  The counts of clients and operations
    are exact ([SessionManagerUses.v]).  The invariants are two: the chain of mutations and
    reservations ([SessionManagerProps.v]) and the table ([SessionManagerTable.v]), kept by
    calls, timers and counts ([SessionManagerSteps.v]), by mutations that start or take
    their next phase ([SessionManagerMutations.v]), by sessions that move
    ([SessionManagerMoves.v], [SessionManagerGoes.v]) and by the rest
    ([SessionManagerRuns.v]).  [ExampleManager.v] has runs that are not calm: a move that
    fails late, after which two sessions write one file, and moves of a folder in which one
    session fails and another moves when the paths are free again, which drops a session
    that is held, brings back one that is closing, or fills the table of a closed
    manager.

    Witnesses apply the theorems to concrete inputs: [ExampleVault.v] and [Examples.v] (a
    host and a vault), [ExampleHistory.v] (a small git), [ExampleSession.v] and
    [ExampleSocket.v] (a document that is its text), [ExampleTunnel.v] (a small parser of
    URLs), [ExampleManager.v] (two documents, one moved and one idle), and the ends of the
    other files.

    * Parameters

    What is not under [src/] is a parameter: the host's decimal notation of fractions and
    what [Number] and [Date.parse] accept beyond the modelled texts ([JsonHost],
    [DateHost]), its collation and lower-casing beyond ASCII ([Host]), the YAML library
    (theorems about stored metadata assume that it reads back what it writes), the
    handlers of audit events, when the sending on a loopback socket throws
    ([StreamMux.v]), the parser of URLs ([UrlHost]) and [gunzipSync] ([TunnelHost]), the
    libraries Yjs, lib0 and fast-diff ([Yjs], [YjsSync], [Lib0], [FastDiff], with what is
    relied on in [YjsLaws], [YjsDeltaLaw], [Lib0Laws], [FastDiffLaws]), and git
    ([GitTool]).  For git, most theorems hold for any answers at all; the termination of
    the walk along commits assumes that the log of a parent revision holds older commits.

    * Bounds and fuel

    Strings are lists of code units, bytes are numbers below 256, sizes and sequence
    numbers are integers (JavaScript's numbers are exact in their range; where the code
    checks a limit, so does the model).  Loops that are not structural take fuel, and
    enough fuel is proved to be enough: the walk of a vault by the size of its tree plus 2
    ([VaultListing.v]), cutting a message into chunks by its length ([DocStream.v]),
    reading trailers by the number of lines ([HistoryMessage.v]), the walk along commits
    by the age of the newest ([HistoryRead.v]), parsing JSON by the length of the text
    ([Json.v]), the chunks of a response by the length of its body ([TunnelMessages.v]).

    * Not modelled

    Failures of devices (no space, no permission), symbolic links, the times directories
    get, paths with NUL, the order of integer-like keys of objects, times outside the
    range of [Date], git's clean-up of messages, and the interleavings of operations of
    the vault other than the queues.  Of a document session: the awaits of moving and
    deleting its file (the manager sees the new path taken and the call settled), the
    reservations of a stable open state, and the timing events; of the table of sessions:
    the handlers of events and what the mutations answer.  The runtime type tests that TypeScript's types
    already imply are types here.  Of the client of the relay: log entries, the parsing of
    the relay's messages but for relay frames, the reasons given to [close] and [abort],
    and failures of [send] on a control socket (it only throws on one that is connecting,
    which gets no messages); random numbers and delays are rationals and integers.

    Of the repository: the HTTP server, the configuration and the vault registry of the
    daemon ([apps/daemon]), the service layer and the MCP server (they compose the
    operations modelled here), and the browser clients ([apps/web], [packages/editor], [packages/ui]). *)
From stdpp Require Export base tactics option list numbers fin_maps gmap sets.
From Stdlib Require Export Lia ZArith NArith Bool.
From Stdlib Require Import Sorting.Sorted.

(** * Results: a call of the source that may throw *)

(** [Ok a] is a normal return, [Err e] a thrown exception [e]. *)
Inductive result (E A : Type) : Type :=
| Ok (a : A)
| Err (e : E).
Arguments Ok {E A} a.
Arguments Err {E A} e.

#[export] Instance result_eq_dec {E A} `{EqDecision E, EqDecision A} :
  EqDecision (result E A).
Proof. solve_decision. Defined.

#[export] Instance result_ret {E} : MRet (result E) := fun A a => Ok a.
#[export] Instance result_bind {E} : MBind (result E) := fun A B f r =>
  match r with Ok a => f a | Err e => Err e end.
#[export] Instance result_fmap {E} : FMap (result E) := fun A B f r =>
  match r with Ok a => Ok (f a) | Err e => Err e end.

(** [guard_err c e] throws [e] when [c] holds, like [if (c) throw e]. *)
Definition guard_err {E} (c : bool) (e : E) : result E unit :=
  if c then Err e else Ok tt.

Definition is_ok {E A} (r : result E A) : bool :=
  match r with Ok _ => true | Err _ => false end.

Lemma bind_ok_inv {E A B} (r : result E A) (f : A -> result E B) (b : B) :
  (r ≫= f) = Ok b -> exists a, r = Ok a /\ f a = Ok b.
Proof. destruct r as [a|e]; simpl; [eauto|discriminate]. Qed.

Lemma guard_err_ok {E} (c : bool) (e : E) (u : unit) :
  guard_err c e = Ok u <-> c = false.
Proof. destruct c, u; unfold guard_err; split; congruence. Qed.

Lemma guard_err_pass {E A} (c : bool) (e : E) (k : result E A) :
  c = false -> (guard_err c e ;; k) = k.
Proof. by intros ->. Qed.

Lemma bind_ok {E A B} (a : A) (f : A -> result E B) : (Ok a ≫= f) = f a.
Proof. done. Qed.

Lemma guard_err_throw {E A} (c : bool) (e : E) (k : result E A) :
  c = true -> (guard_err c e ;; k) = Err e.
Proof. by intros ->. Qed.

(** * Tactics *)

(** Take apart the hypotheses that say a sequence of calls returned normally. *)
Ltac inv_result :=
  repeat match goal with
  | H : (_ ≫= _) = Ok _ |- _ =>
      apply bind_ok_inv in H as (? & ? & ?)
  | H : guard_err _ _ = Ok _ |- _ => apply guard_err_ok in H
  | H : Ok _ = Ok _ |- _ => injection H as H; try subst
  | H : Err _ = Err _ |- _ => injection H as H; try subst
  | H : Ok _ = Err _ |- _ => discriminate H
  | H : Err _ = Ok _ |- _ => discriminate H
  end.

(** Boolean connectives in the context, as the propositions they decide. *)
Ltac to_prop :=
  repeat match goal with
  | H : _ && _ = true |- _ => apply andb_true_iff in H as [? ?]
  | H : _ || _ = false |- _ => apply orb_false_iff in H as [? ?]
  | H : negb _ = true |- _ => apply negb_true_iff in H
  | H : negb _ = false |- _ => apply negb_false_iff in H
  | H : bool_decide _ = true |- _ => apply bool_decide_eq_true in H
  | H : bool_decide _ = false |- _ => apply bool_decide_eq_false in H
  | H : (_ =? _)%Z = true |- _ => apply Z.eqb_eq in H
  | H : (_ =? _)%Z = false |- _ => apply Z.eqb_neq in H
  | H : (_ <? _)%Z = true |- _ => apply Z.ltb_lt in H
  | H : (_ <? _)%Z = false |- _ => apply Z.ltb_ge in H
  | H : (_ <=? _)%Z = true |- _ => apply Z.leb_le in H
  | H : (_ <=? _)%Z = false |- _ => apply Z.leb_gt in H
  | H : (_ =? _)%N = true |- _ => apply N.eqb_eq in H
  | H : (_ =? _)%N = false |- _ => apply N.eqb_neq in H
  | H : (_ <? _)%N = true |- _ => apply N.ltb_lt in H
  | H : (_ <? _)%N = false |- _ => apply N.ltb_ge in H
  | H : (_ <=? _)%N = true |- _ => apply N.leb_le in H
  | H : (_ <=? _)%N = false |- _ => apply N.leb_gt in H
  end.

(** Split every [if] and [match] of the goal, closing what is contradictory. *)
Ltac split_cases :=
  repeat (case_match || case_decide || case_bool_decide); simplify_eq/=; try done.

(** * Updates of records *)

(** How a record is rebuilt from its fields, from which the update of each field is
    derived: [r <| field := v |>]. *)
Class Rebuild (R : Type) := rebuild : R -> R.
Class Updater {R T : Type} (field : R -> T) := update : (T -> T) -> R -> R.
Arguments update {R T} field {_} f r.

Ltac derive_updater field :=
  match type of field with
  | ?R -> _ =>
      let eta := eval cbv beta delta [rebuild] in (rebuild : R -> R) in
      let eta := eval hnf in eta in
      match eval pattern field in eta with
      | ?k _ => let u := eval cbv beta in (fun f => k (fun r => f (field r))) in exact u
      end
  end.
#[export] Hint Extern 1 (Updater ?field) => derive_updater field : typeclass_instances.
#[warnings="-postfix-notation-not-level-1"] Notation "r '<|' field ':=' v '|>'" := (update field (fun _ => v) r) (at level 12, left associativity, field at level 0).

(** * Generic list lemmas *)

Create HintDb kb1.

Section list_lemmas.
Context {A : Type}.
Implicit Types l k : list A.

Lemma take_drop_middle_app l n m :
  n <= m -> take n l ++ take (m - n) (drop n l) ++ drop m l = l.
Proof.
  intros Hnm. rewrite <- (take_drop n l) at 4. f_equal.
  replace m with (n + (m - n)) at 2 by lia.
  rewrite <- drop_drop. apply take_drop.
Qed.

Lemma prefix_take_length l k : take (length k) l = k -> exists r, l = k ++ r.
Proof. intros H. exists (drop (length k) l). by rewrite <- H at 1; rewrite take_drop. Qed.

Lemma forallb_Forall (f : A -> bool) l :
  forallb f l = true <-> Forall (fun x => f x = true) l.
Proof.
  induction l as [|x l IH]; simpl; [split; [constructor|done]|].
  rewrite andb_true_iff, IH, Forall_cons. done.
Qed.

Lemma existsb_false_Forall (f : A -> bool) l :
  existsb f l = false <-> Forall (fun x => f x = false) l.
Proof.
  induction l as [|x l IH]; simpl; [split; [constructor|done]|].
  rewrite orb_false_iff, IH, Forall_cons. done.
Qed.

End list_lemmas.

(** * Chunks *)

(** [l] in pieces of [size]; the fuel bounds their number, the length of [l] is
    enough. *)
Fixpoint chunks_of {A} (size fuel : nat) (l : list A) : list (list A) :=
  match fuel, l with
  | S fuel, _ :: _ => take size l :: chunks_of size fuel (drop size l)
  | _, _ => []
  end.

Lemma concat_chunks_of {A} size fuel (l : list A) :
  0 < size -> length l <= fuel -> concat (chunks_of size fuel l) = l.
Proof.
  intros Hs. revert l. induction fuel as [|fuel IH]; intros [|x l] Hl; try done; [simpl in Hl; lia|].
  cbn [chunks_of concat]. rewrite IH; [apply take_drop|]. rewrite length_drop. simpl in *. lia.
Qed.

(** * Stable sorting by a comparison, as [Array.prototype.sort] does *)

Section sort.
Context {A : Type} (cmp : A -> A -> comparison).

Fixpoint insert_by (x : A) (l : list A) : list A :=
  match l with
  | [] => [x]
  | y :: l' => match cmp x y with Gt => y :: insert_by x l' | _ => x :: y :: l' end
  end.

Definition sort_by (l : list A) : list A := foldr insert_by [] l.

Lemma insert_by_perm x l : insert_by x l ≡ₚ x :: l.
Proof.
  induction l as [|y l IH]; simpl; [done|]. destruct (cmp x y); [done..|].
  rewrite IH. constructor.
Qed.

Lemma sort_by_perm l : sort_by l ≡ₚ l.
Proof. induction l as [|x l IH]; simpl; [done|]. by rewrite insert_by_perm, IH. Qed.

Definition le_by (x y : A) : Prop := cmp x y <> Gt.

Lemma insert_by_sorted x l :
  (forall y z, cmp y z = Gt -> cmp z y <> Gt) ->
  Sorted le_by l -> Sorted le_by (insert_by x l).
Proof.
  intros Hanti. induction 1 as [|y l Hl IH Hy]; simpl; [by repeat constructor|].
  destruct (cmp x y) eqn:E.
  - constructor; [by constructor|]. constructor. unfold le_by. by rewrite E.
  - constructor; [by constructor|]. constructor. unfold le_by. by rewrite E.
  - constructor; [done|]. destruct l as [|z l]; simpl.
    + constructor. by apply Hanti.
    + inversion Hy; subst. destruct (cmp x z); constructor; try done; by apply Hanti.
Qed.

Lemma sort_by_sorted l :
  (forall y z, cmp y z = Gt -> cmp z y <> Gt) -> Sorted le_by (sort_by l).
Proof. intros Ha. induction l; simpl; [constructor|by apply insert_by_sorted]. Qed.

End sort.
