(* ===== verification/JsString.v ===== *)
(** JavaScript strings as the source uses them: a string is the list of its
    UTF-16 code units, [length] counts code units, and the [String.prototype]
    methods the packages call are executable functions on it.  Offsets are
    [nat]s; lengths that are compared with limits are [Z]s ([jlen]). *)
From Stdlib Require Import Ascii String Decimal DecimalN DecimalFacts.
From S2P Require Import Prelude.
Export StringSyntax.

Abbreviation jstr := (list N).

(** String literals of the source (all of them ASCII). *)
Definition js (s : string) : jstr := map N_of_ascii (list_ascii_of_string s).
Arguments js s%_string.

Definition jlen (s : jstr) : Z := Z.of_nat (List.length s).

Definition is_unit (c : N) : bool := (c <? 0x10000)%N.
(** A list of [N]s that is a JavaScript string. *)
Definition is_jstr (s : jstr) : bool := forallb is_unit s.

Definition jeqb (s t : jstr) : bool := bool_decide (s = t).

Fixpoint starts_with (s p : jstr) {struct p} : bool :=
  match p, s with
  | [], _ => true
  | c :: p', d :: s' => (c =? d)%N && starts_with s' p'
  | _ :: _, [] => false
  end.

Definition ends_with (s p : jstr) : bool := starts_with (rev s) (rev p).

(** [s.slice(a, b)] and [s.slice(a)] for [0 <= a]. *)
Definition slice (s : jstr) (a b : nat) : jstr := take (b - a) (drop a s).
Definition slice_from (s : jstr) (a : nat) : jstr := drop a s.

Fixpoint find_sub (s needle : jstr) : option nat :=
  if starts_with s needle then Some 0
  else match s with [] => None | _ :: s' => S <$> find_sub s' needle end.

(** [s.indexOf(needle, from)]; [None] stands for [-1]. *)
Definition index_of (s needle : jstr) (from : nat) : option nat :=
  Nat.add from <$> find_sub (drop from s) needle.

Definition includes (s needle : jstr) : bool := bool_decide (is_Some (find_sub s needle)).

(** [s.indexOf(c)] and [s.lastIndexOf(c)] for a one-unit needle. *)
Fixpoint index_of_unit (c : N) (s : jstr) : option nat :=
  match s with
  | [] => None
  | d :: s' => if (c =? d)%N then Some 0 else S <$> index_of_unit c s'
  end.

Fixpoint last_index_of_unit (c : N) (s : jstr) : option nat :=
  match s with
  | [] => None
  | d :: s' =>
      match last_index_of_unit c s' with
      | Some i => Some (S i)
      | None => if (c =? d)%N then Some 0 else None
      end
  end.

(** [s.split(c)] and [parts.join(c)] for a one-unit separator. *)
Fixpoint split_on (c : N) (s : jstr) : list jstr :=
  match s with
  | [] => [[]]
  | d :: s' =>
      if (c =? d)%N then [] :: split_on c s'
      else match split_on c s' with
           | seg :: segs => (d :: seg) :: segs
           | [] => [[d]]
           end
  end.

Fixpoint join (sep : jstr) (parts : list jstr) : jstr :=
  match parts with
  | [] => []
  | [p] => p
  | p :: ps => p ++ sep ++ join sep ps
  end.

(** [s.replaceAll(c, by)]. *)
Definition replace_all (c : N) (by_ : jstr) (s : jstr) : jstr :=
  flat_map (fun d => if (c =? d)%N then by_ else [d]) s.

(** White space and line terminators, what [trim] removes. *)
Definition is_space (c : N) : bool :=
  ((9 <=? c) && (c <=? 13) || (c =? 32) || (c =? 160) || (c =? 0x1680)
   || (0x2000 <=? c) && (c <=? 0x200A) || (c =? 0x2028) || (c =? 0x2029)
   || (c =? 0x202F) || (c =? 0x205F) || (c =? 0x3000) || (c =? 0xFEFF))%N.

Fixpoint trim_start (s : jstr) : jstr :=
  match s with
  | c :: s' => if is_space c then trim_start s' else s
  | [] => []
  end.
Definition trim_end (s : jstr) : jstr := rev (trim_start (rev s)).
Definition trim (s : jstr) : jstr := trim_end (trim_start s).

Definition is_ascii (c : N) : bool := (c <? 128)%N.
Definition ascii_lower (c : N) : N :=
  if ((65 <=? c) && (c <=? 90))%N then (c + 32)%N else c.

(** What the packages take from the JavaScript host and its ICU data: the
    lower-case mapping of strings outside ASCII, the locale's collation, and the
    lower-case mapping of the locale. *)
Class Host := {
  lower_unicode : jstr -> jstr;
  to_locale_lower : jstr -> jstr;
  locale_compare : jstr -> jstr -> comparison
}.

(** [s.toLowerCase()]. *)
Definition to_lower `{Host} (s : jstr) : jstr :=
  if forallb is_ascii s then map ascii_lower s else lower_unicode s.

Fixpoint lex_compare (s t : jstr) : comparison :=
  match s, t with
  | [], [] => Eq
  | [], _ :: _ => Lt
  | _ :: _, [] => Gt
  | c :: s', d :: t' =>
      match (c ?= d)%N with Eq => lex_compare s' t' | o => o end
  end.

(** A host with the C locale, used by the concrete examples. *)
Definition c_host : Host := {|
  lower_unicode := fun s => s;
  to_locale_lower := map ascii_lower;
  locale_compare := lex_compare
|}.

(** [String(n)] for an integer [n] below 10^21. *)
Fixpoint uint_units (d : Decimal.uint) : jstr :=
  match d with
  | Decimal.Nil => []
  | Decimal.D0 d => 48%N :: uint_units d | Decimal.D1 d => 49%N :: uint_units d
  | Decimal.D2 d => 50%N :: uint_units d | Decimal.D3 d => 51%N :: uint_units d
  | Decimal.D4 d => 52%N :: uint_units d | Decimal.D5 d => 53%N :: uint_units d
  | Decimal.D6 d => 54%N :: uint_units d | Decimal.D7 d => 55%N :: uint_units d
  | Decimal.D8 d => 56%N :: uint_units d | Decimal.D9 d => 57%N :: uint_units d
  end.
Definition dec_N (n : N) : jstr := uint_units (N.to_uint n).
Definition dec (z : Z) : jstr :=
  match z with
  | Zneg p => 45%N :: dec_N (Npos p)
  | _ => dec_N (Z.to_N z)
  end.

(** * Lemmas *)

Lemma jeqb_eq s t : jeqb s t = true <-> s = t.
Proof. unfold jeqb. apply bool_decide_eq_true. Qed.

(** Literals are strings. *)
Lemma is_jstr_js s : is_jstr (js s) = true.
Proof.
  unfold js, is_jstr. apply forallb_Forall, Forall_map, Forall_forall. intros c _.
  unfold is_unit. apply N.ltb_lt. pose proof (N_ascii_bounded c). lia.
Qed.

Lemma is_jstr_app s t : is_jstr (s ++ t) = is_jstr s && is_jstr t.
Proof. apply forallb_app. Qed.

Lemma starts_with_spec s p : starts_with s p = true <-> exists r, s = p ++ r.
Proof.
  revert s. induction p as [|c p IH]; intros s.
  - destruct s; simpl; split; eauto.
  - destruct s as [|d s]; simpl; [split; [done|intros [r ?]; done]|].
    rewrite andb_true_iff, IH, N.eqb_eq. split.
    + intros [-> [r ->]]. eauto.
    + intros [r [= -> ->]]. eauto.
Qed.

Lemma starts_with_app p r : starts_with (p ++ r) p = true.
Proof. apply starts_with_spec. eauto. Qed.

Lemma ends_with_spec s p : ends_with s p = true <-> exists r, s = r ++ p.
Proof.
  unfold ends_with. rewrite starts_with_spec. split.
  - intros [r Hr]. exists (rev r). rewrite <- (rev_involutive s), Hr.
    by rewrite rev_app_distr, rev_involutive.
  - intros [r ->]. exists (rev r). apply rev_app_distr.
Qed.

Lemma find_sub_spec s needle i :
  find_sub s needle = Some i ->
  exists l r, s = l ++ needle ++ r /\ List.length l = i.
Proof.
  revert i. induction s as [|c s IH]; intros i; cbn [find_sub].
  - destruct (starts_with [] needle) eqn:E; [|done]. intros [= <-].
    apply starts_with_spec in E as [r Hr]. by exists [], r.
  - destruct (starts_with (c :: s) needle) eqn:E.
    + intros [= <-]. apply starts_with_spec in E as [r Hr]. by exists [], r.
    + destruct (find_sub s needle) as [j|]; [|done]. intros [= <-].
      destruct (IH j eq_refl) as (l & r & -> & <-). by exists (c :: l), r.
Qed.

Lemma find_sub_first s needle i j l r :
  find_sub s needle = Some i -> s = l ++ needle ++ r -> List.length l = j -> i <= j.
Proof.
  revert i j l. induction s as [|c s IH]; intros i j l; cbn [find_sub].
  - destruct (starts_with [] needle); [intros [= <-]; lia|done].
  - destruct (starts_with (c :: s) needle) eqn:E; [intros [= <-]; lia|].
    destruct (find_sub s needle) as [k|] eqn:Ek; [|done]. intros [= <-] Hs Hl.
    destruct l as [|d l]; cbn [app List.length] in Hs, Hl.
    + rewrite Hs, starts_with_app in E. done.
    + injection Hs as -> Hs. destruct j as [|j]; [lia|].
      specialize (IH k j l eq_refl Hs). lia.
Qed.

Lemma find_sub_none s needle l r : find_sub s needle = None -> s <> l ++ needle ++ r.
Proof.
  revert l. induction s as [|c s IH]; intros l; cbn [find_sub].
  - destruct (starts_with [] needle) eqn:E; [done|]. intros _ Hs.
    symmetry in Hs. apply app_nil in Hs as [-> Hn]. apply app_nil in Hn as [-> ->]. done.
  - destruct (starts_with (c :: s) needle) eqn:E; [done|].
    destruct (find_sub s needle); [done|]. intros _ Hs.
    destruct l as [|d l]; cbn [app] in Hs.
    + rewrite Hs, starts_with_app in E. done.
    + injection Hs as -> Hs. by apply (IH l).
Qed.

Lemma includes_spec s needle : includes s needle = true <-> exists l r, s = l ++ needle ++ r.
Proof.
  unfold includes. rewrite bool_decide_eq_true. split.
  - intros [i Hi]. apply find_sub_spec in Hi as (l & r & -> & _). eauto.
  - intros (l & r & Hs). destruct (find_sub s needle) eqn:E; [eauto|].
    by eapply find_sub_none in E.
Qed.

Lemma index_of_unit_spec c s i :
  index_of_unit c s = Some i ->
  exists l r, s = l ++ c :: r /\ List.length l = i /\ c ∉ l.
Proof.
  revert i. induction s as [|d s IH]; intros i; simpl; [done|].
  destruct (c =? d)%N eqn:E.
  - intros [= <-]. apply N.eqb_eq in E as ->. exists [], s. split_and!; [done..|set_solver].
  - destruct (index_of_unit c s) as [j|]; [|done]. intros [= <-].
    destruct (IH j eq_refl) as (l & r & -> & <- & Hl).
    exists (d :: l), r. apply N.eqb_neq in E. split_and!; [done..|set_solver].
Qed.

Lemma index_of_unit_none c s : index_of_unit c s = None <-> c ∉ s.
Proof.
  induction s as [|d s IH]; simpl; [set_solver|].
  destruct (c =? d)%N eqn:E.
  - apply N.eqb_eq in E as ->. split; [done|set_solver].
  - apply N.eqb_neq in E. rewrite fmap_None, IH. set_solver.
Qed.

Lemma last_index_of_unit_none c s : last_index_of_unit c s = None <-> c ∉ s.
Proof.
  induction s as [|d s IH]; simpl; [set_solver|].
  destruct (last_index_of_unit c s) as [i|].
  - split; [done|]. intros H. assert (c ∉ s) as Hs by set_solver. apply IH in Hs. done.
  - destruct (c =? d)%N eqn:E; [apply N.eqb_eq in E as ->|apply N.eqb_neq in E];
      set_solver.
Qed.

Lemma last_index_of_unit_spec c s i :
  last_index_of_unit c s = Some i ->
  exists l r, s = l ++ c :: r /\ List.length l = i /\ c ∉ r.
Proof.
  revert i. induction s as [|d s IH]; intros i; simpl; [done|].
  destruct (last_index_of_unit c s) as [j|] eqn:Ej.
  - intros [= <-]. destruct (IH j eq_refl) as (l & r & -> & <- & Hr).
    by exists (d :: l), r.
  - destruct (c =? d)%N eqn:E; [|done]. intros [= <-]. apply N.eqb_eq in E as ->.
    exists [], s. apply last_index_of_unit_none in Ej. done.
Qed.

Lemma split_on_nonnil c s : split_on c s <> [].
Proof. induction s as [|d s IH]; simpl; [done|]. split_cases. Qed.

Lemma split_on_sep c s t : c ∉ s -> split_on c (s ++ c :: t) = s :: split_on c t.
Proof.
  induction s as [|d s IH]; simpl; intros Hc.
  - by rewrite N.eqb_refl.
  - rewrite IH by set_solver. assert ((c =? d)%N = false) as -> by (apply N.eqb_neq; set_solver).
    done.
Qed.

Lemma split_on_nosep c s : c ∉ s -> split_on c s = [s].
Proof.
  induction s as [|d s IH]; simpl; intros Hc; [done|].
  rewrite IH by set_solver.
  assert ((c =? d)%N = false) as -> by (apply N.eqb_neq; set_solver). done.
Qed.

Lemma join_cons sep p ps : ps <> [] -> join sep (p :: ps) = p ++ sep ++ join sep ps.
Proof. by destruct ps. Qed.

Lemma join_app sep ps qs :
  ps <> [] -> qs <> [] -> join sep (ps ++ qs) = join sep ps ++ sep ++ join sep qs.
Proof.
  induction ps as [|p ps IH]; intros Hp Hq; [done|].
  destruct ps as [|p' ps]; [by apply join_cons|].
  rewrite <- app_comm_cons, join_cons by done. rewrite IH by done.
  rewrite (join_cons _ p (p' :: ps)) by done. by rewrite !app_assoc.
Qed.

Lemma join_split c s : join [c] (split_on c s) = s.
Proof.
  induction s as [|d s IH]; simpl; [done|].
  pose proof (split_on_nonnil c s) as Hn.
  destruct (c =? d)%N eqn:E.
  - apply N.eqb_eq in E as <-. rewrite join_cons by done. by rewrite IH.
  - destruct (split_on c s) as [|seg segs]; [done|].
    destruct segs; simpl in *; by rewrite <- IH.
Qed.

Lemma split_join c segs :
  segs <> [] -> Forall (fun s => c ∉ s) segs -> split_on c (join [c] segs) = segs.
Proof.
  intros Hn Hf. induction segs as [|s segs IH]; [done|].
  apply Forall_cons in Hf as [Hs Hf]. destruct segs as [|s' segs].
  - by apply split_on_nosep.
  - rewrite join_cons by done. rewrite <- (IH ltac:(done) Hf) at 2.
    by apply split_on_sep.
Qed.

Lemma split_on_forall c s : Forall (fun seg => c ∉ seg) (split_on c s).
Proof.
  induction s as [|d s IH]; simpl.
  - constructor; [set_solver|constructor].
  - destruct (c =? d)%N eqn:E; [constructor; [set_solver|done]|].
    apply N.eqb_neq in E. destruct (split_on c s) as [|seg segs];
      apply Forall_cons_2; inversion IH; subst; set_solver.
Qed.

Lemma split_on_app_sep c s t :
  split_on c (s ++ c :: t) = split_on c s ++ split_on c t.
Proof.
  induction s as [|d s IH]; simpl; [by rewrite N.eqb_refl|].
  rewrite IH. destruct (c =? d)%N; [done|].
  pose proof (split_on_nonnil c s). by destruct (split_on c s).
Qed.

Lemma split_on_inj c s t : split_on c s = split_on c t -> s = t.
Proof. intros H. by rewrite <- (join_split c s), H, join_split. Qed.

Lemma uint_units_ascii d : Forall (fun c => 48 <= c <= 57)%N (uint_units d).
Proof. induction d; simpl; constructor; (lia || done). Qed.

Lemma dec_N_digits n : Forall (fun c => 48 <= c <= 57)%N (dec_N n).
Proof. apply uint_units_ascii. Qed.

Lemma lex_compare_refl s : lex_compare s s = Eq.
Proof. induction s; simpl; [done|]. by rewrite N.compare_refl. Qed.

#[export] Hint Resolve starts_with_app split_on_nonnil split_on_forall : kb1.
