(* ===== verification/Utf8.v ===== *)
(** UTF-8, the encoding of [TextEncoder.encode], [writeFile(_, 'utf8')] and
    [readFile(_, 'utf8')]: a JavaScript string is read as Unicode scalar values
    (a lone surrogate counts as U+FFFD), written as bytes, and bytes are decoded
    with the maximal-subpart replacement of the Encoding standard. *)
From S2P Require Import Prelude JsString.
Local Open Scope N_scope.

Definition replacement : N := 0xFFFD.
Definition is_high (c : N) : bool := (0xD800 <=? c) && (c <=? 0xDBFF).
Definition is_low (c : N) : bool := (0xDC00 <=? c) && (c <=? 0xDFFF).
Definition pair_point (h l : N) : N := 0x10000 + (h - 0xD800) * 0x400 + (l - 0xDC00).

(** Code units to scalar values. *)
Fixpoint code_points (s : jstr) : list N :=
  match s with
  | [] => []
  | h :: t =>
      if is_high h then
        match t with
        | l :: t' =>
            if is_low l then pair_point h l :: code_points t'
            else replacement :: code_points t
        | [] => [replacement]
        end
      else if is_low h then replacement :: code_points t
      else h :: code_points t
  end.

(** Scalar values to code units. *)
Definition point_units (c : N) : jstr :=
  if c <? 0x10000 then [c]
  else [0xD800 + (c - 0x10000) / 0x400; 0xDC00 + (c - 0x10000) mod 0x400].

Definition point_bytes (c : N) : list N :=
  if c <? 0x80 then [c]
  else if c <? 0x800 then [0xC0 + c / 0x40; 0x80 + c mod 0x40]
  else if c <? 0x10000 then
    [0xE0 + c / 0x1000; 0x80 + (c / 0x40) mod 0x40; 0x80 + c mod 0x40]
  else
    [0xF0 + c / 0x40000; 0x80 + (c / 0x1000) mod 0x40;
     0x80 + (c / 0x40) mod 0x40; 0x80 + c mod 0x40].

Definition encode (s : jstr) : list N := flat_map point_bytes (code_points s).

(** The decoder: between two bytes it is either at a character boundary or in
    the middle of a sequence of which [need] bytes are to come, the next one
    within [lo .. hi]. *)
Inductive dstate :=
| Boundary
| Within (need : nat) (acc lo hi : N).

Definition start_byte (b : N) : list N * dstate :=
  if b <? 0x80 then ([b], Boundary)
  else if b <? 0xC2 then ([replacement], Boundary)
  else if b <? 0xE0 then ([], Within 1 (b - 0xC0) 0x80 0xBF)
  else if b <? 0xF0 then
    ([], Within 2 (b - 0xE0) (if b =? 0xE0 then 0xA0 else 0x80)
                  (if b =? 0xED then 0x9F else 0xBF))
  else if b <? 0xF5 then
    ([], Within 3 (b - 0xF0) (if b =? 0xF0 then 0x90 else 0x80)
                  (if b =? 0xF4 then 0x8F else 0xBF))
  else ([replacement], Boundary).

Definition decode_byte (st : dstate) (b : N) : list N * dstate :=
  match st with
  | Boundary => start_byte b
  | Within need acc lo hi =>
      if (lo <=? b) && (b <=? hi) then
        let acc' := acc * 0x40 + (b - 0x80) in
        match need with
        | S (S n) => ([], Within (S n) acc' 0x80 0xBF)
        | _ => ([acc'], Boundary)
        end
      else let '(out, st') := start_byte b in (replacement :: out, st')
  end.

Fixpoint decode_points (st : dstate) (bs : list N) : list N :=
  match bs with
  | [] => match st with Boundary => [] | Within _ _ _ _ => [replacement] end
  | b :: bs' => let '(out, st') := decode_byte st b in out ++ decode_points st' bs'
  end.

Definition decode (bs : list N) : jstr := flat_map point_units (decode_points Boundary bs).

Definition is_scalar (c : N) : bool := (c <? 0xD800) || (0xE000 <=? c) && (c <? 0x110000).

(** Every surrogate of the string is half of a pair. *)
Fixpoint well_formed (s : jstr) : bool :=
  match s with
  | [] => true
  | h :: t =>
      if is_high h then
        match t with l :: t' => is_low l && well_formed t' | [] => false end
      else negb (is_low h) && well_formed t
  end.

(** A string without lone surrogates. *)
Definition proper (s : jstr) : bool := is_jstr s && well_formed s.

(** * Lemmas *)

Lemma code_points_scalar s : is_jstr s = true -> Forall (fun c => is_scalar c = true) (code_points s).
Proof.
  assert (forall n s, (List.length s <= n)%nat -> is_jstr s = true ->
            Forall (fun c => is_scalar c = true) (code_points s)) as H; [|by apply (H (List.length s))].
  clear s. induction n as [|n IH]; intros [|h t] Hn Hs; try (simpl in *; done || lia).
  unfold is_jstr in Hs. simpl in Hs, Hn. to_prop. unfold is_unit in *. to_prop.
  cbn [code_points]. unfold is_high, is_low.
  destruct ((0xD800 <=? h) && (h <=? 0xDBFF)) eqn:Eh.
  - destruct t as [|l t']; [by repeat constructor|].
    destruct ((0xDC00 <=? l) && (l <=? 0xDFFF)) eqn:El.
    + simpl in *. to_prop. constructor; [|by apply IH; [lia|]].
      unfold is_scalar, pair_point. apply orb_true_iff. right.
      apply andb_true_iff; split; [apply N.leb_le|apply N.ltb_lt]; lia.
    + constructor; [done|]. apply IH; [simpl in *; lia|done].
  - destruct ((0xDC00 <=? h) && (h <=? 0xDFFF)) eqn:El.
    + constructor; [done|]. apply IH; [lia|done].
    + constructor; [|apply IH; [lia|done]].
      unfold is_scalar. apply andb_false_iff in Eh, El.
      rewrite !N.leb_gt in Eh, El. apply orb_true_iff.
      rewrite andb_true_iff, N.leb_le, !N.ltb_lt. lia.
Qed.

(** Induction on a string one character (unit or surrogate pair) at a time. *)
Lemma char_ind (P : jstr -> Prop) :
  P [] ->
  (forall h l t, is_high h = true -> is_low l = true -> P t -> P (h :: l :: t)) ->
  (forall h t, (is_high h = true -> forall l t', t = l :: t' -> is_low l = false) ->
     P t -> P (h :: t)) ->
  forall s, P s.
Proof.
  intros Hn Hp Hu s. remember (List.length s) as n eqn:En.
  revert s En. induction (lt_wf n) as [n _ IH]. intros [|h t] ->; [done|].
  destruct (is_high h) eqn:Eh; [|apply Hu; [congruence|]; by eapply IH; [|done]; simpl; lia].
  destruct t as [|l t']; [apply Hu; [congruence|done]|].
  destruct (is_low l) eqn:El.
  - apply Hp; [done..|]. eapply IH; [|done]. simpl; lia.
  - apply Hu; [by intros _ ? ? [= <- <-]|]. eapply IH; [|done]. simpl; lia.
Qed.

Lemma code_points_pair h l t :
  is_high h = true -> is_low l = true ->
  code_points (h :: l :: t) = pair_point h l :: code_points t.
Proof. intros Hh Hl. cbn [code_points]. by rewrite Hh, Hl. Qed.

Lemma code_points_unit h t :
  (is_high h = true -> forall l t', t = l :: t' -> is_low l = false) ->
  code_points (h :: t) =
    (if is_high h || is_low h then replacement else h) :: code_points t.
Proof.
  intros Hu. cbn [code_points]. destruct (is_high h); [|by destruct (is_low h)].
  destruct t as [|l t']; [done|]. by rewrite (Hu eq_refl l t' eq_refl).
Qed.

Lemma pair_point_units h l :
  is_high h = true -> is_low l = true -> point_units (pair_point h l) = [h; l].
Proof.
  unfold is_high, is_low, point_units, pair_point. intros Hh Hl. to_prop.
  assert ((0x10000 + (h - 0xD800) * 0x400 + (l - 0xDC00) <? 0x10000) = false) as ->
    by (apply N.ltb_ge; lia).
  replace (0x10000 + (h - 0xD800) * 0x400 + (l - 0xDC00) - 0x10000)
    with ((l - 0xDC00) + (h - 0xD800) * 0x400) by lia.
  rewrite N.div_add, N.Div0.mod_add by lia.
  rewrite N.div_small, N.mod_small by lia. repeat f_equal; lia.
Qed.

Lemma units_of_points s :
  is_jstr s = true -> well_formed s = true -> flat_map point_units (code_points s) = s.
Proof.
  induction s as [|h l t Hh Hl IH|h t Hu IH] using char_ind; [done| |]; intros Hj Hw.
  - rewrite code_points_pair by done. cbn [flat_map].
    rewrite pair_point_units by done. cbn [well_formed] in Hw. rewrite Hh, Hl in Hw.
    unfold is_jstr in Hj. cbn [forallb] in Hj. to_prop. cbn [app]. by rewrite IH.
  - rewrite code_points_unit by done. cbn [well_formed] in Hw.
    unfold is_jstr in Hj. cbn [forallb] in Hj. to_prop.
    destruct (is_high h) eqn:Eh.
    + destruct t as [|l t']; [done|]. by rewrite (Hu eq_refl l t' eq_refl) in Hw.
    + to_prop. rewrite H1. cbn [flat_map orb]. unfold point_units at 1.
      unfold is_unit in H. rewrite H. cbn [app]. by rewrite IH.
Qed.

Ltac n_tests :=
  repeat match goal with
  | |- context [?a <? ?b] => destruct (N.ltb_spec a b); try lia
  | |- context [?a <=? ?b] => destruct (N.leb_spec a b); try lia
  | |- context [?a =? ?b] => destruct (N.eqb_spec a b); try lia
  end.

(** Base-64 digits, which the continuation bytes carry. *)
Lemma digits64 c : exists q2 r2 r1 r0,
  c = 0x40 * (0x40 * (0x40 * q2 + r2) + r1) + r0 /\ r0 < 0x40 /\ r1 < 0x40 /\ r2 < 0x40 /\
  c mod 0x40 = r0 /\ c / 0x40 = 0x40 * (0x40 * q2 + r2) + r1 /\
  (c / 0x40) mod 0x40 = r1 /\ c / 0x1000 = 0x40 * q2 + r2 /\
  (c / 0x1000) mod 0x40 = r2 /\ c / 0x40000 = q2.
Proof.
  exists (c / 0x40 / 0x40 / 0x40), (c / 0x40 / 0x40 mod 0x40), (c / 0x40 mod 0x40), (c mod 0x40).
  change 0x40000 with (0x40 * 0x40 * 0x40). change 0x1000 with (0x40 * 0x40).
  rewrite <- !N.Div0.div_div.
  pose proof (N.div_mod' c 0x40). pose proof (N.div_mod' (c / 0x40) 0x40).
  pose proof (N.div_mod' (c / 0x40 / 0x40) 0x40).
  pose proof (N.mod_lt c 0x40). pose proof (N.mod_lt (c / 0x40) 0x40).
  pose proof (N.mod_lt (c / 0x40 / 0x40) 0x40).
  split_and!; try reflexivity; lia.
Qed.

Lemma decode_points_char c bs :
  is_scalar c = true ->
  decode_points Boundary (point_bytes c ++ bs) = c :: decode_points Boundary bs.
Proof.
  unfold is_scalar. rewrite orb_true_iff, andb_true_iff, !N.ltb_lt, N.leb_le. intros Hc.
  destruct (digits64 c) as (q2 & r2 & r1 & r0 & Hd & H0 & H1 & H2 & M0 & D0 & M1 & D1 & M2 & D2).
  unfold point_bytes. rewrite ?M2, ?M1, ?M0, ?D2, ?D1, ?D0.
  clear M0 D0 M1 D1 M2 D2.
  n_tests; cbn [app decode_points decode_byte]; unfold start_byte;
    do 4 (n_tests; cbn [app decode_points decode_byte andb]); f_equal; lia.
Qed.

Lemma decode_points_encode cs :
  Forall (fun c => is_scalar c = true) cs ->
  decode_points Boundary (flat_map point_bytes cs) = cs.
Proof.
  induction 1 as [|c cs Hc Hcs IH]; [done|].
  cbn [flat_map]. by rewrite decode_points_char, IH.
Qed.

(** Reading back what was written: exact on well-formed strings. *)
Lemma decode_encode s : is_jstr s = true -> well_formed s = true -> decode (encode s) = s.
Proof.
  intros Hj Hw. unfold decode, encode.
  rewrite decode_points_encode by by apply code_points_scalar.
  by apply units_of_points.
Qed.

Lemma code_points_units c rest :
  is_scalar c = true -> code_points (point_units c ++ rest) = c :: code_points rest.
Proof.
  unfold is_scalar. rewrite orb_true_iff, andb_true_iff, !N.ltb_lt, N.leb_le. intros Hc.
  unfold point_units. destruct (N.ltb_spec c 0x10000) as [Hlt|Hge].
  - cbn [app]. assert (is_high c = false /\ is_low c = false) as [Hh Hl].
    { unfold is_high, is_low. rewrite !andb_false_iff, !N.leb_gt. lia. }
    rewrite code_points_unit by (rewrite Hh; done). by rewrite Hh, Hl.
  - pose proof (N.div_mod' (c - 0x10000) 0x400). pose proof (N.mod_lt (c - 0x10000) 0x400).
    assert ((c - 0x10000) / 0x400 < 0x400) by (apply N.Div0.div_lt_upper_bound; lia).
    revert H H0 H1. generalize ((c - 0x10000) / 0x400) ((c - 0x10000) mod 0x400). intros q r Hqr Hr Hq.
    cbn [app]. rewrite code_points_pair.
    + f_equal. unfold pair_point. lia.
    + unfold is_high. rewrite andb_true_iff, !N.leb_le. lia.
    + unfold is_low. rewrite andb_true_iff, !N.leb_le. lia.
Qed.

(** What is read back has the bytes that were written, also when a lone surrogate was. *)
Lemma encode_decode_encode s : is_jstr s = true -> encode (decode (encode s)) = encode s.
Proof.
  intros Hj. unfold encode, decode. pose proof (code_points_scalar s Hj) as Hs.
  rewrite decode_points_encode by done. f_equal.
  induction Hs as [|c cs Hc Hcs IH]; [done|]. cbn [flat_map]. by rewrite code_points_units, IH.
Qed.

(** What the decoder puts out is a string. *)
Definition state_ok (st : dstate) : Prop :=
  match st with
  | Boundary => True
  | Within 1 acc lo hi => acc < 17408 /\ 0x80 <= lo /\ hi < 0xC0
  | Within 2 acc lo hi => acc < 272 /\ 0x80 <= lo /\ hi < 0xC0
  | Within 3 acc lo hi => acc * 64 + hi < 400 /\ 0x80 <= lo /\ hi < 0xC0
  | Within _ _ _ _ => False
  end.

Lemma start_byte_ok b : Forall (fun c => c < 0x110000) (start_byte b).1 /\ state_ok (start_byte b).2.
Proof.
  unfold start_byte. n_tests; cbn [fst snd state_ok]; (split; [first [apply Forall_nil_2|apply Forall_singleton]|]); try done; split_and?; lia.
Qed.

Lemma decode_byte_ok st b :
  state_ok st -> Forall (fun c => c < 0x110000) (decode_byte st b).1 /\ state_ok (decode_byte st b).2.
Proof.
  destruct st as [|need acc lo hi]; [intros _; apply start_byte_ok|]. intros Hok. cbn [decode_byte].
  pose proof (start_byte_ok b) as [Hs Hst].
  destruct ((lo <=? b) && (b <=? hi)) eqn:E.
  - to_prop. destruct need as [|[|[|[|n]]]]; cbn [state_ok] in Hok; try done; cbn [fst snd state_ok]; destruct_and?;
      (split; [first [apply Forall_nil_2|apply Forall_singleton]|]); try done; split_and?; lia.
  - destruct (start_byte b) as [out st']. cbn [fst snd] in *. split; [constructor; [unfold replacement; lia|done]|done].
Qed.

Lemma decode_jstr bs : is_jstr (decode bs) = true.
Proof.
  assert (forall st, state_ok st -> Forall (fun c => c < 0x110000) (decode_points st bs)) as Hp.
  { induction bs as [|b bs IH]; intros st Hst; cbn [decode_points].
    - destruct st; repeat constructor; unfold replacement; lia.
    - destruct (decode_byte_ok st b Hst) as [Ho Hn]. destruct (decode_byte st b) as [out st']. cbn [fst snd] in *.
      apply Forall_app. split; [done|by apply IH]. }
  specialize (Hp Boundary I). unfold decode, is_jstr. apply forallb_forall. intros u Hu. apply in_flat_map in Hu as (c & Hc & Hu).
  rewrite Forall_forall in Hp. assert (c < 0x110000) as Hlt by (apply Hp; by apply list_elem_of_In). unfold is_unit. apply N.ltb_lt.
  unfold point_units in Hu. destruct (N.ltb_spec c 0x10000) as [Hs|Hge].
  - destruct Hu as [<-|[]]. lia.
  - assert ((c - 0x10000) / 0x400 < 0x400) by (apply N.Div0.div_lt_upper_bound; lia).
    pose proof (N.mod_lt (c - 0x10000) 0x400). destruct Hu as [<-|[<-|[]]]; lia.
Qed.

Lemma point_bytes_length c : (1 <= List.length (point_bytes c) <= 4)%nat.
Proof. unfold point_bytes. repeat case_match; simpl; lia. Qed.

Lemma point_bytes_bmp c : c < 0x10000 -> (List.length (point_bytes c) <= 3)%nat.
Proof.
  intros Hc. unfold point_bytes. repeat case_match; simpl; try lia. to_prop. lia.
Qed.

(** A string's encoding has between one and three bytes per code unit. *)
Lemma encode_length_bounds s :
  is_jstr s = true ->
  (List.length s <= 3 * List.length (encode s))%nat /\
  (List.length (encode s) <= 3 * List.length s)%nat.
Proof.
  unfold encode. induction s as [|h l t Hh Hl IH|h t Hu IH] using char_ind; intros Hj.
  - done.
  - unfold is_jstr in Hj. cbn [forallb] in Hj. to_prop.
    rewrite code_points_pair by done. cbn [flat_map List.length]. rewrite length_app.
    pose proof (point_bytes_length (pair_point h l)). specialize (IH ltac:(done)). lia.
  - unfold is_jstr in Hj. cbn [forallb] in Hj. to_prop.
    rewrite code_points_unit by done. cbn [flat_map List.length]. rewrite length_app.
    set (c := if _ || _ then _ else _).
    assert (c < 0x10000).
    { unfold c, is_unit, replacement in *. to_prop. destruct (_ || _); lia. }
    pose proof (point_bytes_length c). pose proof (point_bytes_bmp c ltac:(done)).
    specialize (IH ltac:(done)). lia.
Qed.

(** Appending strings that do not meet in the middle of a pair. *)
Lemma code_points_app s t :
  well_formed s = true -> code_points (s ++ t) = code_points s ++ code_points t.
Proof.
  induction s as [|h l s Hh Hl IH|h s Hu IH] using char_ind; intros Hw; [done| |].
  - cbn [well_formed] in Hw. rewrite Hh, Hl in Hw. cbn [app].
    rewrite !code_points_pair by done. cbn [app]. by rewrite IH.
  - cbn [well_formed] in Hw. destruct (is_high h) eqn:Eh.
    + destruct s as [|l s']; [done|]. by rewrite (Hu eq_refl l s' eq_refl) in Hw.
    + to_prop. cbn [app]. rewrite !code_points_unit by congruence. cbn [app]. by rewrite IH.
Qed.

Lemma encode_app s t : well_formed s = true -> encode (s ++ t) = encode s ++ encode t.
Proof. intros Hw. unfold encode. by rewrite code_points_app, flat_map_app. Qed.

Lemma ascii_well_formed s : forallb is_ascii s = true -> well_formed s = true.
Proof.
  induction s as [|c s IH]; [done|]. cbn [forallb well_formed]. intros H. to_prop.
  unfold is_ascii, is_high, is_low in *. to_prop. n_tests. simpl. auto.
Qed.

Lemma ascii_encode s : forallb is_ascii s = true -> encode s = s.
Proof.
  unfold encode. induction s as [|c s IH]; [done|]. cbn [forallb]. intros H. to_prop.
  assert (c < 0x80) by (unfold is_ascii in *; to_prop; lia).
  rewrite code_points_unit by (unfold is_high; n_tests; done).
  assert (is_high c || is_low c = false) as -> by (unfold is_high, is_low; n_tests; done).
  cbn [flat_map]. unfold point_bytes at 1. n_tests. cbn [app]. by rewrite IH.
Qed.

(** A unit that is no surrogate separates well-formed strings. *)
Lemma well_formed_app_unit a c b :
  is_high c = false -> is_low c = false ->
  well_formed (a ++ c :: b) = well_formed a && well_formed b.
Proof.
  intros Hh Hl. induction a as [|h l t H1 H2 IH|h t Hu IH] using char_ind.
  - cbn [app well_formed]. by rewrite Hh, Hl.
  - cbn [app well_formed]. by rewrite H1, H2, IH.
  - cbn [app well_formed]. destruct (is_high h) eqn:E.
    + destruct t as [|l t]; cbn [app]; [by rewrite Hl|]. by rewrite (Hu eq_refl l t eq_refl).
    + by rewrite IH, andb_assoc.
Qed.

Lemma well_formed_app a b : well_formed a = true -> well_formed (a ++ b) = well_formed b.
Proof.
  induction a as [|h l t H1 H2 IH|h t Hu IH] using char_ind; [done|..].
  - cbn [app well_formed]. rewrite H1, H2. exact IH.
  - cbn [app well_formed]. destruct (is_high h) eqn:E.
    + destruct t as [|l t]; [done|]. by rewrite (Hu eq_refl l t eq_refl).
    + intros [-> Hw]%andb_true_iff. exact (IH Hw).
Qed.

Lemma proper_app a b : proper a = true -> proper b = true -> proper (a ++ b) = true.
Proof.
  unfold proper. intros [Ja Wa]%andb_true_iff [Jb Wb]%andb_true_iff. by rewrite is_jstr_app, well_formed_app, Ja, Jb, Wb by done.
Qed.

Lemma proper_cons c s : is_unit c = true -> is_high c = false -> is_low c = false -> proper s = true -> proper (c :: s) = true.
Proof. unfold proper, is_jstr. cbn [forallb well_formed]. by intros -> -> ->. Qed.

Lemma proper_ascii s : forallb is_ascii s = true -> proper s = true.
Proof.
  intros Hs. unfold proper. rewrite ascii_well_formed, andb_true_r by done. unfold is_jstr.
  rewrite forallb_forall in *. intros x Hx%Hs. unfold is_ascii, is_unit in *. to_prop. by n_tests.
Qed.
