(* ===== verification/NodePath.v ===== *)
(** The functions of Node's [path] module that the packages call, for POSIX
    paths, and [isAbsolute] for both platforms.  [normalizeString] is written on
    the list of segments: empty and ["."] segments are dropped, [".."] removes
    the segment before it. *)
From S2P Require Import Prelude JsString.

Definition slash : N := 47.
Definition backslash : N := 92.

Inductive platform := Posix | Win32.

Definition posix_isAbsolute (p : jstr) : bool := starts_with p (js "/").

Definition is_drive_letter (c : N) : bool :=
  ((65 <=? c) && (c <=? 90) || (97 <=? c) && (c <=? 122))%N.
Definition is_win_sep (c : N) : bool := ((c =? slash) || (c =? backslash))%N.

Definition win32_isAbsolute (p : jstr) : bool :=
  match p with
  | [] => false
  | c0 :: rest =>
      is_win_sep c0 ||
      match rest with
      | c1 :: c2 :: _ => is_drive_letter c0 && (c1 =? 58)%N && is_win_sep c2
      | _ => false
      end
  end.

Definition isAbsolute (pf : platform) (p : jstr) : bool :=
  match pf with Posix => posix_isAbsolute p | Win32 => win32_isAbsolute p end.

(** [normalizeString]: [acc] is the result so far, last segment first. *)
Fixpoint normalize_segs (above : bool) (acc segs : list jstr) : list jstr :=
  match segs with
  | [] => rev acc
  | seg :: segs' =>
      if jeqb seg [] || jeqb seg (js ".") then normalize_segs above acc segs'
      else if jeqb seg (js "..") then
        match acc with
        | top :: acc' =>
            if jeqb top (js "..") then normalize_segs above (if above then seg :: acc else acc) segs'
            else normalize_segs above acc' segs'
        | [] => normalize_segs above (if above then [seg] else []) segs'
        end
      else normalize_segs above (seg :: acc) segs'
  end.

Definition normalize_string (above : bool) (p : jstr) : jstr :=
  join [slash] (normalize_segs above [] (split_on slash p)).

(** [path.posix.resolve(...args)], the working directory last. *)
Fixpoint resolve_tail (cwd : jstr) (args_rev : list jstr) (acc : jstr) : jstr * bool :=
  match args_rev with
  | [] => (cwd ++ slash :: acc, posix_isAbsolute cwd)
  | a :: rest =>
      if jeqb a [] then resolve_tail cwd rest acc
      else if posix_isAbsolute a then (a ++ slash :: acc, true)
      else resolve_tail cwd rest (a ++ slash :: acc)
  end.

Definition resolve (cwd : jstr) (args : list jstr) : jstr :=
  let '(p, abs) := resolve_tail cwd (rev args) [] in
  let n := normalize_string (negb abs) p in
  if abs then slash :: n else if jeqb n [] then js "." else n.

(** [path.posix.normalize] and [path.posix.join]. *)
Definition normalize (p : jstr) : jstr :=
  match p with
  | [] => js "."
  | _ =>
      let abs := posix_isAbsolute p in
      let trailing := ends_with p (js "/") in
      let n := normalize_string (negb abs) p in
      if jeqb n [] then (if abs then js "/" else if trailing then js "./" else js ".")
      else let n := if trailing then n ++ js "/" else n in
           if abs then slash :: n else n
  end.

Definition path_join (args : list jstr) : jstr :=
  match filter (fun a => a <> []) args with
  | [] => js "."
  | parts => normalize (join [slash] parts)
  end.

Fixpoint strip_slashes (s_rev : jstr) : jstr :=
  match s_rev with
  | c :: s' => if (c =? slash)%N then strip_slashes s' else s_rev
  | [] => []
  end.

(** [path.posix.dirname]. *)
Definition dirname (p : jstr) : jstr :=
  match p with
  | [] => js "."
  | c0 :: r =>
      let root := (c0 =? slash)%N in
      match last_index_of_unit slash (rev (strip_slashes (rev r))) with
      | None => if root then js "/" else js "."
      | Some i => if root && (i =? 0)%nat then js "//" else slice p 0 (S i)
      end
  end.

(** [path.posix.basename]. *)
Definition basename (p : jstr) : jstr :=
  let q := rev (strip_slashes (rev p)) in
  match last_index_of_unit slash q with
  | None => q
  | Some i => slice_from q (S i)
  end.

(** A segment that normalization keeps as it is. *)
Definition plain_seg (s : jstr) : bool :=
  negb (jeqb s []) && negb (jeqb s (js ".")) && negb (jeqb s (js "..")).

(** * Lemmas *)

Lemma plain_seg_spec s : plain_seg s = true <-> s <> [] /\ s <> js "." /\ s <> js "..".
Proof.
  unfold plain_seg, jeqb. rewrite !andb_true_iff, !negb_true_iff, !bool_decide_eq_false. tauto.
Qed.

Lemma plain_seg_tests s :
  plain_seg s = true -> jeqb s [] = false /\ jeqb s (js ".") = false /\ jeqb s (js "..") = false.
Proof. intros H%plain_seg_spec. unfold jeqb. rewrite !bool_decide_eq_false. tauto. Qed.

(** A list of plain segments without separators, and the absolute path they name. *)
Definition plain_segs (segs : list jstr) : bool :=
  forallb (fun s => plain_seg s && negb (bool_decide (slash ∈ s))) segs.

Lemma plain_segs_spec segs :
  plain_segs segs = true <-> Forall (fun s => plain_seg s = true /\ slash ∉ s) segs.
Proof.
  unfold plain_segs. rewrite forallb_Forall. apply Forall_proper; [|done].
  intros s. rewrite andb_true_iff, negb_true_iff, bool_decide_eq_false. done.
Qed.

Lemma plain_segs_app l k : plain_segs (l ++ k) = plain_segs l && plain_segs k.
Proof. apply forallb_app. Qed.

Lemma normalize_segs_plain above acc segs :
  Forall (fun s => plain_seg s = true) segs -> normalize_segs above acc segs = rev acc ++ segs.
Proof.
  intros H. revert acc. induction H as [|s segs Hs H IH]; intros acc; simpl.
  - by rewrite app_nil_r.
  - destruct (plain_seg_tests s Hs) as (-> & -> & ->). simpl.
    rewrite IH. simpl. by rewrite <- app_assoc.
Qed.

Lemma normalize_segs_app_plain above acc segs segs' :
  Forall (fun s => plain_seg s = true) segs' ->
  normalize_segs above acc (segs ++ segs') = normalize_segs above acc segs ++ segs'.
Proof.
  intros H. revert acc. induction segs as [|s segs IH]; intros acc; simpl.
  - by rewrite normalize_segs_plain.
  - repeat case_match; apply IH.
Qed.

Lemma normalize_segs_skip_empty above acc segs segs' :
  normalize_segs above acc (segs ++ [] :: segs') = normalize_segs above acc (segs ++ segs').
Proof.
  revert acc. induction segs as [|s segs IH]; intros acc; simpl; [done|].
  repeat case_match; apply IH.
Qed.

(** Normalizing below the root leaves plain segments only. *)
Lemma normalize_segs_root acc segs :
  Forall (fun s => plain_seg s = true) acc ->
  Forall (fun s => plain_seg s = true) (normalize_segs false acc segs).
Proof.
  revert acc. induction segs as [|s segs IH]; intros acc Ha; simpl.
  - by apply Forall_rev.
  - destruct (jeqb s []) eqn:E1; simpl; [by apply IH|].
    destruct (jeqb s (js ".")) eqn:E2; [by apply IH|].
    destruct (jeqb s (js "..")) eqn:E3.
    + destruct acc as [|top acc]; [by apply IH|].
      apply Forall_cons in Ha as [Ht Ha]. case_match; apply IH; [by constructor|done].
    + apply IH. constructor; [|done]. unfold plain_seg. by rewrite E1, E2, E3.
Qed.

Lemma elem_of_rev' {A} (x : A) l : x ∈ rev l <-> x ∈ l.
Proof. by rewrite !list_elem_of_In, <- in_rev. Qed.

Lemma normalize_segs_incl above acc segs s :
  s ∈ normalize_segs above acc segs -> s ∈ acc \/ s ∈ segs.
Proof.
  revert acc. induction segs as [|t segs IH]; intros acc; simpl.
  - rewrite elem_of_rev'. auto.
  - repeat case_match; intros Hs%IH; set_solver.
Qed.

(** The absolute path with the given segments. *)
Definition abs_path (segs : list jstr) : jstr := slash :: join [slash] segs.

Lemma resolve_tail_cons cwd a rest acc :
  a <> [] -> posix_isAbsolute a = false ->
  resolve_tail cwd (a :: rest) acc = resolve_tail cwd rest (a ++ slash :: acc).
Proof. intros Ha Hb. simpl. unfold jeqb. rewrite bool_decide_eq_false_2 by done. by rewrite Hb. Qed.

(** [resolve] of an absolute base is an absolute path of plain segments. *)
Lemma resolve_shape cwd root :
  posix_isAbsolute cwd = true ->
  exists segs, plain_segs segs = true /\ resolve cwd [root] = abs_path segs.
Proof.
  intros Hcwd. unfold resolve. cbn [rev app resolve_tail].
  assert (exists p, (if jeqb root [] then (cwd ++ slash :: [], posix_isAbsolute cwd)
             else if posix_isAbsolute root then (root ++ slash :: [], true)
             else (cwd ++ slash :: (root ++ slash :: []), posix_isAbsolute cwd)) = (p, true))
    as [p ->] by (rewrite Hcwd; repeat case_match; eauto).
  cbn [negb]. unfold normalize_string, abs_path.
  eexists; split; [|done]. apply plain_segs_spec, Forall_forall. intros s Hs. split.
  - by eapply Forall_forall in Hs; [|by apply normalize_segs_root].
  - apply normalize_segs_incl in Hs as [?%elem_of_nil|Hs]; [done|].
    pose proof (split_on_forall slash p) as Hf. rewrite Forall_forall in Hf. by apply Hf.
Qed.

Lemma plain_head_not_abs segs :
  plain_segs segs = true -> segs <> [] -> posix_isAbsolute (join [slash] segs) = false.
Proof.
  intros H%plain_segs_spec Hn. destruct segs as [|s segs]; [done|].
  apply Forall_cons in H as [[Hs Hns] _]. apply plain_seg_spec in Hs as (Hs & _ & _).
  destruct s as [|c s]; [done|].
  assert (exists r, join [slash] ((c :: s) :: segs) = c :: r) as [r ->].
  { destruct segs; simpl; eauto. }
  change (posix_isAbsolute (c :: r)) with ((47 =? c)%N && starts_with r []).
  destruct (N.eqb_spec 47 c) as [<-|]; [|done]. unfold slash in Hns. set_solver.
Qed.

Lemma join_nonnil segs : plain_segs segs = true -> segs <> [] -> join [slash] segs <> [].
Proof.
  intros H%plain_segs_spec Hn. destruct segs as [|s segs]; [done|].
  apply Forall_cons in H as [[Hs _] _]. apply plain_seg_spec in Hs as (Hs & _ & _).
  destruct s; [done|]. destruct segs; simpl; done.
Qed.

(** Resolving a normalized relative path below an absolute base appends it. *)
Lemma resolve_below cwd base rel :
  plain_segs base = true -> plain_segs rel = true -> rel <> [] ->
  resolve cwd [abs_path base; join [slash] rel] = abs_path (base ++ rel).
Proof.
  intros Hb Hr Hn. unfold resolve. cbn [rev app].
  rewrite resolve_tail_cons by (by apply join_nonnil || by apply plain_head_not_abs).
  cbn [resolve_tail]. unfold jeqb at 1. rewrite bool_decide_eq_false_2 by done.
  replace (posix_isAbsolute (abs_path base)) with true by done.
  cbn [negb]. unfold normalize_string, abs_path. f_equal. f_equal.
  rewrite <- app_comm_cons. cbn [split_on]. rewrite N.eqb_refl.
  cbn [normalize_segs]. unfold jeqb at 1. rewrite bool_decide_eq_true_2 by done. cbn [orb].
  rewrite split_on_app_sep, split_on_app_sep.
  apply plain_segs_spec in Hb as Hb', Hr as Hr'.
  rewrite (split_join _ rel) by (done || by eapply Forall_impl; [done|]; intros ? []).
  replace (split_on slash []) with [@nil N] by done.
  rewrite app_assoc, normalize_segs_skip_empty, app_nil_r.
  rewrite normalize_segs_app_plain by (by eapply Forall_impl; [done|]; intros ? []).
  f_equal. destruct base as [|s base]; [done|].
  rewrite split_join by (done || by eapply Forall_impl; [done|]; intros ? []).
  by rewrite normalize_segs_plain by (by eapply Forall_impl; [done|]; intros ? []).
Qed.

Lemma abs_path_app base rel :
  base <> [] -> rel <> [] ->
  abs_path (base ++ rel) = abs_path base ++ slash :: join [slash] rel.
Proof. intros Hb Hr. unfold abs_path. rewrite join_app by done. done. Qed.

(** Resolving an absolute, normalized path changes nothing. *)
Lemma resolve_abs cwd base :
  plain_segs base = true -> resolve cwd [abs_path base] = abs_path base.
Proof.
  intros Hb. unfold resolve. cbn [rev app resolve_tail].
  unfold jeqb at 1. rewrite bool_decide_eq_false_2 by done.
  replace (posix_isAbsolute (abs_path base)) with true by done.
  cbn [negb]. unfold normalize_string, abs_path. f_equal. f_equal.
  rewrite <- app_comm_cons. cbn [split_on]. rewrite N.eqb_refl.
  cbn [normalize_segs]. unfold jeqb at 1. rewrite bool_decide_eq_true_2 by done. cbn [orb].
  rewrite split_on_app_sep. replace (split_on slash []) with [@nil N] by done.
  rewrite normalize_segs_skip_empty, app_nil_r.
  destruct base as [|s base]; [done|].
  apply plain_segs_spec in Hb.
  rewrite split_join by (done || by eapply Forall_impl; [done|]; intros ? []).
  by rewrite normalize_segs_plain by (by eapply Forall_impl; [done|]; intros ? []).
Qed.

Lemma plain_tail_not_slash segs :
  plain_segs segs = true -> segs <> [] -> ends_with (join [slash] segs) (js "/") = false.
Proof.
  intros Hp Hn. apply not_true_is_false. intros [r Hr]%ends_with_spec.
  assert (split_on slash (join [slash] segs) = segs) as Hs.
  { apply split_join; [done|]. apply plain_segs_spec in Hp. by eapply Forall_impl; [done|]; intros ? []. }
  rewrite Hr in Hs. change (js "/") with [slash] in Hs. rewrite split_on_app_sep in Hs.
  apply plain_segs_spec in Hp. rewrite <- Hs in Hp. apply Forall_app in Hp as [_ Hp].
  apply Forall_cons in Hp as [[Hp _] _]. done.
Qed.

Lemma normalize_plain segs :
  plain_segs segs = true -> segs <> [] -> normalize (join [slash] segs) = join [slash] segs.
Proof.
  intros Hp Hn. unfold normalize. pose proof (join_nonnil segs Hp Hn) as Hj.
  destruct (join [slash] segs) as [|c s] eqn:E; [done|]. rewrite <- E in *.
  rewrite plain_head_not_abs, plain_tail_not_slash by done. cbn [negb].
  assert (normalize_string true (join [slash] segs) = join [slash] segs) as ->.
  { unfold normalize_string. apply plain_segs_spec in Hp.
    rewrite split_join by (done || by eapply Forall_impl; [done|]; intros ? []).
    by rewrite normalize_segs_plain by (by eapply Forall_impl; [done|]; intros ? []). }
  unfold jeqb. by rewrite bool_decide_eq_false_2.
Qed.

(** Joining two relative, normalized paths. *)
Lemma path_join_plain p q :
  plain_segs (split_on slash p) = true -> plain_segs (split_on slash q) = true ->
  path_join [p; q] = p ++ slash :: q.
Proof.
  intros Hp Hq.
  assert (p <> [] /\ q <> []) as [Hpn Hqn] by (split; intros ->; done).
  unfold path_join. rewrite !filter_cons_True, filter_nil by done.
  replace (join [slash] [p; q]) with (join [slash] (split_on slash p ++ split_on slash q)).
  - rewrite normalize_plain.
    + by rewrite join_app, !join_split by auto with kb1.
    + by rewrite plain_segs_app, Hp, Hq.
    + pose proof (split_on_nonnil slash p). by destruct (split_on slash p).
  - by rewrite join_app, !join_split by auto with kb1.
Qed.

Lemma filter_plain segs : plain_segs segs = true -> filter (fun a => a <> []) segs = segs.
Proof.
  intros Hs%plain_segs_spec. induction segs as [|s segs IH]; [done|].
  apply Forall_cons in Hs as [[Hs _] Hss]. apply plain_seg_spec in Hs as (Hs & _).
  rewrite filter_cons_True by done. by rewrite IH.
Qed.

(** Joining plain segments to an absolute, normalized path. *)
Lemma normalize_abs base :
  plain_segs base = true -> base <> [] -> normalize (abs_path base) = abs_path base.
Proof.
  intros Hp Hn. unfold normalize, abs_path.
  change (posix_isAbsolute (slash :: join [slash] base)) with true. cbn [negb].
  assert (normalize_string false (slash :: join [slash] base) = join [slash] base) as ->.
  { unfold normalize_string. cbn [split_on]. rewrite N.eqb_refl. cbn [normalize_segs].
    unfold jeqb at 1. rewrite bool_decide_eq_true_2 by done. cbn [orb].
    apply plain_segs_spec in Hp.
    rewrite split_join by (done || by eapply Forall_impl; [done|]; intros ? []).
    by rewrite normalize_segs_plain by (by eapply Forall_impl; [done|]; intros ? []). }
  unfold jeqb. rewrite bool_decide_eq_false_2 by by apply join_nonnil.
  assert (ends_with (slash :: join [slash] base) (js "/") = false) as ->; [|done].
  apply not_true_is_false. intros [r Hr]%ends_with_spec.
  pose proof (plain_tail_not_slash base Hp Hn) as Ht. pose proof (join_nonnil base Hp Hn) as Hj.
  destruct (exists_last Hj) as (l & c & Hl). rewrite Hl in *. change (js "/") with [slash] in *.
  rewrite app_comm_cons in Hr. apply app_inj_tail in Hr as [_ ->].
  by rewrite (proj2 (ends_with_spec _ _)) in Ht by eauto.
Qed.

Lemma join_slash_flat l k : l <> [] -> k <> [] -> join [slash] (join [slash] l :: k) = join [slash] (l ++ k).
Proof. intros Hl Hk. by rewrite join_cons, join_app by done. Qed.

Lemma path_join_abs base segs :
  plain_segs base = true -> base <> [] -> plain_segs segs = true -> segs <> [] ->
  path_join (abs_path base :: segs) = abs_path (base ++ segs).
Proof.
  intros Hb Hbn Hs Hsn. unfold path_join. rewrite filter_cons_True by done.
  rewrite filter_plain by done.
  replace (join [slash] (abs_path base :: segs)) with (abs_path (base ++ segs)).
  - apply normalize_abs; [by rewrite plain_segs_app, Hb, Hs|by destruct base].
  - rewrite abs_path_app by done. by rewrite join_cons.
Qed.

(** The parent of an absolute, normalized path. *)
Lemma strip_slashes_none s : ends_with s (js "/") = false -> strip_slashes (rev s) = rev s.
Proof.
  intros H. destruct (rev s) as [|c r] eqn:E; [done|]. simpl.
  destruct (N.eqb_spec c slash) as [->|]; [|done].
  rewrite (proj2 (ends_with_spec s (js "/"))) in H; [done|]. exists (rev r).
  by rewrite <- (rev_involutive s), E.
Qed.

Lemma last_index_of_unit_last c l s :
  c ∉ s -> last_index_of_unit c (l ++ c :: s) = Some (length l).
Proof.
  intros Hs. destruct (last_index_of_unit c (l ++ c :: s)) as [i|] eqn:E.
  - apply last_index_of_unit_spec in E as (l' & r & Heq & <- & Hr). f_equal.
    apply app_eq_inv in Heq as [(k & -> & Hk)|(k & -> & Hk)].
    + destruct k as [|d k]; simpl in Hk; [by rewrite app_nil_r|injection Hk as <- ->; set_solver].
    + destruct k as [|d k]; simpl in Hk; [by rewrite app_nil_r|injection Hk as <- ->; set_solver].
  - apply last_index_of_unit_none in E. set_solver.
Qed.

Lemma dirname_abs segs s :
  plain_segs (segs ++ [s]) = true -> dirname (abs_path (segs ++ [s])) = abs_path segs.
Proof.
  intros Hp. unfold dirname, abs_path. cbn [N.eqb]. rewrite N.eqb_refl.
  rewrite strip_slashes_none by (apply plain_tail_not_slash; [done|by destruct segs]).
  rewrite rev_involutive.
  pose proof Hp as Hp'. rewrite plain_segs_app in Hp'. apply andb_true_iff in Hp' as [Hseg Hs].
  apply plain_segs_spec in Hs. apply Forall_cons in Hs as [[_ Hs] _].
  destruct (decide (segs = [])) as [->|Hn].
  - cbn [app join]. by rewrite (proj2 (last_index_of_unit_none _ _)).
  - rewrite join_app by done. cbn [join app]. rewrite last_index_of_unit_last by done.
    pose proof (join_nonnil segs Hseg Hn) as Hj.
    assert ((length (join [slash] segs) =? 0)%nat = false) as -> by (apply Nat.eqb_neq; by destruct (join _ segs)).
    cbn [andb]. unfold slice. rewrite Nat.sub_0_r. cbn [drop take]. by rewrite take_app_length.
Qed.

(** Joining plain segments and a relative, normalized path. *)
Lemma path_join_rel segs rel :
  plain_segs segs = true -> plain_segs (split_on slash rel) = true ->
  path_join (segs ++ [rel]) = join [slash] (segs ++ split_on slash rel).
Proof.
  intros Hs Hr. assert (rel <> []) as Hrn by (intros ->; done).
  unfold path_join. rewrite filter_app, filter_plain, filter_cons_True, filter_nil by done.
  assert (join [slash] (segs ++ [rel]) = join [slash] (segs ++ split_on slash rel)) as Hj.
  { destruct (decide (segs = [])) as [->|Hn]; [cbn [app]; by rewrite join_split|].
    rewrite (join_app _ segs [rel]), (join_app _ segs (split_on slash rel)) by auto using split_on_nonnil.
    by rewrite join_split. }
  destruct (segs ++ [rel]) as [|x l] eqn:E; [by destruct segs|]. rewrite Hj, normalize_plain; [done| |].
  - by rewrite plain_segs_app, Hs, Hr.
  - pose proof (split_on_nonnil slash rel). by destruct segs, (split_on slash rel).
Qed.

(** The last segment of an absolute, normalized path. *)
Lemma basename_abs segs :
  plain_segs segs = true -> segs <> [] -> basename (abs_path segs) = default [] (last segs).
Proof.
  intros Hp Hn. unfold basename. rewrite strip_slashes_none, rev_involutive.
  - destruct (exists_last Hn) as (l & x & ->). rewrite last_snoc. cbn [default].
    rewrite plain_segs_app in Hp. apply andb_true_iff in Hp as [Hl Hx].
    apply plain_segs_spec in Hx. apply Forall_cons in Hx as [[_ Hx] _].
    assert (exists p, abs_path (l ++ [x]) = p ++ slash :: x) as [p ->].
    { destruct (decide (l = [])) as [->|Hl']; [by exists []|].
      exists (abs_path l). by rewrite abs_path_app by done. }
    rewrite last_index_of_unit_last by done. unfold slice_from.
    change (p ++ slash :: x) with (p ++ [slash] ++ x). rewrite app_assoc.
    replace (S (length p)) with (length (p ++ [slash])) by (rewrite length_app; simpl; lia).
    by rewrite drop_app_length.
  - pose proof (normalize_abs segs Hp Hn) as _. apply not_true_is_false. intros [r Hr]%ends_with_spec.
    unfold abs_path in Hr. pose proof (plain_tail_not_slash segs Hp Hn) as Ht.
    pose proof (join_nonnil segs Hp Hn) as Hj. destruct (exists_last Hj) as (l & c & Hl). rewrite Hl in *.
    change (js "/") with [slash] in *. rewrite app_comm_cons in Hr. apply app_inj_tail in Hr as [_ ->].
    by rewrite (proj2 (ends_with_spec _ _)) in Ht by eauto.
Qed.
