(* ===== verification/Json.v ===== *)
(** JavaScript values and [JSON.stringify] / [JSON.parse].

    A value is what an [unknown] of the source can be: besides the JSON values it
    may be [undefined], a number that is not finite, an object that is not a plain
    one (a class instance) or something else (a function, a symbol).  The
    properties of an object are listed in insertion order; the engine's reordering
    of integer-like keys is not represented.

    A number is not finite, an integer, or a proper binary fraction.  The decimal
    notation of numbers other than integers up to 2^53 is the host's
    ([print_number], [read_number]). *)
From Stdlib Require Import Decimal DecimalN DecimalFacts.
From S2P Require Import Prelude JsString Utf8.

#[local] Set Warnings "-register-all".

(** * Values *)

Inductive number :=
| NaN
| Inf (negative : bool)
| Int (z : Z)
| Frac (mantissa : Z) (bits : positive). (* mantissa / 2^bits, the mantissa odd *)

#[export] Instance number_eq_dec : EqDecision number.
Proof. solve_decision. Defined.

Definition is_finite (n : number) : bool :=
  match n with NaN | Inf _ => false | _ => true end.

Inductive value :=
| VUndefined
| VNull
| VBool (b : bool)
| VNum (n : number)
| VStr (s : jstr)
| VArr (items : list value)
| VObj (plain : bool) (props : list (jstr * value))
| VOther.

(** Own property lookup; [undefined] when there is none. *)
Fixpoint prop_get (props : list (jstr * value)) (k : jstr) : option value :=
  match props with
  | [] => None
  | (k', v) :: ps => if jeqb k k' then Some v else prop_get ps k
  end.

Definition get (props : list (jstr * value)) (k : jstr) : value :=
  default VUndefined (prop_get props k).

(** [obj[k] = v]: in place when the key exists, at the end otherwise. *)
Fixpoint prop_set (props : list (jstr * value)) (k : jstr) (v : value) : list (jstr * value) :=
  match props with
  | [] => [(k, v)]
  | (k', v') :: ps => if jeqb k k' then (k', v) :: ps else (k', v') :: prop_set ps k v
  end.

Class JsonHost := {
  print_number : number -> jstr;
  read_number : jstr -> option number
}.

(** * Stringify *)

Definition hex_digit (d : N) : N := if (d <? 10)%N then (48 + d)%N else (87 + d)%N.
Definition hex4 (c : N) : jstr :=
  [hex_digit (c / 4096); hex_digit ((c / 256) mod 16);
   hex_digit ((c / 16) mod 16); hex_digit (c mod 16)]%N.
Definition unicode_escape (c : N) : jstr := 92%N :: 117%N :: hex4 c.

Definition quote_unit (c : N) : jstr :=
  (if c =? 34 then [92; 34]
   else if c =? 92 then [92; 92]
   else if c =? 8 then [92; 98]
   else if c =? 9 then [92; 116]
   else if c =? 10 then [92; 110]
   else if c =? 12 then [92; 102]
   else if c =? 13 then [92; 114]
   else if c <? 32 then unicode_escape c
   else [c])%N.

(** The characters between the quotes; lone surrogates are escaped. *)
Fixpoint quote_body (s : jstr) : jstr :=
  match s with
  | [] => []
  | h :: t =>
      if is_high h then
        match t with
        | l :: t' => if is_low l then h :: l :: quote_body t'
                     else unicode_escape h ++ quote_body t
        | [] => unicode_escape h
        end
      else if is_low h then unicode_escape h ++ quote_body t
      else quote_unit h ++ quote_body t
  end.

Definition json_quote (s : jstr) : jstr := 34%N :: quote_body s ++ [34%N].

Definition small_int (z : Z) : bool := (Z.abs z <=? 2 ^ 53)%Z.

Section json.
Context `{JsonHost}.

Definition number_text (n : number) : jstr :=
  match n with
  | Int z => if small_int z then dec z else print_number n
  | _ => if is_finite n then print_number n else js "null"
  end.

(** [JSON.stringify]; [None] for [undefined]. *)
Fixpoint stringify (v : value) : option jstr :=
  match v with
  | VUndefined | VOther => None
  | VNull => Some (js "null")
  | VBool b => Some (if b then js "true" else js "false")
  | VNum n => Some (number_text n)
  | VStr s => Some (json_quote s)
  | VArr items =>
      Some (js "[" ++ join (js ",") (map (fun v => default (js "null") (stringify v)) items) ++ js "]")
  | VObj _ props =>
      Some (js "{" ++ join (js ",")
        (omap (fun kv => (fun t => json_quote kv.1 ++ js ":" ++ t) <$> stringify kv.2) props) ++ js "}")
  end.

(** * Parse *)

Definition is_digit (c : N) : bool := ((48 <=? c) && (c <=? 57))%N.
Definition is_json_space (c : N) : bool := ((c =? 32) || (c =? 9) || (c =? 10) || (c =? 13))%N.

Fixpoint skip_space (s : jstr) : jstr :=
  match s with c :: s' => if is_json_space c then skip_space s' else s | [] => [] end.

Definition hex_value (c : N) : option N :=
  (if (48 <=? c) && (c <=? 57) then Some (c - 48)
   else if (97 <=? c) && (c <=? 102) then Some (c - 87)
   else if (65 <=? c) && (c <=? 70) then Some (c - 55)
   else None)%N.

Definition hex4_value (a b c d : N) : option N :=
  a ← hex_value a; b ← hex_value b; c ← hex_value c; d ← hex_value d;
  Some (((a * 16 + b) * 16 + c) * 16 + d)%N.

Definition simple_escape (e : N) : option N :=
  (if e =? 34 then Some 34 else if e =? 92 then Some 92 else if e =? 47 then Some 47
   else if e =? 98 then Some 8 else if e =? 116 then Some 9 else if e =? 110 then Some 10
   else if e =? 102 then Some 12 else if e =? 114 then Some 13 else None)%N.

(** A string literal after its opening quote. *)
Fixpoint parse_string (s : jstr) : option (jstr * jstr) :=
  match s with
  | [] => None
  | c :: r =>
      if (c =? 34)%N then Some ([], r)
      else if (c =? 92)%N then
        match r with
        | [] => None
        | e :: r1 =>
            if (e =? 117)%N then
              match r1 with
              | a :: b :: c :: d :: r2 =>
                  u ← hex4_value a b c d; p ← parse_string r2; Some (u :: p.1, p.2)
              | _ => None
              end
            else u ← simple_escape e; p ← parse_string r1; Some (u :: p.1, p.2)
        end
      else if (c <? 32)%N then None
      else p ← parse_string r; Some (c :: p.1, p.2)
  end.

Definition is_number_unit (c : N) : bool :=
  is_digit c || ((c =? 43) || (c =? 45) || (c =? 46) || (c =? 69) || (c =? 101))%N.

Fixpoint span (P : N -> bool) (s : jstr) : jstr * jstr :=
  match s with
  | c :: s' => if P c then let '(a, b) := span P s' in (c :: a, b) else ([], s)
  | [] => ([], [])
  end.

Fixpoint units_uint (s : jstr) : option Decimal.uint :=
  match s with
  | [] => Some Decimal.Nil
  | c :: s' =>
      d ← units_uint s';
      (if c =? 48 then Some (Decimal.D0 d) else if c =? 49 then Some (Decimal.D1 d)
       else if c =? 50 then Some (Decimal.D2 d) else if c =? 51 then Some (Decimal.D3 d)
       else if c =? 52 then Some (Decimal.D4 d) else if c =? 53 then Some (Decimal.D5 d)
       else if c =? 54 then Some (Decimal.D6 d) else if c =? 55 then Some (Decimal.D7 d)
       else if c =? 56 then Some (Decimal.D8 d) else if c =? 57 then Some (Decimal.D9 d)
       else None)%N
  end.

(** An unsigned decimal without leading zeros. *)
Definition read_nat (s : jstr) : option N :=
  match s with
  | [] => None
  | c :: s' => if (c =? 48)%N && negb (bool_decide (s' = [])) then None
               else N.of_uint <$> units_uint s
  end.

Definition read_int (s : jstr) : option Z :=
  match s with
  | [] => None
  | c :: s' =>
      if (c =? 45)%N then n ← read_nat s'; if (n =? 0)%N then None else Some (- Z.of_N n)%Z
      else Z.of_N <$> read_nat s
  end.

Definition number_token (tok : jstr) : option number :=
  match read_int tok with
  | Some z => if small_int z then Some (Int z) else read_number tok
  | None => read_number tok
  end.

Definition expect_word (w s : jstr) (v : value) : option (value * jstr) :=
  if starts_with s w then Some (v, drop (length w) s) else None.

(** The parser; the fuel bounds the number of tokens. *)
Fixpoint parse_value (fuel : nat) (s : jstr) : option (value * jstr) :=
  match fuel with
  | 0 => None
  | S fuel =>
      match skip_space s with
      | [] => None
      | c :: r =>
          if (c =? 34)%N then p ← parse_string r; Some (VStr p.1, p.2)
          else if (c =? 91)%N then
            match skip_space r with
            | d :: r' => if (d =? 93)%N then Some (VArr [], r')
                         else p ← parse_items fuel r; Some (VArr p.1, p.2)
            | [] => None
            end
          else if (c =? 123)%N then
            match skip_space r with
            | d :: r' => if (d =? 125)%N then Some (VObj true [], r')
                         else p ← parse_props fuel [] r; Some (VObj true p.1, p.2)
            | [] => None
            end
          else if (c =? 110)%N then expect_word (js "null") (c :: r) VNull
          else if (c =? 116)%N then expect_word (js "true") (c :: r) (VBool true)
          else if (c =? 102)%N then expect_word (js "false") (c :: r) (VBool false)
          else let '(tok, rest) := span is_number_unit (c :: r) in
               n ← number_token tok; Some (VNum n, rest)
      end
  end
with parse_items (fuel : nat) (s : jstr) : option (list value * jstr) :=
  match fuel with
  | 0 => None
  | S fuel =>
      p ← parse_value fuel s;
      match skip_space p.2 with
      | d :: r => if (d =? 93)%N then Some ([p.1], r)
                  else if (d =? 44)%N then q ← parse_items fuel r; Some (p.1 :: q.1, q.2)
                  else None
      | [] => None
      end
  end
with parse_props (fuel : nat) (acc : list (jstr * value)) (s : jstr)
  : option (list (jstr * value) * jstr) :=
  match fuel with
  | 0 => None
  | S fuel =>
      match skip_space s with
      | q :: r =>
          if (q =? 34)%N then
            k ← parse_string r;
            match skip_space k.2 with
            | colon :: r1 =>
                if (colon =? 58)%N then
                  p ← parse_value fuel r1;
                  let acc := prop_set acc k.1 p.1 in
                  match skip_space p.2 with
                  | d :: r2 => if (d =? 125)%N then Some (acc, r2)
                               else if (d =? 44)%N then parse_props fuel acc r2
                               else None
                  | [] => None
                  end
                else None
            | [] => None
            end
          else None
      | [] => None
      end
  end.

(** [JSON.parse]; [None] when it throws. *)
Definition json_parse (s : jstr) : option value :=
  p ← parse_value (2 * length s) s;
  match skip_space p.2 with [] => Some p.1 | _ => None end.

End json.

(** * Values that JSON can carry *)

Fixpoint json_ok (v : value) : bool :=
  match v with
  | VUndefined | VOther => false
  | VNull | VBool _ => true
  | VNum n => match n with Int z => small_int z | _ => false end
  | VStr s => is_jstr s
  | VArr items => forallb json_ok items
  | VObj plain props =>
      plain && bool_decide (NoDup props.*1) &&
      forallb (fun kv => is_jstr kv.1 && json_ok kv.2) props
  end.

Section value_induction.
Context (P : value -> Prop).
Context (Hundef : P VUndefined) (Hnull : P VNull) (Hother : P VOther).
Context (Hbool : forall b, P (VBool b)) (Hnum : forall n, P (VNum n)) (Hstr : forall s, P (VStr s)).
Context (Harr : forall items, Forall P items -> P (VArr items)).
Context (Hobj : forall b props, Forall (fun kv => P kv.2) props -> P (VObj b props)).

Fixpoint value_rect' (v : value) : P v :=
  match v with
  | VUndefined => Hundef | VNull => Hnull | VOther => Hother
  | VBool b => Hbool b | VNum n => Hnum n | VStr s => Hstr s
  | VArr items =>
      Harr items ((fix go l : Forall P l :=
        match l with [] => Forall_nil_2 P | x :: l => Forall_cons_2 P x l (value_rect' x) (go l) end) items)
  | VObj b props =>
      Hobj b props ((fix go l : Forall (fun kv => P kv.2) l :=
        match l with
        | [] => Forall_nil_2 _
        | (k, x) :: l => Forall_cons_2 (fun kv => P kv.2) (k, x) l (value_rect' x) (go l)
        end) props)
  end.
End value_induction.

(** * Strings *)

Lemma hex_value_digit d : (d < 16)%N -> hex_value (hex_digit d) = Some d.
Proof.
  unfold hex_value, hex_digit. intros Hd.
  destruct (N.ltb_spec d 10).
  - rewrite (proj2 (N.leb_le 48 _)), (proj2 (N.leb_le _ 57)) by lia. cbn [andb]. f_equal. lia.
  - rewrite (proj2 (N.leb_le 48 _)), (proj2 (N.leb_gt _ 57)) by lia. cbn [andb].
    rewrite (proj2 (N.leb_le 97 _)), (proj2 (N.leb_le _ 102)) by lia. cbn [andb]. f_equal. lia.
Qed.

Lemma hex4_value_hex4 c a b d e :
  (c < 0x10000)%N -> hex4 c = [a; b; d; e] -> hex4_value a b d e = Some c.
Proof.
  unfold hex4. intros Hc [= <- <- <- <-]. unfold hex4_value.
  assert (c / 4096 < 16)%N by (apply N.Div0.div_lt_upper_bound; lia).
  rewrite !hex_value_digit by (done || by apply N.mod_lt). cbn. f_equal.
  change 4096%N with (16 * 16 * 16)%N. change 256%N with (16 * 16)%N.
  rewrite <- !N.Div0.div_div.
  pose proof (N.div_mod' c 16). pose proof (N.div_mod' (c / 16) 16).
  pose proof (N.div_mod' (c / 16 / 16) 16). lia.
Qed.

Lemma parse_string_escape c r :
  (c < 0x10000)%N ->
  parse_string (unicode_escape c ++ r) = (p ← parse_string r; Some (c :: p.1, p.2)).
Proof.
  intros Hc. destruct (hex4 c) as [|a [|b [|d [|e [|]]]]] eqn:E; try done.
  unfold unicode_escape. rewrite E. cbn [app]. cbn [parse_string].
  change (92 =? 34)%N with false. change (92 =? 92)%N with true. change (117 =? 117)%N with true.
  cbn iota. by rewrite (hex4_value_hex4 c).
Qed.

Lemma parse_string_raw c r :
  (32 <= c)%N -> c <> 34%N -> c <> 92%N ->
  parse_string (c :: r) = (p ← parse_string r; Some (c :: p.1, p.2)).
Proof.
  intros H1 H2%N.eqb_neq H3%N.eqb_neq. cbn [parse_string]. rewrite H2, H3.
  by rewrite (proj2 (N.ltb_ge _ _)).
Qed.

Lemma parse_string_unit c r :
  (c < 0x10000)%N ->
  parse_string (quote_unit c ++ r) = (p ← parse_string r; Some (c :: p.1, p.2)).
Proof.
  intros Hc. unfold quote_unit.
  repeat match goal with |- context [(c =? ?k)%N] =>
    destruct (N.eqb_spec c k) as [->|?]; [done|] end.
  destruct (c <? 32)%N eqn:E; [by apply parse_string_escape|].
  apply N.ltb_ge in E. by apply parse_string_raw.
Qed.

Lemma parse_string_body s r :
  is_jstr s = true -> parse_string (quote_body s ++ 34%N :: r) = Some (s, r).
Proof.
  induction s as [|h l t Hh Hl IH|h t Hu IH] using char_ind; intros Hj; [done| |];
    unfold is_jstr in Hj; cbn [forallb] in Hj; to_prop; unfold is_unit in *; to_prop.
  - cbn [quote_body]. rewrite Hh, Hl. unfold is_high, is_low in *. to_prop. cbn [app].
    rewrite !parse_string_raw by lia. by rewrite IH.
  - assert (quote_body (h :: t) =
      (if is_high h || is_low h then unicode_escape h else quote_unit h) ++ quote_body t) as ->.
    { cbn [quote_body]. destruct (is_high h) eqn:Eh; [|by destruct (is_low h)].
      destruct t as [|l t']; [by rewrite app_nil_r|]. by rewrite (Hu eq_refl l t' eq_refl). }
    rewrite <- app_assoc. destruct (_ || _).
    + rewrite parse_string_escape by done. by rewrite IH.
    + rewrite parse_string_unit by done. by rewrite IH.
Qed.

(** a string literal is read back exactly, lone surrogates included. *)
Theorem parse_string_json_quote s r :
  is_jstr s = true ->
  exists body, json_quote s = 34%N :: body /\ parse_string (body ++ r) = Some (s, r).
Proof.
  intros Hs. exists (quote_body s ++ [34%N]). split; [done|].
  rewrite <- app_assoc. by apply parse_string_body.
Qed.

(** * Numbers *)

Lemma units_uint_units d : units_uint (uint_units d) = Some d.
Proof. induction d; simpl; rewrite ?IHd; done. Qed.

(** A number's decimal has no leading zero. *)
Lemma to_uint_D0 n d : N.to_uint n = Decimal.D0 d -> d = Decimal.Nil.
Proof.
  intros E. pose proof (DecimalN.Unsigned.to_of (N.to_uint n)) as H.
  rewrite DecimalN.Unsigned.of_to, E in H. unfold unorm in H. cbn [nzhead] in H.
  destruct (nzhead d) eqn:Ed; try done; [by injection H|].
  by apply nzhead_nonzero in Ed.
Qed.

Lemma dec_N_nonnil n : dec_N n <> [].
Proof.
  unfold dec_N. intros E. apply (f_equal units_uint) in E. rewrite units_uint_units in E.
  injection E as E. destruct n as [|p]; [done|]. by apply (DecimalPos.Unsigned.to_uint_nonnil p).
Qed.

Lemma read_nat_dec n : read_nat (dec_N n) = Some n.
Proof.
  pose proof (dec_N_nonnil n) as Hn. unfold read_nat, dec_N in *.
  destruct (uint_units (N.to_uint n)) as [|c s] eqn:E; [done|].
  destruct ((c =? 48)%N && negb (bool_decide (s = []))) eqn:Ez.
  - apply andb_true_iff in Ez as [->%N.eqb_eq Hs%negb_true_iff%bool_decide_eq_false].
    destruct (N.to_uint n) as [|d|d|d|d|d|d|d|d|d|d] eqn:Eu; simplify_eq/=.
    by apply to_uint_D0 in Eu as ->.
  - rewrite <- E, units_uint_units. cbn. by rewrite DecimalN.Unsigned.of_to.
Qed.

Lemma read_int_dec z : read_int (dec z) = Some z.
Proof.
  destruct z as [|p|p]; [done| |].
  - cbn [dec Z.to_N]. pose proof (read_nat_dec (Npos p)) as Hr.
    pose proof (dec_N_digits (Npos p)) as Hd. destruct (dec_N (Npos p)) as [|c s]; [done|].
    apply Forall_cons in Hd as [Hc _]. unfold read_int.
    rewrite (proj2 (N.eqb_neq c 45)) by lia.
    by rewrite Hr.
  - cbn [dec]. unfold read_int. by rewrite read_nat_dec.
Qed.

(** What may follow a value in a text. *)
Definition delimited (rest : jstr) : Prop :=
  match rest with [] => True | c :: _ => is_number_unit c = false end.

Lemma span_forall P s rest :
  Forall (fun c => P c = true) s -> match rest with [] => True | c :: _ => P c = false end ->
  span P (s ++ rest) = (s, rest).
Proof.
  intros Hs Hr. induction Hs as [|c s Hc Hs IH]; cbn [app].
  - destruct rest as [|c rest]; [done|]. simpl. by rewrite Hr.
  - cbn [span]. by rewrite Hc, IH.
Qed.

Lemma dec_units z : exists c s, dec z = c :: s /\ ((48 <= c <= 57)%N \/ c = 45%N) /\
  Forall (fun c => is_number_unit c = true) (dec z).
Proof.
  assert (forall n, Forall (fun c => is_number_unit c = true) (dec_N n)) as Hd.
  { intros n. eapply Forall_impl; [apply dec_N_digits|]. intros c Hc.
    cbv beta in Hc. unfold is_number_unit, is_digit.
    by rewrite (proj2 (N.leb_le 48 c)), (proj2 (N.leb_le c 57)) by lia. }
  assert (forall n, exists c s, dec_N n = c :: s /\ (48 <= c <= 57)%N) as Hh.
  { intros n. pose proof (dec_N_nonnil n). pose proof (dec_N_digits n) as Hf.
    destruct (dec_N n) as [|c s]; [done|]. apply Forall_cons in Hf as [? _]. eauto. }
  destruct z as [|p|p]; cbn [dec].
  - exists 48%N, []. split_and!; [done|left; lia|apply (Hd 0%N)].
  - destruct (Hh (Npos p)) as (c & s & E & Hc). exists c, s. split_and!; [done|by left|apply Hd].
  - exists 45%N, (dec_N (Npos p)). split_and!; [done|by right|]. by apply Forall_cons_2; [|apply Hd].
Qed.

(** * The round trip *)

Section roundtrip.
Context `{JsonHost}.

Definition text (v : value) : jstr :=
  match stringify v with Some s => s | None => [] end.

Fixpoint need (v : value) : nat :=
  match v with
  | VArr items => S (list_sum (map (fun v => S (need v)) items))
  | VObj _ props => S (list_sum (map (fun kv => S (need kv.2)) props))
  | _ => 1
  end.

Lemma json_ok_text v : json_ok v = true -> stringify v = Some (text v).
Proof. unfold text. destruct v as [| |?|[]|?|?|??|]; simpl; done. Qed.

Lemma stringify_arr items :
  Forall (fun v => json_ok v = true) items ->
  text (VArr items) = js "[" ++ join (js ",") (map text items) ++ js "]".
Proof.
  intros Hf. unfold text at 1. cbn [stringify]. f_equal. f_equal. f_equal.
  induction Hf as [|v items Hv Hf IH]; [done|]. cbn [map]. by rewrite (json_ok_text v), IH.
Qed.

Definition member_text (kv : jstr * value) : jstr := json_quote kv.1 ++ js ":" ++ text kv.2.

Lemma stringify_obj b props :
  Forall (fun kv => is_jstr kv.1 && json_ok kv.2 = true) props ->
  text (VObj b props) = js "{" ++ join (js ",") (map member_text props) ++ js "}".
Proof.
  intros Hf. unfold text at 1. cbn [stringify]. f_equal. f_equal. f_equal.
  induction Hf as [|[k v] props Hv Hf IH]; [done|]. cbn [map omap list_omap fst snd] in *.
  apply andb_true_iff in Hv as [_ Hv]. rewrite (json_ok_text v) by done. cbn. by rewrite <- IH.
Qed.

(** A text starts with a unit that is no space, so nothing is skipped. *)
Lemma text_head v :
  json_ok v = true ->
  exists c s, text v = c :: s /\ is_json_space c = false /\ c <> 93%N /\ c <> 125%N.
Proof.
  destruct v as [| |b|n|s|items|b props|]; intros Hok; try done.
  - by eexists _, _.
  - by destruct b; eexists _, _.
  - destruct n as [| |z|]; try done. cbn [json_ok] in Hok. unfold text. cbn [stringify number_text].
    rewrite Hok. destruct (dec_units z) as (c & s & -> & Hc & _). exists c, s. split; [done|].
    unfold is_json_space. split_and!; [|lia..].
    rewrite !orb_false_iff, !N.eqb_neq. lia.
  - by eexists _, _.
  - by eexists _, _.
  - by eexists _, _.
Qed.

Lemma skip_space_head c s : is_json_space c = false -> skip_space (c :: s) = c :: s.
Proof. intros Hc. cbn [skip_space]. by rewrite Hc. Qed.

Lemma prop_set_fresh props k v : k ∉ props.*1 -> prop_set props k v = props ++ [(k, v)].
Proof.
  induction props as [|[k' v'] props IH]; [done|]. cbn [fmap list_fmap fst]. intros Hk.
  cbn [prop_set]. assert (jeqb k k' = false) as ->.
  { apply bool_decide_eq_false. set_solver. }
  rewrite IH by set_solver. done.
Qed.

Definition reads_back (v : value) : Prop :=
  json_ok v = true -> forall fuel rest, need v <= fuel -> delimited rest ->
  parse_value fuel (text v ++ rest) = Some (v, rest).

Lemma parse_items_text items :
  items <> [] -> Forall reads_back items -> Forall (fun v => json_ok v = true) items ->
  forall fuel rest, list_sum (map (fun v => S (need v)) items) <= fuel ->
  parse_items fuel (join (js ",") (map text items) ++ js "]" ++ rest) = Some (items, rest).
Proof.
  intros Hn Hr Hok. revert Hn. induction items as [|v items IH]; [done|]. intros _ [|fuel] rest Hf.
  { simpl in Hf. lia. }
  apply Forall_cons in Hr as [Hv Hr]. apply Forall_cons in Hok as [Hvok Hok].
  simpl in Hf. cbn [parse_items]. destruct items as [|v' items].
  - cbn [map join]. rewrite Hv by (done || lia). done.
  - cbn [map]. rewrite join_cons by done. rewrite <- !app_assoc.
    rewrite Hv by (done || lia). change (js "," ++ ?x) with (44%N :: x). cbn [mbind option_bind snd fst].
    rewrite skip_space_head by done. change (44 =? 93)%N with false. change (44 =? 44)%N with true.
    cbn iota. change (text v' :: map text items) with (map text (v' :: items)).
    rewrite IH by (done || (simpl in *; lia)). done.
Qed.

Lemma parse_props_text props acc :
  props <> [] -> Forall (fun kv => reads_back kv.2) props ->
  Forall (fun kv => is_jstr kv.1 && json_ok kv.2 = true) props ->
  NoDup (acc ++ props).*1 ->
  forall fuel rest, list_sum (map (fun kv => S (need kv.2)) props) <= fuel ->
  parse_props fuel acc (join (js ",") (map member_text props) ++ js "}" ++ rest)
    = Some (acc ++ props, rest).
Proof.
  intros Hn Hr Hok. revert Hn acc. induction props as [|[k v] props IH]; [done|].
  intros _ acc Hnd [|fuel] rest Hf. { simpl in Hf. lia. }
  apply Forall_cons in Hr as [Hv Hr]. apply Forall_cons in Hok as [Hvok Hok].
  simpl in Hf. cbn [fst snd] in *. apply andb_true_iff in Hvok as [Hk Hvok].
  assert (forall tail, delimited tail -> parse_props (S fuel) acc (member_text (k, v) ++ tail) =
    match skip_space tail with
    | d :: r2 => if (d =? 125)%N then Some (acc ++ [(k, v)], r2)
                 else if (d =? 44)%N then parse_props fuel (acc ++ [(k, v)]) r2 else None
    | [] => None
    end) as Hmem.
  { intros tail Ht. unfold member_text, json_quote. cbn [fst snd].
    rewrite <- !app_comm_cons, <- !app_assoc. cbn [parse_props].
    rewrite skip_space_head by done. change (34 =? 34)%N with true. cbn iota.
    cbn [app]. rewrite parse_string_body by done. cbn [mbind option_bind snd fst].
    change (js ":" ++ ?x) with (58%N :: x). rewrite skip_space_head by done.
    change (58 =? 58)%N with true. cbn iota. rewrite Hv by (done || lia).
    cbn [mbind option_bind snd fst]. rewrite prop_set_fresh; [done|].
    rewrite fmap_app in Hnd. apply NoDup_app in Hnd as (_ & Hd & _).
    intros Hin. apply (Hd _ Hin). simpl. set_solver. }
  destruct props as [|kv props].
  - cbn [map join]. by rewrite Hmem.
  - cbn [map]. rewrite join_cons by done. rewrite <- !app_assoc. change (js "," ++ ?x) with (44%N :: x).
    rewrite Hmem by done. rewrite skip_space_head by done.
    change (44 =? 125)%N with false. change (44 =? 44)%N with true. cbn iota.
    change (member_text kv :: map member_text props) with (map member_text (kv :: props)).
    rewrite IH by (done || (simpl in *; lia) || (by rewrite <- app_assoc)).
    by rewrite <- app_assoc.
Qed.

Lemma parse_value_text v : reads_back v.
Proof.
  induction v as [| | |b|n|s|items IH|b props IH] using value_rect'; intros Hok fuel rest Hf Hd;
    try done; (destruct fuel as [|fuel]; [simpl in Hf; lia|]).
  - done.
  - by destruct b.
  - destruct n as [| |z|]; try done. cbn [json_ok] in Hok. unfold text.
    cbn [stringify number_text]. rewrite Hok.
    destruct (dec_units z) as (c & s & Ec & Hc & Hall). cbn [parse_value].
    rewrite Ec. cbn [app]. rewrite skip_space_head.
    2:{ unfold is_json_space. rewrite !orb_false_iff, !N.eqb_neq. lia. }
    rewrite !(proj2 (N.eqb_neq c _)) by lia.
    rewrite app_comm_cons, <- Ec, span_forall by done.
    unfold number_token. rewrite read_int_dec, Hok. done.
  - cbn [json_ok] in Hok. unfold text, json_quote. cbn [stringify]. unfold json_quote. rewrite <- !app_comm_cons.
    cbn [parse_value].
    rewrite skip_space_head by done. change (34 =? 34)%N with true. cbn iota.
    rewrite <- app_assoc. cbn [app]. by rewrite parse_string_body.
  - cbn [json_ok] in Hok. apply forallb_Forall in Hok.
    rewrite stringify_arr by done. rewrite <- !app_assoc. cbn [parse_value].
    change (js "[" ++ ?x) with (91%N :: x). rewrite skip_space_head by done.
    change (91 =? 34)%N with false. change (91 =? 91)%N with true. cbn iota.
    destruct items as [|v items]; [done|].
    destruct (text_head v) as (c & s & Hcs & Hsp & Hc & _); [by apply Forall_cons in Hok as []|].
    assert (exists x, join (js ",") (map text (v :: items)) ++ js "]" ++ rest = c :: x) as [x Hx].
    { cbn [map]. destruct items; cbn [map join]; rewrite Hcs; eauto. }
    rewrite Hx, skip_space_head, (proj2 (N.eqb_neq c 93)) by done. rewrite <- Hx.
    rewrite parse_items_text by (done || (simpl in *; lia)). done.
  - cbn [json_ok] in Hok. to_prop. subst b. apply forallb_Forall in H1.
    rewrite stringify_obj by done. rewrite <- !app_assoc. cbn [parse_value].
    change (js "{" ++ ?x) with (123%N :: x). rewrite skip_space_head by done.
    change (123 =? 34)%N with false. change (123 =? 91)%N with false.
    change (123 =? 123)%N with true. cbn iota.
    destruct props as [|kv props]; [done|].
    assert (exists x, join (js ",") (map member_text (kv :: props)) ++ js "}" ++ rest = 34%N :: x) as [x Hx].
    { cbn [map]. destruct props; cbn [map join]; unfold member_text, json_quote; cbn [app]; eauto. }
    rewrite Hx, skip_space_head by done. change (34 =? 125)%N with false. cbn iota. rewrite <- Hx.
    rewrite parse_props_text by (done || (simpl in *; lia)). done.
Qed.

Lemma join_length_bound sep parts :
  list_sum (map length parts) <= length (join sep parts).
Proof.
  induction parts as [|p parts IH]; [done|]. destruct parts as [|p' parts].
  - simpl. lia.
  - rewrite join_cons by done. rewrite !length_app. simpl in *. lia.
Qed.

Lemma need_bound v : json_ok v = true -> S (need v) <= 2 * length (text v).
Proof.
  induction v as [| | |b|n|s|items IH|b props IH] using value_rect'; intros Hok; try done.
  - simpl. lia.
  - destruct b; simpl; lia.
  - destruct (text_head (VNum n) Hok) as (c & s & -> & _). simpl. lia.
  - destruct (text_head (VStr s) Hok) as (c & s' & -> & _). simpl. lia.
  - cbn [json_ok] in Hok. apply forallb_Forall in Hok. rewrite stringify_arr by done.
    rewrite !length_app. pose proof (join_length_bound (js ",") (map text items)).
    assert (list_sum (map (fun v => S (need v)) items) <= 2 * list_sum (map length (map text items))).
    { clear H0. induction IH as [|v items Hv IH IHl]; [done|].
      apply Forall_cons in Hok as [Hvok Hok]. specialize (Hv Hvok). specialize (IHl Hok).
      simpl in *. lia. }
    simpl in *. lia.
  - cbn [json_ok] in Hok. to_prop. apply forallb_Forall in H1. rewrite stringify_obj by done.
    rewrite !length_app. pose proof (join_length_bound (js ",") (map member_text props)).
    assert (list_sum (map (fun kv => S (need kv.2)) props)
      <= 2 * list_sum (map length (map member_text props))).
    { clear H0 H2 H3. induction IH as [|kv props Hv IH IHl]; [done|].
      apply Forall_cons in H1 as [Hvok Hok]. apply andb_true_iff in Hvok as [_ Hvok].
      specialize (Hv Hvok). specialize (IHl Hok).
      assert (length (text kv.2) <= length (member_text kv)).
      { unfold member_text. rewrite !length_app. lia. }
      simpl in *. lia. }
    simpl in *. lia.
Qed.

(** [JSON.parse (JSON.stringify v)] is [v] for every value built from [null],
    booleans, integers up to 2^53, strings, arrays and plain objects with distinct
    keys. *)
Theorem json_parse_stringify v s :
  json_ok v = true -> stringify v = Some s -> json_parse s = Some v.
Proof.
  intros Hok Hs. rewrite (json_ok_text v Hok) in Hs. injection Hs as <-.
  unfold json_parse. pose proof (need_bound v Hok).
  pose proof (parse_value_text v Hok (2 * length (text v)) [] ltac:(lia) I) as Hp.
  rewrite app_nil_r in Hp. rewrite Hp. done.
Qed.

End roundtrip.
