(* ===== verification/VaultPath.v ===== *)
(** [packages/vault-core/src/path.ts]: vault-relative paths, their validation and
    their resolution below the vault root. *)
From S2P Require Import Prelude JsString NodePath.

(** * Definitions *)

Definition MAX_PATH_LENGTH : Z := 1024.
Definition MAX_SEGMENT_LENGTH : Z := 255.
Definition INTERNAL_VAULT_PATH_SEGMENTS : list jstr :=
  [js ".git"; js ".gitattributes"; js ".gitignore"; js ".gitmodules"; js ".kb1"].

Inductive VaultPathKind := PKFile | PKFolder | PKArtifact.

#[export] Instance VaultPathKind_eq_dec : EqDecision VaultPathKind.
Proof. solve_decision. Defined.

(** [InvalidPathError]: the fields of the error object. *)
Record InvalidPathError := { ipe_input : jstr; ipe_reason : jstr }.

#[export] Instance InvalidPathError_eq_dec : EqDecision InvalidPathError.
Proof. solve_decision. Defined.

Definition quote_char : jstr := [34%N].

Definition ipe_message (e : InvalidPathError) : jstr :=
  js "Invalid vault path " ++ quote_char ++ ipe_input e ++ quote_char ++ js ": " ++ ipe_reason e.

Definition is_internal_segment (seg : jstr) : bool :=
  bool_decide (seg ∈ INTERNAL_VAULT_PATH_SEGMENTS).

(** The body of the loop over the segments. *)
Definition check_segment (input seg : jstr) : result InvalidPathError unit :=
  let bad reason := {| ipe_input := input; ipe_reason := reason |} in
  guard_err (bool_decide (seg = [])) (bad (js "path contains an empty segment")) ;;
  guard_err (jeqb seg (js ".") || jeqb seg (js ".."))
    (bad (js "path must not contain " ++ quote_char ++ js "." ++ quote_char ++ js " or "
          ++ quote_char ++ js ".." ++ quote_char ++ js " segments")) ;;
  guard_err (MAX_SEGMENT_LENGTH <? jlen seg)%Z
    (bad (js "segment exceeds " ++ dec MAX_SEGMENT_LENGTH ++ js " chars")) ;;
  guard_err (is_internal_segment seg) (bad (seg ++ js " is reserved for vault metadata")).

Fixpoint check_segments (input : jstr) (segs : list jstr) : result InvalidPathError unit :=
  match segs with
  | [] => Ok tt
  | seg :: segs' => check_segment input seg ;; check_segments input segs'
  end.

(** The extension rule for [kind = 'file']: the first dot is neither the first
    nor the last unit of the file name. *)
Definition bad_filename (filename : jstr) : bool :=
  match index_of_unit 46 filename with
  | None => true
  | Some dot => (dot =? 0)%nat || (Z.of_nat dot =? jlen filename - 1)%Z
  end.

Definition last_segment (segs : list jstr) : jstr := default [] (last segs).

Definition validateVaultPath (pf : platform) (input : jstr) (kind : VaultPathKind)
  : result InvalidPathError jstr :=
  let bad reason := {| ipe_input := input; ipe_reason := reason |} in
  guard_err (bool_decide (input = [])) (bad (js "path is empty")) ;;
  guard_err (MAX_PATH_LENGTH <? jlen input)%Z
    (bad (js "path exceeds " ++ dec MAX_PATH_LENGTH ++ js " chars")) ;;
  guard_err (includes input [backslash]) (bad (js "path must use forward slashes")) ;;
  guard_err (posix_isAbsolute input || isAbsolute pf input)
    (bad (js "path must be vault-relative")) ;;
  guard_err (starts_with input (js "/") || ends_with input (js "/"))
    (bad (js "path must not start or end with " ++ quote_char ++ js "/" ++ quote_char)) ;;
  let segments := split_on slash input in
  check_segments input segments ;;
  guard_err (bool_decide (kind = PKFile) && bad_filename (last_segment segments))
    (bad (js "file paths must end in name.ext")) ;;
  Ok input.

Definition validateOptionalVaultPath (pf : platform) (input : option jstr) (kind : VaultPathKind)
  : result InvalidPathError (option jstr) :=
  match input with
  | None => Ok None
  | Some [] => Ok None
  | Some p => Some <$> validateVaultPath pf p kind
  end.

Definition isInternalVaultPath (input : jstr) : bool :=
  if bool_decide (input = []) then false
  else existsb is_internal_segment (split_on slash input).

Definition relativeDescendantPath (parent child : jstr) : option jstr :=
  if jeqb child parent then Some []
  else let prefix := parent ++ [slash] in
       if starts_with child prefix then Some (slice_from child (length prefix)) else None.

Definition resolveVaultPath (cwd root relPath : jstr) : result InvalidPathError jstr :=
  let resolvedRoot := resolve cwd [root] in
  let resolved := resolve cwd [resolvedRoot; relPath] in
  guard_err (negb (jeqb resolved resolvedRoot)
             && negb (starts_with resolved (resolvedRoot ++ [slash])))
    {| ipe_input := relPath; ipe_reason := js "path escapes vault root" |} ;;
  Ok resolved.

(** * The shape of a valid path *)

(** What validation promises, stated on the segments of the path. *)
Record valid_path (pf : platform) (kind : VaultPathKind) (p : jstr) : Prop := {
  vp_length : (1 <= jlen p <= MAX_PATH_LENGTH)%Z;
  vp_relative : isAbsolute pf p = false;
  vp_no_backslash : backslash ∉ p;
  vp_segments : Forall (fun s => plain_seg s = true /\ (jlen s <= MAX_SEGMENT_LENGTH)%Z /\
                                 s ∉ INTERNAL_VAULT_PATH_SEGMENTS) (split_on slash p);
  vp_filename : kind = PKFile ->
    exists base ext, last_segment (split_on slash p) = base ++ 46%N :: ext /\
      base <> [] /\ ext <> [] /\ (46 ∉ base)%N
}.

Lemma is_internal_segment_spec s :
  is_internal_segment s = true <-> s ∈ INTERNAL_VAULT_PATH_SEGMENTS.
Proof. apply bool_decide_eq_true. Qed.

Lemma check_segment_ok input seg u :
  check_segment input seg = Ok u <->
  plain_seg seg = true /\ (jlen seg <= MAX_SEGMENT_LENGTH)%Z /\
  seg ∉ INTERNAL_VAULT_PATH_SEGMENTS.
Proof.
  rewrite plain_seg_spec. unfold check_segment. split.
  - intros H. inv_result. unfold jeqb in *. to_prop.
    assert (seg ∉ INTERNAL_VAULT_PATH_SEGMENTS).
    { rewrite <- is_internal_segment_spec. congruence. }
    split_and!; (done || lia).
  - intros ((H1 & H2 & H3) & H4 & H5). unfold jeqb.
    rewrite !bool_decide_eq_false_2 by done. simpl.
    rewrite (proj2 (Z.ltb_ge _ _)) by done. simpl.
    rewrite <- is_internal_segment_spec in H5. apply not_true_is_false in H5.
    rewrite H5. by destruct u.
Qed.

Lemma check_segments_ok input segs u :
  check_segments input segs = Ok u <->
  Forall (fun s => plain_seg s = true /\ (jlen s <= MAX_SEGMENT_LENGTH)%Z /\
                   s ∉ INTERNAL_VAULT_PATH_SEGMENTS) segs.
Proof.
  induction segs as [|s segs IH]; cbn [check_segments].
  - destruct u. split; [constructor|done].
  - rewrite Forall_cons, <- IH, <- (check_segment_ok input s tt). split.
    + intros H. inv_result. by destruct x.
    + intros [-> H]. done.
Qed.

Lemma includes_unit c s : includes s [c] = true <-> c ∈ s.
Proof.
  rewrite includes_spec. split.
  - intros (l & r & ->). set_solver.
  - intros H. apply list_elem_of_split in H as (l & r & ->). by exists l, r.
Qed.

Lemma bad_filename_spec f :
  bad_filename f = false <->
  exists base ext, f = base ++ 46%N :: ext /\ base <> [] /\ ext <> [] /\ (46 ∉ base)%N.
Proof.
  unfold bad_filename. destruct (index_of_unit 46 f) as [dot|] eqn:E.
  - apply index_of_unit_spec in E as (l & r & -> & <- & Hl).
    rewrite orb_false_iff, Nat.eqb_neq, Z.eqb_neq. unfold jlen. rewrite length_app. simpl. split.
    + intros [H1 H2]. exists l, r. split_and!; [done|by destruct l|by destruct r; simpl in *; [lia|]|done].
    + intros (b & e & Heq & Hb & He & Hd).
      apply app_eq_inv in Heq as [(k & -> & Hk)|(k & -> & Hk)].
      * destruct k as [|c k]; simpl in Hk; [|injection Hk as <- ->; set_solver].
        injection Hk as ->. rewrite app_nil_r in *.
        destruct b, r; simpl in *; (done || lia).
      * destruct k as [|c k]; simpl in Hk; [|injection Hk as <- ->; set_solver].
        injection Hk as ->. rewrite app_nil_r in *.
        destruct l, e; simpl in *; (done || lia).
  - apply index_of_unit_none in E. split; [done|].
    intros (b & e & -> & _). set_solver.
Qed.

Lemma split_head_abs p : posix_isAbsolute p = true -> exists r, split_on slash p = [] :: r.
Proof.
  unfold posix_isAbsolute. intros [r ->]%starts_with_spec. simpl. eauto.
Qed.

Lemma split_tail_slash p : ends_with p (js "/") = true -> [] ∈ split_on slash p.
Proof.
  intros [r ->]%ends_with_spec. change (js "/") with [slash]. rewrite split_on_app_sep. simpl. set_solver.
Qed.

Lemma plain_not_empty segs :
  Forall (fun s => plain_seg s = true /\ (jlen s <= MAX_SEGMENT_LENGTH)%Z /\
                   s ∉ INTERNAL_VAULT_PATH_SEGMENTS) segs -> [] ∉ segs.
Proof. intros Hf Hin. rewrite Forall_forall in Hf. by destruct (Hf _ Hin). Qed.

(** * Validation *)

Lemma validate_ok pf kind p q :
  validateVaultPath pf p kind = Ok q <-> q = p /\ valid_path pf kind p.
Proof.
  unfold validateVaultPath. split.
  - intros H. inv_result. split; [done|]. rewrite check_segments_ok in *.
    to_prop. split.
    + split; [|done]. destruct q; [done|]. unfold jlen. simpl. lia.
    + done.
    + rewrite <- includes_unit. congruence.
    + done.
    + intros ->. by apply bad_filename_spec.
  - intros [-> [[Hl1 Hl2] Hrel Hb Hs Hf]].
    assert (posix_isAbsolute p = false) as Habs.
    { apply not_true_is_false. intros [r Hr]%split_head_abs. rewrite Hr in Hs.
      apply plain_not_empty in Hs. set_solver. }
    assert (ends_with p (js "/") = false) as Hend.
    { apply not_true_is_false. intros He%split_tail_slash. by apply plain_not_empty in Hs. }
    assert (includes p [backslash] = false) as Hinc.
    { apply not_true_is_false. by rewrite includes_unit. }
    rewrite guard_err_pass by (apply bool_decide_eq_false_2; intros ->; done).
    rewrite guard_err_pass by by apply Z.ltb_ge.
    rewrite guard_err_pass by done.
    rewrite guard_err_pass by by rewrite Habs, Hrel.
    rewrite guard_err_pass by (by unfold posix_isAbsolute in Habs; rewrite Habs, Hend).
    rewrite (proj2 (check_segments_ok p _ tt) Hs), bind_ok.
    rewrite guard_err_pass; [done|]. apply andb_false_iff.
    destruct (decide (kind = PKFile)) as [Hk|Hk]; [right|left].
    + by apply bad_filename_spec, Hf.
    + by apply bool_decide_eq_false_2.
Qed.

(** C35: [validateVaultPath] accepts a path exactly when it is between 1 and 1024
    units long, relative, free of backslashes, every segment is plain (not empty,
    ["."] or [".."]), at most 255 units long and not reserved for vault metadata,
    and for a file the name has a nonempty base and extension; it then returns
    the path unchanged. *)
Theorem validateVaultPath_ok_iff pf kind p q :
  validateVaultPath pf p kind = Ok q <-> q = p /\ valid_path pf kind p.
Proof. apply validate_ok. Qed.

(** A valid path, taken apart. *)
Lemma valid_path_plain pf kind p : valid_path pf kind p -> plain_segs (split_on slash p) = true.
Proof.
  intros [_ _ _ Hs _]. apply plain_segs_spec.
  pose proof (split_on_forall slash p) as Hf. rewrite Forall_forall in *.
  intros s Hin. split; [by apply Hs|by apply Hf].
Qed.

(** a valid path is never one that [isInternalVaultPath] hides: no public
    operation reaches [.git] or [.kb1] through a validated path. *)
Theorem valid_path_not_internal pf kind p q :
  validateVaultPath pf p kind = Ok q -> isInternalVaultPath q = false.
Proof.
  intros [-> H]%validate_ok. unfold isInternalVaultPath. case_bool_decide; [done|].
  apply existsb_false_Forall. eapply Forall_impl; [apply H|].
  intros s (_ & _ & Hs). by apply bool_decide_eq_false_2.
Qed.

(** * Resolution *)

(** Resolution of plain segments appends them to the root's. *)
Lemma resolve_plain cwd root p base :
  resolve cwd [root] = abs_path base -> plain_segs base = true -> base <> [] ->
  plain_segs (split_on slash p) = true ->
  resolveVaultPath cwd root p = Ok (abs_path (base ++ split_on slash p)).
Proof.
  intros Er Hb Hbn Hps. unfold resolveVaultPath. rewrite Er.
  assert (resolve cwd [abs_path base; p] = abs_path (base ++ split_on slash p)) as ->.
  { rewrite <- (join_split slash p) at 1. apply resolve_below; auto with kb1. }
  rewrite guard_err_pass; [done|]. apply andb_false_iff. right.
  apply negb_false_iff, starts_with_spec. exists p.
  rewrite abs_path_app, join_split by auto with kb1. by rewrite <- app_assoc.
Qed.

(** below any root whose resolution is not the file system root, a valid path
    resolves to the root's absolute path followed by the path's own segments; the
    containment guard never fires and no segment is lost. *)
Theorem resolveVaultPath_valid pf kind cwd root p :
  posix_isAbsolute cwd = true -> resolve cwd [root] <> js "/" -> valid_path pf kind p ->
  resolveVaultPath cwd root p = Ok (resolve cwd [root] ++ slash :: p).
Proof.
  intros Hcwd Hroot Hp%valid_path_plain.
  destruct (resolve_shape cwd root Hcwd) as (base & Hb & Er).
  assert (base <> []) as Hbn by (intros ->; by rewrite Er in Hroot).
  rewrite (resolve_plain cwd root p base) by done. rewrite Er.
  by rewrite abs_path_app, join_split by auto with kb1.
Qed.

(** whatever relative path it is given, [resolveVaultPath] never returns a
    path outside the root: the result is the root itself or lies below it. *)
Theorem resolveVaultPath_contained cwd root p r :
  resolveVaultPath cwd root p = Ok r ->
  r = resolve cwd [root] \/ exists t, r = resolve cwd [root] ++ slash :: t.
Proof.
  unfold resolveVaultPath. intros H. inv_result. apply andb_false_iff in H as [H|H]; to_prop.
  - left. by apply jeqb_eq.
  - right. apply starts_with_spec in H as [t ->]. exists t. by rewrite <- app_assoc.
Qed.

(** * Descendants *)

Lemma relativeDescendantPath_spec parent child s :
  relativeDescendantPath parent child = Some s <->
  (s = [] /\ child = parent) \/ (child <> parent /\ child = parent ++ slash :: s).
Proof.
  unfold relativeDescendantPath. destruct (jeqb child parent) eqn:E.
  - apply jeqb_eq in E as ->. split; [intros [= <-]; auto|naive_solver].
  - assert (child <> parent) as Hne by (intros ->; by rewrite (proj2 (jeqb_eq _ _)) in E).
    destruct (starts_with child (parent ++ [slash])) eqn:E2.
    + apply starts_with_spec in E2 as [r ->]. unfold slice_from. rewrite drop_app_length.
      rewrite <- app_assoc in *. cbn [app] in *. split.
      * intros [= ->]. auto.
      * intros [[_ Hc]|[_ H]]; [done|].
        by apply app_inv_head in H as [= ->].
    + split; [done|]. intros [[_ ?]|[_ ->]]; [done|].
      by rewrite (proj2 (starts_with_spec _ _)) in E2
        by (exists s; by rewrite <- app_assoc).
Qed.

Lemma relativeDescendantPath_none parent child :
  relativeDescendantPath parent child = None <->
  child <> parent /\ forall s, child <> parent ++ slash :: s.
Proof.
  destruct (relativeDescendantPath parent child) as [s|] eqn:E.
  - apply relativeDescendantPath_spec in E. naive_solver.
  - split; [|done]. intros _.
    assert (child <> parent) as Hne.
    { intros ->. pose proof (proj2 (relativeDescendantPath_spec parent parent [])). naive_solver. }
    split; [done|]. intros s ->.
    pose proof (proj2 (relativeDescendantPath_spec parent (parent ++ slash :: s) s)). naive_solver.
Qed.

Lemma descendant_segments parent child :
  is_Some (relativeDescendantPath parent child) <->
  exists rest, split_on slash child = split_on slash parent ++ rest.
Proof.
  split.
  - intros [s [[-> ->]|[_ ->]]%relativeDescendantPath_spec].
    + exists []. by rewrite app_nil_r.
    + rewrite split_on_app_sep. eauto.
  - intros [rest Hr]. destruct (decide (rest = [])) as [->|Hn].
    + rewrite app_nil_r in Hr. apply split_on_inj in Hr as ->.
      exists []. apply relativeDescendantPath_spec. auto.
    + exists (join [slash] rest). apply relativeDescendantPath_spec. right.
      assert (child = parent ++ slash :: join [slash] rest) as ->.
      { rewrite <- (join_split slash child), Hr, join_app by auto with kb1.
        by rewrite join_split. }
      split; [|done]. intros H. apply (f_equal length) in H. rewrite length_app in H.
      simpl in H. lia.
Qed.

(** [relativeDescendantPath parent child] answers the segments of [child]
    that follow those of [parent]: it succeeds exactly when the segments of
    [parent] are a prefix of those of [child]. *)
Theorem relativeDescendantPath_segments parent child :
  is_Some (relativeDescendantPath parent child) <->
  exists rest, split_on slash child = split_on slash parent ++ rest.
Proof. apply descendant_segments. Qed.
