(* ===== verification/Splice.v ===== *)
(** [packages/vault-core/src/splice.ts]: text edits on a document.  Matching is
    done on the text with its line endings normalized to LF, the edit on the raw
    text, through the raw offset of every normalized unit. *)
From S2P Require Import Prelude JsString Utf8.

(** * Definitions *)

Definition SPLICE_BYTES_LIMIT : Z := 64 * 1024.
Definition DOCUMENT_BYTES_LIMIT : Z := 1024 * 1024.

Definition CR : N := 13.
Definition LF : N := 10.

(** [value.replace(/\r\n/g, '\n')] and [value.replace(/\r/g, '\n')]. *)
Fixpoint replace_crlf (s : jstr) : jstr :=
  match s with
  | [] => []
  | c :: rest =>
      match rest with
      | d :: rest' => if (c =? CR)%N && (d =? LF)%N then LF :: replace_crlf rest'
                      else c :: replace_crlf rest
      | [] => [c]
      end
  end.
Definition replace_cr (s : jstr) : jstr := map (fun c => if (c =? CR)%N then LF else c) s.
Definition lfNormalize (value : jstr) : jstr := replace_cr (replace_crlf value).

Definition utf8ByteLength (value : jstr) : Z := Z.of_nat (length (encode value)).

Record AnchoredSpliceRequest := {
  oldText : jstr;
  newText : jstr;
  before : option jstr;
  after : option jstr;
  occurrence : option Z
}.

Inductive AnchoredSpliceResult :=
| SpliceOk (content : jstr)
| SpliceNotFound
| SpliceAmbiguous (match_count : nat)
| SpliceTooLargeSplice (limit_bytes : Z)
| SpliceTooLargeDocument (current_bytes limit_bytes : Z).

(** The [while] loop of [findAllSubstringOffsets]; one unit of fuel per match. *)
Fixpoint find_offsets (fuel : nat) (haystack needle : jstr) (from : nat) : list nat :=
  match fuel with
  | 0 => []
  | S fuel =>
      if (from + length needle <=? length haystack)%nat then
        match index_of haystack needle from with
        | None => []
        | Some at_ => at_ :: find_offsets fuel haystack needle (at_ + 1)
        end
      else []
  end.

Definition findAllSubstringOffsets (haystack needle : jstr) : list nat :=
  if (length needle =? 0)%nat then []
  else find_offsets (S (length haystack)) haystack needle 0.

(** The [while] loop of [normalizeWithRawOffsets], from [rawIndex] on; [rest] is
    what is left of the content there. *)
Fixpoint normalize_from (rawIndex : nat) (rest : jstr) : jstr * list nat :=
  match rest with
  | [] => ([], [rawIndex])
  | c :: rest1 =>
      if (c =? CR)%N then
        match rest1 with
        | d :: rest2 =>
            let '(v, o) := if (d =? LF)%N then normalize_from (rawIndex + 2) rest2
                           else normalize_from (rawIndex + 1) rest1 in
            (LF :: v, rawIndex :: o)
        | [] => ([LF], [rawIndex; rawIndex + 1])
        end
      else let '(v, o) := normalize_from (rawIndex + 1) rest1 in (c :: v, rawIndex :: o)
  end.

Definition normalizeWithRawOffsets (content : jstr) : jstr * list nat := normalize_from 0 content.

(** [array[i]] for a number [i]: [undefined] when [i] is not an index. *)
Definition array_at {A} (l : list A) (i : Z) : option A :=
  if (i <? 0)%Z then None else l !! Z.to_nat i.

(** The match that is edited, or why there is none. *)
Definition pick_match (matches : list nat) (occ : option Z) : AnchoredSpliceResult + nat :=
  match matches with
  | [] => inl SpliceNotFound
  | [m] => inr m
  | _ =>
      match occ with
      | Some o => match array_at matches (o - 1) with
                  | None => inl SpliceNotFound
                  | Some picked => inr picked
                  end
      | None => inl (SpliceAmbiguous (length matches))
      end
  end.

Definition applyAnchoredSplice (content : jstr) (request : AnchoredSpliceRequest)
  : AnchoredSpliceResult :=
  let old := lfNormalize (oldText request) in
  let new := lfNormalize (newText request) in
  let bef := match before request with None => [] | Some b => lfNormalize b end in
  let aft := match after request with None => [] | Some a => lfNormalize a end in
  if (SPLICE_BYTES_LIMIT <? utf8ByteLength old)%Z || (SPLICE_BYTES_LIMIT <? utf8ByteLength new)%Z
  then SpliceTooLargeSplice SPLICE_BYTES_LIMIT
  else
    let '(value, rawOffsets) := normalizeWithRawOffsets content in
    let needle := bef ++ old ++ aft in
    let matches := if bool_decide (content = []) && bool_decide (needle = []) then [0]
                   else findAllSubstringOffsets value needle in
    match pick_match matches (occurrence request) with
    | inl rejected => rejected
    | inr matchOffset =>
        let oldOffset := matchOffset + length bef in
        let rawOldOffset := default 0 (rawOffsets !! oldOffset) in
        let rawOldEndOffset := default 0 (rawOffsets !! (oldOffset + length old)) in
        let next := slice content 0 rawOldOffset ++ new ++ slice_from content rawOldEndOffset in
        let nextBytes := utf8ByteLength next in
        if (DOCUMENT_BYTES_LIMIT <? nextBytes)%Z
        then SpliceTooLargeDocument nextBytes DOCUMENT_BYTES_LIMIT
        else SpliceOk next
    end.

Definition appendContent (content addition : jstr) : jstr := content ++ lfNormalize addition.

(** The [while] loop of [nextLineEnd]: [rest] is the content from [index] on. *)
Fixpoint line_end (index : nat) (rest : jstr) : nat * nat :=
  match rest with
  | [] => (index, index)
  | c :: rest1 =>
      if (c =? LF)%N then (index, index + 1)
      else if (c =? CR)%N then
        (index, match rest1 with
                | d :: _ => if (d =? LF)%N then index + 2 else index + 1
                | [] => index + 1
                end)
      else line_end (index + 1) rest1
  end.

Definition nextLineEnd (content : jstr) (lineStart : nat) : nat * nat :=
  line_end lineStart (slice_from content lineStart).

(** [/^---(?:\r\n|\n|\r)/.exec(content)]: the length of the match. *)
Definition opening_length (content : jstr) : option nat :=
  if starts_with content (js "---" ++ [CR; LF]) then Some 5
  else if starts_with content (js "---" ++ [LF]) then Some 4
  else if starts_with content (js "---" ++ [CR]) then Some 4
  else None.

(** The [while] loop of [frontmatterInsertionPoint]; one unit of fuel per line. *)
Fixpoint find_closing (fuel : nat) (content : jstr) (lineStart : nat) : option nat :=
  match fuel with
  | 0 => None
  | S fuel =>
      if (lineStart <? length content)%nat then
        let '(contentEnd, nextStart) := nextLineEnd content lineStart in
        let line := slice content lineStart contentEnd in
        if jeqb (trim line) (js "---") then Some nextStart
        else find_closing fuel content nextStart
      else None
  end.

Definition frontmatterInsertionPoint (content : jstr) : option nat :=
  match opening_length content with
  | None => None
  | Some start => find_closing (length content) content start
  end.

Definition endsWithLineEnding (value : jstr) : bool :=
  ends_with value [LF] || ends_with value [CR].

Definition prependContent (content addition : jstr) : jstr :=
  let normalizedAddition := lfNormalize addition in
  let insertionPoint := default 0 (frontmatterInsertionPoint content) in
  let separator :=
    if (0 <? insertionPoint)%nat && (0 <? length normalizedAddition)%nat
       && negb (endsWithLineEnding (slice content 0 insertionPoint))
    then [LF] else [] in
  slice content 0 insertionPoint ++ separator ++ normalizedAddition
    ++ slice_from content insertionPoint.

(** * Line ending normalization *)

(** Induction on a text one character at a time, CR LF counting as one. *)
Lemma line_ind (P : jstr -> Prop) :
  P [] ->
  (forall t, P t -> P (CR :: LF :: t)) ->
  (forall t, (forall t', t <> LF :: t') -> P t -> P (CR :: t)) ->
  (forall c t, c <> CR -> P t -> P (c :: t)) ->
  forall s, P s.
Proof.
  intros Hn Hcrlf Hcr Hc s. remember (length s) as n eqn:En.
  revert s En. induction (lt_wf n) as [n _ IH]. intros [|c t] ->; [done|].
  destruct (decide (c = CR)) as [->|Hne].
  - destruct t as [|d t'].
    + apply Hcr; [done|]. by eapply IH; [|done]; simpl; lia.
    + destruct (decide (d = LF)) as [->|Hd].
      * apply Hcrlf. eapply IH; [|done]. simpl; lia.
      * apply Hcr; [congruence|]. eapply IH; [|done]. simpl; lia.
  - apply Hc; [done|]. eapply IH; [|done]. simpl; lia.
Qed.

Lemma lfNormalize_crlf t : lfNormalize (CR :: LF :: t) = LF :: lfNormalize t.
Proof. done. Qed.
Lemma lfNormalize_cr t : (forall t', t <> LF :: t') -> lfNormalize (CR :: t) = LF :: lfNormalize t.
Proof.
  intros H. unfold lfNormalize. destruct t as [|d t]; [done|].
  cbn [replace_crlf]. rewrite N.eqb_refl. cbn [andb].
  destruct (N.eqb_spec d LF) as [->|]; [by destruct (H t)|done].
Qed.
Lemma lfNormalize_other c t : c <> CR -> lfNormalize (c :: t) = c :: lfNormalize t.
Proof.
  intros H. unfold lfNormalize. cbn [replace_crlf].
  apply N.eqb_neq in H as Hc. destruct t as [|d t]; rewrite ?Hc; cbn [andb replace_cr map];
    by rewrite Hc.
Qed.

Lemma lfNormalize_no_cr s : CR ∉ lfNormalize s.
Proof.
  induction s using line_ind;
    rewrite ?lfNormalize_crlf, ?lfNormalize_cr, ?lfNormalize_other by done; [set_solver|..];
    (intros [?|?]%elem_of_cons; [done|done]).
Qed.

Lemma lfNormalize_id s : CR ∉ s -> lfNormalize s = s.
Proof.
  induction s as [|c s IH]; intros H; [done|].
  rewrite lfNormalize_other by set_solver. f_equal. apply IH. set_solver.
Qed.

(** [lfNormalize] leaves no carriage return and is idempotent. *)
Theorem lfNormalize_idempotent s : (CR ∉ lfNormalize s) /\ (lfNormalize (lfNormalize s) = lfNormalize s).
Proof. pose proof (lfNormalize_no_cr s). auto using lfNormalize_id. Qed.

Lemma lfNormalize_app_no_lf s t :
  (forall t', t <> LF :: t') -> lfNormalize (s ++ t) = lfNormalize s ++ lfNormalize t.
Proof.
  intros Ht. induction s as [|s IH|s Hs IH|c s Hc IH] using line_ind; [done| | |].
  - cbn [app]. rewrite !lfNormalize_crlf, IH. done.
  - cbn [app]. rewrite !lfNormalize_cr, IH; [done..|].
    destruct s; simpl; [done|]. intros t' [= -> _]. by eapply Hs.
  - cbn [app]. rewrite !lfNormalize_other, IH by done. done.
Qed.

(** * Raw offsets *)

(** The raw offset of the [k]-th unit of the normalized text. *)
Fixpoint raw_pos (s : jstr) (k : nat) {struct s} : nat :=
  match k, s with
  | 0, _ => 0
  | S _, [] => 0
  | S k, c :: rest1 =>
      if (c =? CR)%N then
        match rest1 with
        | d :: rest2 => if (d =? LF)%N then 2 + raw_pos rest2 k else 1 + raw_pos rest1 k
        | [] => 1
        end
      else 1 + raw_pos rest1 k
  end.

Lemma raw_pos_0 s : raw_pos s 0 = 0.
Proof. by destruct s. Qed.
Lemma raw_pos_nil k : raw_pos [] k = 0.
Proof. by destruct k. Qed.
Lemma raw_pos_crlf t k : raw_pos (CR :: LF :: t) (S k) = 2 + raw_pos t k.
Proof. done. Qed.
Lemma raw_pos_cr t k : (forall t', t <> LF :: t') -> raw_pos (CR :: t) (S k) = 1 + raw_pos t k.
Proof.
  intros H. destruct t as [|d t]; [by destruct k|].
  cbn [raw_pos]. rewrite N.eqb_refl. destruct (N.eqb_spec d LF) as [->|]; [by destruct (H t)|done].
Qed.
Lemma raw_pos_other c t k : c <> CR -> raw_pos (c :: t) (S k) = 1 + raw_pos t k.
Proof. intros H%N.eqb_neq. cbn [raw_pos]. by rewrite H. Qed.

Lemma normalize_from_cr r t :
  (forall t', t <> LF :: t') ->
  normalize_from r (CR :: t) =
    (LF :: (normalize_from (r + 1) t).1, r :: (normalize_from (r + 1) t).2).
Proof.
  intros H. destruct t as [|d t]; [done|]. cbn [normalize_from]. rewrite N.eqb_refl.
  destruct (N.eqb_spec d LF) as [->|]; [by destruct (H t)|].
  repeat case_match; simplify_eq/=; done.
Qed.

Lemma seq_S_map n : seq 0 (S n) = 0 :: (S <$> seq 0 n).
Proof. simpl. by rewrite fmap_S_seq. Qed.

Lemma normalize_from_spec r s :
  normalize_from r s =
    (lfNormalize s, (fun k => r + raw_pos s k) <$> seq 0 (S (length (lfNormalize s)))).
Proof.
  revert r. induction s as [|t IH|t Ht IH|c t Hc IH] using line_ind; intros r.
  - simpl. by rewrite Nat.add_0_r.
  - rewrite lfNormalize_crlf. cbn [normalize_from]. rewrite !N.eqb_refl, IH.
    cbn [length]. rewrite (seq_S_map (S _)), fmap_cons, raw_pos_0, Nat.add_0_r.
    do 2 f_equal. rewrite <- list_fmap_compose. apply list_fmap_ext. intros _ k _. simpl. lia.
  - rewrite normalize_from_cr, lfNormalize_cr, IH by done.
    cbn [length fst snd]. rewrite (seq_S_map (S _)), fmap_cons, raw_pos_0, Nat.add_0_r.
    do 2 f_equal. rewrite <- list_fmap_compose. apply list_fmap_ext. intros _ k _.
    cbn [compose]. rewrite raw_pos_cr by done. lia.
  - rewrite lfNormalize_other by done. cbn [normalize_from].
    rewrite (proj2 (N.eqb_neq _ _) Hc), IH.
    cbn [length fst snd]. rewrite (seq_S_map (S _)), fmap_cons, raw_pos_0, Nat.add_0_r.
    do 2 f_equal. rewrite <- list_fmap_compose. apply list_fmap_ext. intros _ k _.
    cbn [compose]. rewrite raw_pos_other by done. lia.
Qed.

Lemma normalizeWithRawOffsets_spec content :
  normalizeWithRawOffsets content =
    (lfNormalize content, raw_pos content <$> seq 0 (S (length (lfNormalize content)))).
Proof. apply normalize_from_spec. Qed.

Lemma raw_offset_lookup content k :
  k <= length (lfNormalize content) ->
  default 0 ((raw_pos content <$> seq 0 (S (length (lfNormalize content)))) !! k) = raw_pos content k.
Proof.
  intros Hk. rewrite list_lookup_fmap, lookup_seq_lt by lia. done.
Qed.

(** Cutting the raw text at a raw offset cuts the normalized text. *)
Lemma raw_pos_cut s k :
  k <= length (lfNormalize s) ->
  lfNormalize (take (raw_pos s k) s) = take k (lfNormalize s) /\
  lfNormalize (drop (raw_pos s k) s) = drop k (lfNormalize s) /\
  raw_pos s k <= length s.
Proof.
  revert k. induction s as [|t IH|t Ht IH|c t Hc IH] using line_ind; intros [|k] Hk;
    rewrite ?raw_pos_0; try (split_and!; [done|done|simpl; lia]).
  - rewrite lfNormalize_crlf in *. simpl in Hk. destruct (IH k ltac:(lia)) as (H1 & H2 & H3).
    rewrite raw_pos_crlf. cbn [plus take drop length]. rewrite lfNormalize_crlf, H1.
    split_and!; [done|done|lia].
  - rewrite lfNormalize_cr in * by done. simpl in Hk.
    destruct (IH k ltac:(lia)) as (H1 & H2 & H3).
    rewrite raw_pos_cr by done. cbn [plus take drop length].
    rewrite lfNormalize_cr, H1; [split_and!; [done|done|lia]|].
    intros t' Heq. destruct t as [|d t]; [by rewrite take_nil in Heq|].
    destruct (raw_pos (d :: t) k); [done|]. injection Heq as -> _. by eapply Ht.
  - rewrite lfNormalize_other in * by done. simpl in Hk.
    destruct (IH k ltac:(lia)) as (H1 & H2 & H3).
    rewrite raw_pos_other by done. cbn [plus take drop length].
    rewrite lfNormalize_other, H1 by done. split_and!; [done|done|lia].
Qed.

Lemma raw_pos_add s j k :
  j + k <= length (lfNormalize s) ->
  raw_pos s (j + k) = raw_pos s j + raw_pos (drop (raw_pos s j) s) k.
Proof.
  revert j. induction s as [|t IH|t Ht IH|c t Hc IH] using line_ind; intros [|j] Hk;
    rewrite ?raw_pos_0; try done; cbn [plus].
  - by rewrite drop_nil, !raw_pos_nil.
  - rewrite lfNormalize_crlf in Hk. simpl in Hk. rewrite !raw_pos_crlf, IH by lia. done.
  - rewrite lfNormalize_cr in Hk by done. simpl in Hk.
    rewrite !raw_pos_cr, IH by (done || lia). done.
  - rewrite lfNormalize_other in Hk by done. simpl in Hk.
    rewrite !raw_pos_other, IH by (done || lia). done.
Qed.

(** Three consecutive parts of the normalized text are the normal forms of three
    consecutive parts of the raw text. *)
Lemma raw_split s a b c :
  lfNormalize s = a ++ b ++ c ->
  exists l m r, s = l ++ m ++ r /\ lfNormalize l = a /\ lfNormalize m = b /\ lfNormalize r = c /\
    take (raw_pos s (length a)) s = l /\
    drop (raw_pos s (length a + length b)) s = r.
Proof.
  intros Hs. assert (length (lfNormalize s) = length a + length b + length c) as Hl.
  { rewrite Hs, !length_app. lia. }
  destruct (raw_pos_cut s (length a) ltac:(lia)) as (H1 & H2 & H3).
  rewrite Hs, take_app_length in H1. rewrite Hs, drop_app_length in H2.
  set (s2 := drop (raw_pos s (length a)) s) in *.
  destruct (raw_pos_cut s2 (length b)) as (H4 & H5 & H6); [rewrite H2, length_app; lia|].
  rewrite H2, take_app_length in H4. rewrite H2, drop_app_length in H5.
  exists (take (raw_pos s (length a)) s), (take (raw_pos s2 (length b)) s2),
    (drop (raw_pos s2 (length b)) s2).
  split_and!; [|done..|].
  - by rewrite take_drop; unfold s2; rewrite take_drop.
  - rewrite raw_pos_add by lia. unfold s2. by rewrite drop_drop.
Qed.

(** * Occurrences *)

Definition occurs_at (haystack needle : jstr) (i : nat) : Prop :=
  starts_with (drop i haystack) needle = true.

#[export] Instance occurs_at_dec h n i : Decision (occurs_at h n i).
Proof. unfold occurs_at. apply _. Defined.

(** Reference definition: every offset at which the needle occurs, in order. *)
Definition occurrences (haystack needle : jstr) : list nat :=
  filter (fun i => occurs_at haystack needle i) (seq 0 (S (length haystack))).

Lemma occurs_at_bound h n i : occurs_at h n i -> n <> [] -> i + length n <= length h.
Proof.
  intros [r Hr]%starts_with_spec Hn. apply (f_equal length) in Hr.
  rewrite length_drop, length_app in Hr. destruct n; [done|]. simpl in *. lia.
Qed.

Lemma filter_seq_none (P : nat -> Prop) `{forall x, Decision (P x)} a n :
  (forall i, a <= i < a + n -> ~ P i) -> filter P (seq a n) = [].
Proof.
  revert a. induction n as [|n IH]; intros a Hn; [done|]. simpl.
  rewrite filter_cons_False by (apply Hn; lia). apply IH. intros i Hi. apply Hn. lia.
Qed.

Lemma filter_seq_first (P : nat -> Prop) `{forall x, Decision (P x)} a n k :
  a <= k < a + n -> P k -> (forall i, a <= i < k -> ~ P i) ->
  filter P (seq a n) = k :: filter P (seq (S k) (a + n - S k)).
Proof.
  intros Hk HP Hbefore. replace n with ((k - a) + S (a + n - S k)) at 1 by lia.
  rewrite seq_app, filter_app, filter_seq_none by (intros i Hi; apply Hbefore; lia).
  replace (a + (k - a)) with k by lia. cbn [app seq]. by rewrite filter_cons_True.
Qed.

Lemma index_of_first h n from i :
  index_of h n from = Some i ->
  from <= i /\ occurs_at h n i /\ forall j, from <= j < i -> ~ occurs_at h n j.
Proof.
  unfold index_of. intros (k & Hk & ->)%fmap_Some. split_and!; [lia| |].
  - apply find_sub_spec in Hk as (l & r & Hs & <-). unfold occurs_at.
    rewrite <- drop_drop, Hs, drop_app_length. apply starts_with_app.
  - intros j [Hj1 Hj2] [r Hr]%starts_with_spec.
    assert (k <= j - from); [|lia].
    eapply (find_sub_first _ _ _ _ (take (j - from) (drop from h)) r); [done| |].
    + rewrite <- Hr. replace j with (from + (j - from)) at 2 by lia.
      rewrite <- drop_drop. by rewrite take_drop.
    + apply (f_equal length) in Hr. rewrite length_drop, length_app in Hr.
      rewrite length_take, length_drop.
      assert (from + k <= length h).
      { apply find_sub_spec in Hk as (l & r' & Hs & <-). apply (f_equal length) in Hs.
        rewrite length_drop, !length_app in Hs. lia. }
      lia.
Qed.

Lemma index_of_none h n from i : index_of h n from = None -> from <= i -> ~ occurs_at h n i.
Proof.
  unfold index_of. intros Hn%fmap_None Hi [r Hr]%starts_with_spec.
  apply (find_sub_none _ _ (take (i - from) (drop from h)) r) in Hn. apply Hn.
  rewrite <- Hr. replace i with (from + (i - from)) at 2 by lia.
  rewrite <- drop_drop. by rewrite take_drop.
Qed.

Lemma find_offsets_spec fuel h n from :
  n <> [] -> length h < fuel + from ->
  find_offsets fuel h n from = filter (fun i => occurs_at h n i) (seq from (S (length h) - from)).
Proof.
  intros Hn. revert from. induction fuel as [|fuel IH]; intros from Hf; cbn [find_offsets].
  - by replace (S (length h) - from) with 0 by lia.
  - destruct (Nat.leb_spec (from + length n) (length h)) as [Hle|Hgt].
    + destruct (index_of h n from) as [i|] eqn:E.
      * apply index_of_first in E as (H1 & H2 & H3).
        pose proof (occurs_at_bound _ _ _ H2 Hn).
        rewrite (filter_seq_first _ _ _ i) by (done || lia).
        rewrite IH by lia. repeat f_equal; lia.
      * rewrite filter_seq_none; [done|]. intros j Hj. eapply index_of_none; [done|lia].
    + rewrite filter_seq_none; [done|]. intros j Hj Ho%occurs_at_bound; [lia|done].
Qed.

(** C39: the scanning loop of [findAllSubstringOffsets] terminates with every
    offset at which a nonempty needle occurs, overlapping ones included, in
    increasing order. *)
Theorem findAllSubstringOffsets_occurrences haystack needle :
  needle <> [] -> findAllSubstringOffsets haystack needle = occurrences haystack needle.
Proof.
  intros Hn. unfold findAllSubstringOffsets. 
  destruct (Nat.eqb_spec (length needle) 0) as [H%nil_length_inv|_]; [done|].
  rewrite find_offsets_spec by (done || lia). by rewrite Nat.sub_0_r.
Qed.

(** * The anchored splice *)

Section splice.
Context (content : jstr) (req : AnchoredSpliceRequest).

Let old := lfNormalize (oldText req).
Let new := lfNormalize (newText req).
Let bef := match before req with None => [] | Some b => lfNormalize b end.
Let aft := match after req with None => [] | Some a => lfNormalize a end.

(** Where the request matches, the empty document included. *)
Definition request_matches : list nat :=
  if bool_decide (content = []) && bool_decide (bef ++ old ++ aft = []) then [0]
  else findAllSubstringOffsets (lfNormalize content) (bef ++ old ++ aft).

(** One edit of [content]: some raw text whose normal form is [old], found
    between the two anchors, is replaced by [new]. *)
Definition splice_of (m : nat) (next : jstr) : Prop :=
  exists l x r a b, content = l ++ x ++ r /\ next = l ++ new ++ r /\
    lfNormalize l = a ++ bef /\ lfNormalize x = old /\ lfNormalize r = aft ++ b /\
    length a = m.

Lemma request_match_occurs m :
  m ∈ request_matches ->
  exists a b, lfNormalize content = (a ++ bef) ++ old ++ (aft ++ b) /\ length a = m.
Proof using Type.
  unfold request_matches. destruct (bool_decide (content = [])) eqn:Ec; cbn [andb].
  - apply bool_decide_eq_true in Ec as ->. case_bool_decide as E.
    + intros ->%list_elem_of_singleton. apply app_nil in E as [-> [-> ->]%app_nil].
      by exists [], [].
    + rewrite findAllSubstringOffsets_occurrences by done. unfold occurrences.
      intros [Ho _]%list_elem_of_filter. apply occurs_at_bound in Ho; [|done].
      destruct (bef ++ old ++ aft); simpl in *; [done|lia].
  - destruct (decide (bef ++ old ++ aft = [])) as [E|E].
    + rewrite E. unfold findAllSubstringOffsets. simpl. by intros ?%elem_of_nil.
    + rewrite findAllSubstringOffsets_occurrences by done. unfold occurrences.
      intros [Ho _]%list_elem_of_filter. apply occurs_at_bound in Ho as Hb; [|done].
      apply starts_with_spec in Ho as [b Hb'].
      exists (take m (lfNormalize content)), b. split; [|rewrite length_take; lia].
      rewrite <- (take_drop m (lfNormalize content)) at 1. rewrite Hb'. by rewrite <- !app_assoc.
Qed.

Lemma splice_at_match m :
  m ∈ request_matches ->
  splice_of m
    (let offs := raw_pos content <$> seq 0 (S (length (lfNormalize content))) in
     slice content 0 (default 0 (offs !! (m + length bef))) ++ new ++
     slice_from content (default 0 (offs !! (m + length bef + length old)))).
Proof using Type.
  intros (a & b & Hs & Hm)%request_match_occurs.
  assert (length (lfNormalize content) =
    m + length bef + (length old + (length aft + length b))) as Hl.
  { rewrite Hs, !length_app. lia. }
  cbn zeta. rewrite !raw_offset_lookup by lia.
  destruct (raw_split _ _ _ _ Hs) as (l & x & r & Hc & H1 & H2 & H3 & H4 & H5).
  rewrite length_app, Hm in H4, H5. unfold slice, slice_from. rewrite Nat.sub_0_r, drop_0.
  rewrite H4, H5. by exists l, x, r, a, b.
Qed.

(** the outcome of [applyAnchoredSplice] on every branch.  A text over the
    splice limit is refused first; no match is [not_found]; several matches
    without an occurrence are [ambiguous], with their number; an occurrence picks
    the match with that 1-based number or is [not_found]; a single match is taken
    whatever the occurrence says.  The edit replaces, at the chosen match, raw text
    that normalizes to the old text, between raw text ending in [before] and raw
    text starting with [after], and keeps every other code unit of the document;
    it is refused when the new document exceeds the document limit. *)
Theorem applyAnchoredSplice_spec :
  let matches := request_matches in
  match applyAnchoredSplice content req with
  | SpliceTooLargeSplice limit =>
      limit = SPLICE_BYTES_LIMIT /\
      (SPLICE_BYTES_LIMIT < utf8ByteLength old \/ SPLICE_BYTES_LIMIT < utf8ByteLength new)%Z
  | SpliceNotFound =>
      matches = [] \/
      exists o, occurrence req = Some o /\ 2 <= length matches /\ array_at matches (o - 1) = None
  | SpliceAmbiguous n => occurrence req = None /\ n = length matches /\ 2 <= n
  | SpliceTooLargeDocument n limit =>
      limit = DOCUMENT_BYTES_LIMIT /\ (limit < n)%Z /\
      exists m next, m ∈ matches /\ splice_of m next /\ utf8ByteLength next = n
  | SpliceOk next =>
      (utf8ByteLength next <= DOCUMENT_BYTES_LIMIT)%Z /\
      exists m, m ∈ matches /\ splice_of m next /\
        (length matches = 1 \/
         exists o, occurrence req = Some o /\ array_at matches (o - 1) = Some m)
  end.
Proof using Type.
  cbn zeta. unfold applyAnchoredSplice. fold old new bef aft.
  destruct (_ || _) eqn:Elim.
  { split; [done|]. apply orb_true_iff in Elim. rewrite !Z.ltb_lt in Elim. done. }
  rewrite normalizeWithRawOffsets_spec. fold request_matches.
  assert (forall m, pick_match request_matches (occurrence req) = inr m ->
    m ∈ request_matches /\ (length request_matches = 1 \/
      exists o, occurrence req = Some o /\ array_at request_matches (o - 1) = Some m)) as Hpick.
  { intros m. unfold pick_match. destruct request_matches as [|m1 [|m2 ms]] eqn:E; [done| |].
    - intros [= ->]. set_solver.
    - destruct (occurrence req) as [o|]; [|done].
      destruct (array_at _ _) as [p|] eqn:Ea; [|done]. intros [= ->]. split; [|eauto].
      unfold array_at in Ea. destruct (o - 1 <? 0)%Z; [done|]. exact (list_elem_of_lookup_2 _ _ _ Ea). }
  destruct (pick_match request_matches (occurrence req)) as [rej|m] eqn:Ep.
  - unfold pick_match in Ep. destruct request_matches as [|m1 [|m2 ms]] eqn:E; simplify_eq; [by left|].
    destruct (occurrence req) as [o|].
    + destruct (array_at _ _) eqn:Ea; simplify_eq. right. exists o. split_and!; [done|simpl; lia|done].
    + simplify_eq. split_and!; [done|done|simpl; lia].
  - destruct (Hpick m eq_refl) as [Hin Hone]. pose proof (splice_at_match m Hin) as Hsp.
    cbn zeta in Hsp. cbn zeta.
    destruct (Z.ltb_spec DOCUMENT_BYTES_LIMIT (utf8ByteLength
      (slice content 0 (default 0 ((raw_pos content <$> seq 0 (S (length (lfNormalize content))))
          !! (m + length bef))) ++ new ++
       slice_from content (default 0 ((raw_pos content <$> seq 0 (S (length (lfNormalize content))))
          !! (m + length bef + length old)))))).
    + split_and!; [done|done|]. eauto.
    + split; [done|]. eauto.
Qed.

End splice.

(** * Prepending after the frontmatter *)

(** Reference definition: the lines of a text, each with its terminator. *)
Fixpoint raw_lines (s : jstr) : list (jstr * jstr) :=
  match s with
  | [] => []
  | c :: rest =>
      if (c =? LF)%N then ([], [LF]) :: raw_lines rest
      else if (c =? CR)%N then
        match rest with
        | d :: rest' => if (d =? LF)%N then ([], [CR; LF]) :: raw_lines rest'
                        else ([], [CR]) :: raw_lines rest
        | [] => [([], [CR])]
        end
      else match raw_lines rest with
           | (l, t) :: ls => (c :: l, t) :: ls
           | [] => [([c], [])]
           end
  end.

(** Reference definition: the length of the lines up to the first that trims to
    [---], that line included. *)
Fixpoint closing_offset (lines : list (jstr * jstr)) : option nat :=
  match lines with
  | [] => None
  | (l, t) :: ls =>
      if jeqb (trim l) (js "---") then Some (length l + length t)
      else Nat.add (length l + length t) <$> closing_offset ls
  end.

Lemma line_end_spec index s :
  s <> [] ->
  exists l t r, s = l ++ t ++ r /\ raw_lines s = (l, t) :: raw_lines r /\
    line_end index s = (index + length l, index + length l + length t) /\
    0 < length l + length t /\ (r <> [] -> endsWithLineEnding t = true).
Proof.
  revert index. induction s as [|c s IH]; intros index Hs; [done|]. cbn [raw_lines line_end].
  destruct (N.eqb_spec c LF) as [->|Hlf].
  { exists [], [LF], s. simpl. rewrite Nat.add_0_r. split_and!; [done..|lia|done]. }
  destruct (N.eqb_spec c CR) as [->|Hcr].
  { destruct s as [|d s]; [exists [], [CR], []; simpl; rewrite Nat.add_0_r; split_and!; [done..|lia|done]|].
    destruct (N.eqb_spec d LF) as [->|Hd].
    - exists [], [CR; LF], s. simpl. rewrite Nat.add_0_r. split_and!; [done..|lia|done].
    - exists [], [CR], (d :: s). cbn [length app]. rewrite Nat.add_0_r. split_and!; [done..|lia|done]. }
  destruct s as [|d s].
  { exists [c], [], []. cbn. rewrite !Nat.add_0_r. split_and!; [done..|lia|done]. }
  destruct (IH (index + 1) ltac:(done)) as (l & t & r & -> & Hr & He & Hpos & Hend).
  exists (c :: l), t, r. rewrite He, Hr. cbn [length app].
  split_and!; [done|done|f_equal; lia|lia|done].
Qed.

Lemma find_closing_spec fuel content start :
  length content <= fuel + start ->
  find_closing fuel content start =
    Nat.add start <$> closing_offset (raw_lines (drop start content)).
Proof.
  revert start. induction fuel as [|fuel IH]; intros start Hf; cbn [find_closing].
  - by rewrite drop_ge by lia.
  - destruct (Nat.ltb_spec start (length content)) as [Hlt|]; [|by rewrite drop_ge by lia].
    assert (drop start content <> []) as Hne.
    { intros H%(f_equal length). rewrite length_drop in H. simpl in H. lia. }
    destruct (line_end_spec start (drop start content) Hne) as (l & t & r & Hs & Hr & He & Hpos & _).
    unfold nextLineEnd, slice_from. rewrite He, Hr. cbn [closing_offset].
    assert (slice content start (start + length l) = l) as ->.
    { unfold slice. replace (start + length l - start) with (length l) by lia.
      by rewrite Hs, take_app_length. }
    destruct (jeqb _ _); [simpl; f_equal; lia|].
    rewrite IH by lia. replace (drop (start + length l + length t) content) with r.
    + destruct (closing_offset (raw_lines r)); simpl; [f_equal; lia|done].
    + replace (start + length l + length t) with (start + (length l + length t)) by lia.
      rewrite <- drop_drop, Hs, app_assoc, <- length_app. by rewrite drop_app_length.
Qed.

(** the scan for the end of the frontmatter terminates within one step per
    code unit and finds the end of the first line after the opening delimiter that
    trims to [---]; without such a line there is no frontmatter. *)
Theorem frontmatterInsertionPoint_lines content :
  frontmatterInsertionPoint content =
    match opening_length content with
    | None => None
    | Some start => Nat.add start <$> closing_offset (raw_lines (drop start content))
    end.
Proof.
  unfold frontmatterInsertionPoint. destruct (opening_length content); [|done].
  apply find_closing_spec. lia.
Qed.

Lemma ends_with_app p q s : ends_with s p = true -> ends_with (q ++ s) p = true.
Proof. rewrite !ends_with_spec. intros [r ->]. exists (q ++ r). by rewrite app_assoc. Qed.

Lemma endsWithLineEnding_app q s :
  endsWithLineEnding s = true -> endsWithLineEnding (q ++ s) = true.
Proof.
  unfold endsWithLineEnding. rewrite !orb_true_iff. intros [H|H]; [left|right];
    by apply ends_with_app.
Qed.

(** Where the closing line ends, either the text ends or a new line starts. *)
Lemma closing_offset_boundary n s k :
  length s <= n -> closing_offset (raw_lines s) = Some k ->
  0 < k <= length s /\ (k < length s -> endsWithLineEnding (take k s) = true).
Proof.
  revert s k. induction n as [|n IH]; intros s k Hn Hk.
  { destruct s; [done|simpl in Hn; lia]. }
  destruct (decide (s = [])) as [->|Hs]; [done|].
  destruct (line_end_spec 0 s Hs) as (l & t & r & -> & Hr & _ & Hpos & Hend).
  rewrite Hr in Hk. cbn [closing_offset] in Hk. rewrite !length_app in *.
  destruct (jeqb _ _).
  - injection Hk as <-. split; [lia|]. intros Hlt.
    rewrite app_assoc, <- length_app, take_app_length. apply endsWithLineEnding_app, Hend.
    intros ->. simpl in Hlt. lia.
  - destruct (closing_offset (raw_lines r)) as [k'|] eqn:Ek; [|done]. injection Hk as <-.
    destruct (IH r k' ltac:(lia) Ek) as [H1 H2]. split; [lia|]. intros Hlt.
    rewrite app_assoc, take_app_ge by (rewrite length_app; lia).
    rewrite length_app, Nat.add_comm, Nat.add_sub. apply endsWithLineEnding_app, H2. lia.
Qed.

Lemma opening_length_bound content start :
  opening_length content = Some start -> 0 < start <= length content.
Proof.
  unfold opening_length. intros H.
  repeat match type of H with context [starts_with content ?p] =>
    destruct (starts_with content p) eqn:?E end; simplify_eq;
  match goal with E : starts_with _ _ = true |- _ => apply starts_with_spec in E as [r ->] end;
  rewrite length_app; simpl; lia.
Qed.

Lemma insertion_point_boundary content k :
  frontmatterInsertionPoint content = Some k ->
  0 < k <= length content /\ (k < length content -> endsWithLineEnding (take k content) = true).
Proof.
  rewrite frontmatterInsertionPoint_lines. destruct (opening_length content) as [start|] eqn:E; [|done].
  intros (k' & Hk & ->)%fmap_Some. apply opening_length_bound in E.
  eapply closing_offset_boundary in Hk as [H1 H2]; [|done]. rewrite length_drop in H1, H2.
  split; [lia|]. intros Hlt. replace (take (start + k') content)
    with (take start content ++ take k' (drop start content)).
  - apply endsWithLineEnding_app, H2. lia.
  - by rewrite take_take_drop.
Qed.

(** [prependContent] inserts the normalized addition at one point of the
    document, after its frontmatter when it has one and at the start otherwise,
    and keeps all of the document on either side.  A nonempty addition always
    starts a line of its own: the inserted separator is a single LF, present only
    when the frontmatter's closing line ends the document without a terminator. *)
Theorem prependContent_spec content addition :
  exists k sep,
    k = default 0 (frontmatterInsertionPoint content) /\
    prependContent content addition =
      take k content ++ sep ++ lfNormalize addition ++ drop k content /\
    (sep = [] \/
     sep = [LF] /\ 0 < k /\ k = length content /\ endsWithLineEnding content = false /\
     lfNormalize addition <> []) /\
    (lfNormalize addition <> [] ->
     k = 0 \/ endsWithLineEnding (take k content ++ sep) = true).
Proof.
  unfold prependContent, slice, slice_from. set (k := default 0 _). rewrite Nat.sub_0_r, drop_0.
  assert (0 < k -> endsWithLineEnding (take k content) = false -> k = length content) as Hend.
  { unfold k. destruct (frontmatterInsertionPoint content) as [k'|] eqn:E; [|simpl; lia].
    apply insertion_point_boundary in E as [H1 H2]. simpl. intros _ Hf.
    destruct (decide (k' < length content)) as [Hlt|]; [|lia]. by rewrite H2 in Hf. }
  eexists k, _. split; [done|]. split; [done|].
  destruct (Nat.ltb_spec 0 k) as [Hk|Hk]; cbn [andb]; [|split; [by left|left; lia]].
  destruct (Nat.ltb_spec 0 (length (lfNormalize addition))) as [Hl|Hl]; cbn [andb].
  - destruct (endsWithLineEnding (take k content)) eqn:Ee; cbn [negb].
    + split; [by left|]. intros _. right. by rewrite app_nil_r.
    + split; [right|intros _; right; by apply endsWithLineEnding_app].
      rewrite (Hend Hk eq_refl) in Ee |- *. rewrite firstn_all in Ee.
      split_and!; [done|rewrite <- (Hend Hk); [lia|]..|done|].
      all: rewrite ?(Hend Hk), ?firstn_all; try done.
      intros E. rewrite E in Hl. simpl in Hl. lia.
  - split; [by left|]. intros Hn. destruct (lfNormalize addition); [done|simpl in Hl; lia].
Qed.
