(* ===== verification/Artifact.v ===== *)
(** [packages/vault-core/src/artifact.ts] and [folder-metadata-options.ts]: what a
    path's extension says about the file, and the colors of folders. *)
From S2P Require Import Prelude JsString NodePath.

(** * Definitions *)

Inductive ArtifactKind := AKText | AKAttachment.
Inductive ArtifactPreview :=
| PvMarkdown | PvText | PvImage | PvAudio | PvVideo | PvPdf | PvDownload.

#[export] Instance ArtifactKind_eq_dec : EqDecision ArtifactKind.
Proof. solve_decision. Defined.
#[export] Instance ArtifactPreview_eq_dec : EqDecision ArtifactPreview.
Proof. solve_decision. Defined.

Record ArtifactInfo := {
  kind : ArtifactKind;
  contentType : jstr;
  editable : bool;
  preview : ArtifactPreview
}.

#[export] Instance ArtifactInfo_eq_dec : EqDecision ArtifactInfo.
Proof. solve_decision. Defined.

(** The two extension tables, objects with a fixed set of keys.  A key looked up in
    them is empty or starts with a dot, so it never names a member that objects
    inherit. *)
Definition extension_table := list (jstr * (jstr * ArtifactPreview)).

Definition TEXT_ARTIFACT_EXTENSIONS : extension_table := [
  (js ".md", (js "text/markdown; charset=utf-8", PvMarkdown));
  (js ".markdown", (js "text/markdown; charset=utf-8", PvMarkdown));
  (js ".mdown", (js "text/markdown; charset=utf-8", PvMarkdown));
  (js ".mkdn", (js "text/markdown; charset=utf-8", PvMarkdown));
  (js ".txt", (js "text/plain; charset=utf-8", PvText));
  (js ".log", (js "text/plain; charset=utf-8", PvText));
  (js ".csv", (js "text/csv; charset=utf-8", PvText));
  (js ".tsv", (js "text/tab-separated-values; charset=utf-8", PvText));
  (js ".html", (js "text/html; charset=utf-8", PvText));
  (js ".htm", (js "text/html; charset=utf-8", PvText));
  (js ".css", (js "text/css; charset=utf-8", PvText));
  (js ".js", (js "text/javascript; charset=utf-8", PvText));
  (js ".jsx", (js "text/javascript; charset=utf-8", PvText));
  (js ".ts", (js "text/typescript; charset=utf-8", PvText));
  (js ".tsx", (js "text/typescript; charset=utf-8", PvText));
  (js ".json", (js "application/json; charset=utf-8", PvText));
  (js ".yml", (js "application/yaml; charset=utf-8", PvText));
  (js ".yaml", (js "application/yaml; charset=utf-8", PvText));
  (js ".xml", (js "application/xml; charset=utf-8", PvText));
  (js ".toml", (js "application/toml; charset=utf-8", PvText));
  (js ".ini", (js "text/plain; charset=utf-8", PvText));
  (js ".sh", (js "text/x-shellscript; charset=utf-8", PvText));
  (js ".py", (js "text/x-python; charset=utf-8", PvText));
  (js ".rb", (js "text/x-ruby; charset=utf-8", PvText));
  (js ".go", (js "text/x-go; charset=utf-8", PvText));
  (js ".rs", (js "text/x-rust; charset=utf-8", PvText));
  (js ".java", (js "text/x-java-source; charset=utf-8", PvText));
  (js ".c", (js "text/x-c; charset=utf-8", PvText));
  (js ".cpp", (js "text/x-c++; charset=utf-8", PvText));
  (js ".h", (js "text/x-c; charset=utf-8", PvText));
  (js ".hpp", (js "text/x-c++; charset=utf-8", PvText))
].

Definition ATTACHMENT_ARTIFACT_EXTENSIONS : extension_table := [
  (js ".png", (js "image/png", PvImage));
  (js ".jpg", (js "image/jpeg", PvImage));
  (js ".jpeg", (js "image/jpeg", PvImage));
  (js ".gif", (js "image/gif", PvImage));
  (js ".webp", (js "image/webp", PvImage));
  (js ".avif", (js "image/avif", PvImage));
  (js ".apng", (js "image/apng", PvImage));
  (js ".svg", (js "application/octet-stream", PvDownload));
  (js ".mp3", (js "audio/mpeg", PvAudio));
  (js ".wav", (js "audio/wav", PvAudio));
  (js ".ogg", (js "audio/ogg", PvAudio));
  (js ".flac", (js "audio/flac", PvAudio));
  (js ".m4a", (js "audio/mp4", PvAudio));
  (js ".aac", (js "audio/aac", PvAudio));
  (js ".mp4", (js "video/mp4", PvVideo));
  (js ".webm", (js "video/webm", PvVideo));
  (js ".mov", (js "video/quicktime", PvVideo));
  (js ".m4v", (js "video/x-m4v", PvVideo));
  (js ".pdf", (js "application/pdf", PvPdf));
  (js ".zip", (js "application/zip", PvDownload));
  (js ".gz", (js "application/gzip", PvDownload));
  (js ".tgz", (js "application/gzip", PvDownload));
  (js ".tar", (js "application/x-tar", PvDownload))
].

Fixpoint table_get (t : extension_table) (k : jstr) : option (jstr * ArtifactPreview) :=
  match t with
  | [] => None
  | (k', v) :: t' => if jeqb k k' then Some v else table_get t' k
  end.

(** [relPath.slice(relPath.lastIndexOf("/") + 1)]. *)
Definition path_leaf (relPath : jstr) : jstr :=
  match last_index_of_unit slash relPath with
  | None => relPath
  | Some i => slice_from relPath (S i)
  end.

Section artifact.
Context `{Host}.

Definition artifactExtension (relPath : jstr) : jstr :=
  let leaf := path_leaf relPath in
  match last_index_of_unit 46 leaf with
  | None => []
  | Some dot => if (dot =? 0)%nat then [] else to_lower (slice_from leaf dot)
  end.

Definition classifyArtifactPath (relPath : jstr) : ArtifactInfo :=
  let extension := artifactExtension relPath in
  match table_get TEXT_ARTIFACT_EXTENSIONS extension with
  | Some (ct, pv) => {| kind := AKText; contentType := ct; editable := true; preview := pv |}
  | None =>
      match table_get ATTACHMENT_ARTIFACT_EXTENSIONS extension with
      | Some (ct, pv) =>
          {| kind := AKAttachment; contentType := ct; editable := false; preview := pv |}
      | None =>
          {| kind := AKAttachment; contentType := js "application/octet-stream";
             editable := false; preview := PvDownload |}
      end
  end.

End artifact.

Definition INHERIT_COLOR : jstr := js "inherit".

Definition is_hex (c : N) : bool :=
  ((48 <=? c) && (c <=? 57) || (97 <=? c) && (c <=? 102) || (65 <=? c) && (c <=? 70))%N.

(** [HEX_COLOR_PATTERN.test(color)]. *)
Definition hex_color (color : jstr) : bool :=
  match color with
  | c :: ds => (c =? 35)%N && forallb is_hex ds && ((length ds =? 3)%nat || (length ds =? 6)%nat)
  | [] => false
  end.

Definition normalizeFolderMetadataColor (color : jstr) : option jstr :=
  if jeqb color INHERIT_COLOR then Some INHERIT_COLOR
  else if negb (hex_color color) then None
  else
    let normalized := map ascii_lower color in
    match normalized with
    | [h; r; g; b] => Some [35%N; r; r; g; g; b; b]
    | _ => Some normalized
    end.

(** * Classification *)

Lemma table_get_Forall (P : jstr * ArtifactPreview -> bool) t k v :
  table_get t k = Some v -> forallb (fun kv => P kv.2) t = true -> P v = true.
Proof.
  induction t as [|[k' v'] t IH]; simpl; [done|]. intros Hg [Hp Ht]%andb_true_iff.
  destruct (jeqb k k'); [by injection Hg as <-|auto].
Qed.

Definition is_inline_text (p : ArtifactPreview) : bool :=
  match p with PvMarkdown | PvText => true | _ => false end.

(** The path's directory does not matter. *)
Lemma path_leaf_app d leaf : slash ∉ leaf -> path_leaf (d ++ slash :: leaf) = leaf.
Proof.
  intros Hl. unfold path_leaf.
  destruct (last_index_of_unit slash (d ++ slash :: leaf)) as [i|] eqn:E.
  - apply last_index_of_unit_spec in E as (l & r & Heq & <- & Hr).
    assert (r = leaf) as ->.
    { apply app_eq_inv in Heq as [(k & -> & Hk)|(k & -> & Hk)];
        destruct k as [|c k]; simpl in Hk; injection Hk; intros; subst; try done; set_solver. }
    unfold slice_from. rewrite Heq. change (slash :: leaf) with ([slash] ++ leaf).
    rewrite app_assoc. replace (S (length l)) with (length (l ++ [slash])) by (rewrite length_app; simpl; lia).
    by rewrite drop_app_length.
  - apply last_index_of_unit_none in E. set_solver.
Qed.

Section artifact_facts.
Context `{Host}.

(** a file is editable exactly when it is a text artifact, text artifacts are
    exactly those shown as Markdown or text, and the rest of the classification
    depends on the file's name only, not on the folder it is in. *)
Theorem classifyArtifactPath_editable dir leaf :
  let a := classifyArtifactPath leaf in
  (editable a = true <-> kind a = AKText) /\
  (editable a = true <-> is_inline_text (preview a) = true) /\
  (slash ∉ leaf -> classifyArtifactPath (dir ++ slash :: leaf) = a).
Proof.
  cbn zeta. split; [|split].
  - unfold classifyArtifactPath. repeat case_match; simpl; split; congruence.
  - unfold classifyArtifactPath. generalize (artifactExtension leaf). intros ext.
    destruct (table_get TEXT_ARTIFACT_EXTENSIONS ext) as [[ct pv]|] eqn:E1; cbn [editable preview].
    + apply (table_get_Forall (fun v => is_inline_text v.2)) in E1; [|by vm_compute]. done.
    + destruct (table_get ATTACHMENT_ARTIFACT_EXTENSIONS ext) as [[ct pv]|] eqn:E2;
        cbn [editable preview]; [|done].
      apply (table_get_Forall (fun v => negb (is_inline_text v.2))) in E2; [|by vm_compute].
      simpl in E2. destruct (is_inline_text pv); done.
  - intros Hl. unfold classifyArtifactPath, artifactExtension. rewrite path_leaf_app by done.
    unfold path_leaf. destruct (last_index_of_unit slash leaf) eqn:E; [|done].
    apply last_index_of_unit_spec in E as (l & r & -> & _). set_solver.
Qed.

End artifact_facts.

(** * Colors *)

Lemma ascii_lower_hex c : is_hex c = true -> is_hex (ascii_lower c) = true.
Proof.
  unfold is_hex, ascii_lower. rewrite !orb_true_iff, !andb_true_iff, !N.leb_le.
  destruct ((65 <=? c) && (c <=? 90))%N eqn:E; [|auto].
  apply andb_true_iff in E. rewrite !N.leb_le in E. lia.
Qed.

Lemma ascii_lower_hex_idem c : is_hex c = true -> ascii_lower (ascii_lower c) = ascii_lower c.
Proof.
  unfold is_hex, ascii_lower. rewrite !orb_true_iff, !andb_true_iff, !N.leb_le.
  destruct ((65 <=? c) && (c <=? 90))%N eqn:E.
  - apply andb_true_iff in E. rewrite !N.leb_le in E. intros _.
    assert ((65 <=? c + 32) && (c + 32 <=? 90) = false)%N as ->; [|done].
    apply andb_false_iff. right. apply N.leb_gt. lia.
  - by rewrite E.
Qed.

(** The canonical colors: the keyword, or a hash sign and six lower-case digits. *)
Definition canonical_color (c : jstr) : Prop :=
  c = INHERIT_COLOR \/
  exists ds, c = 35%N :: ds /\ length ds = 6 /\
    Forall (fun d => is_hex d = true /\ ascii_lower d = d) ds.

Lemma normalizeFolderMetadataColor_canonical c c' :
  normalizeFolderMetadataColor c = Some c' -> canonical_color c'.
Proof.
  unfold normalizeFolderMetadataColor. destruct (jeqb c INHERIT_COLOR).
  { intros [= <-]. by left. }
  destruct (hex_color c) eqn:Eh; [|done]. cbn [negb]. destruct c as [|h ds]; [done|].
  cbn [hex_color] in Eh. to_prop. apply orb_true_iff in H0. subst h.
  apply forallb_Forall in H1.
  assert (Forall (fun d => is_hex d = true /\ ascii_lower d = d) (map ascii_lower ds)) as Hf.
  { apply Forall_map. eapply Forall_impl; [done|]. intros d Hd.
    split; [by apply ascii_lower_hex|by apply ascii_lower_hex_idem]. }
  intros Hm. right. destruct H0 as [Hlen%Nat.eqb_eq|Hlen%Nat.eqb_eq].
  - destruct ds as [|r [|g [|b [|]]]]; try done. simpl in Hm. injection Hm as <-.
    simpl in Hf. repeat (apply Forall_cons in Hf as [? Hf]).
    eexists; split_and!; [done|done|]. repeat (apply Forall_cons_2; [done|]). constructor.
  - exists (map ascii_lower ds). rewrite length_map. split_and!; [|done|done].
    destruct ds as [|? [|? [|? [|? ds]]]]; try done. simpl in Hm. by injection Hm as <-.
Qed.

Lemma canonical_color_fixed c : canonical_color c -> normalizeFolderMetadataColor c = Some c.
Proof.
  intros Hn.
  destruct Hn as [->|(ds & -> & Hlen & Hf)]; [done|].
  unfold normalizeFolderMetadataColor. assert (jeqb (35%N :: ds) INHERIT_COLOR = false) as -> by done.
  cbn [hex_color N.eqb Pos.eqb andb]. rewrite Hlen, orb_true_r, andb_true_r.
  assert (forallb is_hex ds = true) as ->.
  { apply forallb_Forall. eapply Forall_impl; [done|]. by intros ? []. }
  cbn [negb]. replace (map ascii_lower (35%N :: ds)) with (35%N :: ds).
  - by destruct ds as [|? [|? [|? [|? ?]]]].
  - cbn [map]. f_equal. clear Hlen. induction Hf as [|d ds [_ Hd] Hf IH]; [done|].
    cbn [map]. by rewrite Hd, <- IH.
Qed.

(** folder colors are normalized to a canonical form: every accepted color
    becomes the keyword [inherit] or a hash sign with six lower-case hexadecimal
    digits, and normalizing again changes nothing. *)
Theorem normalizeFolderMetadataColor_idempotent c c' :
  normalizeFolderMetadataColor c = Some c' ->
  canonical_color c' /\ normalizeFolderMetadataColor c' = Some c'.
Proof.
  intros Hn%normalizeFolderMetadataColor_canonical. split; [done|]. by apply canonical_color_fixed.
Qed.

Lemma normalizeFolderMetadataColor_idempotent_witness :
  normalizeFolderMetadataColor (js "#Fa0") = Some (js "#ffaa00") /\
  canonical_color (js "#ffaa00") /\
  normalizeFolderMetadataColor (js "#ffaa00") = Some (js "#ffaa00").
Proof.
  split; [reflexivity|].
  exact (normalizeFolderMetadataColor_idempotent (js "#Fa0") (js "#ffaa00") eq_refl).
Defined.
