(* ===== verification/FileSystem.v ===== *)
(** The world the vault operations run in, and the calls of [node:fs/promises]
    they make: a POSIX tree of files and directories without symbolic links, a
    clock, the supply of random identifiers, and the audit handlers.

    A call either returns or throws; the errors are the ones POSIX and Node
    document for the state of the tree (a missing entry, a file where a directory
    is needed, ...).  Failures of the device itself (no space, no permission) are
    not represented.  Also [packages/vault-core/src/fs.ts]. *)
From S2P Require Import Prelude JsString Utf8 NodePath VaultPath.

(** * The tree *)

(** The segments of an absolute path, from the file system root. *)
Abbreviation fskey := (list jstr).

Inductive node :=
| NFile (bytes : list N) (mtime ctime : Z) (ino : N)
| NDir (mtime : Z).

#[export] Instance node_eq_dec : EqDecision node.
Proof. solve_decision. Defined.

Abbreviation tree := (gmap (list (list N)) node).

(** The audit handlers see entries of a type fixed later ([AuditLog.v]); the world
    records deliveries through this event type. *)
Record delivery := { d_handler : nat; d_entry_id : jstr }.

Record world := {
  w_fs : tree;
  w_now : Z;                       (* what [Date.now()] answers *)
  w_next_ino : N;
  w_next_uuid : N;                 (* index of the next [randomUUID()] *)
  w_mount : fskey -> N;            (* the device a path lies on *)
  w_handlers : list nat;           (* registered audit handlers, oldest first *)
  w_delivered : list delivery;     (* handler calls, oldest first *)
  w_warnings : nat                 (* [console.warn] calls *)
}.

Definition set_fs (f : tree) (w : world) : world :=
  {| w_fs := f; w_now := w_now w; w_next_ino := w_next_ino w; w_next_uuid := w_next_uuid w;
     w_mount := w_mount w; w_handlers := w_handlers w; w_delivered := w_delivered w;
     w_warnings := w_warnings w |}.
Definition set_ino (i : N) (w : world) : world :=
  {| w_fs := w_fs w; w_now := w_now w; w_next_ino := i; w_next_uuid := w_next_uuid w;
     w_mount := w_mount w; w_handlers := w_handlers w; w_delivered := w_delivered w;
     w_warnings := w_warnings w |}.
Definition set_uuid (i : N) (w : world) : world :=
  {| w_fs := w_fs w; w_now := w_now w; w_next_ino := w_next_ino w; w_next_uuid := i;
     w_mount := w_mount w; w_handlers := w_handlers w; w_delivered := w_delivered w;
     w_warnings := w_warnings w |}.
Definition set_audit (h : list nat) (d : list delivery) (n : nat) (w : world) : world :=
  {| w_fs := w_fs w; w_now := w_now w; w_next_ino := w_next_ino w; w_next_uuid := w_next_uuid w;
     w_mount := w_mount w; w_handlers := h; w_delivered := d; w_warnings := n |}.

(** * Calls that may throw *)

Inductive errno := ENOENT | ENOTDIR | EEXIST | EISDIR | ENOTEMPTY | EINVAL | EXDEV | ERR_FS_EISDIR.

#[export] Instance errno_eq_dec : EqDecision errno.
Proof. solve_decision. Defined.

(** [ExFuel] is no exception of the code: the bound of a recursion of the model ran
    out, which the theorems about that recursion exclude. *)
Inductive exn :=
| ExPath (e : InvalidPathError)
| ExNode (code : errno)
| ExEntryCap
| ExFuel.

#[export] Instance exn_eq_dec : EqDecision exn.
Proof. solve_decision. Defined.

Definition M (A : Type) : Type := world -> result exn A * world.

#[export] Instance M_ret : MRet M := fun A a w => (Ok a, w).
#[export] Instance M_bind : MBind M := fun A B f m w =>
  match m w with
  | (Ok a, w') => f a w'
  | (Err e, w') => (Err e, w')
  end.

#[export] Instance M_fmap : FMap M := fun A B f m w =>
  match m w with
  | (Ok a, w') => (Ok (f a), w')
  | (Err e, w') => (Err e, w')
  end.

Definition throw {A} (e : exn) : M A := fun w => (Err e, w).
Definition try_catch {A} (m : M A) (h : exn -> M A) : M A := fun w =>
  match m w with
  | (Ok a, w') => (Ok a, w')
  | (Err e, w') => h e w'
  end.
Definition asks {A} (f : world -> A) : M A := fun w => (Ok (f w), w).
Definition lift_path {A} (r : result InvalidPathError A) : M A :=
  match r with Ok a => mret a | Err e => throw (ExPath e) end.

(** * Paths in the tree *)

Definition key_of (abs : jstr) : fskey := filter (fun s => s <> []) (split_on slash abs).

(** The entry at a key; the root is always a directory. *)
Definition node_at (f : tree) (k : fskey) : option node :=
  match k with [] => Some (NDir 0) | _ => f !! k end.

#[global] Arguments node_at : simpl never.

Definition is_dir (n : node) : bool := match n with NDir _ => true | _ => false end.
Definition is_file (n : node) : bool := match n with NFile _ _ _ _ => true | _ => false end.
Definition node_size (n : node) : Z :=
  match n with NFile b _ _ _ => Z.of_nat (length b) | NDir _ => 0 end.
Definition node_mtime (n : node) : Z := match n with NFile _ m _ _ => m | NDir m => m end.

(** Path resolution: every directory on the way to the last segment. *)
Fixpoint walk_error (f : tree) (pre segs : fskey) : option errno :=
  match segs with
  | [] => None
  | s :: rest =>
      match rest with
      | [] => None
      | _ =>
          match node_at f (pre ++ [s]) with
          | None => Some ENOENT
          | Some (NFile _ _ _ _) => Some ENOTDIR
          | Some (NDir _) => walk_error f (pre ++ [s]) rest
          end
      end
  end.

Definition lookup_path (f : tree) (k : fskey) : result errno node :=
  match walk_error f [] k with
  | Some e => Err e
  | None => match node_at f k with Some n => Ok n | None => Err ENOENT end
  end.

Fixpoint strip_prefix (p k : fskey) : option fskey :=
  match p, k with
  | [], _ => Some k
  | s :: p', t :: k' => if jeqb s t then strip_prefix p' k' else None
  | _ :: _, [] => None
  end.

(** The part of the tree at or below a key, and the rest. *)
Definition below (p k : fskey) : bool := bool_decide (is_Some (strip_prefix p k)).
Definition remove_tree (f : tree) (p : fskey) : tree :=
  filter (fun kv => below p kv.1 = false) f.
Definition subtree (f : tree) (p : fskey) : list (fskey * node) :=
  omap (fun kv => s ← strip_prefix p kv.1; Some (s, kv.2)) (map_to_list f).
Definition graft (f : tree) (p : fskey) (entries : list (fskey * node)) : tree :=
  list_to_map (map (fun sn => (p ++ sn.1, sn.2)) entries) ∪ f.

(** The names in a directory, in the order of the map. *)
Definition children (f : tree) (k : fskey) : list (jstr * node) :=
  omap (fun sn => match sn.1 with [name] => Some (name, sn.2) | _ => None end) (subtree f k).

(** What the code takes from the machine: the working directory and the
    number of the process, the text of the [n]-th random UUID, and the order in which a directory lists its
    names. *)
Class NodeHost := {
  cwd : jstr;
  process_pid : Z;
  uuid_text : N -> jstr;
  readdir_order : list (jstr * node) -> list (jstr * node)
}.

(** * Calls *)

Section node_host.
Context `{NodeHost}.

(** The key a path names, from the working directory. *)
Definition path_key (p : jstr) : fskey := key_of (resolve cwd [p]).

Definition fail_with {A} (e : errno) : M A := throw (ExNode e).
Definition modify_fs (g : tree -> tree) : M unit := fun w => (Ok tt, set_fs (g (w_fs w)) w).

(** [stat]. *)
Definition fs_stat (abs : jstr) : M node := fun w =>
  match lookup_path (w_fs w) (path_key abs) with
  | Ok n => (Ok n, w)
  | Err e => (Err (ExNode e), w)
  end.

(** [readFile(path)], as bytes. *)
Definition fs_readFile (abs : jstr) : M (list N) :=
  n ← fs_stat abs;
  match n with
  | NFile b _ _ _ => mret b
  | NDir _ => fail_with EISDIR
  end.

Definition fresh_ino : M N := fun w => (Ok (w_next_ino w), set_ino (w_next_ino w + 1)%N w).

(** Write [g old] to the file, creating it when it is missing. *)
Definition fs_update (abs : jstr) (g : list N -> list N) : M unit :=
  f ← asks w_fs; now ← asks w_now;
  let k := path_key abs in
  match walk_error f [] k with
  | Some e => fail_with e
  | None =>
      match node_at f k with
      | Some (NDir _) => fail_with EISDIR
      | Some (NFile b _ _ ino) => modify_fs <[k := NFile (g b) now now ino]>
      | None => ino ← fresh_ino; modify_fs <[k := NFile (g []) now now ino]>
      end
  end.
Definition fs_writeFile (abs : jstr) (bytes : list N) : M unit := fs_update abs (fun _ => bytes).
Definition fs_appendFile (abs : jstr) (bytes : list N) : M unit := fs_update abs (fun b => b ++ bytes).

(** [mkdir(path, { recursive: true })]. *)
Fixpoint make_dirs (f : tree) (now : Z) (pre segs : fskey) : result errno tree :=
  match segs with
  | [] => Ok f
  | s :: rest =>
      match node_at f (pre ++ [s]) with
      | Some (NDir _) => make_dirs f now (pre ++ [s]) rest
      | Some (NFile _ _ _ _) => Err (match rest with [] => EEXIST | _ => ENOTDIR end)
      | None => make_dirs (<[pre ++ [s] := NDir now]> f) now (pre ++ [s]) rest
      end
  end.
Definition fs_mkdir (abs : jstr) : M unit := fun w =>
  match make_dirs (w_fs w) (w_now w) [] (path_key abs) with
  | Ok f => (Ok tt, set_fs f w)
  | Err e => (Err (ExNode e), w)
  end.

(** [rm(path)] and [rm(path, { recursive: true })]. *)
Definition fs_rm (abs : jstr) (recursive : bool) : M unit :=
  n ← fs_stat abs;
  if is_dir n && negb recursive then fail_with ERR_FS_EISDIR
  else modify_fs (fun f => remove_tree f (path_key abs)).

(** [rename], with the rules of POSIX for an existing target. *)
Definition rename_error (f : tree) (from to : fskey) (src : node) : option errno :=
  match walk_error f [] to with
  | Some e => Some e
  | None =>
      if is_dir src && below from to then Some EINVAL
      else
        match node_at f to with
        | None => None
        | Some (NFile _ _ _ _) => if is_dir src then Some ENOTDIR else None
        | Some (NDir _) =>
            if is_file src then Some EISDIR
            else if bool_decide (children f to = []) then None else Some ENOTEMPTY
        end
  end.
Definition move_tree (f : tree) (from to : fskey) : tree :=
  graft (remove_tree (remove_tree f from) to) to (subtree f from).
Definition fs_rename (from_abs to_abs : jstr) : M unit :=
  src ← fs_stat from_abs; f ← asks w_fs; mount ← asks w_mount;
  let from := path_key from_abs in
  let to := path_key to_abs in
  if bool_decide (from = to) then mret tt
  else
    match rename_error f from to src with
    | Some e => fail_with e
    | None =>
        if (mount from =? mount to)%N then modify_fs (fun f => move_tree f from to)
        else fail_with EXDEV
    end.

(** [cp(from, to, { recursive: true })] and [copyFile], onto a missing target. *)
Definition fs_copy (from_abs to_abs : jstr) : M unit :=
  _ ← fs_stat from_abs; f ← asks w_fs;
  match walk_error f [] (path_key to_abs) with
  | Some e => fail_with e
  | None => modify_fs (fun f => graft f (path_key to_abs) (subtree f (path_key from_abs)))
  end.

(** [readdir(path, { withFileTypes: true })]. *)
Definition fs_readdir (abs : jstr) : M (list (jstr * node)) :=
  n ← fs_stat abs;
  match n with
  | NFile _ _ _ _ => fail_with ENOTDIR
  | NDir _ => f ← asks w_fs; mret (readdir_order (children f (path_key abs)))
  end.

(** [randomUUID()]. *)
Definition randomUUID : M jstr := fun w =>
  (Ok (uuid_text (w_next_uuid w)), set_uuid (w_next_uuid w + 1)%N w).

(** * [fs.ts] *)

Definition isNodeError (e : exn) : option errno :=
  match e with ExNode code => Some code | _ => None end.

Definition statOrNull (abs : jstr) : M (option node) :=
  try_catch (Some <$> fs_stat abs)
    (fun e => if bool_decide (isNodeError e = Some ENOENT) then mret None else throw e).

End node_host.

(** Run the primitive calls of a sequence. *)
Ltac run_in H :=
  unfold mbind, M_bind, mret, M_ret, fmap, M_fmap, asks, throw, fail_with, modify_fs, fresh_ino in H;
  cbn in H.
Ltac run :=
  unfold mbind, M_bind, mret, M_ret, fmap, M_fmap, asks, throw, fail_with, modify_fs, fresh_ino; cbn.

(** Only the fields of the world. *)
Ltac world_in H :=
  cbn [w_fs w_now w_mount w_next_uuid w_next_ino w_handlers w_delivered w_warnings
       set_fs set_ino set_uuid set_audit] in H.
Ltac world :=
  cbn [w_fs w_now w_mount w_next_uuid w_next_ino w_handlers w_delivered w_warnings
       set_fs set_ino set_uuid set_audit].

Lemma M_ret_bind {A B} (a : A) (g : A -> M B) : (mret a ≫= g) = g a.
Proof. done. Qed.

(** * Lemmas on keys *)

Lemma strip_prefix_spec p k s : strip_prefix p k = Some s <-> k = p ++ s.
Proof.
  revert k. induction p as [|x p IH]; intros k; simpl; [naive_solver|].
  destruct k as [|y k]; [done|]. destruct (jeqb x y) eqn:E.
  - apply jeqb_eq in E as ->. rewrite IH. naive_solver.
  - split; [done|]. intros [= -> ->]. by rewrite (proj2 (jeqb_eq _ _)) in E.
Qed.

Lemma strip_prefix_app p s : strip_prefix p (p ++ s) = Some s.
Proof. by apply strip_prefix_spec. Qed.

Lemma below_spec p k : below p k = true <-> exists s, k = p ++ s.
Proof.
  unfold below. rewrite bool_decide_eq_true. split.
  - intros [s Hs%strip_prefix_spec]. eauto.
  - intros [s ->]. exists s. apply strip_prefix_app.
Qed.

Lemma below_app p s : below p (p ++ s) = true.
Proof. apply below_spec. eauto. Qed.

Lemma below_false p k : below p k = false <-> strip_prefix p k = None.
Proof.
  unfold below. rewrite bool_decide_eq_false. destruct (strip_prefix p k); [|naive_solver].
  split; [intros H; by destruct H|done].
Qed.

Lemma below_trans p q k : below p q = true -> below q k = true -> below p k = true.
Proof. rewrite !below_spec. intros [s ->] [t ->]. exists (s ++ t). by rewrite app_assoc. Qed.

(** * Lemmas on trees *)

Lemma lookup_remove_tree f p k :
  remove_tree f p !! k = if below p k then None else f !! k.
Proof.
  unfold remove_tree. destruct (below p k) eqn:E.
  - apply map_lookup_filter_None. right. intros n _. simpl. congruence.
  - destruct (f !! k) as [n|] eqn:Ek.
    + by apply map_lookup_filter_Some.
    + apply map_lookup_filter_None. by left.
Qed.

Lemma elem_of_subtree f p s n : (s, n) ∈ subtree f p <-> f !! (p ++ s) = Some n.
Proof.
  unfold subtree. rewrite list_elem_of_omap. split.
  - intros ([k m] & Hk%elem_of_map_to_list & Hs). simpl in Hs.
    destruct (strip_prefix p k) as [s'|] eqn:E; [|done]. injection Hs as -> ->.
    by apply strip_prefix_spec in E as ->.
  - intros Hk. exists (p ++ s, n). rewrite elem_of_map_to_list. split; [done|].
    simpl. by rewrite strip_prefix_app.
Qed.

Lemma subtree_keys_nodup f p : NoDup (subtree f p).*1.
Proof.
  unfold subtree. pose proof (NoDup_fst_map_to_list f) as Hnd.
  induction (map_to_list f) as [|[k n] l IH]; [constructor|].
  cbn [fmap list_fmap fst] in Hnd. apply NoDup_cons in Hnd as [Hk Hnd].
  cbn [omap list_omap]. simpl. destruct (strip_prefix p k) as [s|] eqn:E; [|by apply IH].
  simpl. apply NoDup_cons. split; [|by apply IH].
  intros ([s' m] & -> & Hin)%list_elem_of_fmap. apply list_elem_of_omap in Hin as ([k' m'] & Hin & Hs).
  simpl in Hs. destruct (strip_prefix p k') as [s''|] eqn:E'; [|done]. injection Hs as -> ->.
  apply strip_prefix_spec in E as ->, E' as ->. apply Hk. apply list_elem_of_fmap. by exists (p ++ s', m).
Qed.

Lemma lookup_graft f p entries k :
  NoDup entries.*1 ->
  graft f p entries !! k =
    match strip_prefix p k with
    | Some s => match (list_to_map entries : tree) !! s with Some n => Some n | None => f !! k end
    | None => f !! k
    end.
Proof.
  intros Hnd. unfold graft. rewrite lookup_union.
  assert ((list_to_map (map (fun sn => (p ++ sn.1, sn.2)) entries) : tree) !! k =
    s ← strip_prefix p k; (list_to_map entries : tree) !! s) as ->.
  { induction entries as [|[s n] entries IH].
    - simpl. rewrite lookup_empty. by destruct (strip_prefix p k).
    - apply NoDup_cons in Hnd as [_ Hnd]. cbn [map list_to_map fst snd].
      simpl. destruct (strip_prefix p k) as [s'|] eqn:E.
      + apply strip_prefix_spec in E as ->. simpl. rewrite !lookup_insert.
        destruct (decide (s = s')) as [->|Hne].
        * by rewrite decide_True.
        * rewrite !decide_False by (congruence || by intros ?%app_inv_head). by rewrite IH.
      + rewrite lookup_insert_ne; [by rewrite IH|]. intros <-. by rewrite strip_prefix_app in E. }
  destruct (strip_prefix p k) as [s|]; simpl; [|by destruct (f !! k)].
  destruct (_ !! s), (f !! k); done.
Qed.

Lemma lookup_subtree_map f p s : (list_to_map (subtree f p) : tree) !! s = f !! (p ++ s).
Proof.
  destruct (f !! (p ++ s)) as [n|] eqn:E.
  - apply elem_of_list_to_map_1; [apply subtree_keys_nodup|]. by apply elem_of_subtree.
  - apply not_elem_of_list_to_map_1. intros ([s' n] & -> & Hin)%list_elem_of_fmap.
    apply elem_of_subtree in Hin. simpl in E. congruence.
Qed.

(** Moving a subtree: what was at [from ++ s] is at [to ++ s], nothing else is at
    or below either key, and every other entry is where it was. *)
Lemma lookup_move_tree f from to k :
  move_tree f from to !! k =
    match strip_prefix to k with
    | Some s => f !! (from ++ s)
    | None => if below from k then None else f !! k
    end.
Proof.
  unfold move_tree. rewrite lookup_graft by apply subtree_keys_nodup.
  rewrite !lookup_remove_tree. destruct (strip_prefix to k) as [s|] eqn:E.
  - rewrite lookup_subtree_map. destruct (f !! (from ++ s)); [done|].
    apply strip_prefix_spec in E as ->. by rewrite below_app.
  - apply below_false in E. by rewrite E.
Qed.

(** Copying a subtree. *)
Lemma lookup_copy_tree f from to k :
  graft f to (subtree f from) !! k =
    match strip_prefix to k with
    | Some s => match f !! (from ++ s) with Some n => Some n | None => f !! k end
    | None => f !! k
    end.
Proof.
  rewrite lookup_graft by apply subtree_keys_nodup.
  destruct (strip_prefix to k); [by rewrite lookup_subtree_map|done].
Qed.

Lemma elem_of_children f k name n : (name, n) ∈ children f k <-> f !! (k ++ [name]) = Some n.
Proof.
  unfold children. rewrite list_elem_of_omap. split.
  - intros ([s m] & Hin & Hs). simpl in Hs. destruct s as [|x [|]]; try done.
    injection Hs as -> ->. by apply elem_of_subtree.
  - intros H. exists ([name], n). split; [by apply elem_of_subtree|done].
Qed.

(** * Well-formed trees *)

(** Every entry lies in a directory and has a name a directory can list. *)
Definition tree_wf (f : tree) : Prop :=
  f !! [] = None /\
  (forall k s n, f !! (k ++ [s]) = Some n -> exists m, node_at f k = Some (NDir m)) /\
  (forall k n, f !! k = Some n -> plain_segs k = true).

Lemma node_at_lookup f k : k <> [] -> node_at f k = f !! k.
Proof. by destruct k. Qed.

Lemma walk_error_none f pre segs :
  walk_error f pre segs = None <->
  forall s t, segs = s ++ t -> s <> [] -> t <> [] -> exists m, node_at f (pre ++ s) = Some (NDir m).
Proof.
  revert pre. induction segs as [|x segs IH]; intros pre; cbn [walk_error].
  - split; [|done]. intros _ s t Hst Hs. destruct s; done.
  - destruct segs as [|y segs].
    + split; [|done]. intros _ s t Hst Hs Ht. destruct s as [|? s]; [done|].
      injection Hst as -> Hst. destruct s, t; done.
    + split.
      * intros Hw s t Hst Hs Ht. destruct s as [|x' s]; [done|]. injection Hst as <- Hst.
        destruct (node_at f (pre ++ [x])) as [[]|] eqn:E; try done.
        destruct s as [|z s]; [eauto|].
        replace (pre ++ x :: z :: s) with ((pre ++ [x]) ++ z :: s) by (by rewrite <- app_assoc).
        by apply (proj1 (IH _) Hw (z :: s) t).
      * intros Hall. destruct (Hall [x] (y :: segs)) as [m Hm]; [done..|]. rewrite Hm.
        apply IH. intros s t Hst Hs Ht. rewrite <- app_assoc. apply (Hall (x :: s) t); [|done..].
        by rewrite Hst.
Qed.

Lemma tree_wf_prefix f k s n :
  tree_wf f -> f !! (k ++ s) = Some n -> s <> [] -> exists m, node_at f k = Some (NDir m).
Proof.
  intros (Hr & Hwf & _) Hk Hs. revert n Hk. induction s as [|x s IH] using rev_ind; intros n Hk; [done|].
  rewrite app_assoc in Hk. apply Hwf in Hk as [m Hm].
  destruct (decide (s = [])) as [->|Hne]; [rewrite app_nil_r in Hm; eauto|].
  rewrite node_at_lookup in Hm by (by destruct k, s). by eapply IH.
Qed.

Lemma tree_wf_walk f k n : tree_wf f -> f !! k = Some n -> walk_error f [] k = None.
Proof.
  intros Hwf Hk. apply walk_error_none. intros s t -> Hs Ht. by eapply tree_wf_prefix.
Qed.

Lemma lookup_path_ok f k n :
  tree_wf f -> k <> [] -> lookup_path f k = Ok n <-> f !! k = Some n.
Proof.
  intros Hwf Hk. unfold lookup_path. split.
  - destruct (walk_error f [] k); [done|]. rewrite node_at_lookup by done.
    by destruct (f !! k); intros [= ->].
  - intros H. rewrite (tree_wf_walk f k n) by done. rewrite node_at_lookup by done. by rewrite H.
Qed.

(** An entry that is missing although its path can be walked. *)
Lemma lookup_path_enoent f k :
  k <> [] -> walk_error f [] k = None -> f !! k = None -> lookup_path f k = Err ENOENT.
Proof. intros Hk Hw Hn. unfold lookup_path. by rewrite Hw, node_at_lookup, Hn. Qed.
