(* ===== verification/IsoDate.v ===== *)
(** [Date.prototype.toISOString]: the proleptic Gregorian calendar in UTC, for a
    time in milliseconds since 1970. *)
From S2P Require Import Prelude JsString.
Local Open Scope Z_scope.

(** Year, month and day of a day number (days since 1970-01-01), counting years
    from March within eras of 400 years. *)
Definition civil_of_days (days : Z) : Z * Z * Z :=
  let z := days + 719468 in
  let era := z / 146097 in
  let doe := z mod 146097 in
  let yoe := (doe - doe / 1460 + doe / 36524 - doe / 146096) / 365 in
  let doy := doe - (365 * yoe + yoe / 4 - yoe / 100) in
  let mp := (5 * doy + 2) / 153 in
  let d := doy - (153 * mp + 2) / 5 + 1 in
  let m := if mp <? 10 then mp + 3 else mp - 9 in
  let y := yoe + era * 400 in
  ((if m <=? 2 then y + 1 else y), m, d).

Definition zero_pad (width : nat) (n : Z) : jstr :=
  let s := dec n in repeat 48%N (width - length s) ++ s.

Definition iso_year (y : Z) : jstr :=
  if (0 <=? y) && (y <=? 9999) then zero_pad 4 y
  else if y <? 0 then js "-" ++ zero_pad 6 (- y)
  else js "+" ++ zero_pad 6 y.

Definition toISOString (t : Z) : jstr :=
  let days := t / 86400000 in
  let ms := t mod 86400000 in
  let '(y, m, d) := civil_of_days days in
  iso_year y ++ js "-" ++ zero_pad 2 m ++ js "-" ++ zero_pad 2 d ++ js "T" ++
  zero_pad 2 (ms / 3600000) ++ js ":" ++ zero_pad 2 (ms / 60000 mod 60) ++ js ":" ++
  zero_pad 2 (ms / 1000 mod 60) ++ js "." ++ zero_pad 3 (ms mod 1000) ++ js "Z".

Example iso_epoch : toISOString 0 = js "1970-01-01T00:00:00.000Z".
Proof. reflexivity. Qed.
Example iso_leap_day : toISOString 1709251199999 = js "2024-02-29T23:59:59.999Z".
Proof. reflexivity. Qed.
Example iso_before_epoch : toISOString (-1) = js "1969-12-31T23:59:59.999Z".
Proof. reflexivity. Qed.

(** The units an ISO text is made of. *)
Definition iso_unit (c : N) : bool :=
  ((48 <=? c) && (c <=? 57) || (c =? 45) || (c =? 43) || (c =? 46) || (c =? 58)
   || (c =? 84) || (c =? 90))%N.

Lemma dec_iso z : forallb iso_unit (dec z) = true.
Proof.
  assert (forall n, forallb iso_unit (dec_N n) = true) as Hd.
  { intros n. apply forallb_Forall. eapply Forall_impl; [apply dec_N_digits|]. intros c Hc.
    cbv beta in Hc. unfold iso_unit.
    by rewrite (proj2 (N.leb_le 48 c)), (proj2 (N.leb_le c 57)) by lia. }
  destruct z; cbn [dec]; [apply (Hd 0%N)|apply Hd|]. cbn [forallb]. by rewrite Hd.
Qed.

Lemma zero_pad_iso w z : forallb iso_unit (zero_pad w z) = true.
Proof.
  unfold zero_pad. rewrite forallb_app, dec_iso, andb_true_r.
  induction (w - length (dec z))%nat as [|n IH]; [done|]. simpl. by rewrite IH.
Qed.

Lemma toISOString_units t : forallb iso_unit (toISOString t) = true.
Proof.
  unfold toISOString. destruct (civil_of_days _) as [[y m] d].
  rewrite !forallb_app, !zero_pad_iso. unfold iso_year.
  repeat case_match; rewrite ?forallb_app, ?zero_pad_iso; done.
Qed.
