(* ===== verification/AuditLog.v ===== *)
(** [packages/vault-core/src/audit.ts]: the audit log of a vault, one JSON line per
    change, and the handlers that are told of every entry. *)
From S2P Require Import Prelude JsString Utf8 Json NodePath VaultPath IsoDate FileSystem.

(** * Data *)

Inductive ActorKind := AcUser | AcMcpClient | AcIntegration | AcSystem | AcUnknown.

#[export] Instance ActorKind_eq_dec : EqDecision ActorKind.
Proof. solve_decision. Defined.

Definition actor_kind_text (k : ActorKind) : jstr :=
  match k with
  | AcUser => js "user" | AcMcpClient => js "mcp_client" | AcIntegration => js "integration"
  | AcSystem => js "system" | AcUnknown => js "unknown"
  end.

Record VaultActor := {
  a_kind : ActorKind;
  a_id : option jstr;
  a_name : option jstr;
  a_client : option jstr
}.

#[export] Instance VaultActor_eq_dec : EqDecision VaultActor.
Proof. solve_decision. Defined.

(** [{ kind }], an actor without further fields. *)
Definition bare_actor (k : ActorKind) : VaultActor :=
  {| a_kind := k; a_id := None; a_name := None; a_client := None |}.

Inductive AuditOperation :=
| OpCreate | OpWrite | OpMkdir | OpDelete | OpMove | OpSplice | OpAppend | OpPrepend.
Inductive AuditEntityKind := EkFile | EkFolder.

#[export] Instance AuditOperation_eq_dec : EqDecision AuditOperation.
Proof. solve_decision. Defined.
#[export] Instance AuditEntityKind_eq_dec : EqDecision AuditEntityKind.
Proof. solve_decision. Defined.

Definition operation_text (op : AuditOperation) : jstr :=
  match op with
  | OpCreate => js "create" | OpWrite => js "write" | OpMkdir => js "mkdir"
  | OpDelete => js "delete" | OpMove => js "move" | OpSplice => js "splice"
  | OpAppend => js "append" | OpPrepend => js "prepend"
  end.
Definition entity_text (k : AuditEntityKind) : jstr :=
  match k with EkFile => js "file" | EkFolder => js "folder" end.

Record AuditEntry := {
  ae_id : jstr;
  ae_ts : jstr;
  ae_actor : VaultActor;
  ae_operation : AuditOperation;
  ae_entityKind : AuditEntityKind;
  ae_path : jstr;
  ae_fromPath : option jstr;
  ae_toPath : option jstr;
  ae_summary : jstr
}.

#[export] Instance AuditEntry_eq_dec : EqDecision AuditEntry.
Proof. solve_decision. Defined.

(** [AuditInput] without [changeEvent], which only the handlers look at. *)
Record AuditInput := {
  ai_root : jstr;
  ai_actor : option VaultActor;
  ai_operation : AuditOperation;
  ai_entityKind : AuditEntityKind;
  ai_path : jstr;
  ai_fromPath : option jstr;
  ai_toPath : option jstr;
  ai_summary : jstr
}.

(** The handlers are functions of the code outside this package: whether one of
    them throws on an entry is not known here. *)
Class AuditHandlers := { handler_throws : nat -> AuditEntry -> bool }.

(** * The log line *)

Definition opt_prop (k : jstr) (o : option jstr) : list (jstr * value) :=
  match o with Some s => [(k, VStr s)] | None => [] end.

Definition actor_value (a : VaultActor) : value :=
  VObj true ((js "kind", VStr (actor_kind_text (a_kind a)))
    :: opt_prop (js "id") (a_id a) ++ opt_prop (js "name") (a_name a)
    ++ opt_prop (js "client") (a_client a)).

Definition entry_value (e : AuditEntry) : value :=
  VObj true (
    [(js "id", VStr (ae_id e)); (js "ts", VStr (ae_ts e)); (js "actor", actor_value (ae_actor e));
     (js "operation", VStr (operation_text (ae_operation e)));
     (js "entityKind", VStr (entity_text (ae_entityKind e))); (js "path", VStr (ae_path e))]
    ++ opt_prop (js "fromPath") (ae_fromPath e) ++ opt_prop (js "toPath") (ae_toPath e)
    ++ [(js "summary", VStr (ae_summary e))]).

Section audit.
Context `{JsonHost, NodeHost, AuditHandlers}.

(** [`${JSON.stringify(entry)}\n`], as bytes. *)
Definition entry_line (e : AuditEntry) : list N :=
  encode (match stringify (entry_value e) with Some s => s | None => js "undefined" end ++ [10%N]).

Definition audit_dir (root : jstr) : jstr := path_join [root; js ".kb1"; js "audit"].
Definition audit_file (root : jstr) : jstr := path_join [audit_dir root; js "changes.jsonl"].

(** [onVaultAudit]: handlers are a set; the returned function removes it again. *)
Definition onVaultAudit (handler : nat) : M unit := fun w =>
  (Ok tt, if bool_decide (handler ∈ w_handlers w) then w
          else set_audit (w_handlers w ++ [handler]) (w_delivered w) (w_warnings w) w).
Definition disposeVaultAudit (handler : nat) : M unit := fun w =>
  (Ok tt, set_audit (filter (fun h => h <> handler) (w_handlers w)) (w_delivered w) (w_warnings w) w).

(** One iteration of [notifyVaultAuditHandlers]: call the handler; when it throws,
    warn and go on. *)
Definition notify_handler (entry : AuditEntry) (handler : nat) (w : world) : world :=
  let w' := set_audit (w_handlers w)
              (w_delivered w ++ [{| d_handler := handler; d_entry_id := ae_id entry |}])
              (w_warnings w) w in
  if handler_throws handler entry
  then set_audit (w_handlers w') (w_delivered w') (S (w_warnings w')) w'
  else w'.

Definition notifyVaultAuditHandlers (entry : AuditEntry) : M unit := fun w =>
  (Ok tt, fold_left (fun w h => notify_handler entry h w) (w_handlers w) w).

Definition writeAuditEntry (input : AuditInput) : M AuditEntry :=
  id ← randomUUID;
  now ← asks w_now;
  let entry := {|
    ae_id := id;
    ae_ts := toISOString now;
    ae_actor := default (bare_actor AcUser) (ai_actor input);
    ae_operation := ai_operation input;
    ae_entityKind := ai_entityKind input;
    ae_path := ai_path input;
    ae_fromPath := ai_fromPath input;
    ae_toPath := ai_toPath input;
    ae_summary := ai_summary input |} in
  fs_mkdir (audit_dir (ai_root input));;
  fs_appendFile (audit_file (ai_root input)) (entry_line entry);;
  mret entry.

Definition emitVaultAudit (input : AuditInput) : M AuditEntry :=
  entry ← writeAuditEntry input;
  notifyVaultAuditHandlers entry;;
  mret entry.

(** * Notification *)

Lemma notify_handlers_fold entry hs w :
  let w' := fold_left (fun w h => notify_handler entry h w) hs w in
  w_delivered w' = w_delivered w ++
    map (fun h => {| d_handler := h; d_entry_id := ae_id entry |}) hs /\
  w_warnings w' = w_warnings w + length (filter (fun h => handler_throws h entry = true) hs) /\
  w_fs w' = w_fs w /\ w_handlers w' = w_handlers w /\
  w_next_uuid w' = w_next_uuid w /\ w_next_ino w' = w_next_ino w /\ w_now w' = w_now w /\
  w_mount w' = w_mount w.
Proof.
  cbn zeta. revert w. induction hs as [|h hs IH]; intros w; cbn [fold_left map].
  - rewrite app_nil_r, filter_nil. simpl. split_and!; (done || lia).
  - destruct (IH (notify_handler entry h w)) as (-> & -> & -> & -> & -> & -> & -> & ->).
    unfold notify_handler. rewrite filter_cons. destruct (handler_throws h entry); simpl;
      rewrite <- ?app_assoc; split_and!; (done || lia).
Qed.

(** every registered handler is told of an audit entry exactly once, in
    registration order, also when handlers before it throw; each throw is reported
    once and none reaches the operation. *)
Theorem notifyVaultAuditHandlers_all entry w :
  exists w', notifyVaultAuditHandlers entry w = (Ok tt, w') /\
    w_delivered w' = w_delivered w ++
      map (fun h => {| d_handler := h; d_entry_id := ae_id entry |}) (w_handlers w) /\
    w_warnings w' = w_warnings w + length (filter (fun h => handler_throws h entry = true) (w_handlers w)) /\
    w_fs w' = w_fs w /\ w_handlers w' = w_handlers w.
Proof.
  eexists; split; [reflexivity|].
  destruct (notify_handlers_fold entry (w_handlers w) w) as (? & ? & ? & ? & _). done.
Qed.

End audit.

(** * The log line reads back *)

Definition actor_ok (a : VaultActor) : bool :=
  forallb (fun o => match o with Some s => is_jstr s | None => true end)
    [a_id a; a_name a; a_client a].

Definition entry_ok (e : AuditEntry) : bool :=
  is_jstr (ae_id e) && is_jstr (ae_ts e) && actor_ok (ae_actor e) && is_jstr (ae_path e) &&
  forallb (fun o => match o with Some s => is_jstr s | None => true end)
    [ae_fromPath e; ae_toPath e] && is_jstr (ae_summary e).

(** Evaluate [json_ok] on an object literal whose values are strings. *)
Ltac object_ok :=
  cbn [json_ok opt_prop app fmap list_fmap fst snd forallb andb];
  rewrite ?is_jstr_js;
  repeat match goal with H : is_jstr _ = true |- _ => rewrite H; clear H end;
  repeat match goal with H : json_ok _ = true |- _ => rewrite H; clear H end;
  cbn [andb]; by vm_compute.

Lemma actor_value_ok a : actor_ok a = true -> json_ok (actor_value a) = true.
Proof.
  unfold actor_ok, actor_value. destruct a as [k [i|] [n|] [c|]];
    cbn [a_kind a_id a_name a_client forallb]; intros Ha; to_prop;
    unfold actor_kind_text; destruct k; object_ok.
Qed.

(** every line of the audit log is read back by [JSON.parse] as the entry that
    was logged. *)
Theorem audit_line_round_trip `{JsonHost} e s :
  entry_ok e = true -> stringify (entry_value e) = Some s ->
  json_parse s = Some (entry_value e).
Proof.
  intros He Hs. apply json_parse_stringify; [|done]. clear s Hs. revert He.
  unfold entry_ok, entry_value. intros He. to_prop.
  assert (json_ok (actor_value (ae_actor e)) = true) as Ha by by apply actor_value_ok.
  destruct e as [i t a op ek p [fp|] [tp|] sm];
    cbn [ae_id ae_ts ae_actor ae_operation ae_entityKind ae_path ae_fromPath ae_toPath ae_summary
         forallb] in *; to_prop; unfold operation_text, entity_text;
    destruct op, ek; object_ok.
Qed.
