(* ===== verification/FolderMetadata.v ===== *)
(** The folder metadata of [packages/vault-core/src/vault-ops.ts]: the map from
    folder paths to metadata, its file [.kb1/folders.yml], and what moving and
    deleting folders does to it. *)
From S2P Require Import Prelude JsString Utf8 Json NodePath VaultPath Artifact FileSystem.

(** * Results *)

Inductive VaultErrorCode :=
| invalid_path | invalid_metadata | not_editable | not_found | already_exists
| path_collision | folder_not_empty | entry_cap_exceeded | metadata_parse_failed.

#[export] Instance VaultErrorCode_eq_dec : EqDecision VaultErrorCode.
Proof. solve_decision. Defined.

Inductive VaultResult (T : Type) :=
| VOk (value : T)
| VFail (error : VaultErrorCode) (message : jstr).
Arguments VOk {T} value.
Arguments VFail {T} error message.

(** A failure of one operation as the failure of the caller. *)
Definition vfail_as {S T} (r : VaultResult S) (k : S -> M (VaultResult T)) : M (VaultResult T) :=
  match r with VOk v => k v | VFail e m => mret (VFail e m) end.

Definition metadataFileFailure {T} : VaultResult T :=
  VFail metadata_parse_failed (js "folder metadata file is malformed").

(** * The map *)

Record FolderMetadata := { color : option jstr }.

#[export] Instance FolderMetadata_eq_dec : EqDecision FolderMetadata.
Proof. solve_decision. Defined.

Definition no_metadata : FolderMetadata := {| color := None |}.

(** A [FolderMetadataMap] is a plain object: its own properties, and the prototype
    an assignment to ["__proto__"] may have given it. *)
Record FolderMetadataMap := {
  fm_own : gmap jstr FolderMetadata;
  fm_proto : option FolderMetadata
}.

Definition empty_map : FolderMetadataMap := {| fm_own := ∅; fm_proto := None |}.
Definition own_map (m : gmap jstr FolderMetadata) : FolderMetadataMap :=
  {| fm_own := m; fm_proto := None |}.

Definition proto_key : jstr := js "__proto__".

(** The members every plain object inherits; none of them has a [color]. *)
Definition object_members : list jstr :=
  [js "constructor"; js "hasOwnProperty"; js "isPrototypeOf"; js "propertyIsEnumerable";
   js "toLocaleString"; js "toString"; js "valueOf"; js "__defineGetter__"; js "__defineSetter__";
   js "__lookupGetter__"; js "__lookupSetter__"].

(** [map[key]], as far as its [color] goes; [None] for [undefined]. *)
Definition map_get (m : FolderMetadataMap) (k : jstr) : option FolderMetadata :=
  match fm_own m !! k with
  | Some v => Some v
  | None =>
      if bool_decide (k = proto_key) then Some (default no_metadata (fm_proto m))
      else
        match fm_proto m with
        | Some {| color := Some _ |} =>
            if bool_decide (k = js "color") || bool_decide (k ∈ object_members)
            then Some no_metadata else None
        | _ => if bool_decide (k ∈ object_members) then Some no_metadata else None
        end
  end.

(** [map[key] = metadata]. *)
Definition map_set (m : FolderMetadataMap) (k : jstr) (v : FolderMetadata) : FolderMetadataMap :=
  if bool_decide (k = proto_key) && bool_decide (fm_own m !! k = None)
  then {| fm_own := fm_own m; fm_proto := Some v |}
  else {| fm_own := <[k := v]> (fm_own m); fm_proto := fm_proto m |}.

Definition map_delete (m : FolderMetadataMap) (k : jstr) : FolderMetadataMap :=
  {| fm_own := delete k (fm_own m); fm_proto := fm_proto m |}.

(** [Object.entries(map)] and [Object.fromEntries(entries)]. *)
Definition map_entries (m : FolderMetadataMap) : list (jstr * FolderMetadata) :=
  map_to_list (fm_own m).
Definition map_from_entries (l : list (jstr * FolderMetadata)) : FolderMetadataMap :=
  own_map (list_to_map l).

Definition cloneMetadata (metadata : FolderMetadata) : FolderMetadata :=
  {| color := color metadata |}.
Definition isEmptyMetadata (metadata : FolderMetadata) : bool :=
  bool_decide (color metadata = None).

Definition removeFolderMetadataSubtree (metadata : FolderMetadataMap) (deletedPath : jstr)
  : FolderMetadataMap :=
  map_from_entries (filter (fun kv => kv.1 <> deletedPath /\
                                      relativeDescendantPath deletedPath kv.1 = None)
                           (map_entries metadata)).

(** The body of the loop of [moveFolderMetadataSubtree]. *)
Definition move_entry (fromPath toPath : jstr) (next : FolderMetadataMap)
  (entry : jstr * FolderMetadata) : FolderMetadataMap :=
  let '(folderPath, folderMetadata) := entry in
  match relativeDescendantPath fromPath folderPath with
  | Some fromDescendant =>
      let movedPath := if bool_decide (fromDescendant = []) then toPath
                       else path_join [toPath; fromDescendant] in
      map_set next movedPath folderMetadata
  | None =>
      if jeqb folderPath toPath || bool_decide (is_Some (relativeDescendantPath toPath folderPath))
      then next
      else map_set next folderPath folderMetadata
  end.
Definition moveFolderMetadataSubtree (metadata : FolderMetadataMap) (fromPath toPath : jstr)
  : FolderMetadataMap :=
  fold_left (move_entry fromPath toPath) (map_entries metadata) empty_map.

(** * Input *)

(** [FolderMetadataInput]: whether [color] is an own property, and its value. *)
Record FolderMetadataInput := { in_color : option value }.

(** The normalized input: [Some None] is an explicit [null]. *)
Definition NormalInput := option (option jstr).

Definition isRecord (v : value) : option (list (jstr * value)) :=
  match v with VObj _ props => Some props | _ => None end.

Definition normalizeFolderMetadataEntry (v : value) : VaultResult FolderMetadata :=
  match isRecord v with
  | None => metadataFileFailure
  | Some props =>
      match get props (js "color") with
      | VUndefined => VOk no_metadata
      | VStr c => match normalizeFolderMetadataColor c with
                  | None => metadataFileFailure
                  | Some normalized => VOk {| color := Some normalized |}
                  end
      | _ => metadataFileFailure
      end
  end.

Definition color_error : jstr := js "color must be a hex color, inherit, or null".

Definition normalizeFolderMetadataInput (input : FolderMetadataInput) : VaultResult NormalInput :=
  match in_color input with
  | None => VOk None
  | Some VNull => VOk (Some None)
  | Some (VStr c) => match normalizeFolderMetadataColor c with
                     | None => VFail invalid_metadata color_error
                     | Some normalized => VOk (Some (Some normalized))
                     end
  | Some _ => VFail invalid_metadata color_error
  end.

Definition applyFolderMetadataInput (current : FolderMetadata) (input : NormalInput) : FolderMetadata :=
  match input with
  | None => cloneMetadata current
  | Some None => no_metadata
  | Some (Some c) => {| color := Some c |}
  end.

(** * The file *)

(** The [yaml] package; [None] when parsing throws. *)
Class YamlLib := {
  parseYaml : jstr -> option value;
  stringifyYaml : value -> jstr
}.

Definition FOLDER_METADATA_RELATIVE_PATH : jstr := path_join [js ".kb1"; js "folders.yml"].

Section file.
Context `{Host, NodeHost, YamlLib}.

Definition vaultPath (root relPath : jstr) : M jstr := lift_path (resolveVaultPath cwd root relPath).
Definition folderMetadataPath (root : jstr) : M jstr := vaultPath root FOLDER_METADATA_RELATIVE_PATH.

(** The loop over [Object.entries(parsed.folders)]. *)
Fixpoint read_entries (entries : list (jstr * value)) (m : FolderMetadataMap)
  : VaultResult FolderMetadataMap :=
  match entries with
  | [] => VOk m
  | (folderPath, rawMetadata) :: rest =>
      match validateVaultPath Posix folderPath PKFolder with
      | Err _ => metadataFileFailure
      | Ok _ =>
          match normalizeFolderMetadataEntry rawMetadata with
          | VFail e msg => VFail e msg
          | VOk v => read_entries rest (if isEmptyMetadata v then m else map_set m folderPath v)
          end
      end
  end.

(** The parsed document to the map. *)
Definition read_document (parsed : value) : VaultResult FolderMetadataMap :=
  match isRecord parsed with
  | None => metadataFileFailure
  | Some props =>
      match isRecord (get props (js "folders")) with
      | None => metadataFileFailure
      | Some folders => read_entries folders empty_map
      end
  end.

Definition readFolderMetadataMap (root : jstr) : M (VaultResult FolderMetadataMap) :=
  content ← try_catch
    (p ← folderMetadataPath root; bytes ← fs_readFile p; mret (Some (decode bytes)))
    (fun e => if bool_decide (isNodeError e = Some ENOENT) then mret None else throw e);
  match content with
  | None => mret (VOk empty_map)
  | Some text =>
      match parseYaml text with
      | None => mret metadataFileFailure
      | Some parsed => mret (read_document parsed)
      end
  end.

Definition metadata_value (m : FolderMetadata) : value :=
  VObj true (match color m with Some c => [(js "color", VStr c)] | None => [] end).

(** [{ folders: sortedFolders }]. *)
Definition folders_value (metadata : FolderMetadataMap) : value :=
  VObj true [(js "folders", VObj true
    (map (fun kv => (kv.1, metadata_value (cloneMetadata kv.2)))
      (sort_by (fun l r => locale_compare l.1 r.1) (map_entries metadata))))].

Definition writeFolderMetadataMap (root : jstr) (metadata : FolderMetadataMap) : M unit :=
  filePath ← folderMetadataPath root;
  let directory := dirname filePath in
  fs_mkdir directory;;
  let content := stringifyYaml (folders_value metadata) in
  uuid ← randomUUID;
  let temporaryPath :=
    path_join [directory; js "." ++ dec process_pid ++ js "." ++ uuid ++ js ".tmp"] in
  try_catch
    (fs_writeFile temporaryPath (encode content);; fs_rename temporaryPath filePath)
    (fun e =>
      try_catch (fs_rm temporaryPath false)
        (fun e' => if bool_decide (isNodeError e' = Some ENOENT) then mret tt else throw e');;
      throw e).

End file.

(** * Moving and deleting folders *)

(** A key the metadata file can hold: a validated folder path other than the one
    name that objects treat specially. *)
Definition good_key (k : jstr) : Prop :=
  plain_segs (split_on slash k) = true /\ k <> proto_key.

Definition good_map (m : FolderMetadataMap) : Prop :=
  fm_proto m = None /\ forall k v, fm_own m !! k = Some v -> good_key k.

(** Where the metadata of [k] goes when [fromPath] becomes [toPath]; [None] when it
    is dropped. *)
Definition moved_key (fromPath toPath k : jstr) : option jstr :=
  match relativeDescendantPath fromPath k with
  | Some [] => Some toPath
  | Some d => Some (toPath ++ slash :: d)
  | None => if bool_decide (is_Some (relativeDescendantPath toPath k)) then None else Some k
  end.

Lemma not_plain_trailing p : plain_segs (split_on slash (p ++ [slash])) = false.
Proof.
  rewrite split_on_app_sep, plain_segs_app. simpl. apply andb_false_r.
Qed.

Lemma plain_segs_suffix p s :
  plain_segs (split_on slash (p ++ slash :: s)) = true ->
  plain_segs (split_on slash p) = true /\ plain_segs (split_on slash s) = true.
Proof. rewrite split_on_app_sep, plain_segs_app. apply andb_true_iff. Qed.

Lemma rdp_self p : relativeDescendantPath p p = Some [].
Proof. apply relativeDescendantPath_spec. auto. Qed.

Lemma rdp_app p s : relativeDescendantPath p (p ++ slash :: s) = Some s.
Proof.
  apply relativeDescendantPath_spec. right. split; [|done].
  intros H%(f_equal length). rewrite length_app in H. simpl in H. lia.
Qed.

(** A descendant of a plain path: the path itself, or something below it. *)
Lemma rdp_cases p k s :
  plain_segs (split_on slash k) = true -> relativeDescendantPath p k = Some s ->
  (s = [] /\ k = p) \/ (s <> [] /\ k = p ++ slash :: s).
Proof.
  intros Hk [[-> ->]|[Hne ->]]%relativeDescendantPath_spec; [by left|right].
  split; [|done]. intros ->. by rewrite not_plain_trailing in Hk.
Qed.

Lemma moved_key_inv from to k k' :
  plain_segs (split_on slash k) = true -> moved_key from to k = Some k' -> moved_key to from k' = Some k.
Proof.
  intros Hk. unfold moved_key. destruct (relativeDescendantPath from k) as [s|] eqn:E.
  - apply rdp_cases in E as [[-> ->]|[Hs ->]]; [| |done].
    + intros [= <-]. by rewrite rdp_self.
    + destruct s as [|c s]; [done|]. intros [= <-]. by rewrite rdp_app.
  - case_bool_decide as Hto; [done|]. intros [= <-].
    destruct (relativeDescendantPath to k); [by destruct Hto|].
    rewrite E, bool_decide_eq_false_2; [done|]. by intros [? ?].
Qed.

Lemma moved_key_plain from to k k' :
  plain_segs (split_on slash to) = true -> plain_segs (split_on slash k) = true ->
  moved_key from to k = Some k' -> plain_segs (split_on slash k') = true.
Proof.
  intros Ht Hk. unfold moved_key. destruct (relativeDescendantPath from k) as [s|] eqn:E.
  - apply rdp_cases in E as [[-> ->]|[Hs ->]]; [| |done].
    + by intros [= <-].
    + destruct s as [|c s]; [done|]. intros [= <-].
      rewrite split_on_app_sep, plain_segs_app, Ht. by apply plain_segs_suffix in Hk as [_ ->].
  - case_bool_decide; [done|]. by intros [= <-].
Qed.

Lemma proto_no_slash : slash ∉ proto_key.
Proof. unfold slash. vm_compute. set_solver. Qed.

Lemma moved_key_not_proto from to k k' :
  to <> proto_key -> k <> proto_key -> moved_key from to k = Some k' -> k' <> proto_key.
Proof.
  intros Ht Hk. unfold moved_key. pose proof proto_no_slash as Hs.
  destruct (relativeDescendantPath from k) as [[|c s]|]; [by intros [= <-]| |].
  - intros [= <-] Hp. apply Hs. rewrite <- Hp. set_solver.
  - case_bool_decide; [done|]. by intros [= <-].
Qed.

(** One iteration of the loop, for a key the file can hold. *)
Lemma move_entry_spec from to next k v :
  plain_segs (split_on slash to) = true -> to <> proto_key -> good_key k ->
  move_entry from to next (k, v) =
    match moved_key from to k with
    | Some k' => {| fm_own := <[k' := v]> (fm_own next); fm_proto := fm_proto next |}
    | None => next
    end.
Proof.
  intros Ht Htp [Hk Hkp]. pose proof (moved_key_not_proto from to k) as Hnp.
  unfold move_entry. revert Hnp. unfold moved_key.
  destruct (relativeDescendantPath from k) as [s|] eqn:E.
  - apply rdp_cases in E as [[-> ->]|[Hs ->]]; [| |done].
    + intros _. rewrite bool_decide_eq_true_2 by done. unfold map_set.
      by rewrite bool_decide_eq_false_2.
    + rewrite bool_decide_eq_false_2 by done. destruct s as [|c s]; [done|]. intros Hnp.
      rewrite path_join_plain; [|done|by apply plain_segs_suffix in Hk as [_ ?]].
      unfold map_set. rewrite bool_decide_eq_false_2; [done|]. by eapply Hnp.
  - intros _. assert (jeqb k to || bool_decide (is_Some (relativeDescendantPath to k)) =
      bool_decide (is_Some (relativeDescendantPath to k))) as ->.
    { destruct (jeqb k to) eqn:Ej; [|done]. apply jeqb_eq in Ej as ->. rewrite rdp_self.
      by rewrite bool_decide_eq_true_2. }
    case_bool_decide; [done|]. unfold map_set. by rewrite (bool_decide_eq_false_2 (k = proto_key)).
Qed.

Lemma move_fold_spec from to l acc :
  plain_segs (split_on slash to) = true -> to <> proto_key -> NoDup l.*1 -> Forall good_key l.*1 ->
  fm_proto (fold_left (move_entry from to) l acc) = fm_proto acc /\
  forall k', plain_segs (split_on slash k') = true ->
    fm_own (fold_left (move_entry from to) l acc) !! k' =
      match k ← moved_key to from k'; (list_to_map l : gmap jstr FolderMetadata) !! k with
      | Some v => Some v
      | None => fm_own acc !! k'
      end.
Proof.
  intros Ht Htp. revert acc. induction l as [|[k v] l IH]; intros acc Hnd Hg.
  { split; [done|]. intros k' _. cbn [fold_left list_to_map foldr]. simpl.
    destruct (moved_key to from k'); simpl; by rewrite ?lookup_empty. }
  cbn [fmap list_fmap fst] in *. apply NoDup_cons in Hnd as [Hnk Hnd].
  apply Forall_cons in Hg as [Hk Hg]. cbn [fold_left].
  rewrite move_entry_spec by done. set (acc' := match moved_key from to k with
    | Some k' => {| fm_own := <[k' := v]> (fm_own acc); fm_proto := fm_proto acc |}
    | None => acc end).
  destruct (IH acc' Hnd Hg) as [IHp IHl]. split.
  { rewrite IHp. unfold acc'. by destruct (moved_key from to k). }
  intros k' Hk'. rewrite IHl by done. cbn [list_to_map foldr]. simpl.
  destruct (moved_key to from k') as [k0|] eqn:E0; simpl.
  - destruct (decide (k0 = k)) as [->|Hne].
    + rewrite lookup_insert_eq. rewrite not_elem_of_list_to_map_1 by done.
      apply moved_key_inv in E0; [|done]. unfold acc'. rewrite E0. simpl. by rewrite lookup_insert_eq.
    + rewrite lookup_insert_ne by done. destruct (_ !! k0); [done|].
      unfold acc'. destruct (moved_key from to k) as [k1|] eqn:E1; [|done]. simpl.
      rewrite lookup_insert_ne; [done|]. intros ->. apply moved_key_inv in E1; [|apply Hk]. congruence.
  - unfold acc'. destruct (moved_key from to k) as [k1|] eqn:E1; [|done]. simpl.
    rewrite lookup_insert_ne; [done|]. intros ->. apply moved_key_inv in E1; [|apply Hk]. congruence.
Qed.

Lemma map_entries_good m :
  good_map m -> NoDup (map_entries m).*1 /\ Forall good_key (map_entries m).*1 /\
  (list_to_map (map_entries m) : gmap jstr FolderMetadata) = fm_own m.
Proof.
  intros [_ Hg]. unfold map_entries. split_and!.
  - apply NoDup_fst_map_to_list.
  - apply Forall_forall. intros k ([k' v] & -> & Hin)%list_elem_of_fmap.
    apply elem_of_map_to_list in Hin. by eapply Hg.
  - apply list_to_map_to_list.
Qed.

(** What [moveFolderMetadataSubtree] does to a map the file can hold. *)
Lemma move_lookup m from to k :
  good_map m -> good_key to -> plain_segs (split_on slash k) = true ->
  fm_own (moveFolderMetadataSubtree m from to) !! k =
    match relativeDescendantPath to k with
    | Some [] => fm_own m !! from
    | Some s => fm_own m !! (from ++ slash :: s)
    | None => match relativeDescendantPath from k with
              | Some _ => None
              | None => fm_own m !! k
              end
    end.
Proof.
  intros Hm [Ht Htp] Hk. destruct (map_entries_good m Hm) as (Hnd & Hg & Hl).
  unfold moveFolderMetadataSubtree.
  destruct (move_fold_spec from to (map_entries m) empty_map Ht Htp Hnd Hg) as [_ H].
  rewrite H, Hl by done. clear H. simpl. rewrite lookup_empty. unfold moved_key.
  destruct (relativeDescendantPath to k) as [[|c s]|]; simpl.
  - by destruct (fm_own m !! from).
  - by destruct (fm_own m !! _).
  - destruct (relativeDescendantPath from k); simpl; [done|]. by destruct (fm_own m !! k).
Qed.

(** What [removeFolderMetadataSubtree] does. *)
Lemma remove_lookup m deleted k :
  fm_own (removeFolderMetadataSubtree m deleted) !! k =
    if bool_decide (is_Some (relativeDescendantPath deleted k)) then None else fm_own m !! k.
Proof.
  unfold removeFolderMetadataSubtree, map_from_entries, own_map, map_entries. simpl.
  rewrite <- map_filter_alt. case_bool_decide as Hd.
  - apply map_lookup_filter_None. right. intros v _ [Hne Hn]. simpl in *. rewrite Hn in Hd. by destruct Hd.
  - destruct (fm_own m !! k) as [v|] eqn:E.
    + apply map_lookup_filter_Some. split; [done|]. simpl.
      destruct (relativeDescendantPath deleted k) eqn:Er; [by destruct Hd|]. split; [|done].
      intros ->. by rewrite rdp_self in Er.
    + apply map_lookup_filter_None. by left.
Qed.
