(* ===== verification/VaultOps.v ===== *)
(** The operations of [packages/vault-core/src/vault-ops.ts] on a vault: listing,
    reading, writing, deleting and moving files and folders, and the metadata of
    folders.  Every operation is one function on the world of [FileSystem.v]; the
    metadata operations run here the way the queue of [MutationQueue.v] runs them,
    one at a time. *)
From S2P Require Import Prelude JsString Utf8 Json NodePath VaultPath Artifact FileSystem IsoDate AuditLog FolderMetadata.

(** * Data *)

Record VaultContext := { root : jstr; actor : option VaultActor }.

Record VaultEntry := {
  ve_path : jstr;
  ve_kind : AuditEntityKind;
  ve_size : Z;
  ve_mtimeMs : Z;
  ve_artifact : option ArtifactInfo;
  ve_metadata : option FolderMetadata;
  ve_watchCtimeMs : option Z;
  ve_watchIno : option N
}.

#[export] Instance VaultEntry_eq_dec : EqDecision VaultEntry.
Proof. solve_decision. Defined.

Record VaultInfo := { rootName : jstr; fileCount : nat; folderCount : nat }.
Record ReadFileValue := { rf_path : jstr; rf_content : jstr; rf_size : Z; rf_mtimeMs : Z }.
Record WriteFileValue := { wf_path : jstr; wf_size : Z; wf_mtimeMs : Z; wf_audit : AuditEntry }.
Record ReadRawFileValue := {
  rr_path : jstr; rr_filePath : jstr; rr_size : Z; rr_mtimeMs : Z; rr_artifact : ArtifactInfo }.
Record WriteRawFileValue := {
  wr_path : jstr; wr_size : Z; wr_mtimeMs : Z; wr_artifact : ArtifactInfo; wr_audit : AuditEntry }.
Record DeleteValue := {
  dv_path : jstr; dv_trashPath : option jstr; dv_permanent : bool; dv_audit : AuditEntry }.
Record MoveValue := {
  mv_fromPath : jstr; mv_toPath : jstr; mv_kind : AuditEntityKind; mv_audit : AuditEntry }.
Record FolderMetadataValue := {
  fv_path : jstr; fv_metadata : FolderMetadata; fv_audit : option AuditEntry }.
Record MakeFolderValue := { mf_path : jstr; mf_audit : option AuditEntry }.

Definition DEFAULT_DEPTH : Z := 10.
Definition DEFAULT_ENTRY_CAP : Z := 5000.
Definition MAX_SAFE_INTEGER : Z := 2 ^ 53 - 1.
Definition STAT_BATCH_SIZE : nat := 32.

Definition classifyPathError {T} (e : exn) : option (VaultResult T) :=
  match e with ExPath err => Some (VFail invalid_path (ipe_message err)) | _ => None end.

Definition classifyFsCollision {T} (e : exn) : option (VaultResult T) :=
  match isNodeError e with
  | Some ENOTDIR | Some EEXIST =>
      Some (VFail path_collision (js "path collides with an existing file or folder"))
  | _ => None
  end.

(** The [catch] blocks: path errors, and path errors before collisions. *)
Definition catch_path {T} (m : M (VaultResult T)) : M (VaultResult T) :=
  try_catch m (fun e => match classifyPathError e with Some r => mret r | None => throw e end).
Definition catch_path_collision {T} (m : M (VaultResult T)) : M (VaultResult T) :=
  try_catch m (fun e =>
    match classifyPathError e with
    | Some r => mret r
    | None => match classifyFsCollision e with Some r => mret r | None => throw e end
    end).

Definition path_kind (k : AuditEntityKind) : VaultPathKind :=
  match k with EkFile => PKFile | EkFolder => PKFolder end.
Definition kind_matches (k : AuditEntityKind) (n : node) : bool :=
  match k with EkFile => is_file n | EkFolder => is_dir n end.

(** * The tree walk *)

Section walk.
Context `{Host, NodeHost}.

Definition valid (input : jstr) (kind : VaultPathKind) : M jstr :=
  lift_path (validateVaultPath Posix input kind).

(** The path of a directory entry, and the absolute path of a directory. *)
Definition child_path (relDir name : jstr) : jstr :=
  if bool_decide (relDir = []) then name else path_join [relDir; name].
Definition dir_path (root relDir : jstr) : M jstr :=
  if bool_decide (relDir = []) then mret root else vaultPath root relDir.

Definition folder_entry (rel : jstr) (stat : node) : VaultEntry :=
  {| ve_path := rel; ve_kind := EkFolder; ve_size := 0; ve_mtimeMs := node_mtime stat;
     ve_artifact := None; ve_metadata := None; ve_watchCtimeMs := None; ve_watchIno := None |}.
Definition file_entry (rel : jstr) (stat : node) : VaultEntry :=
  {| ve_path := rel; ve_kind := EkFile; ve_size := node_size stat; ve_mtimeMs := node_mtime stat;
     ve_artifact := Some (classifyArtifactPath rel); ve_metadata := None;
     ve_watchCtimeMs := match stat with NFile _ _ c _ => Some c | NDir _ => None end;
     ve_watchIno := match stat with NFile _ _ _ i => Some i | NDir _ => None end |}.

(** [entries.push(entry); if (entries.length >= cap) throw ...]. *)
Definition push_entry (cap : Z) (entry : VaultEntry) (entries : list VaultEntry)
  : M (list VaultEntry) :=
  let entries := entries ++ [entry] in
  if (cap <=? Z.of_nat (length entries))%Z then throw ExEntryCap else mret entries.

Record walk_row := { row_dirent : node; row_rel : jstr; row_stat : node }.

(** The rows of one batch. *)
Fixpoint stat_batch (root relDir : jstr) (batch : list (jstr * node)) : M (list walk_row) :=
  match batch with
  | [] => mret []
  | (name, dirent) :: batch =>
      let rel := child_path relDir name in
      p ← vaultPath root rel; s ← fs_stat p;
      rows ← stat_batch root relDir batch;
      mret ({| row_dirent := dirent; row_rel := rel; row_stat := s |} :: rows)
  end.

(** The loops over the rows of a batch and over the batches; [recurse] walks a
    folder. *)
Fixpoint walk_rows (recurse : jstr -> list VaultEntry -> M (list VaultEntry)) (cap : Z)
  (rows : list walk_row) (entries : list VaultEntry) : M (list VaultEntry) :=
  match rows with
  | [] => mret entries
  | row :: rows =>
      entries ←
        (if is_dir (row_dirent row) then
           entries ← push_entry cap (folder_entry (row_rel row) (row_stat row)) entries;
           recurse (row_rel row) entries
         else push_entry cap (file_entry (row_rel row) (row_stat row)) entries);
      walk_rows recurse cap rows entries
  end.

Fixpoint walk_batches (recurse : jstr -> list VaultEntry -> M (list VaultEntry)) (cap : Z)
  (root relDir : jstr) (batches : list (list (jstr * node))) (entries : list VaultEntry)
  : M (list VaultEntry) :=
  match batches with
  | [] => mret entries
  | batch :: batches =>
      rows ← stat_batch root relDir batch;
      entries ← walk_rows recurse cap rows entries;
      walk_batches recurse cap root relDir batches entries
  end.

Fixpoint walkEntries (fuel : nat) (root relDir : jstr) (currentDepth maxDepth cap : Z)
  (entries : list VaultEntry) : M (list VaultEntry) :=
  match fuel with
  | O => throw ExFuel
  | S fuel =>
      if (cap <=? Z.of_nat (length entries))%Z then throw ExEntryCap
      else if (maxDepth <? currentDepth)%Z then mret entries
      else
        absDir ← dir_path root relDir;
        dirents ← fs_readdir absDir;
        let visibleDirents :=
          filter (fun d => isInternalVaultPath (child_path relDir d.1) = false) dirents in
        walk_batches
          (fun rel entries => walkEntries fuel root rel (currentDepth + 1) maxDepth cap entries)
          cap root relDir (chunks_of STAT_BATCH_SIZE (length visibleDirents) visibleDirents) entries
  end.

(** A bound on the depth of the tree: no chain of directories is longer. *)
Definition walk_fuel (f : tree) : nat := S (S (size f)).

Definition walk (root relDir : jstr) (maxDepth cap : Z) : M (list VaultEntry) :=
  f ← asks w_fs; walkEntries (walk_fuel f) root relDir 0 maxDepth cap [].

End walk.

(** * Operations *)

Section operations.
Context `{Host, JsonHost, NodeHost, AuditHandlers, YamlLib}.

Definition exists_path (absPath : jstr) : M bool :=
  s ← statOrNull absPath; mret (bool_decide (is_Some s)).

Definition trashRelativePath (originalPath : jstr) : M jstr :=
  now ← asks w_now;
  uuid ← randomUUID;
  let deletedAt := replace_all 58 (js "-") (toISOString now) in
  let batchId := deletedAt ++ js "-" ++ uuid in
  mret (path_join [js ".kb1"; js "trash"; batchId; originalPath]).

Definition ensureEditableArtifact (relPath : jstr) : VaultResult ArtifactInfo :=
  let artifact := classifyArtifactPath relPath in
  if negb (editable artifact)
  then VFail not_editable (js "file is not an editable text artifact")
  else VOk artifact.

Definition attachFolderMetadata (entries : list VaultEntry) (metadata : FolderMetadataMap)
  : list VaultEntry :=
  map (fun entry =>
    match ve_kind entry, map_get metadata (ve_path entry) with
    | EkFolder, Some m =>
        {| ve_path := ve_path entry; ve_kind := ve_kind entry; ve_size := ve_size entry;
           ve_mtimeMs := ve_mtimeMs entry; ve_artifact := ve_artifact entry;
           ve_metadata := Some (cloneMetadata m);
           ve_watchCtimeMs := ve_watchCtimeMs entry; ve_watchIno := ve_watchIno entry |}
    | _, _ => entry
    end) entries.

Definition count_kind (k : AuditEntityKind) (entries : list VaultEntry) : nat :=
  length (filter (fun e => ve_kind e = k) entries).

Definition getVaultInfo (ctx : VaultContext) : M (VaultResult VaultInfo) :=
  try_catch
    (fs_mkdir (root ctx);;
     entries ← walk (root ctx) [] MAX_SAFE_INTEGER DEFAULT_ENTRY_CAP;
     mret (VOk {| rootName := basename (resolve cwd [root ctx]);
                  fileCount := count_kind EkFile entries;
                  folderCount := count_kind EkFolder entries |}))
    (fun e =>
      match e with
      | ExEntryCap =>
          mret (VFail entry_cap_exceeded
            (js "vault exceeds " ++ dec DEFAULT_ENTRY_CAP ++ js " entries"))
      | _ => throw e
      end).

Record ListInput := { li_under : option jstr; li_depth : option Z; li_entryCap : option Z }.

Definition listVaultTree (ctx : VaultContext) (input : ListInput) : M (VaultResult (list VaultEntry)) :=
  let cap := default DEFAULT_ENTRY_CAP (li_entryCap input) in
  try_catch
    (under ← default [] <$> lift_path (validateOptionalVaultPath Posix (li_under input) PKFolder);
     absUnder ← dir_path (root ctx) under;
     underStat ← statOrNull absUnder;
     if negb (from_option is_dir false underStat)
     then mret (VFail not_found (js "folder not found"))
     else
       entries ← walk (root ctx) under (default DEFAULT_DEPTH (li_depth input)) cap;
       metadata ← readFolderMetadataMap (root ctx);
       vfail_as metadata (fun m => mret (VOk (attachFolderMetadata entries m))))
    (fun e =>
      match classifyPathError e with
      | Some r => mret r
      | None =>
          match e with
          | ExEntryCap => mret (VFail entry_cap_exceeded (js "tree exceeds " ++ dec cap ++ js " entries"))
          | _ => throw e
          end
      end).

Definition getFolderMetadata (ctx : VaultContext) (folderPath : jstr)
  : M (VaultResult FolderMetadataValue) :=
  catch_path (
    rel ← valid folderPath PKFolder;
    abs ← vaultPath (root ctx) rel;
    s ← statOrNull abs;
    if negb (from_option is_dir false s) then mret (VFail not_found (js "folder not found"))
    else
      metadata ← readFolderMetadataMap (root ctx);
      vfail_as metadata (fun m =>
        mret (VOk {| fv_path := rel; fv_metadata := cloneMetadata (default no_metadata (map_get m rel));
                     fv_audit := None |}))).

(** The map [setFolderMetadata] writes. *)
Definition set_metadata_map (m : FolderMetadataMap) (rel : jstr) (nextMetadata : FolderMetadata)
  : FolderMetadataMap :=
  let nextMap := own_map (fm_own m) in
  if isEmptyMetadata nextMetadata then map_delete nextMap rel else map_set nextMap rel nextMetadata.

Definition setFolderMetadata (ctx : VaultContext) (folderPath : jstr) (input : FolderMetadataInput)
  : M (VaultResult FolderMetadataValue) :=
  catch_path (
    rel ← valid folderPath PKFolder;
    vfail_as (normalizeFolderMetadataInput input) (fun normalizedInput =>
      abs ← vaultPath (root ctx) rel;
      s ← statOrNull abs;
      if negb (from_option is_dir false s) then mret (VFail not_found (js "folder not found"))
      else
        metadata ← readFolderMetadataMap (root ctx);
        vfail_as metadata (fun m =>
          let nextMetadata :=
            applyFolderMetadataInput (default no_metadata (map_get m rel)) normalizedInput in
          writeFolderMetadataMap (root ctx) (set_metadata_map m rel nextMetadata);;
          audit ← emitVaultAudit
            {| ai_root := root ctx; ai_actor := actor ctx; ai_operation := OpWrite;
               ai_entityKind := EkFolder; ai_path := rel; ai_fromPath := None; ai_toPath := None;
               ai_summary := js "Updated folder metadata for " ++ rel |};
          mret (VOk {| fv_path := rel; fv_metadata := nextMetadata; fv_audit := Some audit |})))).

Definition listFolderMetadata (ctx : VaultContext) : M (VaultResult FolderMetadataMap) :=
  readFolderMetadataMap (root ctx).

Definition readVaultFile (ctx : VaultContext) (filePath : jstr) : M (VaultResult ReadFileValue) :=
  catch_path (
    rel ← valid filePath PKFile;
    vfail_as (ensureEditableArtifact rel) (fun _ =>
      abs ← vaultPath (root ctx) rel;
      s ← statOrNull abs;
      match s with
      | Some (NFile _ _ _ _ as n) =>
          content ← decode <$> fs_readFile abs;
          mret (VOk {| rf_path := rel; rf_content := content; rf_size := node_size n;
                       rf_mtimeMs := node_mtime n |})
      | _ => mret (VFail not_found (js "file not found"))
      end)).

(** What [writeVaultFile] and [writeVaultRawFile] do once the path is accepted. *)
Definition write_bytes (ctx : VaultContext) (rel : jstr) (bytes : list N) (overwrite : bool)
  : M (VaultResult (node * AuditEntry)) :=
  abs ← vaultPath (root ctx) rel;
  existsAlready ← exists_path abs;
  if existsAlready && negb overwrite
  then mret (VFail already_exists (js "file already exists"))
  else
    fs_mkdir (dirname abs);;
    fs_writeFile abs bytes;;
    s ← fs_stat abs;
    audit ← emitVaultAudit
      {| ai_root := root ctx; ai_actor := actor ctx;
         ai_operation := if existsAlready then OpWrite else OpCreate;
         ai_entityKind := EkFile; ai_path := rel; ai_fromPath := None; ai_toPath := None;
         ai_summary := (if existsAlready then js "Wrote " else js "Created ") ++ rel |};
    mret (VOk (s, audit)).

Record WriteFileInput := { wi_path : jstr; wi_content : jstr; wi_overwrite : bool }.

Definition writeVaultFile (ctx : VaultContext) (input : WriteFileInput) : M (VaultResult WriteFileValue) :=
  catch_path_collision (
    rel ← valid (wi_path input) PKFile;
    vfail_as (ensureEditableArtifact rel) (fun _ =>
      written ← write_bytes ctx rel (encode (wi_content input)) (wi_overwrite input);
      vfail_as written (fun '(s, audit) =>
        mret (VOk {| wf_path := rel; wf_size := node_size s; wf_mtimeMs := node_mtime s;
                     wf_audit := audit |})))).

Definition readVaultRawFile (ctx : VaultContext) (filePath : jstr)
  : M (VaultResult ReadRawFileValue) :=
  catch_path (
    rel ← valid filePath PKArtifact;
    abs ← vaultPath (root ctx) rel;
    s ← statOrNull abs;
    match s with
    | Some (NFile _ _ _ _ as n) =>
        mret (VOk {| rr_path := rel; rr_filePath := abs; rr_size := node_size n;
                     rr_mtimeMs := node_mtime n; rr_artifact := classifyArtifactPath rel |})
    | _ => mret (VFail not_found (js "file not found"))
    end).

Record WriteRawInput := { wri_path : jstr; wri_bytes : list N; wri_overwrite : bool }.

Definition writeVaultRawFile (ctx : VaultContext) (input : WriteRawInput)
  : M (VaultResult WriteRawFileValue) :=
  catch_path_collision (
    rel ← valid (wri_path input) PKArtifact;
    written ← write_bytes ctx rel (wri_bytes input) (wri_overwrite input);
    vfail_as written (fun '(s, audit) =>
      mret (VOk {| wr_path := rel; wr_size := node_size s; wr_mtimeMs := node_mtime s;
                   wr_artifact := classifyArtifactPath rel; wr_audit := audit |}))).

Definition makeVaultFolder (ctx : VaultContext) (folderPath : jstr) : M (VaultResult MakeFolderValue) :=
  catch_path_collision (
    rel ← valid folderPath PKFolder;
    abs ← vaultPath (root ctx) rel;
    existed ← exists_path abs;
    fs_mkdir abs;;
    if (existed : bool) then mret (VOk {| mf_path := rel; mf_audit := None |})
    else
      audit ← emitVaultAudit
        {| ai_root := root ctx; ai_actor := actor ctx; ai_operation := OpMkdir;
           ai_entityKind := EkFolder; ai_path := rel; ai_fromPath := None; ai_toPath := None;
           ai_summary := js "Created folder " ++ rel |};
      mret (VOk {| mf_path := rel; mf_audit := Some audit |})).

(** Delete an entry: for good, or by moving it to the trash. *)
Definition discard (ctx : VaultContext) (rel abs : jstr) (permanent recursive : bool)
  : M (option jstr) :=
  if permanent then fs_rm abs recursive;; mret None
  else
    trashPath ← trashRelativePath rel;
    trashAbs ← vaultPath (root ctx) trashPath;
    fs_mkdir (dirname trashAbs);;
    fs_rename abs trashAbs;;
    mret (Some trashPath).

Record DeleteFileInput := { dfi_path : jstr; dfi_permanent : bool }.

Definition deleteVaultFile (ctx : VaultContext) (input : DeleteFileInput) : M (VaultResult DeleteValue) :=
  let permanent := dfi_permanent input in
  catch_path (
    rel ← valid (dfi_path input) PKFile;
    abs ← vaultPath (root ctx) rel;
    s ← statOrNull abs;
    if negb (from_option is_file false s) then mret (VFail not_found (js "file not found"))
    else
      trashPath ← discard ctx rel abs permanent false;
      audit ← emitVaultAudit
        {| ai_root := root ctx; ai_actor := actor ctx; ai_operation := OpDelete;
           ai_entityKind := EkFile; ai_path := rel; ai_fromPath := None; ai_toPath := None;
           ai_summary := if permanent then js "Deleted " ++ rel ++ js " permanently"
                         else js "Moved " ++ rel ++ js " to trash" |};
      mret (VOk {| dv_path := rel; dv_trashPath := trashPath; dv_permanent := permanent;
                   dv_audit := audit |})).

Record DeleteFolderInput := { dpi_path : jstr; dpi_recursive : bool; dpi_permanent : bool }.

Definition deleteVaultFolder (ctx : VaultContext) (input : DeleteFolderInput)
  : M (VaultResult DeleteValue) :=
  let permanent := dpi_permanent input in
  catch_path (
    rel ← valid (dpi_path input) PKFolder;
    abs ← vaultPath (root ctx) rel;
    s ← statOrNull abs;
    if negb (from_option is_dir false s) then mret (VFail not_found (js "folder not found"))
    else
      children ← fs_readdir abs;
      if bool_decide (children <> []) && negb (dpi_recursive input)
      then mret (VFail folder_not_empty (js "folder is not empty"))
      else
        metadata ← readFolderMetadataMap (root ctx);
        vfail_as metadata (fun m =>
          trashPath ← discard ctx rel abs permanent true;
          writeFolderMetadataMap (root ctx) (removeFolderMetadataSubtree m rel);;
          audit ← emitVaultAudit
            {| ai_root := root ctx; ai_actor := actor ctx; ai_operation := OpDelete;
               ai_entityKind := EkFolder; ai_path := rel; ai_fromPath := None; ai_toPath := None;
               ai_summary := if permanent then js "Deleted folder " ++ rel ++ js " permanently"
                             else js "Moved folder " ++ rel ++ js " to trash" |};
          mret (VOk {| dv_path := rel; dv_trashPath := trashPath; dv_permanent := permanent;
                       dv_audit := audit |}))).

Record MoveInput := {
  mi_fromPath : jstr; mi_toPath : jstr; mi_kind : AuditEntityKind; mi_overwrite : bool }.

(** The [rename] of [movePath] and its fallback across devices. *)
Definition rename_or_copy (fromAbs toAbs : jstr) : M unit :=
  try_catch (fs_rename fromAbs toAbs)
    (fun e =>
      if bool_decide (isNodeError e = Some EXDEV)
      then fs_copy fromAbs toAbs;; fs_rm fromAbs true
      else throw e).

(** [if (input.overwrite === true && (await exists(toAbs))) await rm(toAbs, ...)]. *)
Definition clear_target (toAbs : jstr) (overwrite : bool) : M unit :=
  if overwrite
  then present ← exists_path toAbs;
       if (present : bool) then fs_rm toAbs true else mret tt
  else mret tt.

(** The closure [movePath]. *)
Definition movePath (ctx : VaultContext) (input : MoveInput) (from to fromAbs toAbs : jstr)
  (metadata : option FolderMetadataMap) : M (VaultResult MoveValue) :=
  present ← exists_path toAbs;
  if present && negb (mi_overwrite input)
  then mret (VFail path_collision (js "target path already exists"))
  else
    fs_mkdir (dirname toAbs);;
    clear_target toAbs (mi_overwrite input);;
    rename_or_copy fromAbs toAbs;;
    (match metadata with
     | Some m => writeFolderMetadataMap (root ctx) (moveFolderMetadataSubtree m from to)
     | None => mret tt
     end);;
    audit ← emitVaultAudit
      {| ai_root := root ctx; ai_actor := actor ctx; ai_operation := OpMove;
         ai_entityKind := mi_kind input; ai_path := to; ai_fromPath := Some from;
         ai_toPath := Some to; ai_summary := js "Moved " ++ from ++ js " to " ++ to |};
    mret (VOk {| mv_fromPath := from; mv_toPath := to; mv_kind := mi_kind input; mv_audit := audit |}).

Definition moveVaultPath (ctx : VaultContext) (input : MoveInput) : M (VaultResult MoveValue) :=
  catch_path_collision (
    from ← valid (mi_fromPath input) (path_kind (mi_kind input));
    to ← valid (mi_toPath input) (path_kind (mi_kind input));
    if bool_decide (mi_kind input = EkFolder) && bool_decide (is_Some (relativeDescendantPath from to))
    then mret (VFail invalid_path (js "folder cannot be moved into itself"))
    else
      fromAbs ← vaultPath (root ctx) from;
      toAbs ← vaultPath (root ctx) to;
      s ← statOrNull fromAbs;
      if negb (from_option (kind_matches (mi_kind input)) false s)
      then mret (VFail not_found (entity_text (mi_kind input) ++ js " not found"))
      else
        match mi_kind input with
        | EkFolder =>
            metadata ← readFolderMetadataMap (root ctx);
            vfail_as metadata (fun m => movePath ctx input from to fromAbs toAbs (Some m))
        | EkFile => movePath ctx input from to fromAbs toAbs None
        end).

End operations.
