(* ===== verification/VaultCalls.v ===== *)
(** What the calls of [FileSystem.v] do to a vault: the keys of paths below the
    root, the effect of each call on the tree, and when the tree stays well formed.
    The operations of [VaultOps.v] are proved from these lemmas. *)
From S2P Require Import Prelude JsString Utf8 NodePath VaultPath FileSystem FolderMetadata.

(** * Running sequences of calls *)

Lemma M_bind_ok {A B} (m : M A) (g : A -> M B) w b w' :
  (m ≫= g) w = (Ok b, w') -> exists a w1, m w = (Ok a, w1) /\ g a w1 = (Ok b, w').
Proof. unfold mbind, M_bind. destruct (m w) as [[a|e] w1]; [eauto|done]. Qed.

Lemma M_fmap_ok {A B} (g : A -> B) (m : M A) w b w' :
  (g <$> m) w = (Ok b, w') -> exists a, m w = (Ok a, w') /\ b = g a.
Proof. unfold fmap, M_fmap. destruct (m w) as [[a|e] w1]; [|done]. intros [= <- <-]. eauto. Qed.

Lemma M_bind_run {A B} (m : M A) (g : A -> M B) w a w1 :
  m w = (Ok a, w1) -> (m ≫= g) w = g a w1.
Proof. unfold mbind, M_bind. by intros ->. Qed.

Lemma try_catch_ok {A} (m : M A) h w a w1 : m w = (Ok a, w1) -> try_catch m h w = (Ok a, w1).
Proof. unfold try_catch. by intros ->. Qed.

(** * Keys *)

Lemma key_of_abs segs : plain_segs segs = true -> key_of (abs_path segs) = segs.
Proof.
  intros Hp. unfold key_of, abs_path. cbn [split_on]. rewrite N.eqb_refl.
  rewrite filter_cons_False by (intros H; by apply H).
  destruct segs as [|s segs]; [done|]. apply plain_segs_spec in Hp.
  rewrite split_join by (done || by eapply Forall_impl; [done|]; intros ? []).
  induction (s :: segs) as [|t l IH]; [done|]. apply Forall_cons in Hp as [[Ht _] Hl].
  apply plain_seg_spec in Ht as (Ht & _). rewrite filter_cons_True by done. by rewrite IH.
Qed.

Lemma path_key_abs `{NodeHost} segs : plain_segs segs = true -> path_key (abs_path segs) = segs.
Proof. intros Hp. unfold path_key. rewrite resolve_abs by done. by apply key_of_abs. Qed.

Lemma below_longer p k : (length k < length p)%nat -> below p k = false.
Proof.
  intros Hl. apply not_true_is_false. intros [s ->]%below_spec. rewrite length_app in Hl. lia.
Qed.

Lemma below_self p : below p p = true.
Proof. apply below_spec. exists []. by rewrite app_nil_r. Qed.

Lemma below_antisym p q : below p q = true -> below q p = true -> p = q.
Proof.
  intros [s ->]%below_spec [t Ht]%below_spec. rewrite <- app_assoc in Ht.
  rewrite <- (app_nil_r p) in Ht at 1. apply app_inv_head in Ht.
  symmetry in Ht. apply app_eq_nil in Ht as [-> _]. by rewrite app_nil_r.
Qed.

(** Two keys below which a third lies are comparable. *)
Lemma below_comparable p q k :
  below p k = true -> below q k = true -> below p q = true \/ below q p = true.
Proof.
  intros [s ->]%below_spec [t Ht]%below_spec.
  apply app_eq_inv in Ht as [(r & -> & _)|(r & -> & _)]; [right|left]; apply below_app.
Qed.

(** * [mkdir] *)

Lemma make_dirs_lookup now segs : forall f pre f' j,
  make_dirs f now pre segs = Ok f' ->
  f' !! j = match f !! j with
            | Some n => Some n
            | None => match strip_prefix pre j with
                      | Some ((_ :: _) as s) => if below s segs then Some (NDir now) else None
                      | _ => None
                      end
            end.
Proof.
  induction segs as [|x segs IH]; intros f pre f' j; cbn [make_dirs].
  - intros [= <-]. destruct (f !! j); [done|]. destruct (strip_prefix pre j) as [[|y s]|]; try done.
  - assert (forall f0, make_dirs f0 now (pre ++ [x]) segs = Ok f' ->
      f' !! j = match f0 !! j with
            | Some n => Some n
            | None => match strip_prefix (pre ++ [x]) j with
                      | Some ((_ :: _) as s) => if below s segs then Some (NDir now) else None
                      | _ => None
                      end end) as Hrec by (intros f0; apply IH).
    assert (forall z s, below (z :: s) (x :: segs) = bool_decide (z = x) && below s segs) as Hb.
    { intros z s. apply eq_bool_prop_intro. rewrite !Is_true_true, andb_true_iff, bool_decide_eq_true, !below_spec.
      split; [intros [t [= -> ->]]; eauto|intros [-> [t ->]]; by exists t]. }
    assert (strip_prefix (pre ++ [x]) j =
      match strip_prefix pre j with Some (z :: s) => if bool_decide (z = x) then Some s else None | _ => None end) as Hs.
    { destruct (strip_prefix (pre ++ [x]) j) as [s|] eqn:E.
      - apply strip_prefix_spec in E as ->. rewrite <- app_assoc, strip_prefix_app. simpl.
        by rewrite bool_decide_eq_true_2.
      - destruct (strip_prefix pre j) as [[|z s]|] eqn:E2; try done. case_bool_decide as Hz; [|done]. subst z.
        apply strip_prefix_spec in E2 as ->.
        change (x :: s) with ([x] ++ s) in E. by rewrite app_assoc, strip_prefix_app in E. }
    destruct (node_at f (pre ++ [x])) as [[|]|] eqn:E; [by destruct segs| |].
    + intros ->%Hrec. rewrite Hs. destruct (f !! j) eqn:Ej; [done|].
      destruct (strip_prefix pre j) as [[|z s]|] eqn:E2; try done. rewrite Hb.
      case_bool_decide as Hz; [|done]. simpl. destruct s; [|done]. subst.
      apply strip_prefix_spec in E2 as ->. rewrite node_at_lookup in E by by destruct pre. congruence.
    + intros ->%Hrec. rewrite Hs. destruct (decide (j = pre ++ [x])) as [->|Hne].
      * rewrite lookup_insert_eq, strip_prefix_app, Hb, bool_decide_eq_true_2 by done.
        rewrite node_at_lookup in E by by destruct pre. rewrite E.
        by rewrite (proj2 (below_spec [] segs)) by eauto.
      * rewrite lookup_insert_ne by done. destruct (f !! j); [done|].
        destruct (strip_prefix pre j) as [[|z s]|] eqn:E2; try done. rewrite Hb.
        case_bool_decide as Hz; [|done]. subst. simpl. destruct s; [|done].
        by apply strip_prefix_spec in E2.
Qed.

(** Folders that are there already. *)
Lemma make_dirs_existing now segs : forall f pre,
  (forall s, s <> [] -> below s segs = true -> exists m, f !! (pre ++ s) = Some (NDir m)) ->
  make_dirs f now pre segs = Ok f.
Proof.
  induction segs as [|x segs IH]; intros f pre Hd; [done|]. cbn [make_dirs].
  destruct (Hd [x]) as [m Hm]; [done|by apply below_spec; exists segs|].
  rewrite node_at_lookup, Hm by by destruct pre. apply IH. intros s Hs [t ->]%below_spec.
  destruct (Hd (x :: s)) as [m' Hm']; [done|by apply below_spec; exists t|].
  exists m'. by rewrite <- app_assoc.
Qed.

(** The tree after [mkdir(k, { recursive: true })]. *)
Definition with_dirs (f f' : tree) (now : Z) (k : fskey) : Prop :=
  forall j, f' !! j = match f !! j with
                      | Some n => Some n
                      | None => if bool_decide (j <> []) && below j k then Some (NDir now) else None
                      end.

Lemma make_dirs_with f now k f' : make_dirs f now [] k = Ok f' -> with_dirs f f' now k.
Proof.
  intros H j. rewrite (make_dirs_lookup _ _ _ _ _ j H). destruct (f !! j); [done|].
  by destruct j.
Qed.

Lemma make_dirs_is_dir now segs : forall f pre f' s,
  make_dirs f now pre segs = Ok f' -> s <> [] -> below s segs = true ->
  exists m, f' !! (pre ++ s) = Some (NDir m).
Proof.
  induction segs as [|x segs IH]; intros f pre f' s; cbn [make_dirs].
  - intros _ Hs [t Ht]%below_spec. by destruct s.
  - intros Hm Hs [t Ht]%below_spec. destruct s as [|y s]; [done|]. injection Ht as <- ->.
    assert (exists f0, make_dirs f0 now (pre ++ [x]) (s ++ t) = Ok f' /\
              exists m, f0 !! (pre ++ [x]) = Some (NDir m)) as (f0 & Hf0 & m & Hm0).
    { destruct (node_at f (pre ++ [x])) as [[|m]|] eqn:E.
      - by destruct (s ++ t).
      - exists f. rewrite node_at_lookup in E by by destruct pre. eauto.
      - eexists. split; [done|]. exists now. by rewrite lookup_insert_eq. }
    destruct (decide (s = [])) as [->|Hne].
    + exists m. by rewrite (make_dirs_lookup _ _ _ _ _ _ Hf0), Hm0.
    + destruct (IH _ _ _ s Hf0 Hne) as [m' Hm']; [by apply below_app|].
      exists m'. by rewrite <- app_assoc in Hm'.
Qed.

Lemma make_dirs_ok now segs : forall f pre,
  (forall s, s <> [] -> below s segs = true -> from_option is_dir true (f !! (pre ++ s)) = true) ->
  is_ok (make_dirs f now pre segs) = true.
Proof.
  induction segs as [|x segs IH]; intros f pre Hd; [done|]. cbn [make_dirs].
  assert (below [x] (x :: segs) = true) as Hx by (apply below_spec; by exists segs).
  pose proof (Hd [x] ltac:(done) Hx) as Hdx.
  rewrite node_at_lookup by by destruct pre.
  assert (forall s, below s segs = true -> from_option is_dir true (f !! (pre ++ x :: s)) = true) as Hd'.
  { intros s [t ->]%below_spec. apply Hd; [done|]. apply below_spec. by exists t. }
  destruct (f !! (pre ++ [x])) as [[|m]|] eqn:E; [done| |].
  - apply IH. intros s Hs Hb. rewrite <- app_assoc. by apply Hd'.
  - apply IH. intros s Hs Hb. rewrite <- app_assoc. cbn [app].
    rewrite lookup_insert_ne; [by apply Hd'|]. intros [= <-]%app_inv_head. done.
Qed.

Lemma with_dirs_wf f f' now k : tree_wf f -> plain_segs k = true ->
  make_dirs f now [] k = Ok f' -> tree_wf f'.
Proof.
  intros (Hr & Hp & Hn) Hk Hm. pose proof (make_dirs_with _ _ _ _ Hm) as Hw. split_and!.
  - by rewrite Hw, Hr.
  - intros j x n. rewrite Hw. intros Hj. destruct (decide (j = [])) as [->|Hne]; [by exists 0%Z|].
    rewrite node_at_lookup, Hw by done. destruct (f !! (j ++ [x])) as [n'|] eqn:E.
    + destruct (Hp _ _ _ E) as [m Hm']. rewrite node_at_lookup in Hm' by done. rewrite Hm'. eauto.
    + destruct (_ && below (j ++ [x]) k) eqn:Eb; [|done]. to_prop.
      assert (below j k = true) as Hjk by (eapply below_trans; [|done]; apply below_app).
      rewrite bool_decide_eq_true_2, Hjk by done. cbn [andb].
      destruct (make_dirs_is_dir _ _ _ _ _ j Hm Hne Hjk) as [m Hm']. simpl in Hm'. rewrite Hw in Hm'.
      destruct (f !! j); eauto.
  - intros j n. rewrite Hw. destruct (f !! j) eqn:E; [intros _; by eapply Hn|].
    destruct (_ && below j k) eqn:Eb; [|done]. to_prop. intros _.
    match goal with H : below j k = true |- _ => apply below_spec in H as [t ->] end.
    rewrite plain_segs_app in Hk. by apply andb_true_iff in Hk as [? _].
Qed.

(** * Updates of one file *)

Lemma insert_file_wf f k n : tree_wf f -> plain_segs k = true -> k <> [] ->
  walk_error f [] k = None -> is_file n = true -> from_option is_file true (f !! k) = true ->
  tree_wf (<[k := n]> f).
Proof.
  intros (Hr & Hp & Hn) Hk Hne Hw Hf Hold. split_and!.
  - rewrite lookup_insert_ne by done. done.
  - intros j x m Hj. destruct (decide (j ++ [x] = k)) as [<-|Hjk].
    + destruct (decide (j = [])) as [->|Hjn]; [by exists 0%Z|].
      destruct (proj1 (walk_error_none f [] (j ++ [x])) Hw j [x]) as [m' Hm']; [done..|].
      exists m'. rewrite node_at_lookup in * by done. rewrite lookup_insert_ne; [done|].
      intros H%(f_equal length). rewrite length_app in H. simpl in H. lia.
    + rewrite lookup_insert_ne in Hj by done. destruct (Hp _ _ _ Hj) as [m' Hm'].
      exists m'. destruct (decide (j = [])) as [->|Hjn]; [done|].
      rewrite node_at_lookup in * by done. rewrite lookup_insert_ne; [done|]. intros <-.
      rewrite Hm' in Hold. done.
  - intros j m. destruct (decide (k = j)) as [<-|Hjk]; [done|].
    rewrite lookup_insert_ne by done. apply Hn.
Qed.

(** * [rm] *)

Lemma remove_tree_wf f p : tree_wf f -> tree_wf (remove_tree f p).
Proof.
  intros (Hr & Hp & Hn). split_and!.
  - rewrite lookup_remove_tree. by destruct (below p []).
  - intros j x m. rewrite lookup_remove_tree. destruct (below p (j ++ [x])) eqn:E; [done|].
    intros Hj. destruct (Hp _ _ _ Hj) as [m' Hm']. exists m'.
    destruct (decide (j = [])) as [->|Hjn]; [done|]. rewrite node_at_lookup in * by done.
    rewrite lookup_remove_tree. destruct (below p j) eqn:E2; [|done].
    rewrite (below_trans p j) in E; [done|done|apply below_app].
  - intros j m. rewrite lookup_remove_tree. destruct (below p j); [done|apply Hn].
Qed.

(** * [rename] and [cp] *)

Lemma children_nil f k : children f k = [] -> forall x, f !! (k ++ [x]) = None.
Proof.
  intros H x. destruct (f !! (k ++ [x])) as [n|] eqn:E; [|done].
  apply elem_of_children in E. rewrite H in E. by apply elem_of_nil in E.
Qed.

Lemma tree_wf_none f k s : tree_wf f -> k <> [] -> f !! k = None -> f !! (k ++ s) = None.
Proof.
  intros Hwf Hk Hn. destruct (f !! (k ++ s)) as [n|] eqn:E; [|done].
  destruct (decide (s = [])) as [->|Hs]; [rewrite app_nil_r in E; congruence|].
  destruct (tree_wf_prefix f k s n Hwf E Hs) as [m Hm]. rewrite node_at_lookup in Hm by done. congruence.
Qed.

Lemma tree_wf_file f k s n :
  tree_wf f -> k <> [] -> f !! k = Some n -> is_file n = true -> s <> [] -> f !! (k ++ s) = None.
Proof.
  intros Hwf Hk Hn Hf Hs. destruct (f !! (k ++ s)) as [n'|] eqn:E; [|done].
  destruct (tree_wf_prefix f k s n' Hwf E Hs) as [m Hm]. rewrite node_at_lookup in Hm by done.
  rewrite Hm in Hn. injection Hn as <-. done.
Qed.

(** The source cannot hold the target when [rename] goes ahead. *)
Lemma rename_not_inside f from to src :
  tree_wf f -> from <> [] -> from <> to -> f !! from = Some src -> rename_error f from to src = None ->
  below from to = false /\ walk_error f [] to = None.
Proof.
  intros Hwf Hfn Hft Hsrc. unfold rename_error. destruct (walk_error f [] to) eqn:Ew; [done|].
  destruct (is_dir src) eqn:Ed; cbn [andb].
  - destruct (below from to); [done|]. done.
  - intros _. split; [|done]. apply not_true_is_false. intros [t ->]%below_spec.
    destruct (decide (t = [])) as [->|Ht]; [by rewrite app_nil_r in Hft|].
    destruct (proj1 (walk_error_none f [] (from ++ t)) Ew from t) as [m Hm]; [done..|].
    simpl in Hm. rewrite node_at_lookup in Hm by done. rewrite Hm in Hsrc. by injection Hsrc as <-.
Qed.

(** Nothing lies below a target that [rename] replaces. *)
Lemma rename_target_empty f from to src :
  tree_wf f -> to <> [] -> rename_error f from to src = None ->
  forall t, t <> [] -> f !! (to ++ t) = None.
Proof.
  intros Hwf Htn. unfold rename_error. destruct (walk_error f [] to) eqn:Ew; [done|].
  destruct (is_dir src && below from to); [done|]. rewrite node_at_lookup by done.
  intros Hren t Ht. destruct (f !! to) as [[b m c i|m]|] eqn:E.
  - by eapply tree_wf_file.
  - destruct (is_file src); [done|]. case_bool_decide as Hc; [|done].
    destruct t as [|x t]; [done|]. pose proof (children_nil _ _ Hc x) as Hx.
    replace (to ++ x :: t) with ((to ++ [x]) ++ t) by (by rewrite <- app_assoc).
    apply tree_wf_none; [done|by destruct to|done].
  - by apply tree_wf_none.
Qed.

Lemma move_tree_wf f from to src :
  tree_wf f -> from <> [] -> to <> [] -> plain_segs to = true -> f !! from = Some src ->
  below from to = false -> walk_error f [] to = None -> tree_wf (move_tree f from to).
Proof.
  intros (Hr & Hp & Hn) Hfn Htn Hto Hsrc Hft Hw. split_and!.
  - rewrite lookup_move_tree. destruct to; [done|]. simpl. by destruct (below from []).
  - intros j x n. rewrite lookup_move_tree. destruct (strip_prefix to (j ++ [x])) as [s|] eqn:E.
    + apply strip_prefix_spec in E. destruct s as [|y s _] using rev_ind.
      * intros _. rewrite app_nil_r in E. subst to.
        destruct (decide (j = [])) as [->|Hj]; [by exists 0%Z|].
        destruct (proj1 (walk_error_none f [] (j ++ [x])) Hw j [x]) as [m Hm]; [done..|].
        exists m. simpl in Hm. rewrite node_at_lookup in * by done. rewrite lookup_move_tree.
        rewrite (proj1 (below_false _ _)) by (apply below_longer; rewrite length_app; simpl; lia).
        destruct (below from j) eqn:Eb; [|done].
        rewrite (below_trans from j) in Hft; [done|done|apply below_app].
      * rewrite app_assoc in E. apply app_inj_tail in E as [-> ->]. rewrite app_assoc. intros Hs.
        destruct (Hp _ _ _ Hs) as [m Hm]. exists m.
        rewrite node_at_lookup in * by (by destruct from, to). by rewrite lookup_move_tree, strip_prefix_app.
    + destruct (below from (j ++ [x])) eqn:Eb; [done|]. intros Hj. destruct (Hp _ _ _ Hj) as [m Hm].
      exists m. destruct (decide (j = [])) as [->|Hjn]; [done|]. rewrite node_at_lookup in * by done.
      rewrite lookup_move_tree. destruct (strip_prefix to j) as [s|] eqn:E2.
      { apply strip_prefix_spec in E2 as ->. by rewrite <- app_assoc, strip_prefix_app in E. }
      destruct (below from j) eqn:E3; [|done]. rewrite (below_trans from j) in Eb; [done|done|apply below_app].
  - intros j n. rewrite lookup_move_tree. destruct (strip_prefix to j) as [s|] eqn:E.
    + apply strip_prefix_spec in E as ->. intros Hs%Hn. rewrite plain_segs_app in *.
      apply andb_true_iff in Hs as [_ ->]. by rewrite Hto.
    + destruct (below from j); [done|apply Hn].
Qed.

(** Copying onto a missing target, onto a file by a file, or onto an empty folder by
    a folder. *)
Lemma copy_tree_wf f from to src :
  tree_wf f -> from <> [] -> to <> [] -> plain_segs to = true -> f !! from = Some src ->
  from <> to -> rename_error f from to src = None -> tree_wf (graft f to (subtree f from)).
Proof.
  intros Hwf Hfn Htn Hto Hsrc Hne Hren. pose proof Hwf as (Hr & Hp & Hn).
  destruct (rename_not_inside f from to src) as [Hft Hw]; [done..|]. split_and!.
  - rewrite lookup_copy_tree. by destruct to.
  - intros j x n. rewrite lookup_copy_tree. destruct (strip_prefix to (j ++ [x])) as [s|] eqn:E.
    + apply strip_prefix_spec in E. destruct s as [|y s _] using rev_ind.
      * intros _. rewrite app_nil_r in E. subst to.
        destruct (decide (j = [])) as [->|Hj]; [by exists 0%Z|].
        destruct (proj1 (walk_error_none f [] (j ++ [x])) Hw j [x]) as [m Hm]; [done..|].
        exists m. simpl in Hm. rewrite node_at_lookup in * by done. rewrite lookup_copy_tree.
        by rewrite (proj1 (below_false _ _)) by (apply below_longer; rewrite length_app; simpl; lia).
      * rewrite app_assoc in E. apply app_inj_tail in E as [-> ->]. rewrite app_assoc. intros Hs.
        rewrite node_at_lookup by (by destruct to). rewrite lookup_copy_tree, strip_prefix_app.
        destruct (f !! ((from ++ s) ++ [y])) as [n'|] eqn:E1.
        -- destruct (Hp _ _ _ E1) as [m Hm]. rewrite node_at_lookup in Hm by (by destruct from).
           rewrite Hm. eauto.
        -- rewrite <- app_assoc in Hs. rewrite (rename_target_empty f from to src) in Hs; [done..|by destruct s].
    + intros Hj. destruct (Hp _ _ _ Hj) as [m Hm]. exists m.
      destruct (decide (j = [])) as [->|Hjn]; [done|]. rewrite node_at_lookup in * by done.
      rewrite lookup_copy_tree. destruct (strip_prefix to j) as [s|] eqn:E2; [|done].
      apply strip_prefix_spec in E2 as ->. by rewrite <- app_assoc, strip_prefix_app in E.
  - intros j n. rewrite lookup_copy_tree. destruct (strip_prefix to j) as [s|] eqn:E.
    + apply strip_prefix_spec in E as ->. destruct (f !! (from ++ s)) as [n'|] eqn:E1.
      * intros _. apply Hn in E1. rewrite plain_segs_app in *.
        apply andb_true_iff in E1 as [_ ->]. by rewrite Hto.
      * apply Hn.
    + apply Hn.
Qed.

(** * Paths of the vault *)

(** What a root has to be for its paths to be the keys below [base]. *)
Record vault_root `{NodeHost} (root : jstr) (base : fskey) : Prop := {
  vr_root : root = abs_path base;
  vr_plain : plain_segs base = true;
  vr_nonempty : base <> []
}.

Section vault_root.
Context `{NodeHost} (root : jstr) (base : fskey) (Hroot : vault_root root base).

Lemma vaultPath_plain rel :
  plain_segs (split_on slash rel) = true ->
  FolderMetadata.vaultPath root rel = mret (abs_path (base ++ split_on slash rel)).
Proof.
  intros Hp. unfold FolderMetadata.vaultPath. destruct Hroot as [-> Hb Hbn].
  by rewrite (resolve_plain _ _ _ base) by (done || by apply resolve_abs).
Qed.

Lemma vaultPath_valid kind rel :
  valid_path Posix kind rel ->
  FolderMetadata.vaultPath root rel = mret (abs_path (base ++ split_on slash rel)).
Proof. intros Hp%valid_path_plain. by apply vaultPath_plain. Qed.

Lemma root_join segs :
  plain_segs segs = true -> segs <> [] -> path_join (root :: segs) = abs_path (base ++ segs).
Proof. destruct Hroot as [-> Hb Hbn]. by apply path_join_abs. Qed.

End vault_root.
