(* ===== verification/MutationQueue.v ===== *)
(** The queues that run mutations one at a time: [withFolderMetadataMutation] of
    [packages/vault-core/src/vault-ops.ts], one queue per vault in a map whose entries are
    removed, and [enqueueHistoryMutation] of [packages/vault-service/src/index.ts], one
    tail that stays.

    Both hang a mutation on the promise of the one before: [run = previous.then(operation,
    operation)] and [next = run.then(ignore, ignore)].  A state holds the mutations in the
    order of the calls; the scheduler may take any step that the promises allow. *)
From S2P Require Import Prelude JsString.

(** * State *)

(** [PWaiting] until [previous] settles; [PSettled] when [run] has, as a value or as an
    exception. *)
Inductive phase := PWaiting | PRunning | PSettled.

#[export] Instance phase_eq_dec : EqDecision phase.
Proof. solve_decision. Defined.

Record mutation := {
  mu_key : jstr;
  mu_previous : option nat;   (* the mutation whose [next] it waits for *)
  mu_phase : phase;
  mu_next : bool;             (* whether its own [next] has settled *)
  mu_left : bool              (* whether the [finally] has run *)
}.

Record queue := {
  q_mutations : list mutation;
  q_tails : gmap jstr nat     (* [folderMetadataMutationQueues] *)
}.

Inductive queue_event :=
| QCall (key : jstr)     (* the synchronous part of the call *)
| QStart (i : nat)       (* [previous] has settled: [operation] is called *)
| QSettle (i : nat)      (* [operation] answers or throws *)
| QNext (i : nat)        (* [next] settles *)
| QFinally (i : nat).    (* the caller goes on after [await run] *)

Definition put (q : queue) (i : nat) (m : mutation) : queue :=
  {| q_mutations := <[i := m]> (q_mutations q); q_tails := q_tails q |}.
Definition set_phase (m : mutation) (p : phase) : mutation :=
  {| mu_key := mu_key m; mu_previous := mu_previous m; mu_phase := p; mu_next := mu_next m; mu_left := mu_left m |}.

Definition next_settled (q : queue) (i : nat) : bool := from_option mu_next false (q_mutations q !! i).

(** [cleans]: whether the [finally] removes the entry, as [withFolderMetadataMutation]
    does and [enqueueHistoryMutation] does not. *)
Definition queue_step (cleans : bool) (q : queue) (e : queue_event) : option queue :=
  match e with
  | QCall key =>
      Some {| q_mutations := q_mutations q ++
                [{| mu_key := key; mu_previous := q_tails q !! key; mu_phase := PWaiting; mu_next := false; mu_left := false |}];
              q_tails := <[key := length (q_mutations q)]> (q_tails q) |}
  | QStart i =>
      m ← q_mutations q !! i;
      if bool_decide (mu_phase m = PWaiting) && from_option (next_settled q) true (mu_previous m)
      then Some (put q i (set_phase m PRunning)) else None
  | QSettle i =>
      m ← q_mutations q !! i;
      if bool_decide (mu_phase m = PRunning) then Some (put q i (set_phase m PSettled)) else None
  | QNext i =>
      m ← q_mutations q !! i;
      if bool_decide (mu_phase m = PSettled) && negb (mu_next m)
      then Some (put q i {| mu_key := mu_key m; mu_previous := mu_previous m; mu_phase := mu_phase m; mu_next := true; mu_left := mu_left m |})
      else None
  | QFinally i =>
      m ← q_mutations q !! i;
      if bool_decide (mu_phase m = PSettled) && negb (mu_left m)
      then
        let q := put q i {| mu_key := mu_key m; mu_previous := mu_previous m; mu_phase := mu_phase m; mu_next := mu_next m; mu_left := true |} in
        Some (if cleans && bool_decide (q_tails q !! mu_key m = Some i)
              then {| q_mutations := q_mutations q; q_tails := delete (mu_key m) (q_tails q) |} else q)
      else None
  end.

Definition empty_queue : queue := {| q_mutations := []; q_tails := ∅ |}.

Inductive queue_runs (cleans : bool) : queue -> Prop :=
| queue_start : queue_runs cleans empty_queue
| queue_more q e q' : queue_runs cleans q -> queue_step cleans q e = Some q' -> queue_runs cleans q'.

(** * The invariant *)

Definition of_key (q : queue) (key : jstr) (i : nat) (m : mutation) : Prop := q_mutations q !! i = Some m /\ mu_key m = key.

(** No later mutation has the key. *)
Definition newest (q : queue) (key : jstr) (i : nat) : Prop := forall j m, of_key q key j m -> j <= i.

Record queue_ok (cleans : bool) (q : queue) : Prop := {
  qo_first : forall i m, q_mutations q !! i = Some m -> mu_previous m = None ->
    forall j n, of_key q (mu_key m) j n -> j < i -> mu_phase n = PSettled;
  qo_previous : forall i m j, q_mutations q !! i = Some m -> mu_previous m = Some j ->
    j < i /\ (exists n, of_key q (mu_key m) j n) /\ forall k n, of_key q (mu_key m) k n -> k < i -> k <= j;
  qo_started : forall i m j, q_mutations q !! i = Some m -> mu_previous m = Some j -> mu_phase m <> PWaiting ->
    next_settled q j = true;
  qo_settled : forall i m, q_mutations q !! i = Some m -> mu_next m = true \/ mu_left m = true -> mu_phase m = PSettled;
  qo_tail : forall key i, q_tails q !! key = Some i ->
    newest q key i /\ exists m, of_key q key i m /\ (cleans = true -> mu_left m = false);
  qo_no_tail : forall key, q_tails q !! key = None -> forall i m, of_key q key i m -> newest q key i -> mu_left m = true
}.

(** A mutation that has started comes after the end of all before it. *)
Lemma started_after cleans q i m :
  queue_ok cleans q -> q_mutations q !! i = Some m -> mu_phase m <> PWaiting ->
  forall j n, of_key q (mu_key m) j n -> j < i -> mu_phase n = PSettled.
Proof.
  intros Hq. revert m. induction i as [i IH] using lt_wf_ind. intros m Hi Hph j n Hj Hlt.
  destruct (mu_previous m) as [p|] eqn:Ep; [|by eapply (qo_first _ _ Hq)].
  destruct (qo_previous _ _ Hq _ _ _ Hi Ep) as (Hp & (mp & Hmp & Hkey) & Hlast).
  pose proof (qo_started _ _ Hq _ _ _ Hi Ep Hph) as Hnext. unfold next_settled in Hnext. rewrite Hmp in Hnext. cbn in Hnext.
  assert (mu_phase mp = PSettled) as Hset by (eapply (qo_settled _ _ Hq); [exact Hmp|by left]).
  specialize (Hlast _ _ Hj Hlt). destruct (decide (j = p)) as [->|Hne]; [destruct Hj; congruence|].
  eapply (IH p Hp mp Hmp); [congruence|by rewrite Hkey|lia].
Qed.

(** The newest of a key, when there is one. *)
Lemma newest_exists q key i m : of_key q key i m -> exists j n, of_key q key j n /\ newest q key j.
Proof.
  intros Hi. assert (forall b, exists j n, of_key q key j n /\ forall k o, of_key q key k o -> k < b -> k <= j) as Hb.
  { induction b as [|b (j & n & Hj & Hmax)]; [exists i, m; split; [done|lia]|].
    destruct (q_mutations q !! b) as [mb|] eqn:Eb.
    - destruct (decide (mu_key mb = key)) as [Hk|Hk].
      + exists b, mb. split; [by split|]. intros. lia.
      + exists j, n. split; [done|]. intros k o Ho Hlt. destruct (decide (k = b)) as [->|]; [destruct Ho; congruence|].
        apply (Hmax _ _ Ho). lia.
    - exists j, n. split; [done|]. intros k o Ho Hlt. destruct (decide (k = b)) as [->|]; [destruct Ho; congruence|].
      apply (Hmax _ _ Ho). lia. }
  destruct (Hb (length (q_mutations q))) as (j & n & Hj & Hmax). exists j, n. split; [done|]. intros k o Ho.
  apply (Hmax _ _ Ho). destruct Ho as [Ho _]. by apply lookup_lt_Some in Ho.
Qed.

(** Without an entry in the map, every mutation of the key has ended. *)
Lemma no_tail_settled cleans q key : queue_ok cleans q -> q_tails q !! key = None ->
  forall i m, of_key q key i m -> mu_phase m = PSettled.
Proof.
  intros Hq Hnone i m Hi. destruct (newest_exists q key i m Hi) as (j & n & Hj & Hmax).
  assert (mu_phase n = PSettled) as Hn.
  { destruct Hj as [Hjn Hk]. eapply (qo_settled _ _ Hq); [exact Hjn|]. right. by eapply (qo_no_tail _ _ Hq). }
  destruct (decide (i = j)) as [->|Hne]; [destruct Hi, Hj; congruence|].
  destruct Hj as [Hjn Hk]. eapply (started_after _ _ j n Hq Hjn); [congruence|by rewrite Hk|]. specialize (Hmax _ _ Hi). lia.
Qed.

(** ** Every step keeps it *)

Definition advances (m m' : mutation) : Prop :=
  mu_key m' = mu_key m /\ mu_previous m' = mu_previous m /\
  (mu_phase m = PSettled -> mu_phase m' = PSettled) /\ (mu_next m = true -> mu_next m' = true) /\
  (mu_left m = true -> mu_left m' = true).

Section put.
Context (cleans : bool) (q : queue) (i : nat) (m m' : mutation) (tails : gmap jstr nat).
Context (Hq : queue_ok cleans q) (Hi : q_mutations q !! i = Some m) (Hadv : advances m m').

Let q' : queue := {| q_mutations := <[i := m']> (q_mutations q); q_tails := tails |}.

Lemma put_lookup j n : q_mutations q' !! j = Some n ->
  exists n0, q_mutations q !! j = Some n0 /\ advances n0 n /\ (j <> i -> n = n0) /\ (j = i -> n0 = m /\ n = m').
Proof.
  cbn. intros Hn. destruct (decide (j = i)) as [->|Hne].
  - rewrite list_lookup_insert_eq in Hn by (by eapply lookup_lt_Some). injection Hn as <-. exists m. by split_and!.
  - rewrite list_lookup_insert_ne in Hn by done. exists n. by split_and!.
Qed.

Lemma put_of_key key j n : of_key q' key j n -> exists n0, of_key q key j n0 /\ advances n0 n.
Proof. intros [Hn Hk]. destruct (put_lookup j n Hn) as (n0 & Hn0 & Ha & _). exists n0. split; [split; [done|]|done]. destruct Ha; congruence. Qed.

Lemma put_has_key key j n : of_key q key j n -> exists n', of_key q' key j n'.
Proof.
  intros [Hn Hk]. destruct (decide (j = i)) as [->|Hne].
  - exists m'. split; [cbn; rewrite list_lookup_insert_eq; [done|by eapply lookup_lt_Some]|]. destruct Hadv. congruence.
  - exists n. split; [cbn; by rewrite list_lookup_insert_ne|done].
Qed.

Lemma put_next j : next_settled q j = true -> next_settled q' j = true.
Proof.
  unfold next_settled. destruct (q_mutations q !! j) as [n|] eqn:E; [|done]. cbn. destruct (decide (j = i)) as [->|Hne].
  - rewrite list_lookup_insert_eq by (by eapply lookup_lt_Some). cbn. intros. apply Hadv. congruence.
  - by rewrite list_lookup_insert_ne, E.
Qed.

Lemma put_ok :
  (mu_phase m = PWaiting -> mu_phase m' <> PWaiting -> from_option (next_settled q) true (mu_previous m) = true) ->
  (mu_next m' = true \/ mu_left m' = true -> mu_phase m' = PSettled) ->
  (forall key t, tails !! key = Some t -> q_tails q !! key = Some t /\ (t = i -> cleans = true -> mu_left m' = false)) ->
  (forall key, tails !! key = None -> q_tails q !! key = None \/ q_tails q !! key = Some i /\ mu_left m' = true) ->
  queue_ok cleans q'.
Proof.
  intros Hstart Hset Htail Hnone. split.
  - intros j n Hn Hp k o Ho Hlt. destruct (put_lookup j n Hn) as (n0 & Hn0 & (Hk & Hpr & _) & _).
    destruct (put_of_key _ _ _ Ho) as (o0 & Ho0 & (_ & _ & Hph & _)). rewrite Hk in Ho0. apply Hph.
    eapply (qo_first _ _ Hq); [exact Hn0|congruence|exact Ho0|done].
  - intros j n k Hn Hp. destruct (put_lookup j n Hn) as (n0 & Hn0 & (Hk & Hpr & _) & _). rewrite Hk.
    destruct (qo_previous _ _ Hq j n0 k Hn0) as (Hlt & (o & Ho) & Hmax); [congruence|]. split_and!; [done|by eapply put_has_key|].
    intros b p Hb. destruct (put_of_key _ _ _ Hb) as (p0 & Hp0 & _). by eapply Hmax.
  - intros j n k Hn Hp Hph. destruct (put_lookup j n Hn) as (n0 & Hn0 & (Hk & Hpr & _) & Hne & Heq). apply put_next.
    destruct (decide (j = i)) as [->|Hji].
    + destruct (Heq eq_refl) as [-> ->]. destruct (decide (mu_phase m = PWaiting)) as [Hw|Hw].
      * specialize (Hstart Hw Hph). rewrite <- Hpr, Hp in Hstart. done.
      * eapply (qo_started _ _ Hq); [exact Hn0|congruence|done].
    + rewrite (Hne Hji) in *. by eapply (qo_started _ _ Hq).
  - intros j n Hn Hor. destruct (put_lookup j n Hn) as (n0 & Hn0 & _ & Hne & Heq). destruct (decide (j = i)) as [->|Hji].
    + destruct (Heq eq_refl) as [_ ->]. by apply Hset.
    + rewrite (Hne Hji) in *. by eapply (qo_settled _ _ Hq).
  - intros key t Ht. destruct (Htail _ _ Ht) as [Ht0 Hl]. destruct (qo_tail _ _ Hq _ _ Ht0) as [Hnew (n & Hn & Hleft)]. split.
    + intros j o Ho. destruct (put_of_key _ _ _ Ho) as (o0 & Ho0 & _). by eapply Hnew.
    + destruct (put_has_key _ _ _ Hn) as [n' Hn']. exists n'. split; [done|]. intros Hc.
      destruct Hn' as [Hn' _]. destruct (put_lookup _ _ Hn') as (n0 & Hn0 & _ & Hne & Heq). destruct (decide (t = i)) as [->|Hti].
      * destruct (Heq eq_refl) as [_ ->]. by apply Hl.
      * rewrite (Hne Hti). destruct Hn as [Hn _]. rewrite Hn in Hn0. injection Hn0 as <-. by apply Hleft.
  - intros key Ht j n Hn Hnew. destruct Hn as [Hnj Hkey]. destruct (put_lookup _ _ Hnj) as (n0 & Hn0 & Ha & Hne & Heq).
    destruct (Hnone _ Ht) as [Ht0|[Ht0 Hleft]].
    + apply Ha. eapply (qo_no_tail _ _ Hq key Ht0 j n0).
      * split; [done|]. destruct Ha; congruence.
      * intros b p Hb. destruct (put_has_key _ _ _ Hb) as [p' Hp']. by eapply Hnew.
    + destruct (qo_tail _ _ Hq _ _ Ht0) as [Hnew' (o & Ho & _)]. destruct (put_has_key _ _ _ Ho) as [o' Ho'].
      assert (j = i) as ->.
      { apply Nat.le_antisymm; [eapply (Hnew' j n0); split; [done|destruct Ha; congruence]|by eapply Hnew]. }
      destruct (Heq eq_refl) as [_ ->]. done.
Qed.
(** A step that leaves the map alone. *)
Lemma put_same_ok :
  (mu_phase m = PWaiting -> mu_phase m' <> PWaiting -> from_option (next_settled q) true (mu_previous m) = true) ->
  (mu_next m' = true \/ mu_left m' = true -> mu_phase m' = PSettled) ->
  mu_left m' = mu_left m -> tails = q_tails q -> queue_ok cleans q'.
Proof.
  intros Hstart Hset Hl Ht. apply put_ok; [done|done|rewrite Ht|rewrite Ht; by left].
  intros key t Hkt. split; [done|]. intros -> Hc. rewrite Hl. destruct (qo_tail _ _ Hq _ _ Hkt) as [_ (n & [Hn _] & Hleft)].
  rewrite Hi in Hn. injection Hn as <-. by apply Hleft.
Qed.
End put.

Lemma lookup_snoc {A} (l : list A) x j y :
  (l ++ [x]) !! j = Some y -> l !! j = Some y \/ j = length l /\ y = x.
Proof.
  intros Hj. destruct (decide (j < length l)) as [Hlt|Hge]; [rewrite lookup_app_l in Hj by done; by left|].
  right. rewrite lookup_app_r in Hj by lia. destruct (j - length l) eqn:E; [|done]. injection Hj as <-. split; [lia|done].
Qed.

Lemma call_ok cleans q key q' : queue_ok cleans q -> queue_step cleans q (QCall key) = Some q' -> queue_ok cleans q'.
Proof.
  intros Hq [= <-]. set (L := length (q_mutations q)). set (m := {| mu_key := key |}).
  split; cbn [q_mutations q_tails].
  - intros i n Hn Hp j o [Ho Hk] Hlt. apply lookup_snoc in Ho as [Ho|[-> ->]].
    + apply lookup_snoc in Hn as [Hn|[-> ->]]; [by apply (qo_first _ _ Hq i n Hn Hp j o)|]. cbn in *.
      by apply (no_tail_settled _ _ key Hq) with j.
    + apply lookup_snoc in Hn as [Hn|[-> ->]]; [|lia]. apply lookup_lt_Some in Hn. lia.
  - intros i n j Hn Hp. apply lookup_snoc in Hn as [Hn|[-> ->]].
    + destruct (qo_previous _ _ Hq _ _ _ Hn Hp) as (Hlt & (o & Ho & Hk) & Hmax). split_and!; [done|exists o; split; [by apply lookup_app_l_Some|done]|].
      intros k p [Hk' Hpk] Hlt'. apply lookup_snoc in Hk' as [Hk'|[-> _]]; [by apply (Hmax k p)|]. apply lookup_lt_Some in Hn. lia.
    + cbn in *. destruct (qo_tail _ _ Hq _ _ Hp) as [Hnew (o & [Ho Hk] & _)]. split_and!.
      * by eapply lookup_lt_Some.
      * exists o. split; [by apply lookup_app_l_Some|done].
      * intros k p [Hp' Hpk] Hlt. apply lookup_snoc in Hp' as [Hp'|[-> _]]; [|lia]. by apply (Hnew k p).
  - intros i n j Hn Hp Hph. apply lookup_snoc in Hn as [Hn|[-> ->]]; [|done].
    pose proof (qo_started _ _ Hq _ _ _ Hn Hp Hph) as Hnext. unfold next_settled in *. cbn.
    destruct (q_mutations q !! j) as [o|] eqn:E; [|done]. by rewrite (lookup_app_l_Some _ _ _ _ E).
  - intros i n Hn Hor. apply lookup_snoc in Hn as [Hn|[-> ->]]; [by eapply (qo_settled _ _ Hq)|]. cbn in Hor. naive_solver.
  - intros k i [[<- <-]|[Hne Ht]]%lookup_insert_Some.
    + split; [|exists m; split; [split; [cbn [q_mutations]; by rewrite lookup_app_r, Nat.sub_diag by done|done]|done]].
      intros j n [Hn _]. apply lookup_snoc in Hn as [Hn|[-> _]]; [apply lookup_lt_Some in Hn; lia|done].
    + destruct (qo_tail _ _ Hq _ _ Ht) as [Hnew (o & [Ho Hk] & Hl)]. split.
      * intros j n [Hn Hkn]. apply lookup_snoc in Hn as [Hn|[-> ->]]; [by apply (Hnew j n)|]. cbn in Hkn. congruence.
      * exists o. split; [split; [by apply lookup_app_l_Some|done]|done].
  - intros k [Ht Hne]%lookup_insert_None i n [Hn Hk] Hnew. apply lookup_snoc in Hn as [Hn|[-> ->]]; [|cbn in Hk; congruence].
    eapply (qo_no_tail _ _ Hq k Ht i n); [by split|]. intros j o [Ho Hko]. eapply Hnew. split; [by apply lookup_app_l_Some|done].
Qed.

Lemma step_ok cleans q e q' : queue_ok cleans q -> queue_step cleans q e = Some q' -> queue_ok cleans q'.
Proof.
  intros Hq Hstep. destruct e as [key|i|i|i|i]; [by eapply call_ok|..]; cbn [queue_step] in Hstep;
    apply bind_Some in Hstep as (m & Hi & Hstep).
  - destruct (_ && _) eqn:E; [|done]. injection Hstep as <-. apply andb_true_iff in E as [Ew%bool_decide_eq_true Hp].
    apply (put_same_ok cleans q i m); try done; [split_and!; cbn; congruence|].
    cbn. intros Hor%(qo_settled _ _ Hq _ _ Hi). congruence.
  - case_bool_decide as E; [|done]. injection Hstep as <-.
    apply (put_same_ok cleans q i m); try done; cbn; congruence.
  - destruct (_ && _) eqn:E; [|done]. injection Hstep as <-. to_prop.
    apply (put_same_ok cleans q i m); try done; cbn; congruence.
  - destruct (_ && _) eqn:E; [|done]. to_prop. injection Hstep as <-.
    assert (forall tails : gmap jstr nat,
      (forall key t, tails !! key = Some t -> q_tails q !! key = Some t /\ (t = i -> cleans = true -> true = false)) ->
      (forall key, tails !! key = None -> q_tails q !! key = None \/ q_tails q !! key = Some i /\ true = true) -> queue_ok cleans {| q_mutations := <[i := {| mu_key := mu_key m; mu_previous := mu_previous m;
      mu_phase := mu_phase m; mu_next := mu_next m; mu_left := true |}]> (q_mutations q); q_tails := tails |}) as Hput.
    { intros tails H1 H2. apply (put_ok cleans q i m _ tails Hq Hi); [by split_and!|cbn; congruence|done|exact H1|exact H2]. }
    cbn [put q_tails q_mutations]. destruct (cleans && _) eqn:Ec.
    + to_prop. apply Hput.
      * intros key t [Hne Ht]%lookup_delete_Some. split; [done|]. intros ->. exfalso. apply Hne.
        destruct (qo_tail _ _ Hq _ _ Ht) as [_ (n & [Hn Hk] & _)]. congruence.
      * intros key [<-|Ht]%lookup_delete_None; [right; by split|by left].
    + apply Hput; [|by left]. intros key t Ht. split; [done|]. intros -> ->. exfalso. cbn in Ec. to_prop. apply Ec.
      destruct (qo_tail _ _ Hq _ _ Ht) as [_ (n & [Hn Hk] & _)]. rewrite Hi in Hn. injection Hn as <-. by rewrite Hk.
Qed.

Lemma queue_runs_ok cleans q : queue_runs cleans q -> queue_ok cleans q.
Proof.
  induction 1 as [|q e q' _ IH Hstep]; [|by eapply step_ok].
  split; cbn; [intros i m Hm..|intros key i Hk|intros key _ i m [Hm _]]; cbn in *; by try rewrite lookup_nil in Hm; try rewrite lookup_empty in Hk.
Qed.

(** * What the queue promises *)

(** C33: mutations of one key never overlap and start in the order of the calls: when one
    runs, every earlier one has ended, answer or exception, and no later one has started. *)
Theorem mutations_one_at_a_time cleans q i m :
  queue_runs cleans q -> q_mutations q !! i = Some m -> mu_phase m = PRunning ->
  forall j n, of_key q (mu_key m) j n -> j <> i -> if decide (j < i) then mu_phase n = PSettled else mu_phase n = PWaiting.
Proof.
  intros Hq%queue_runs_ok Hi Hrun j n Hj Hne. destruct (decide (j < i)) as [Hlt|Hge].
  - by eapply (started_after _ _ i m Hq Hi); [congruence|exact Hj|].
  - destruct (mu_phase n) eqn:Ep; [done|..]; exfalso; destruct Hj as [Hj Hk];
      assert (mu_phase m = PSettled) by (eapply (started_after _ _ j n Hq Hj); [congruence|by rewrite Hk|lia]); congruence.
Qed.

(** C34: the queue never sticks: while a mutation waits, one of its key runs, can start, or
    has ended and its [next] can settle. *)
Theorem mutations_progress cleans q i m :
  queue_runs cleans q -> q_mutations q !! i = Some m -> mu_phase m = PWaiting ->
  exists j n, of_key q (mu_key m) j n /\ j <= i /\
    (mu_phase n = PRunning \/ is_Some (queue_step cleans q (QStart j)) \/ is_Some (queue_step cleans q (QNext j))).
Proof.
  intros Hq%queue_runs_ok. revert m. induction i as [i IH] using lt_wf_ind. intros m Hi Hw.
  assert (from_option (next_settled q) true (mu_previous m) = true -> is_Some (queue_step cleans q (QStart i))) as Hstart.
  { intros Hp. cbn. rewrite Hi. cbn. rewrite bool_decide_true, Hp by done. by eexists. }
  destruct (mu_previous m) as [p|] eqn:Ep.
  2:{ exists i, m. split_and!; [by split|lia|]. right. left. by apply Hstart. }
  destruct (qo_previous _ _ Hq _ _ _ Hi Ep) as (Hlt & (n & [Hn Hk]) & _). cbn in Hstart.
  destruct (mu_phase n) eqn:Eph.
  - destruct (IH p Hlt n Hn Eph) as (j & o & Ho & Hle & Hcase). rewrite Hk in Ho. exists j, o. split_and!; [done|lia|done].
  - exists p, n. split_and!; [by split|lia|by left].
  - destruct (next_settled q p) eqn:En; [exists i, m; split_and!; [by split|lia|right; left; by apply Hstart]|].
    exists p, n. split_and!; [by split|lia|]. right. right. unfold next_settled in En. rewrite Hn in En. cbn in En.
    cbn. rewrite Hn. cbn. rewrite bool_decide_true, En by done. by eexists.
Qed.

(** the map of queues does not grow: once every caller of a key has gone on, its entry
    is gone. *)
Theorem mutation_map_emptied q key :
  queue_runs true q -> (forall i m, of_key q key i m -> mu_left m = true) -> q_tails q !! key = None.
Proof.
  intros Hq%queue_runs_ok Hall. destruct (q_tails q !! key) as [i|] eqn:E; [|done].
  destruct (qo_tail _ _ Hq _ _ E) as [_ (m & Hm & Hl)]. specialize (Hl eq_refl). by rewrite (Hall _ _ Hm) in Hl.
Qed.

(** * Concrete runs *)

Fixpoint queue_trace (cleans : bool) (q : queue) (es : list queue_event) : option queue :=
  match es with
  | [] => Some q
  | e :: es => q' ← queue_step cleans q e; queue_trace cleans q' es
  end.

Lemma queue_trace_runs cleans q es q' : queue_runs cleans q -> queue_trace cleans q es = Some q' -> queue_runs cleans q'.
Proof.
  revert q. induction es as [|e es IH]; intros q Hq; cbn; [by intros [= <-]|].
  intros (r & Hr & Htr)%bind_Some. eapply IH; [|exact Htr]. by eapply queue_more.
Qed.

Definition vault_a : jstr := js "/vault-a".
Definition vault_b : jstr := js "/vault-b".

(** Two mutations of one vault and one of another, the first of them running. *)
Definition busy_queue : queue :=
  Eval vm_compute in default empty_queue (queue_trace true empty_queue [QCall vault_a; QCall vault_b; QCall vault_a; QStart 0]).
(** The queue of the history mutations, its first mutation over. *)
Definition settled_queue : queue :=
  Eval vm_compute in default empty_queue (queue_trace false empty_queue [QCall vault_a; QCall vault_a; QStart 0; QSettle 0; QFinally 0]).
(** Both mutations of the vault over. *)
Definition quiet_queue : queue :=
  Eval vm_compute in default empty_queue
    (queue_trace true empty_queue [QCall vault_a; QCall vault_a; QStart 0; QSettle 0; QFinally 0; QNext 0; QStart 1; QSettle 1; QFinally 1]).

Lemma busy_queue_runs : queue_runs true busy_queue.
Proof. by apply (queue_trace_runs _ _ [QCall vault_a; QCall vault_b; QCall vault_a; QStart 0] _ (queue_start true)). Qed.
Lemma settled_queue_runs : queue_runs false settled_queue.
Proof. by apply (queue_trace_runs _ _ [QCall vault_a; QCall vault_a; QStart 0; QSettle 0; QFinally 0] _ (queue_start false)). Qed.
Lemma quiet_queue_runs : queue_runs true quiet_queue.
Proof.
  by apply (queue_trace_runs _ _
    [QCall vault_a; QCall vault_a; QStart 0; QSettle 0; QFinally 0; QNext 0; QStart 1; QSettle 1; QFinally 1] _ (queue_start true)).
Qed.

Example mutations_one_at_a_time_witness :
  queue_runs true busy_queue /\ exists m, of_key busy_queue vault_a 2 m /\ mu_phase m = PWaiting.
Proof.
  split; [exact busy_queue_runs|]. destruct (q_mutations busy_queue !! 0) as [m0|] eqn:E0; [|done].
  destruct (q_mutations busy_queue !! 2) as [m|] eqn:E2; [|done]. exists m. injection E0 as <-. injection E2 as <-.
  split; [by split|]. by apply (mutations_one_at_a_time true busy_queue 0 _ busy_queue_runs eq_refl eq_refl 2 _ (conj eq_refl eq_refl)).
Defined.

Example mutations_progress_witness :
  queue_runs false settled_queue /\
  exists j n, of_key settled_queue vault_a j n /\ j <= 1 /\
    (mu_phase n = PRunning \/ is_Some (queue_step false settled_queue (QStart j)) \/ is_Some (queue_step false settled_queue (QNext j))).
Proof.
  split; [exact settled_queue_runs|]. destruct (q_mutations settled_queue !! 1) as [m|] eqn:E; [|done]. injection E as <-.
  by apply (mutations_progress false settled_queue 1 _ settled_queue_runs eq_refl eq_refl).
Defined.

Example mutation_map_emptied_witness : queue_runs true quiet_queue /\ q_tails quiet_queue !! vault_a = None.
Proof.
  split; [exact quiet_queue_runs|]. apply (mutation_map_emptied quiet_queue vault_a quiet_queue_runs).
  intros [|[|i]] m [Hm _]; [by injection Hm as <-|by injection Hm as <-|done].
Defined.
