(* ===== verification/Confinement.v ===== *)
(** No operation of [VaultOps.v] touches anything outside the vault root, whatever
    it returns or throws, and the tree stays well formed. *)
From S2P Require Import Prelude JsString Utf8 Json NodePath VaultPath Artifact FileSystem IsoDate AuditLog FolderMetadata VaultOps VaultCalls.

(** * Vaults *)

(** The tree is well formed and the root is a directory of it. *)
Definition vault_tree (base : fskey) (f : tree) : Prop :=
  tree_wf f /\ exists m, f !! base = Some (NDir m).

(** [m] keeps the tree a vault and every entry outside the root as it is. *)
Definition confined (base : fskey) {A} (m : M A) : Prop :=
  forall w r w', m w = (r, w') -> vault_tree base (w_fs w) ->
    vault_tree base (w_fs w') /\ forall k, below base k = false -> w_fs w' !! k = w_fs w !! k.

(** [m] leaves the world as it is. *)
Definition reads_only {A} (m : M A) : Prop := forall w r w', m w = (r, w') -> w' = w.

(** * Rules *)

Lemma confined_weaken {A} base (m : M A) : reads_only m -> confined base m.
Proof. intros Hm w r w' ->%Hm Hv. done. Qed.

Section rules.
Context {A B : Type}.

Lemma reads_only_ret (a : A) : reads_only (mret a).
Proof. by intros w r w' [= <- <-]. Qed.

Lemma reads_only_throw e : reads_only (@throw A e).
Proof. by intros w r w' [= <- <-]. Qed.

Lemma reads_only_asks (g : world -> A) : reads_only (asks g).
Proof. by intros w r w' [= <- <-]. Qed.

Lemma reads_only_bind (m : M A) (g : A -> M B) :
  reads_only m -> (forall a, reads_only (g a)) -> reads_only (m ≫= g).
Proof.
  intros Hm Hg w r w'. unfold mbind, M_bind. destruct (m w) as [[a|e] w1] eqn:E.
  - intros ->%Hg. by eapply Hm.
  - intros [= <- <-]. by eapply Hm.
Qed.

Lemma reads_only_fmap (g : A -> B) (m : M A) : reads_only m -> reads_only (g <$> m).
Proof.
  intros Hm w r w'. unfold fmap, M_fmap. destruct (m w) as [[a|e] w1] eqn:E;
    intros [= <- <-]; by eapply Hm.
Qed.

Lemma reads_only_try (m : M A) h :
  reads_only m -> (forall e, reads_only (h e)) -> reads_only (try_catch m h).
Proof.
  intros Hm Hh w r w'. unfold try_catch. destruct (m w) as [[a|e] w1] eqn:E.
  - intros [= <- <-]. by eapply Hm.
  - intros ->%Hh. by eapply Hm.
Qed.

Lemma reads_only_lift (r : result InvalidPathError A) : reads_only (lift_path r).
Proof. destruct r; [apply reads_only_ret|apply reads_only_throw]. Qed.

Context (base : fskey).

Lemma confined_bind (m : M A) (g : A -> M B) :
  confined base m -> (forall a, confined base (g a)) -> confined base (m ≫= g).
Proof.
  intros Hm Hg w r w'. unfold mbind, M_bind. destruct (m w) as [[a|e] w1] eqn:E; intros Hr Hv.
  - destruct (Hm _ _ _ E Hv) as [Hv1 H1]. destruct (Hg _ _ _ _ Hr Hv1) as [Hv2 H2].
    split; [done|]. intros k Hk. by rewrite H2, H1.
  - injection Hr as <- <-. by eapply Hm.
Qed.

Lemma confined_fmap (g : A -> B) (m : M A) : confined base m -> confined base (g <$> m).
Proof.
  intros Hm w r w'. unfold fmap, M_fmap. destruct (m w) as [[a|e] w1] eqn:E;
    intros [= <- <-]; by eapply Hm.
Qed.

Lemma confined_try (m : M A) h :
  confined base m -> (forall e, confined base (h e)) -> confined base (try_catch m h).
Proof.
  intros Hm Hh w r w'. unfold try_catch. destruct (m w) as [[a|e] w1] eqn:E; intros Hr Hv.
  - injection Hr as <- <-. by eapply Hm.
  - destruct (Hm _ _ _ E Hv) as [Hv1 H1]. destruct (Hh _ _ _ _ Hr Hv1) as [Hv2 H2].
    split; [done|]. intros k Hk. by rewrite H2, H1.
Qed.
End rules.

(** A step that only changes the tree, at and below keys of the vault. *)
Lemma confined_step {A} base (m : M A) :
  (forall w r w', m w = (r, w') -> vault_tree base (w_fs w) ->
     tree_wf (w_fs w') /\
     forall k, below base k = false \/ k = base -> w_fs w' !! k = w_fs w !! k) ->
  confined base m.
Proof.
  intros Hm w r w' Hr Hv. destruct (Hm _ _ _ Hr Hv) as [Hwf Hk]. destruct Hv as [_ [t Ht]].
  split; [|by auto]. split; [done|]. exists t. rewrite Hk; auto.
Qed.

(** * The calls *)

Section calls.
Context `{NodeHost}.

Lemma reads_only_stat abs : reads_only (fs_stat abs).
Proof. intros w r w'. unfold fs_stat. by destruct (lookup_path _ _); intros [= <- <-]. Qed.

Lemma reads_only_readFile abs : reads_only (fs_readFile abs).
Proof.
  apply reads_only_bind; [apply reads_only_stat|]. intros []; [apply reads_only_ret|apply reads_only_throw].
Qed.

Lemma reads_only_readdir abs : reads_only (fs_readdir abs).
Proof.
  apply reads_only_bind; [apply reads_only_stat|]. intros []; [apply reads_only_throw|].
  apply reads_only_bind; [apply reads_only_asks|intros; apply reads_only_ret].
Qed.

Lemma reads_only_statOrNull abs : reads_only (statOrNull abs).
Proof.
  apply reads_only_try; [apply reads_only_fmap, reads_only_stat|].
  intros e. case_bool_decide; [apply reads_only_ret|apply reads_only_throw].
Qed.

Lemma reads_only_vaultPath root rel : reads_only (vaultPath root rel).
Proof. apply reads_only_lift. Qed.

Context (base : fskey) (Hb : plain_segs base = true) (Hbn : base <> []).

Lemma confined_randomUUID : confined base randomUUID.
Proof. by intros w r w' [= <- <-]. Qed.

Lemma below_base_ne k s :
  base <> [] -> s <> [] -> below base k = false \/ k = base -> below (base ++ s) k = false.
Proof.
  intros _ Hs [Hk| ->].
  - apply not_true_is_false. intros Hbs. rewrite (below_trans base (base ++ s)) in Hk; [done| |done].
    apply below_app.
  - apply below_longer. rewrite length_app. destruct s; [done|simpl; lia].
Qed.

Lemma confined_update s g :
  plain_segs s = true -> s <> [] -> confined base (fs_update (abs_path (base ++ s)) g).
Proof.
  intros Hs Hsn. apply confined_step. intros w r w' Hr [Hwf _].
  unfold fs_update in Hr. run_in Hr.
  assert (plain_segs (base ++ s) = true) as Hp by by rewrite plain_segs_app, Hb, Hs.
  rewrite path_key_abs in Hr by done. rewrite node_at_lookup in Hr by by destruct base.
  assert (forall n, is_file n = true -> walk_error (w_fs w) [] (base ++ s) = None ->
    from_option is_file true (w_fs w !! (base ++ s)) = true ->
    let f' := <[base ++ s := n]> (w_fs w) in
    tree_wf f' /\ forall k, below base k = false \/ k = base -> f' !! k = w_fs w !! k) as Hins.
  { intros n Hf Hw Hold. split; [by apply insert_file_wf; [..|destruct base| | |]|].
    intros k Hk. rewrite lookup_insert_ne; [done|]. intros <-.
    pose proof (below_base_ne _ s Hbn Hsn Hk) as Hc. by rewrite below_self in Hc. }
  destruct (walk_error _ _ _) eqn:Ew; [by injection Hr as <- <-|].
  destruct (w_fs w !! (base ++ s)) as [[b m c i|m]|] eqn:E; cbn in Hr; injection Hr as <- <-; cbn.
  - by apply Hins.
  - done.
  - by apply Hins.
Qed.

Lemma confined_mkdir s : plain_segs s = true -> confined base (fs_mkdir (abs_path (base ++ s))).
Proof.
  intros Hs w r w' Hr [Hwf [t Ht]]. unfold fs_mkdir in Hr.
  assert (plain_segs (base ++ s) = true) as Hp by by rewrite plain_segs_app, Hb, Hs.
  rewrite path_key_abs in Hr by done.
  destruct (make_dirs _ _ _ _) as [f'|e] eqn:E; injection Hr as <- <-; [|split; [split; [done|by exists t]|done]].
  pose proof (make_dirs_with _ _ _ _ E) as Hw. cbn. split.
  - split; [by eapply with_dirs_wf|]. exists t. by rewrite Hw, Ht.
  - intros k Hk. rewrite Hw. destruct (w_fs w !! k) as [n|] eqn:Ek; [done|].
    destruct (bool_decide (k <> []) && below k (base ++ s)) eqn:Eb; [|done]. to_prop.
    assert (below k base = true) as Hkb.
    { destruct (below_comparable k base (base ++ s)) as [Hc|Hc]; [done|apply below_app|done|congruence]. }
    apply below_spec in Hkb as [u Hu]. exfalso.
    destruct (decide (u = [])) as [->|Hu0].
    + rewrite app_nil_r in Hu. by rewrite <- Hu, Ht in Ek.
    + rewrite Hu in Ht. destruct (tree_wf_prefix _ _ _ _ Hwf Ht Hu0) as [m Hm].
      rewrite node_at_lookup in Hm by done. congruence.
Qed.

Lemma confined_rm s rec :
  plain_segs s = true -> s <> [] -> confined base (fs_rm (abs_path (base ++ s)) rec).
Proof.
  intros Hs Hsn. unfold fs_rm. apply confined_bind; [apply confined_weaken, reads_only_stat|].
  intros n. destruct (_ && _); [apply confined_weaken, reads_only_throw|].
  apply confined_step. intros w r w' [= <- <-] [Hwf _]. cbn.
  rewrite path_key_abs by by rewrite plain_segs_app, Hb, Hs.
  split; [by apply remove_tree_wf|]. intros k Hk. rewrite lookup_remove_tree.
  by rewrite (below_base_ne k s).
Qed.

(** [rename] fails, does nothing, or moves the tree; only a move to another device
    fails with [EXDEV]. *)
Lemma walk_error_code f segs : forall pre e,
  walk_error f pre segs = Some e -> e = ENOENT \/ e = ENOTDIR.
Proof.
  induction segs as [|x segs IH]; intros pre e; cbn [walk_error]; [done|].
  destruct segs as [|y segs]; [done|].
  destruct (node_at f (pre ++ [x])) as [[]|]; [intros [= <-]; auto|apply IH|intros [= <-]; auto].
Qed.

Lemma lookup_path_code f k e : lookup_path f k = Err e -> e = ENOENT \/ e = ENOTDIR.
Proof.
  unfold lookup_path. destruct (walk_error f [] k) eqn:E.
  - intros [= <-]. by eapply walk_error_code.
  - destruct (node_at f k); intros [= <-]. auto.
Qed.

Lemma rename_error_code f from to src e : rename_error f from to src = Some e -> e <> EXDEV.
Proof.
  unfold rename_error. destruct (walk_error f [] to) eqn:E.
  - intros [= <-]. apply walk_error_code in E as [-> | ->]; done.
  - repeat case_match; congruence.
Qed.

Lemma rename_run w from to r w' :
  fs_rename (abs_path from) (abs_path to) w = (r, w') ->
  plain_segs from = true -> plain_segs to = true -> from <> [] -> tree_wf (w_fs w) ->
  (w' = w /\ exists e, r = Err (ExNode e) /\ e <> EXDEV) \/
  (w' = w /\ from = to /\ r = Ok tt) \/
  exists src, w_fs w !! from = Some src /\ from <> to /\ rename_error (w_fs w) from to src = None /\
    ((w' = w /\ r = Err (ExNode EXDEV)) \/
     (w' = set_fs (move_tree (w_fs w) from to) w /\ r = Ok tt)).
Proof.
  intros Hr Hf Ht Hfn Hwf. unfold fs_rename, fs_stat in Hr. run_in Hr.
  rewrite !path_key_abs in Hr by done.
  destruct (lookup_path (w_fs w) from) as [src|e] eqn:El; cbn in Hr.
  - apply lookup_path_ok in El; [|done..]. case_bool_decide as Heq.
    { injection Hr as <- <-. auto. }
    destruct (rename_error _ _ _ _) eqn:Er; cbn in Hr.
    + injection Hr as <- <-. left. split; [done|]. eexists. split; [done|]. by eapply rename_error_code.
    + right. right. exists src. split_and!; [done..|].
      destruct (N.eqb _ _); cbn in Hr; injection Hr as <- <-; auto.
  - left. injection Hr as <- <-. split; [done|]. exists e. split; [done|].
    by apply lookup_path_code in El as [-> | ->].
Qed.

Context (from to : fskey) (Hf : plain_segs from = true) (Ht : plain_segs to = true)
  (Hfn : from <> []) (Htn : to <> []).

Lemma move_confined f src :
  vault_tree base f -> f !! (base ++ from) = Some src -> base ++ from <> base ++ to ->
  rename_error f (base ++ from) (base ++ to) src = None ->
  tree_wf (move_tree f (base ++ from) (base ++ to)) /\
  forall k, below base k = false \/ k = base -> move_tree f (base ++ from) (base ++ to) !! k = f !! k.
Proof.
  intros [Hwf _] Hs Hne Hre.
  destruct (rename_not_inside f (base ++ from) (base ++ to) src) as [Hin Hw]; [done|by destruct base|done..|].
  split.
  - apply move_tree_wf with src; try done; try (by destruct base). by rewrite plain_segs_app, Hb, Ht.
  - intros k Hk. rewrite lookup_move_tree.
    rewrite (proj1 (below_false _ _)) by by apply below_base_ne.
    by rewrite (below_base_ne k from).
Qed.

Lemma confined_rename : confined base (fs_rename (abs_path (base ++ from)) (abs_path (base ++ to))).
Proof.
  apply confined_step. intros w r w' Hr Hv.
  apply rename_run in Hr as [(-> & _)|[(-> & _)|(src & Hs & Hne & Hre & [[-> _]|[-> _]])]];
    try (split; [apply Hv|done]); try (by rewrite plain_segs_app, Hb); try by destruct base.
  - by eapply move_confined.
  - apply Hv.
Qed.

Lemma confined_rename_or_copy :
  confined base (rename_or_copy (abs_path (base ++ from)) (abs_path (base ++ to))).
Proof.
  intros w r w' Hr Hv. unfold rename_or_copy, try_catch in Hr.
  destruct (fs_rename _ _ w) as [r1 w1] eqn:E. pose proof (confined_rename _ _ _ E Hv) as Hc.
  apply rename_run in E as [(-> & e & -> & He)|[(-> & _ & ->)|(src & Hs & Hne & Hre & [[-> ->]|[-> ->]])]];
    try (by rewrite plain_segs_app, Hb); try (by destruct base); try apply Hv; try (by injection Hr as <- <-).
  - cbn in Hr. rewrite bool_decide_eq_false_2 in Hr by congruence. by injection Hr as <- <-.
  - cbn [isNodeError] in Hr. rewrite bool_decide_eq_true_2 in Hr by done.
    assert (confined base (fs_rm (abs_path (base ++ from)) true)) as Hrm by by apply confined_rm.
    unfold mbind, M_bind in Hr. destruct (fs_copy _ _ w) as [r2 w2] eqn:E2.
    assert (vault_tree base (w_fs w2) /\ forall k, below base k = false -> w_fs w2 !! k = w_fs w !! k) as [Hv2 H2].
    { clear Hr. revert w r2 w2 E2 Hv Hs Hre Hc. intros w r2 w2 E2 Hv Hs Hre _.
      unfold fs_copy, fs_stat in E2. run_in E2.
      rewrite !path_key_abs in E2 by by rewrite plain_segs_app, Hb.
      destruct (lookup_path _ _); [|by injection E2 as <- <-]. cbn in E2.
      destruct (walk_error _ _ _); [by injection E2 as <- <-|]. injection E2 as <- <-. cbn.
      destruct Hv as [Hwf [t Htt]]. split; [split|].
      - apply copy_tree_wf with src; try done; try (by destruct base). by rewrite plain_segs_app, Hb, Ht.
      - exists t. rewrite lookup_copy_tree. rewrite (proj1 (below_false _ _)) by (apply below_base_ne; auto).
        done.
      - intros k Hk. rewrite lookup_copy_tree.
        by rewrite (proj1 (below_false _ _)) by (apply below_base_ne; auto). }
    destruct r2 as [[]|e2]; [|by injection Hr as <- <-].
    destruct (Hrm _ _ _ Hr Hv2) as [Hv3 H3]. split; [done|]. intros k Hk. by rewrite H3, H2.
Qed.

End calls.

(** * The operations *)

(** What the code relies on: [randomUUID()] has no separator. *)
Definition uuid_plain `{NodeHost} : Prop := forall n, (slash ∉ uuid_text n) /\ is_jstr (uuid_text n) = true.

Section operations.
Context `{Host, JsonHost, NodeHost, AuditHandlers, YamlLib}.
Context (ctx : VaultContext) (base : fskey) (Hroot : vault_root (root ctx) base).
Context (Huuid : uuid_plain).

Lemma confined_valid {A} p k (g : jstr -> M A) :
  (forall rel, valid_path Posix k rel -> confined base (g rel)) -> confined base (valid p k ≫= g).
Proof.
  intros Hg. unfold valid. destruct (validateVaultPath Posix p k) as [rel|e] eqn:E.
  - apply validate_ok in E as [-> Hp]. by apply Hg.
  - by apply confined_weaken, (reads_only_throw (A := A)).
Qed.

Lemma confined_vaultPath {A} k rel (g : jstr -> M A) :
  valid_path Posix k rel -> confined base (g (abs_path (base ++ split_on slash rel))) ->
  confined base (vaultPath (root ctx) rel ≫= g).
Proof. intros Hp Hg. by rewrite (vaultPath_valid _ base Hroot k). Qed.

Lemma confined_uuid {A} (g : jstr -> M A) :
  (forall n, confined base (g (uuid_text n))) -> confined base (randomUUID ≫= g).
Proof.
  intros Hg w r w' Hr Hv. by apply (Hg _ _ _ _ Hr).
Qed.

Lemma confined_vfail {S T} (r : VaultResult S) (k : S -> M (VaultResult T)) :
  (forall s, confined base (k s)) -> confined base (vfail_as r k).
Proof. intros Hk. destruct r; [apply Hk|]. apply confined_weaken, reads_only_ret. Qed.

Lemma confined_catch_path {T} (m : M (VaultResult T)) : confined base m -> confined base (catch_path m).
Proof.
  intros Hm. apply confined_try; [done|]. intros e.
  destruct (classifyPathError e); apply confined_weaken; [apply reads_only_ret|apply reads_only_throw].
Qed.

Lemma confined_catch_collision {T} (m : M (VaultResult T)) :
  confined base m -> confined base (catch_path_collision m).
Proof.
  intros Hm. apply confined_try; [done|]. intros e.
  destruct (classifyPathError e); [apply confined_weaken, reads_only_ret|].
  destruct (classifyFsCollision e); apply confined_weaken; [apply reads_only_ret|apply reads_only_throw].
Qed.

Lemma confined_notify e : confined base (notifyVaultAuditHandlers e).
Proof.
  intros w r w' [= <- <-]. destruct (notify_handlers_fold e (w_handlers w) w) as (_ & _ & Hf & _).
  cbn zeta in Hf. by rewrite Hf.
Qed.

Lemma audit_dir_eq : audit_dir (root ctx) = abs_path (base ++ [js ".kb1"; js "audit"]).
Proof. unfold audit_dir. by rewrite (root_join _ base Hroot). Qed.

Lemma audit_file_eq :
  audit_file (root ctx) = abs_path (base ++ [js ".kb1"; js "audit"; js "changes.jsonl"]).
Proof.
  unfold audit_file. rewrite audit_dir_eq. destruct Hroot as [_ Hb Hbn].
  rewrite path_join_abs; [by rewrite <- app_assoc|by rewrite plain_segs_app, Hb|by destruct base|done..].
Qed.

Lemma metadata_path_eq :
  folderMetadataPath (root ctx) = mret (abs_path (base ++ [js ".kb1"; js "folders.yml"])).
Proof. unfold folderMetadataPath. by rewrite (vaultPath_plain _ base Hroot). Qed.

Lemma confined_mkdir_parent s :
  plain_segs s = true -> s <> [] -> confined base (fs_mkdir (dirname (abs_path (base ++ s)))).
Proof.
  intros Hs Hn. destruct (exists_last Hn) as (l & x & ->). pose proof Hroot as [_ Hb Hbn].
  rewrite app_assoc, dirname_abs by by rewrite <- app_assoc, plain_segs_app, Hb.
  apply confined_mkdir; [done..|]. rewrite plain_segs_app in Hs. by to_prop.
Qed.

Lemma confined_audit input : ai_root input = root ctx -> confined base (emitVaultAudit input).
Proof.
  intros Hi. unfold emitVaultAudit, writeAuditEntry. rewrite Hi, audit_dir_eq, audit_file_eq.
  pose proof Hroot as [_ Hb Hbn].
  apply confined_bind; [|intros; apply confined_bind; [apply confined_notify|intros]; auto using confined_weaken, reads_only_ret].
  apply confined_bind; [by apply confined_randomUUID|intros id].
  apply confined_bind; [auto using confined_weaken, reads_only_asks|intros now].
  apply confined_bind; [by apply confined_mkdir|intros _].
  apply confined_bind; [by apply confined_update|intros _]. auto using confined_weaken, reads_only_ret.
Qed.

(** Decide that a sequence of calls only reads: the calls first, then the rules. *)
Ltac reads :=
  repeat first
    [ apply reads_only_ret | apply reads_only_throw | apply reads_only_asks | apply reads_only_lift
    | apply reads_only_stat | apply reads_only_readFile | apply reads_only_readdir
    | apply reads_only_statOrNull | apply reads_only_vaultPath
    | apply reads_only_try; [|intros ?] | apply reads_only_fmap
    | apply reads_only_bind; [|intros ?] | case_bool_decide | case_match ].

Lemma reads_only_metadata : reads_only (readFolderMetadataMap (root ctx)).
Proof. unfold readFolderMetadataMap, folderMetadataPath. reads. Qed.

Lemma reads_only_exists p : reads_only (exists_path p).
Proof. unfold exists_path. reads. Qed.

Lemma temporary_name_plain n : plain_segs [js "." ++ dec process_pid ++ js "." ++ uuid_text n ++ js ".tmp"] = true.
Proof.
  apply plain_segs_spec. constructor; [|constructor]. split.
  - apply plain_seg_spec. split_and!; [done| |].
    + intros Hl%(f_equal length). rewrite !length_app in Hl. simpl in Hl. lia.
    + intros Hl%(f_equal length). rewrite !length_app in Hl. simpl in Hl. lia.
  - rewrite !not_elem_of_app. split_and!; [by vm_compute; set_solver| |by vm_compute; set_solver|apply Huuid|by vm_compute; set_solver].
    pose proof (dec_iso process_pid) as Hd. apply forallb_Forall in Hd. intros Hin.
    rewrite Forall_forall in Hd. by apply Hd in Hin.
Qed.

Lemma confined_write_metadata m : confined base (writeFolderMetadataMap (root ctx) m).
Proof.
  unfold writeFolderMetadataMap. rewrite metadata_path_eq. pose proof Hroot as [_ Hb Hbn].
  rewrite M_ret_bind. cbn zeta. replace (base ++ [js ".kb1"; js "folders.yml"]) with ((base ++ [js ".kb1"]) ++ [js "folders.yml"])
    by by rewrite <- app_assoc.
  rewrite dirname_abs by by rewrite !plain_segs_app, Hb.
  apply confined_bind; [by apply confined_mkdir|]. intros _.
  apply confined_uuid. intros n.
  rewrite path_join_abs by (by rewrite ?plain_segs_app, ?Hb, ?temporary_name_plain || by destruct base || done).
  rewrite <- !app_assoc. cbn [app].
  assert (plain_segs ([js ".kb1"] ++ [js "." ++ dec process_pid ++ js "." ++ uuid_text n ++ js ".tmp"]) = true) as Htmp
    by by rewrite plain_segs_app, temporary_name_plain.
  apply confined_try.
  - apply confined_bind; [by apply confined_update|intros _]. by apply confined_rename.
  - intros e. apply confined_bind; [|auto using confined_weaken, reads_only_throw].
    apply confined_try; [by apply confined_rm|].
    intros e'. case_bool_decide; auto using confined_weaken, reads_only_ret, reads_only_throw.
Qed.

Lemma reads_only_walk relDir maxDepth cap : reads_only (walk (root ctx) relDir maxDepth cap).
Proof.
  assert (forall d batch, reads_only (stat_batch (root ctx) d batch)) as Hbatch.
  { induction batch as [|[name dirent] batch IH]; cbn [stat_batch]; reads. apply IH. }
  assert (forall rec rows es, (forall d l, reads_only (rec d l)) -> reads_only (walk_rows rec cap rows es)) as Hrows.
  { intros rec rows es Hrec. revert es. induction rows as [|row rows IH]; intros es; cbn [walk_rows]; [reads|].
    apply reads_only_bind; [unfold push_entry; reads; apply Hrec|apply IH]. }
  assert (forall rec d bs es, (forall d l, reads_only (rec d l)) ->
    reads_only (walk_batches rec cap (root ctx) d bs es)) as Hbatches.
  { intros rec d bs es Hrec. revert es. induction bs as [|b bs IH]; intros es; cbn [walk_batches]; [reads|].
    apply reads_only_bind; [apply Hbatch|intros rows]. apply reads_only_bind; [by apply Hrows|apply IH]. }
  apply reads_only_bind; [reads|intros f]. generalize (walk_fuel f), (@nil VaultEntry), 0%Z.
  clear f. intros fuel. revert relDir. induction fuel as [|fuel IH]; intros relDir es depth; cbn [walkEntries]; [reads|].
  unfold dir_path. repeat case_match; reads; apply Hbatches; intros d l; apply IH.
Qed.

(** The path in the trash. *)
Definition trash_segs (now : Z) (uuid rel : jstr) : fskey :=
  [js ".kb1"; js "trash"] ++ [replace_all 58 (js "-") (toISOString now) ++ js "-" ++ uuid]
  ++ split_on slash rel.

Lemma iso_no_slash now : slash ∉ replace_all 58 (js "-") (toISOString now).
Proof.
  unfold replace_all. intros Hin. rewrite list_elem_of_In, in_flat_map in Hin.
  destruct Hin as (c & Hc & Hs). pose proof (toISOString_units now) as Hu.
  rewrite forallb_forall in Hu. apply Hu in Hc. destruct (N.eqb_spec 58 c) as [<-|Hne].
  - destruct Hs as [Hs|[]]. done.
  - destruct Hs as [->|[]]. done.
Qed.

Lemma trash_segs_plain k now n rel :
  valid_path Posix k rel -> plain_segs (trash_segs now (uuid_text n) rel) = true.
Proof.
  intros Hp%valid_path_plain. unfold trash_segs. rewrite !plain_segs_app, Hp, andb_true_r.
  replace (plain_segs [js ".kb1"; js "trash"]) with true by done. cbn [andb].
  apply plain_segs_spec. constructor; [|constructor]. split.
  - apply plain_seg_spec. split_and!.
    + intros H'%app_eq_nil. by destruct H' as [_ H'].
    + intros H'. assert (45 ∈ js ".")%N as Hin; [|by vm_compute in Hin; set_solver].
      rewrite <- H'. set_solver.
    + intros H'. assert (45 ∈ js "..")%N as Hin; [|by vm_compute in Hin; set_solver].
      rewrite <- H'. set_solver.
  - rewrite !not_elem_of_app. split_and!; [apply iso_no_slash|unfold slash; vm_compute; set_solver|apply Huuid].
Qed.

Lemma trash_path_run k rel w :
  valid_path Posix k rel ->
  let n := w_next_uuid w in
  trashRelativePath rel w =
    (Ok (join [slash] (trash_segs (w_now w) (uuid_text n) rel)), set_uuid (n + 1) w).
Proof.
  intros Hp. unfold trashRelativePath, randomUUID. run. do 2 f_equal.
  pose proof (trash_segs_plain k (w_now w) (w_next_uuid w) rel Hp) as Ht.
  unfold trash_segs in Ht. rewrite app_assoc, plain_segs_app in Ht. to_prop.
  by apply (path_join_rel [js ".kb1"; js "trash"; _]).
Qed.

(** Where the trash puts a path: in a folder of its own. *)
Lemma split_trash k now n rel :
  valid_path Posix k rel ->
  split_on slash (join [slash] (trash_segs now (uuid_text n) rel)) = trash_segs now (uuid_text n) rel.
Proof.
  intros Hp. apply split_join; [done|].
  pose proof (trash_segs_plain k now n rel Hp) as Ht%plain_segs_spec.
  by eapply Forall_impl; [done|]; intros ? [].
Qed.

Lemma confined_discard k rel permanent recursive :
  valid_path Posix k rel ->
  confined base (discard ctx rel (abs_path (base ++ split_on slash rel)) permanent recursive).
Proof.
  intros Hp. unfold discard. pose proof Hroot as [_ Hb Hbn]. pose proof (valid_path_plain _ _ _ Hp) as Hps.
  assert (split_on slash rel <> []) as Hsn by apply split_on_nonnil.
  destruct permanent.
  { apply confined_bind; [by apply confined_rm|intros _]. auto using confined_weaken, reads_only_ret. }
  intros w r w' Hr Hv. rewrite (M_bind_run _ _ _ _ _ (trash_path_run k rel w Hp)) in Hr.
  change (w_fs w) with (w_fs (set_uuid (w_next_uuid w + 1) w)) in *.
  revert r w' Hr Hv. generalize (w_next_uuid w), (w_now w), (set_uuid (w_next_uuid w + 1) w).
  clear w. intros n now w. pose proof (trash_segs_plain k now n rel Hp) as Ht.
  rewrite (vaultPath_plain _ base Hroot) by by rewrite (split_trash k).
  rewrite (split_trash k), M_ret_bind by done.
  set (t := trash_segs now (uuid_text n) rel) in *.
  revert w. change (confined base (fs_mkdir (dirname (abs_path (base ++ t)));; fs_rename (abs_path (base ++ split_on slash rel)) (abs_path (base ++ t));; mret (Some (join [slash] t)))).
  apply confined_bind; [by apply confined_mkdir_parent|intros _]. apply confined_bind; [by apply confined_rename|intros _].
  auto using confined_weaken, reads_only_ret.
Qed.

Lemma confined_write_bytes k rel bytes overwrite :
  valid_path Posix k rel -> confined base (write_bytes ctx rel bytes overwrite).
Proof.
  intros Hp. unfold write_bytes. apply (confined_vaultPath k); [done|].
  pose proof Hroot as [_ Hb Hbn]. pose proof (valid_path_plain _ _ _ Hp) as Hps.
  pose proof (split_on_nonnil slash rel) as Hsn.
  apply confined_bind; [apply confined_weaken, reads_only_exists|intros e].
  destruct (e && negb overwrite); [auto using confined_weaken, reads_only_ret|].
  apply confined_bind; [by apply confined_mkdir_parent|intros _].
  apply confined_bind; [by apply confined_update|intros _].
  apply confined_bind; [apply confined_weaken, reads_only_stat|intros s].
  apply confined_bind; [by apply confined_audit|intros a]. auto using confined_weaken, reads_only_ret.
Qed.

Lemma confined_clear s overwrite :
  plain_segs s = true -> s <> [] -> confined base (clear_target (abs_path (base ++ s)) overwrite).
Proof.
  intros Hs Hsn. pose proof Hroot as [_ Hb Hbn]. unfold clear_target.
  destruct overwrite; [|auto using confined_weaken, reads_only_ret].
  apply confined_bind; [apply confined_weaken, reads_only_exists|intros p].
  destruct p; [by apply confined_rm|auto using confined_weaken, reads_only_ret].
Qed.

Lemma confined_move_path k input from to metadata :
  valid_path Posix k from -> valid_path Posix k to ->
  confined base (movePath ctx input from to (abs_path (base ++ split_on slash from))
                   (abs_path (base ++ split_on slash to)) metadata).
Proof.
  intros Hf Ht. unfold movePath. pose proof Hroot as [_ Hb Hbn].
  pose proof (valid_path_plain _ _ _ Hf) as Hfs. pose proof (valid_path_plain _ _ _ Ht) as Hts.
  pose proof (split_on_nonnil slash from) as Hfn. pose proof (split_on_nonnil slash to) as Htn.
  apply confined_bind; [apply confined_weaken, reads_only_exists|intros e].
  destruct (e && _); [auto using confined_weaken, reads_only_ret|].
  apply confined_bind; [by apply confined_mkdir_parent|intros _].
  apply confined_bind; [by apply confined_clear|]. intros _. apply confined_bind; [by apply confined_rename_or_copy|intros _].
  apply confined_bind.
  { destruct metadata; [apply confined_write_metadata|auto using confined_weaken, reads_only_ret]. }
  intros _. apply confined_bind; [by apply confined_audit|intros a]. auto using confined_weaken, reads_only_ret.
Qed.

(** Every call of a public operation. *)
Inductive vault_call :=
| CGetInfo
| CListTree (input : ListInput)
| CGetMetadata (path : jstr)
| CSetMetadata (path : jstr) (input : FolderMetadataInput)
| CListMetadata
| CRead (path : jstr)
| CWrite (input : WriteFileInput)
| CReadRaw (path : jstr)
| CWriteRaw (input : WriteRawInput)
| CMakeFolder (path : jstr)
| CDeleteFile (input : DeleteFileInput)
| CDeleteFolder (input : DeleteFolderInput)
| CMove (input : MoveInput).

(** The call, without what it answers. *)
Definition run_call (c : vault_call) : M unit :=
  match c with
  | CGetInfo => _ ← getVaultInfo ctx; mret tt
  | CListTree input => _ ← listVaultTree ctx input; mret tt
  | CGetMetadata p => _ ← getFolderMetadata ctx p; mret tt
  | CSetMetadata p input => _ ← setFolderMetadata ctx p input; mret tt
  | CListMetadata => _ ← listFolderMetadata ctx; mret tt
  | CRead p => _ ← readVaultFile ctx p; mret tt
  | CWrite input => _ ← writeVaultFile ctx input; mret tt
  | CReadRaw p => _ ← readVaultRawFile ctx p; mret tt
  | CWriteRaw input => _ ← writeVaultRawFile ctx input; mret tt
  | CMakeFolder p => _ ← makeVaultFolder ctx p; mret tt
  | CDeleteFile input => _ ← deleteVaultFile ctx input; mret tt
  | CDeleteFolder input => _ ← deleteVaultFolder ctx input; mret tt
  | CMove input => _ ← moveVaultPath ctx input; mret tt
  end.

(** Any sequence of calls, each going on when the one before it threw. *)
Fixpoint run_calls (cs : list vault_call) (w : world) : world :=
  match cs with
  | [] => w
  | c :: cs => run_calls cs (run_call c w).2
  end.

Lemma reads_only_confined_bind {A} (m : M A) :
  reads_only m -> confined base (_ ← m; mret tt).
Proof. intros Hm. apply confined_weaken, reads_only_bind; [done|]. intros; apply reads_only_ret. Qed.

Lemma confined_getVaultInfo : confined base (getVaultInfo ctx).
Proof.
  pose proof Hroot as [Hr Hb Hbn]. apply confined_try.
  - apply confined_bind; [|intros _].
    + replace (root ctx) with (abs_path (base ++ [])) by by rewrite app_nil_r. by apply confined_mkdir.
    + apply confined_weaken, reads_only_bind; [apply reads_only_walk|intros; apply reads_only_ret].
  - intros []; auto using confined_weaken, reads_only_ret, reads_only_throw.
Qed.

Lemma reads_only_listVaultTree input : reads_only (listVaultTree ctx input).
Proof.
  apply reads_only_try; [|intros []; cbn; reads]. unfold dir_path.
  apply reads_only_bind; [reads|intros under]. apply reads_only_bind; [reads|intros abs].
  apply reads_only_bind; [reads|intros st]. case_match; [reads|].
  apply reads_only_bind; [apply reads_only_walk|intros es].
  apply reads_only_bind; [apply reads_only_metadata|intros []]; cbn; reads.
Qed.

Lemma reads_only_getFolderMetadata p : reads_only (getFolderMetadata ctx p).
Proof.
  apply reads_only_try; [|intros e; destruct (classifyPathError e); reads].
  apply reads_only_bind; [reads|intros rel]. apply reads_only_bind; [reads|intros abs].
  apply reads_only_bind; [reads|intros st]. case_match; [reads|].
  apply reads_only_bind; [apply reads_only_metadata|intros []]; cbn; reads.
Qed.

Lemma reads_only_readVaultFile p : reads_only (readVaultFile ctx p).
Proof.
  apply reads_only_try; [|intros e; destruct (classifyPathError e); reads].
  apply reads_only_bind; [reads|intros rel]. unfold vfail_as.
  destruct (ensureEditableArtifact rel); reads.
Qed.

Lemma reads_only_readVaultRawFile p : reads_only (readVaultRawFile ctx p).
Proof.
  apply reads_only_try; [|intros e; destruct (classifyPathError e); reads].
  unfold valid. reads.
Qed.

Lemma confined_setFolderMetadata p input : confined base (setFolderMetadata ctx p input).
Proof.
  apply confined_catch_path, confined_valid. intros rel Hp.
  apply confined_vfail. intros n. eapply confined_vaultPath; [done|].
  apply confined_bind; [apply confined_weaken, reads_only_statOrNull|intros st].
  case_match; [auto using confined_weaken, reads_only_ret|].
  apply confined_bind; [apply confined_weaken, reads_only_metadata|intros m].
  apply confined_vfail. intros m'. apply confined_bind; [apply confined_write_metadata|intros _].
  apply confined_bind; [by apply confined_audit|intros a]. auto using confined_weaken, reads_only_ret.
Qed.

Lemma confined_writeVaultFile input : confined base (writeVaultFile ctx input).
Proof.
  apply confined_catch_collision, confined_valid. intros rel Hp. apply confined_vfail. intros _.
  apply confined_bind; [by eapply confined_write_bytes|intros r].
  apply confined_vfail. intros [s a]. auto using confined_weaken, reads_only_ret.
Qed.

Lemma confined_writeVaultRawFile input : confined base (writeVaultRawFile ctx input).
Proof.
  apply confined_catch_collision, confined_valid. intros rel Hp.
  apply confined_bind; [by eapply confined_write_bytes|intros r].
  apply confined_vfail. intros [s a]. auto using confined_weaken, reads_only_ret.
Qed.

Lemma confined_makeVaultFolder p : confined base (makeVaultFolder ctx p).
Proof.
  apply confined_catch_collision, confined_valid. intros rel Hp. pose proof Hroot as [_ Hb Hbn].
  eapply confined_vaultPath; [done|].
  apply confined_bind; [apply confined_weaken, reads_only_exists|intros e].
  apply confined_bind; [apply confined_mkdir; [done..|by eapply valid_path_plain]|intros _].
  destruct e; [auto using confined_weaken, reads_only_ret|].
  apply confined_bind; [by apply confined_audit|intros a]. auto using confined_weaken, reads_only_ret.
Qed.

Lemma confined_deleteVaultFile input : confined base (deleteVaultFile ctx input).
Proof.
  apply confined_catch_path, confined_valid. intros rel Hp. eapply confined_vaultPath; [done|].
  apply confined_bind; [apply confined_weaken, reads_only_statOrNull|intros st].
  case_match; [auto using confined_weaken, reads_only_ret|].
  apply confined_bind; [by eapply confined_discard|intros t].
  apply confined_bind; [by apply confined_audit|intros a]. auto using confined_weaken, reads_only_ret.
Qed.

Lemma confined_deleteVaultFolder input : confined base (deleteVaultFolder ctx input).
Proof.
  apply confined_catch_path, confined_valid. intros rel Hp. eapply confined_vaultPath; [done|].
  apply confined_bind; [apply confined_weaken, reads_only_statOrNull|intros st].
  case_match; [auto using confined_weaken, reads_only_ret|].
  apply confined_bind; [apply confined_weaken, reads_only_readdir|intros ch].
  case_match; [auto using confined_weaken, reads_only_ret|].
  apply confined_bind; [apply confined_weaken, reads_only_metadata|intros m].
  apply confined_vfail. intros m'. apply confined_bind; [by eapply confined_discard|intros t].
  apply confined_bind; [apply confined_write_metadata|intros _].
  apply confined_bind; [by apply confined_audit|intros a]. auto using confined_weaken, reads_only_ret.
Qed.

Lemma confined_moveVaultPath input : confined base (moveVaultPath ctx input).
Proof.
  apply confined_catch_collision, confined_valid. intros from Hf. apply confined_valid. intros to Ht.
  case_match; [auto using confined_weaken, reads_only_ret|].
  eapply confined_vaultPath; [done|]. eapply confined_vaultPath; [done|].
  apply confined_bind; [apply confined_weaken, reads_only_statOrNull|intros st].
  case_match; [auto using confined_weaken, reads_only_ret|].
  destruct (mi_kind input) eqn:Ek; [by eapply confined_move_path|].
  apply confined_bind; [apply confined_weaken, reads_only_metadata|intros m].
  apply confined_vfail. intros m'. by eapply confined_move_path.
Qed.

Lemma confined_run_call c : confined base (run_call c).
Proof.
  destruct c; (apply confined_bind; [|intros; auto using confined_weaken, reads_only_ret]);
    eauto using confined_weaken, confined_getVaultInfo, reads_only_listVaultTree,
      reads_only_getFolderMetadata, confined_setFolderMetadata, reads_only_metadata,
      reads_only_readVaultFile, confined_writeVaultFile, reads_only_readVaultRawFile,
      confined_writeVaultRawFile, confined_makeVaultFolder, confined_deleteVaultFile,
      confined_deleteVaultFolder, confined_moveVaultPath.
Qed.

(** C1: whatever sequence of operations is called, with whatever inputs, and whether
    each returns a value, a failure or throws: the tree stays well formed, the vault
    root stays a folder, and every entry outside the root is what it was. *)
Theorem operations_stay_in_vault cs w :
  vault_tree base (w_fs w) ->
  vault_tree base (w_fs (run_calls cs w)) /\
  forall k, below base k = false -> w_fs (run_calls cs w) !! k = w_fs w !! k.
Proof.
  revert w. induction cs as [|c cs IH]; intros w Hv; [done|]. cbn [run_calls].
  destruct (run_call c w) as [r w'] eqn:E. destruct (confined_run_call c _ _ _ E Hv) as [Hv' H'].
  destruct (IH w' Hv') as [Hv'' H'']. split; [done|]. intros k Hk. cbn. by rewrite H'', H'.
Qed.

(** the operations that answer questions change nothing at all. *)
Theorem queries_change_nothing w :
  (forall input, (listVaultTree ctx input w).2 = w) /\
  (forall p, (getFolderMetadata ctx p w).2 = w) /\
  (listFolderMetadata ctx w).2 = w /\
  (forall p, (readVaultFile ctx p w).2 = w) /\
  (forall p, (readVaultRawFile ctx p w).2 = w).
Proof.
  assert (forall A (m : M A), reads_only m -> (m w).2 = w) as Hro.
  { intros A m Hm. destruct (m w) eqn:E. by apply Hm in E. }
  split_and!; intros; apply Hro;
    auto using reads_only_listVaultTree, reads_only_getFolderMetadata, reads_only_metadata,
      reads_only_readVaultFile, reads_only_readVaultRawFile.
Qed.

End operations.
