(* ===== verification/CallEffects.v ===== *)
(** The effect of each step of an operation when it succeeds: what the calls, the
    audit log and the metadata file leave in the tree. *)
From S2P Require Import Prelude JsString Utf8 Json NodePath VaultPath Artifact FileSystem IsoDate AuditLog FolderMetadata VaultOps VaultCalls Confinement.

(** * The catch blocks *)

Lemma catch_path_ok {T} (m : M (VaultResult T)) w v w' :
  catch_path m w = (Ok (VOk v), w') -> m w = (Ok (VOk v), w').
Proof.
  unfold catch_path, try_catch. destruct (m w) as [[a|e] w1]; [done|].
  destruct e; cbn; intros [=].
Qed.

Lemma catch_collision_ok {T} (m : M (VaultResult T)) w v w' :
  catch_path_collision m w = (Ok (VOk v), w') -> m w = (Ok (VOk v), w').
Proof.
  unfold catch_path_collision, try_catch. destruct (m w) as [[a|e] w1]; [done|].
  destruct e as [| [] | |]; cbn; intros [=].
Qed.

Lemma catch_path_value {T} (m : M (VaultResult T)) w v w' :
  m w = (Ok v, w') -> catch_path m w = (Ok v, w').
Proof. apply try_catch_ok. Qed.

Lemma catch_collision_value {T} (m : M (VaultResult T)) w v w' :
  m w = (Ok v, w') -> catch_path_collision m w = (Ok v, w').
Proof. apply try_catch_ok. Qed.

Lemma vfail_as_ok {S T} (r : VaultResult S) (k : S -> M (VaultResult T)) w v w' :
  vfail_as r k w = (Ok (VOk v), w') -> exists s, r = VOk s /\ k s w = (Ok (VOk v), w').
Proof. destruct r; cbn; [eauto|intros [=]]. Qed.

Lemma valid_ok `{NodeHost} p k w rel w' :
  valid p k w = (Ok rel, w') -> rel = p /\ valid_path Posix k p /\ w' = w.
Proof.
  unfold valid. destruct (validateVaultPath Posix p k) as [q|e] eqn:E; [|done].
  intros [= <- <-]. apply validate_ok in E as [-> ?]. done.
Qed.

Lemma valid_run `{NodeHost} p k w : valid_path Posix k p -> valid p k w = (Ok p, w).
Proof. intros Hp. unfold valid. by rewrite (proj2 (validate_ok Posix k p p)). Qed.

(** * Calls *)

Section effects.
Context `{NodeHost}.
Context (k : fskey) (Hk : plain_segs k = true) (Hkn : k <> []).

Lemma stat_run w n : tree_wf (w_fs w) -> w_fs w !! k = Some n -> fs_stat (abs_path k) w = (Ok n, w).
Proof.
  intros Hwf Hn. unfold fs_stat. rewrite path_key_abs by done.
  by rewrite (proj2 (lookup_path_ok _ _ _ Hwf Hkn) Hn).
Qed.

Lemma stat_ok w n w' :
  tree_wf (w_fs w) -> fs_stat (abs_path k) w = (Ok n, w') -> w' = w /\ w_fs w !! k = Some n.
Proof.
  intros Hwf. unfold fs_stat. rewrite path_key_abs by done.
  destruct (lookup_path (w_fs w) k) eqn:E; [|done]. intros [= <- <-]. by apply lookup_path_ok in E.
Qed.

Lemma readFile_run w b m c i :
  tree_wf (w_fs w) -> w_fs w !! k = Some (NFile b m c i) -> fs_readFile (abs_path k) w = (Ok b, w).
Proof. intros Hwf Hn. unfold fs_readFile. by rewrite (M_bind_run _ _ _ _ _ (stat_run w _ Hwf Hn)). Qed.

(** [statOrNull] answers the entry, unless a file is in the way. *)
Definition reachable (f : tree) : Prop := walk_error f [] k <> Some ENOTDIR.

Lemma statOrNull_run w :
  tree_wf (w_fs w) -> reachable (w_fs w) -> statOrNull (abs_path k) w = (Ok (w_fs w !! k), w).
Proof.
  intros Hwf Hr. unfold statOrNull, try_catch, fs_stat. run. rewrite path_key_abs by done.
  destruct (w_fs w !! k) as [n|] eqn:E.
  - by rewrite (proj2 (lookup_path_ok _ _ _ Hwf Hkn) E).
  - destruct (lookup_path (w_fs w) k) as [n|e] eqn:El.
    { apply lookup_path_ok in El; [|done..]. congruence. }
    pose proof (lookup_path_code _ _ _ El) as [-> | ->]; [done|]. exfalso.
    unfold lookup_path in El. destruct (walk_error _ _ _) eqn:Ew; [congruence|].
    destruct (node_at _ _); congruence.
Qed.

Lemma statOrNull_ok w o w' :
  tree_wf (w_fs w) -> statOrNull (abs_path k) w = (Ok o, w') -> w' = w /\ o = w_fs w !! k.
Proof.
  intros Hwf Hs. assert (reachable (w_fs w)) as Hr.
  { intros Hw. unfold statOrNull, try_catch, fs_stat, lookup_path in Hs. run_in Hs.
    rewrite path_key_abs, Hw in Hs by done. cbn in Hs. by rewrite bool_decide_eq_false_2 in Hs. }
  rewrite statOrNull_run in Hs by done. by injection Hs as <- <-.
Qed.

Lemma exists_run w :
  tree_wf (w_fs w) -> reachable (w_fs w) ->
  exists_path (abs_path k) w = (Ok (bool_decide (is_Some (w_fs w !! k))), w).
Proof. intros Hwf Hr. unfold exists_path. by rewrite (M_bind_run _ _ _ _ _ (statOrNull_run w Hwf Hr)). Qed.

Lemma exists_ok w b w' :
  tree_wf (w_fs w) -> exists_path (abs_path k) w = (Ok b, w') ->
  w' = w /\ b = bool_decide (is_Some (w_fs w !! k)).
Proof.
  intros Hwf Hs. apply M_bind_ok in Hs as (o & w1 & [-> ->]%statOrNull_ok & Hs); [|done].
  by injection Hs as <- <-.
Qed.

Lemma mkdir_ok w u w' :
  fs_mkdir (abs_path k) w = (Ok u, w') ->
  exists f, make_dirs (w_fs w) (w_now w) [] k = Ok f /\ w' = set_fs f w.
Proof.
  unfold fs_mkdir. rewrite path_key_abs by done.
  destruct (make_dirs _ _ _ _); intros [= <- <-]. eauto.
Qed.

Lemma readdir_ok w l w' :
  tree_wf (w_fs w) -> fs_readdir (abs_path k) w = (Ok l, w') ->
  w' = w /\ l = readdir_order (children (w_fs w) k).
Proof.
  intros Hwf Hr. apply M_bind_ok in Hr as (n & w1 & [-> Hn]%stat_ok & Hr); [|done].
  destruct n; [done|]. run_in Hr. rewrite path_key_abs in Hr by done. by injection Hr as <- <-.
Qed.

Lemma rm_run w n :
  tree_wf (w_fs w) -> w_fs w !! k = Some n ->
  fs_rm (abs_path k) true w = (Ok tt, set_fs (remove_tree (w_fs w) k) w).
Proof.
  intros Hwf Hn. unfold fs_rm. rewrite (M_bind_run _ _ _ _ _ (stat_run w n Hwf Hn)).
  rewrite andb_false_r. run. by rewrite path_key_abs.
Qed.

(** A write puts a file with the given bytes at the key. *)
Lemma update_ok w g u w' :
  fs_update (abs_path k) g w = (Ok u, w') ->
  exists old i,
    w_fs w' = <[k := NFile (g old) (w_now w) (w_now w) i]> (w_fs w) /\
    match w_fs w !! k with Some (NFile b _ _ _) => old = b | Some (NDir _) => False | None => old = [] end /\
    walk_error (w_fs w) [] k = None /\
    w_now w' = w_now w /\ w_mount w' = w_mount w /\ w_next_uuid w' = w_next_uuid w /\
    w_handlers w' = w_handlers w.
Proof.
  intros Hu. unfold fs_update in Hu. run_in Hu. rewrite path_key_abs in Hu by done.
  rewrite node_at_lookup in Hu by done.
  destruct (walk_error _ _ _) eqn:Ew; [by injection Hu|].
  destruct (w_fs w !! k) as [[b m c i|]|] eqn:E; cbn in Hu; [| by injection Hu|];
    injection Hu as <- <-; eauto 10.
Qed.

Lemma rm_ok w rec u w' :
  tree_wf (w_fs w) -> fs_rm (abs_path k) rec w = (Ok u, w') ->
  w' = set_fs (remove_tree (w_fs w) k) w.
Proof.
  intros Hwf Hr. apply M_bind_ok in Hr as (n & w1 & [-> Hn]%stat_ok & Hr); [|done].
  destruct (_ && _); [done|]. run_in Hr. rewrite path_key_abs in Hr by done. by injection Hr as <- <-.
Qed.

End effects.

(** Moving an entry, by [rename] or across devices: either way the entries below
    [from] are now below [to]. *)
Lemma rename_or_copy_ok `{NodeHost} from to w u w' :
  plain_segs from = true -> plain_segs to = true -> from <> [] -> to <> [] -> tree_wf (w_fs w) ->
  w_fs w !! to = None -> from <> to ->
  rename_or_copy (abs_path from) (abs_path to) w = (Ok u, w') ->
  exists f, w' = set_fs f w /\ (forall k, f !! k = move_tree (w_fs w) from to !! k) /\
    below from to = false.
Proof.
  intros Hf Ht Hfn Htn Hwf Hto Hft Hr. unfold rename_or_copy, try_catch in Hr.
  destruct (fs_rename _ _ w) as [r1 w1] eqn:E.
  apply rename_run in E as [(-> & e & -> & He)|[(-> & Heq & _)|(src & Hs & Hne & Hre & Hcase)]]; try done.
  { cbn in Hr. by rewrite bool_decide_eq_false_2 in Hr by congruence. }
  destruct (rename_not_inside _ _ _ _ Hwf Hfn Hne Hs Hre) as [Hin Hw].
  destruct Hcase as [[-> ->]|[-> ->]].
  - cbn [isNodeError] in Hr. rewrite bool_decide_eq_true_2 in Hr by done.
    apply M_bind_ok in Hr as ([] & w2 & Hc & Hr).
    unfold fs_copy, fs_stat in Hc. run_in Hc. rewrite !path_key_abs in Hc by done.
    rewrite (proj2 (lookup_path_ok _ _ _ Hwf Hfn) Hs) in Hc. cbn in Hc. rewrite Hw in Hc.
    injection Hc as <-. cbn in Hr. apply rm_ok in Hr; [|done..|by eapply copy_tree_wf].
    eexists. split_and!; [done| |done]. intros k. cbn. rewrite lookup_remove_tree, lookup_copy_tree, lookup_move_tree.
    destruct (strip_prefix to k) as [s|] eqn:Es; [|done]. apply strip_prefix_spec in Es as ->.
    destruct (below from (to ++ s)) eqn:Eb.
    + destruct (below_comparable from to (to ++ s)) as [Hc|Hc]; [done|apply below_app|congruence|].
      apply below_spec in Hc as [t ->]. exfalso.
      apply (tree_wf_none _ to t) in Hto; [|done..]. congruence.
    + destruct (w_fs w !! (from ++ s)); [done|]. by apply tree_wf_none.
  - injection Hr as <- <-. by exists (move_tree (w_fs w) from to).
Qed.

(** * The audit log and the metadata file *)

Section records.
Context `{Host, JsonHost, NodeHost, AuditHandlers, YamlLib}.
Context (ctx : VaultContext) (base : fskey) (Hroot : vault_root (root ctx) base).
Context (Huuid : uuid_plain).

Definition kb1 : fskey := base ++ [js ".kb1"].
Definition audit_dir_key : fskey := base ++ [js ".kb1"; js "audit"].
Definition audit_key : fskey := base ++ [js ".kb1"; js "audit"; js "changes.jsonl"].
Definition metadata_key : fskey := base ++ [js ".kb1"; js "folders.yml"].
Definition trash_dir : fskey := base ++ [js ".kb1"; js "trash"].
Definition temporary_key (n : N) : fskey :=
  base ++ [js ".kb1"; js "." ++ dec process_pid ++ js "." ++ uuid_text n ++ js ".tmp"].

Lemma plain_segs_cons2 l k : plain_segs l = true -> plain_segs k = true -> plain_segs (l ++ k) = true.
Proof. intros Hl Hk. by rewrite plain_segs_app, Hl, Hk. Qed.

Lemma base_plain segs : plain_segs segs = true -> plain_segs (base ++ segs) = true.
Proof. intros Hs. destruct Hroot as [_ Hb _]. by rewrite plain_segs_app, Hb, Hs. Qed.

Lemma base_ne segs : base ++ segs <> [].
Proof. destruct Hroot as [_ _ Hbn]. by destruct base. Qed.

(** The bytes of the log. *)
Definition log_bytes (f : tree) : list N :=
  match f !! audit_key with Some (NFile b _ _ _) => b | _ => [] end.

(** The entry [writeAuditEntry] makes. *)
Definition entry_of (input : AuditInput) (now : Z) (n : N) : AuditEntry :=
  {| ae_id := uuid_text n; ae_ts := toISOString now;
     ae_actor := default (bare_actor AcUser) (ai_actor input);
     ae_operation := ai_operation input; ae_entityKind := ai_entityKind input;
     ae_path := ai_path input; ae_fromPath := ai_fromPath input; ae_toPath := ai_toPath input;
     ae_summary := ai_summary input |}.

Lemma audit_key_not_dir : below audit_key audit_dir_key = false.
Proof. apply below_longer. unfold audit_key, audit_dir_key. rewrite !length_app. simpl. lia. Qed.

(** One line more in the log, the folders of the log, and nothing else. *)
Lemma emit_ok input w e w' :
  emitVaultAudit input w = (Ok e, w') -> tree_wf (w_fs w) -> ai_root input = root ctx ->
  e = entry_of input (w_now w) (w_next_uuid w) /\
  log_bytes (w_fs w') = log_bytes (w_fs w) ++ entry_line e /\
  (forall k, k <> audit_key -> w_fs w' !! k =
     match w_fs w !! k with
     | Some n => Some n
     | None => if bool_decide (k <> []) && below k audit_dir_key then Some (NDir (w_now w)) else None
     end).
Proof.
  intros Hr Hwf Hi. unfold emitVaultAudit, writeAuditEntry in Hr.
  rewrite Hi, (audit_dir_eq _ base Hroot), (audit_file_eq _ base Hroot) in Hr.
  fold audit_dir_key audit_key in Hr.
  pose proof (base_plain [js ".kb1"; js "audit"] eq_refl) as Hdk.
  pose proof (base_plain [js ".kb1"; js "audit"; js "changes.jsonl"] eq_refl) as Hak.
  apply M_bind_ok in Hr as (e1 & w1 & Hr & Hn). apply M_bind_ok in Hn as ([] & w2 & Hn & Hret).
  injection Hret as -> <-. unfold notifyVaultAuditHandlers in Hn. injection Hn as <-.
  destruct (notify_handlers_fold e (w_handlers w1) w1) as (_ & _ & Hf & _). cbn zeta in Hf. rewrite Hf.
  apply M_bind_ok in Hr as (id & w3 & Hid & Hr). injection Hid as <- <-.
  apply M_bind_ok in Hr as (now & w4 & Hnow & Hr). injection Hnow as <- <-. cbn zeta in Hr.
  apply M_bind_ok in Hr as ([] & w5 & (f & Hm & ->)%mkdir_ok & Hr); [|done].
  apply M_bind_ok in Hr as ([] & w6 & Hu & Hret). injection Hret as <- <-.
  apply update_ok in Hu as (old & i & Hf6 & Hold & _); [|done|apply base_ne].
  world_in Hm. world_in Hf6. world_in Hold. pose proof (make_dirs_with _ _ _ _ Hm) as Hw. split; [done|].
  assert (f !! audit_key = w_fs w !! audit_key) as Hlog.
  { rewrite Hw. destruct (w_fs w !! audit_key); [done|]. by rewrite audit_key_not_dir, andb_false_r. }
  rewrite Hf6. split.
  - unfold log_bytes at 1. rewrite lookup_insert_eq. unfold log_bytes. rewrite Hlog in Hold.
    by destruct (w_fs w !! audit_key) as [[]|]; subst.
  - intros k Hk. rewrite lookup_insert_ne by done. apply Hw.
Qed.

(** The metadata file is replaced, its folder made, and nothing else. *)
Lemma write_metadata_ok m w u w' :
  tree_wf (w_fs w) -> (exists t, w_fs w !! base = Some (NDir t)) ->
  writeFolderMetadataMap (root ctx) m w = (Ok u, w') ->
  let temporary := temporary_key (w_next_uuid w) in
  temporary <> metadata_key ->
  (exists t c i, w_fs w' !! metadata_key =
     Some (NFile (encode (stringifyYaml (folders_value m))) t c i)) /\
  (forall k, below temporary k = false -> below metadata_key k = false -> w_fs w' !! k =
     match w_fs w !! k with
     | Some n => Some n
     | None => if bool_decide (k <> []) && below k kb1 then Some (NDir (w_now w)) else None
     end) /\
  w_now w' = w_now w /\ w_next_uuid w' = (w_next_uuid w + 1)%N.
Proof.
  intros Hwf [t0 Hbase] Hr. cbn zeta. intros Hne. unfold writeFolderMetadataMap in Hr.
  rewrite (metadata_path_eq _ base Hroot), M_ret_bind in Hr. cbn zeta in Hr.
  replace (base ++ [js ".kb1"; js "folders.yml"]) with (kb1 ++ [js "folders.yml"]) in Hr
    by by unfold kb1; rewrite <- app_assoc.
  rewrite dirname_abs in Hr by by unfold kb1; rewrite <- app_assoc; apply base_plain.
  apply M_bind_ok in Hr as ([] & w1 & (f & Hm & ->)%mkdir_ok & Hr); [|by apply base_plain].
  apply M_bind_ok in Hr as (id & w2 & Hid & Hr). injection Hid as <- <-. world_in Hr.
  assert (path_join [abs_path kb1; js "." ++ dec process_pid ++ js "." ++ uuid_text (w_next_uuid w) ++ js ".tmp"]
    = abs_path (temporary_key (w_next_uuid w))) as Htmp.
  { rewrite path_join_abs; [|by apply base_plain|apply base_ne|by apply (temporary_name_plain ctx base)|done].
    unfold kb1, temporary_key. by rewrite <- app_assoc. }
  rewrite Htmp in Hr. clear Htmp. unfold try_catch in Hr.
  set (content := encode (stringifyYaml (folders_value m))) in *.
  assert (plain_segs (temporary_key (w_next_uuid w)) = true) as Htk.
  { apply base_plain, (plain_segs_cons2 [js ".kb1"] [_]); [done|by apply (temporary_name_plain ctx base)]. }
  assert (plain_segs (kb1 ++ [js "folders.yml"]) = true) as Hmk by by unfold kb1; rewrite <- app_assoc; apply base_plain.
  assert (kb1 ++ [js "folders.yml"] = metadata_key) as Hmeta by by unfold kb1; rewrite <- app_assoc.
  rewrite Hmeta in *. clear Hmeta.
  destruct ((fs_writeFile _ _;; fs_rename _ _) _) as [[[]|e] w3] eqn:E; cbn in Hr.
  2:{ apply M_bind_ok in Hr as (? & ? & _ & Hr). done. }
  injection Hr as <- <-.
  apply M_bind_ok in E as ([] & w4 & Hu & Hr).
  apply update_ok in Hu as (old & i & Hf4 & Hold & Hw4 & Hnow & _ & Hid & _); [|done|apply base_ne].
  world_in Hf4. world_in Hold. world_in Hw4. world_in Hnow. world_in Hid.
  pose proof (make_dirs_with _ _ _ _ Hm) as Hw.
  assert (tree_wf f) as Hwff by by (eapply with_dirs_wf; [..|done]; [done|apply base_plain]).
  assert (tree_wf (w_fs w4)) as Hwf4.
  { rewrite Hf4. apply insert_file_wf; try done; [apply base_ne|]. by destruct (f !! _) as [[]|]. }
  apply rename_run in Hr as [(_ & e & [=] & _)|[(_ & Heq & _)|(src & Hs & Hne' & Hre & [[_ [=]]|[-> _]])]];
    try done; [|apply base_ne].
  world. rewrite Hf4, lookup_insert_eq in Hs. injection Hs as <-. split_and!.
  - exists (w_now w), (w_now w), i. rewrite lookup_move_tree.
    rewrite (proj2 (strip_prefix_spec metadata_key metadata_key [])) by by rewrite app_nil_r.
    by rewrite app_nil_r, Hf4, lookup_insert_eq.
  - intros k Hk1 Hk2. rewrite lookup_move_tree. rewrite (proj1 (below_false _ _) Hk2), Hk1, Hf4.
    rewrite lookup_insert_ne; [apply Hw|]. intros <-. by rewrite below_self in Hk1.
  - done.
  - done.
Qed.

End records.
