(* ===== verification/VaultView.v ===== *)
(** The abstract specification of a vault and the refinement by the operations of
    [VaultOps.v].  A vault, as its users see it, maps the segments of a path to a
    folder or to the bytes of a file; the reserved names are not part of it.  Each
    operation that reports success did to the vault what its specification says. *)
From S2P Require Import Prelude JsString Utf8 Json NodePath VaultPath Artifact FileSystem IsoDate AuditLog FolderMetadata VaultOps VaultCalls Confinement CallEffects.

(** * The specification *)

Inductive item := IFolder | IFile (bytes : list N).

#[export] Instance item_eq_dec : EqDecision item.
Proof. solve_decision. Defined.

Definition vault := fskey -> option item.

(** The folders on the way to [segs], and [segs] itself. *)
Definition spec_folders (segs : fskey) (v : vault) : vault := fun k =>
  match v k with
  | Some i => Some i
  | None => if below k segs then Some IFolder else None
  end.

Definition spec_write (segs : fskey) (bytes : list N) (v : vault) : vault := fun k =>
  if decide (k = segs) then Some (IFile bytes) else spec_folders (removelast segs) v k.

Definition spec_remove (segs : fskey) (v : vault) : vault := fun k =>
  if below segs k then None else v k.

Definition spec_move (from to : fskey) (v : vault) : vault := fun k =>
  match strip_prefix to k with
  | Some s => v (from ++ s)
  | None => if below from k then None else spec_folders (removelast to) v k
  end.

(** * What the tree shows of a vault *)

Definition item_of (n : node) : item :=
  match n with NFile b _ _ _ => IFile b | NDir _ => IFolder end.

Definition internal_key (k : fskey) : bool := existsb is_internal_segment k.

Definition view (base : fskey) (f : tree) : vault := fun k =>
  if internal_key k then None else item_of <$> f !! (base ++ k).

Lemma internal_key_app k s : internal_key (k ++ s) = internal_key k || internal_key s.
Proof. apply existsb_app. Qed.

Lemma valid_path_visible pf kind p : valid_path pf kind p -> internal_key (split_on slash p) = false.
Proof.
  intros [_ _ _ Hs _]. apply existsb_false_Forall. eapply Forall_impl; [apply Hs|].
  intros s (_ & _ & Hi). by apply bool_decide_eq_false_2.
Qed.

Lemma internal_key_cons x s : internal_key (x :: s) = is_internal_segment x || internal_key s.
Proof. done. Qed.

Lemma internal_removelast s : internal_key s = false -> internal_key (removelast s) = false.
Proof.
  destruct s as [|x s _] using rev_ind; [done|]. rewrite removelast_last, internal_key_app.
  by intros [? _]%orb_false_iff.
Qed.

Lemma removelast_snoc {A} (l : list A) x : removelast (l ++ [x]) = l.
Proof. apply removelast_last. Qed.

Lemma below_base_app base k s : below (base ++ k) (base ++ s) = below k s.
Proof.
  apply eq_bool_prop_intro. rewrite !Is_true_true, !below_spec. split.
  - intros [t Ht]. rewrite <- app_assoc in Ht. apply app_inv_head in Ht. eauto.
  - intros [t ->]. exists t. by rewrite app_assoc.
Qed.

Lemma internal_below k s : below k s = true -> internal_key s = false -> internal_key k = false.
Proof. intros [t ->]%below_spec. rewrite internal_key_app. by intros [? _]%orb_false_iff. Qed.

(** * Changes the view shows, and changes it does not *)

Section view.
Context (base : fskey).

(** A folder a call makes on the way to an entry of the vault lies below the root. *)
Lemma made_below_base f k s :
  vault_tree base f -> f !! k = None -> k <> [] -> below k (base ++ s) = true ->
  exists t, t <> [] /\ k = base ++ t /\ below t s = true.
Proof.
  intros [Hwf [t0 Ht0]] Hk Hkn Hb.
  destruct (below_comparable k base (base ++ s)) as [Hc|Hc]; [done|apply below_app| |].
  - apply below_spec in Hc as [u ->]. destruct (decide (u = [])) as [->|Hu].
    + rewrite app_nil_r in Ht0. congruence.
    + destruct (tree_wf_prefix _ _ _ _ Hwf Ht0 Hu) as [m Hm]. rewrite node_at_lookup in Hm by done. congruence.
  - apply below_spec in Hc as [u ->]. rewrite below_base_app in Hb. exists u. split_and!; [|done..].
    intros ->. rewrite app_nil_r in Hk. congruence.
Qed.

(** What a call makes on the way to a reserved entry is hidden. *)
Lemma made_hidden f k s :
  vault_tree base f -> f !! k = None -> k <> [] -> below k (base ++ js ".kb1" :: s) = true ->
  below (kb1 base) k = true.
Proof.
  intros Hv Hk Hkn Hb. destruct (made_below_base f k _ Hv Hk Hkn Hb) as (t & Ht & -> & [u Hu]%below_spec).
  destruct t as [|x t]; [done|]. injection Hu as <- _. unfold kb1. rewrite below_base_app.
  apply below_spec. by exists t.
Qed.

Lemma view_hidden f f' :
  vault_tree base f ->
  (forall k, below (kb1 base) k = false -> f' !! k = f !! k) ->
  forall k, view base f' k = view base f k.
Proof.
  intros _ Hf k. unfold view. destruct (internal_key k) eqn:E; [done|].
  rewrite Hf; [done|]. apply not_true_is_false. unfold kb1. rewrite below_base_app.
  intros [s ->]%below_spec. by rewrite internal_key_app in E.
Qed.

Lemma view_with_dirs f f' now s :
  vault_tree base f -> with_dirs f f' now (base ++ s) -> internal_key s = false ->
  forall k, view base f' k = spec_folders s (view base f) k.
Proof.
  intros Hv Hw Hs k. unfold spec_folders, view. destruct (internal_key k) eqn:E.
  - destruct (below k s) eqn:Eb; [|done]. by rewrite (internal_below k s) in E.
  - rewrite Hw, below_base_app. destruct (f !! (base ++ k)) eqn:Ek; [done|]. cbn.
    destruct (below k s) eqn:Eb; [|by rewrite andb_false_r].
    rewrite bool_decide_eq_true_2; [done|]. intros ->%app_eq_nil%proj2. clear Eb.
    destruct Hv as [_ [t Ht]]. rewrite app_nil_r in Ek. congruence.
Qed.

Lemma view_insert f k n :
  internal_key k = false ->
  forall j, view base (<[base ++ k := n]> f) j = if decide (j = k) then Some (item_of n) else view base f j.
Proof.
  intros Hk j. unfold view. case_decide as Hj.
  - subst. by rewrite Hk, lookup_insert_eq.
  - by rewrite lookup_insert_ne by by intros ?%app_inv_head.
Qed.

Lemma view_remove f k :
  forall j, view base (remove_tree f (base ++ k)) j = spec_remove k (view base f) j.
Proof.
  intros j. unfold view, spec_remove. rewrite lookup_remove_tree, below_base_app.
  destruct (internal_key j), (below k j); done.
Qed.

Lemma strip_base_app k s : strip_prefix (base ++ k) (base ++ s) = strip_prefix k s.
Proof.
  destruct (strip_prefix k s) as [t|] eqn:E.
  - apply strip_prefix_spec in E as ->. by rewrite app_assoc, strip_prefix_app.
  - apply below_false. rewrite below_base_app. by apply below_false.
Qed.

Lemma view_move f from to :
  internal_key from = false -> internal_key to = false ->
  forall j, view base (move_tree f (base ++ from) (base ++ to)) j =
    match strip_prefix to j with
    | Some s => view base f (from ++ s)
    | None => if below from j then None else view base f j
    end.
Proof.
  intros Hf Ht j. unfold view. rewrite lookup_move_tree, strip_base_app, below_base_app.
  destruct (strip_prefix to j) as [s|] eqn:E.
  - apply strip_prefix_spec in E as ->. rewrite !internal_key_app, Hf, Ht, <- app_assoc. done.
  - destruct (internal_key j), (below from j); done.
Qed.

End view.

(** * The operations *)

Section refinement.
Context `{Host, JsonHost, NodeHost, AuditHandlers, YamlLib}.
Context (ctx : VaultContext) (base : fskey) (Hroot : vault_root (root ctx) base).
Context (Huuid : uuid_plain).

(** The log grew by one line, for the given entry. *)
Definition logged (f f' : tree) (e : AuditEntry) : Prop :=
  log_bytes base f' = log_bytes base f ++ entry_line e.

Lemma view_emit input w e w' :
  emitVaultAudit input w = (Ok e, w') -> vault_tree base (w_fs w) -> ai_root input = root ctx ->
  forall k, view base (w_fs w') k = view base (w_fs w) k.
Proof.
  intros He Hv Hi. destruct (emit_ok ctx base Hroot input w e w' He (proj1 Hv) Hi) as (_ & _ & Hk).
  apply view_hidden; [done|]. intros k Hb. rewrite Hk.
  - destruct (w_fs w !! k) as [n|] eqn:E; [done|].
    destruct (bool_decide (k <> []) && below k (audit_dir_key base)) eqn:Ec; [|done]. to_prop.
    by rewrite (made_hidden base _ k [js "audit"] Hv E) in Hb.
  - intros ->. rewrite (proj2 (below_spec _ _)) in Hb; [done|]. unfold audit_key, kb1.
    exists [js "audit"; js "changes.jsonl"]. by rewrite <- app_assoc.
Qed.

Lemma emit_logged input w e w' :
  emitVaultAudit input w = (Ok e, w') -> vault_tree base (w_fs w) -> ai_root input = root ctx ->
  logged (w_fs w) (w_fs w') e /\ ae_operation e = ai_operation input /\ ae_path e = ai_path input.
Proof.
  intros He Hv Hi. destruct (emit_ok ctx base Hroot input w e w' He (proj1 Hv) Hi) as (-> & Hl & _). done.
Qed.

(** An entry of the vault is never one of the records under [.kb1]. *)
Lemma visible_not_kb1 s : internal_key s = false -> below (kb1 base) (base ++ s) = false.
Proof.
  intros Hs. apply not_true_is_false. unfold kb1. rewrite below_base_app.
  intros [t ->]%below_spec. by rewrite internal_key_app in Hs.
Qed.

Lemma audit_key_below : below (kb1 base) (audit_key base) = true.
Proof.
  unfold kb1, audit_key. rewrite below_base_app. apply below_spec. by exists [js "audit"; js "changes.jsonl"].
Qed.

(** A call that changes nothing at the log leaves the log. *)
Lemma log_same f f' : f' !! audit_key base = f !! audit_key base -> log_bytes base f' = log_bytes base f.
Proof. unfold log_bytes. by intros ->. Qed.

Lemma log_dirs f f' now s :
  with_dirs f f' now (base ++ s) -> internal_key s = false -> log_bytes base f' = log_bytes base f.
Proof.
  intros Hw Hs. unfold log_bytes. rewrite Hw. destruct (f !! audit_key base); [done|].
  unfold audit_key. rewrite below_base_app. destruct (below _ s) eqn:E; [|by rewrite andb_false_r].
  pose proof (internal_below _ _ E Hs) as Hc. by vm_compute in Hc.
Qed.

Lemma view_ext (v v' : vault) segs :
  (forall k, v k = v' k) -> forall k, spec_folders segs v k = spec_folders segs v' k.
Proof. intros Hv k. unfold spec_folders. by rewrite Hv. Qed.

(** [mkdir] of the parent of an entry. *)
Lemma mkdir_parent_any s w u w' :
  fs_mkdir (dirname (abs_path (base ++ s))) w = (Ok u, w') ->
  plain_segs s = true -> s <> [] -> vault_tree base (w_fs w) ->
  exists f, w' = set_fs f w /\ with_dirs (w_fs w) f (w_now w) (base ++ removelast s) /\ vault_tree base f.
Proof.
  intros Hm Hs Hsn Hv. pose proof (confined_mkdir_parent ctx base Hroot s Hs Hsn w _ _ Hm Hv) as [Hv' _].
  destruct (exists_last Hsn) as (l & x & ->). rewrite removelast_snoc.
  rewrite app_assoc, dirname_abs in Hm by (rewrite <- app_assoc; by apply (base_plain ctx base Hroot)).
  rewrite plain_segs_app in Hs. to_prop.
  apply mkdir_ok in Hm as (f & Hf & ->); [|by apply (base_plain ctx base Hroot)].
  exists f. split_and!; [done|by apply make_dirs_with|apply Hv'].
Qed.

(** What a successful write did. *)
Lemma write_bytes_ok kind rel bytes overwrite w s e w' :
  valid_path Posix kind rel -> vault_tree base (w_fs w) ->
  write_bytes ctx rel bytes overwrite w = (Ok (VOk (s, e)), w') ->
  let segs := split_on slash rel in
  (overwrite = false -> view base (w_fs w) segs = None) /\
  (forall k, view base (w_fs w') k = spec_write segs bytes (view base (w_fs w)) k) /\
  w_fs w' !! (base ++ segs) = Some s /\ item_of s = IFile bytes /\
  logged (w_fs w) (w_fs w') e /\ ae_path e = rel /\
  ae_operation e = (match view base (w_fs w) segs with Some _ => OpWrite | None => OpCreate end).
Proof.
  intros Hp Hv Hr. cbn zeta. unfold write_bytes in Hr.
  pose proof (valid_path_plain _ _ _ Hp) as Hps. pose proof (valid_path_visible _ _ _ Hp) as Hvis.
  pose proof (base_plain ctx base Hroot _ Hps) as Hk. pose proof (base_ne ctx base Hroot (split_on slash rel)) as Hkn.
  rewrite (vaultPath_valid _ base Hroot kind), M_ret_bind in Hr by done.
  apply M_bind_ok in Hr as (ex & w0 & [-> ->]%exists_ok & Hr); [|done..|apply Hv].
  set (segs := split_on slash rel) in *.
  assert (view base (w_fs w) segs = item_of <$> w_fs w !! (base ++ segs)) as Hview by (unfold view; by rewrite Hvis).
  destruct (_ && negb overwrite) eqn:Eow; [done|].
  apply M_bind_ok in Hr as ([] & w1 & Hm & Hr).
  apply mkdir_parent_any in Hm as (f & -> & Hwd & Hvf); [|done|apply split_on_nonnil|done].
  pose proof (internal_removelast _ Hvis) as Hri.
  apply M_bind_ok in Hr as ([] & w2 & Hu & Hr).
  pose proof (confined_update base) as Hconf.
  assert (vault_tree base (w_fs w2)) as Hv2.
  { destruct Hroot as [_ Hb Hbn]. apply Hconf in Hu; [|done..|apply split_on_nonnil]. by apply Hu. }
  apply update_ok in Hu as (old & i & Hf2 & _ & Hwalk & _); [|done..]. world_in Hf2. world_in Hwalk.
  apply M_bind_ok in Hr as (n & w3 & [-> Hn]%stat_ok & Hr); [|done..|apply Hv2].
  rewrite Hf2, lookup_insert_eq in Hn. injection Hn as <-.
  apply M_bind_ok in Hr as (e' & w3 & He & Hret). injection Hret as <- -> ->.
  pose proof (view_emit _ _ _ _ He Hv2 eq_refl) as Hview3.
  destruct (emit_logged _ _ _ _ He Hv2 eq_refl) as (Hlog & Hop & Hpath).
  destruct (emit_ok ctx base Hroot _ _ _ _ He (proj1 Hv2) eq_refl) as (_ & _ & Hkeys).
  split_and!.
  - intros ->. rewrite andb_true_r in Eow. rewrite Hview. by case_bool_decide as Hc; [|destruct (w_fs w !! _); [destruct Hc|]].
  - intros k. rewrite Hview3, Hf2, view_insert by done. unfold spec_write. case_decide; [done|].
    by eapply view_with_dirs.
  - rewrite Hkeys, Hf2, lookup_insert_eq; [done|].
    intros Hc. pose proof (visible_not_kb1 segs Hvis) as Hnk. by rewrite Hc, audit_key_below in Hnk.
  - done.
  - unfold logged in *. rewrite Hlog. f_equal. rewrite Hf2.
    rewrite <- (log_dirs _ _ _ _ Hwd Hri). apply log_same. rewrite lookup_insert_ne; [done|].
    intros Hc. pose proof (visible_not_kb1 segs Hvis) as Hnk. by rewrite Hc, audit_key_below in Hnk.
  - done.
  - rewrite Hop, Hview. cbn. by destruct (w_fs w !! _).
Qed.

(** ** The records a delete and a move rewrite *)

Lemma temporary_name_dot n :
  exists r, js "." ++ dec process_pid ++ js "." ++ uuid_text n ++ js ".tmp" = 46%N :: r.
Proof. by eexists. Qed.

(** The temporary file and the metadata file are neither the log nor in the trash. *)
Lemma temporary_apart n x s :
  head x <> Some 46%N -> below (temporary_key base n) (base ++ js ".kb1" :: x :: s) = false.
Proof.
  intros Hx. destruct (temporary_name_dot n) as [r Hr]. apply not_true_is_false.
  unfold temporary_key. rewrite Hr, below_base_app. intros [t Ht]%below_spec. injection Ht as -> _. done.
Qed.

Lemma metadata_apart x s :
  x <> js "folders.yml" -> below (metadata_key base) (base ++ js ".kb1" :: x :: s) = false.
Proof.
  intros Hx. apply not_true_is_false. unfold metadata_key. rewrite below_base_app.
  intros [t Ht]%below_spec. by injection Ht as -> _.
Qed.

Lemma temporary_not_metadata n : temporary_key base n <> metadata_key base.
Proof.
  intros Ht. pose proof (temporary_apart n (js "folders.yml") [] ltac:(by vm_compute)) as Hc.
  fold (metadata_key base) in Hc. by rewrite Ht, below_self in Hc.
Qed.

Lemma kb1_below_false k t : below (kb1 base) k = false -> below (base ++ js ".kb1" :: t) k = false.
Proof.
  intros Hk. apply not_true_is_false. intros Hb. rewrite (below_trans (kb1 base) (base ++ js ".kb1" :: t)) in Hk; [done| |done].
  unfold kb1. rewrite below_base_app. apply below_spec. by exists t.
Qed.

Lemma write_metadata_keeps m w u w' :
  writeFolderMetadataMap (root ctx) m w = (Ok u, w') -> vault_tree base (w_fs w) ->
  vault_tree base (w_fs w') /\
  (forall k, view base (w_fs w') k = view base (w_fs w) k) /\
  log_bytes base (w_fs w') = log_bytes base (w_fs w) /\
  (forall s, w_fs w' !! (trash_dir base ++ s) = w_fs w !! (trash_dir base ++ s)) /\
  (exists t c i, w_fs w' !! metadata_key base =
     Some (NFile (encode (stringifyYaml (folders_value m))) t c i)).
Proof.
  intros Hr Hv. pose proof (confined_write_metadata ctx base Hroot Huuid m _ _ _ Hr Hv) as [Hv' _].
  destruct (write_metadata_ok ctx base Hroot Huuid m w u w' (proj1 Hv) (proj2 Hv) Hr
              (temporary_not_metadata _)) as (Hmeta & Hk & _).
  assert (forall x s, head x <> Some 46%N -> x <> js "folders.yml" ->
    w_fs w' !! (base ++ js ".kb1" :: x :: s) = w_fs w !! (base ++ js ".kb1" :: x :: s)) as Hkeep.
  { intros x s Hx1 Hx2. rewrite Hk by (by apply temporary_apart || by apply metadata_apart).
    destruct (w_fs w !! _); [done|]. unfold kb1. rewrite below_base_app.
    by rewrite (below_longer (_ :: _ :: _) [_]), andb_false_r by (simpl; lia). }
  split_and!; [done| | | |done].
  - apply view_hidden; [done|]. intros k Hb. rewrite Hk by by apply kb1_below_false.
    destruct (w_fs w !! k) eqn:E; [done|]. destruct (bool_decide _ && below k _) eqn:Ec; [|done]. to_prop.
    by rewrite (made_hidden base _ k [] Hv E) in Hb.
  - apply log_same. by apply Hkeep.
  - intros s. unfold trash_dir. rewrite <- app_assoc. by apply Hkeep.
Qed.

Lemma emit_keeps_trash input w e w' :
  emitVaultAudit input w = (Ok e, w') -> vault_tree base (w_fs w) -> ai_root input = root ctx ->
  vault_tree base (w_fs w') /\
  forall s, w_fs w' !! (trash_dir base ++ s) = w_fs w !! (trash_dir base ++ s).
Proof.
  intros He Hv Hi. pose proof (confined_audit ctx base Hroot input Hi _ _ _ He Hv) as [Hv' _].
  split; [done|]. intros s. destruct (emit_ok ctx base Hroot input w e w' He (proj1 Hv) Hi) as (_ & _ & Hk).
  unfold trash_dir in *. rewrite <- app_assoc. rewrite Hk.
  - destruct (w_fs w !! _); [done|]. unfold audit_dir_key. rewrite below_base_app.
    assert (below ([js ".kb1"; js "trash"] ++ s) [js ".kb1"; js "audit"] = false) as ->; [|by rewrite andb_false_r].
    apply not_true_is_false. by intros [t Ht]%below_spec.
  - unfold audit_key. by intros ?%app_inv_head.
Qed.

(** No visible entry holds the log. *)
Lemma record_not_below segs :
  internal_key segs = false -> segs <> [] -> below (base ++ segs) (audit_key base) = false.
Proof.
  intros Hi Hn. apply not_true_is_false. unfold audit_key. rewrite below_base_app.
  intros [u Hu]%below_spec. destruct segs as [|x l]; [done|]. injection Hu as <- _. done.
Qed.

(** Making a folder leaves the log. *)
Lemma log_records f f' now segs :
  with_dirs f f' now (base ++ removelast (js ".kb1" :: js "trash" :: segs)) ->
  log_bytes base f' = log_bytes base f.
Proof.
  intros Hw. unfold log_bytes. rewrite Hw. destruct (f !! audit_key base); [done|].
  unfold audit_key. rewrite below_base_app.
  destruct (below _ (removelast _)) eqn:E; [|by rewrite andb_false_r]. apply below_spec in E as [u Hu].
  destruct segs; cbn in Hu; discriminate Hu.
Qed.

(** What [discard] did: the entry is gone, and in the trash unless it was deleted for
    good. *)
Lemma discard_ok kind rel permanent recursive w t w' :
  valid_path Posix kind rel -> vault_tree base (w_fs w) ->
  discard ctx rel (abs_path (base ++ split_on slash rel)) permanent recursive w = (Ok t, w') ->
  vault_tree base (w_fs w') /\
  (forall k, view base (w_fs w') k = spec_remove (split_on slash rel) (view base (w_fs w)) k) /\
  log_bytes base (w_fs w') = log_bytes base (w_fs w) /\
  (if permanent then t = None
   else exists batch, t = Some (join [slash] ([js ".kb1"; js "trash"; batch] ++ split_on slash rel)) /\
        forall s, w_fs w' !! (trash_dir base ++ batch :: split_on slash rel ++ s) =
                  w_fs w !! (base ++ split_on slash rel ++ s)).
Proof.
  intros Hp Hv Hr. pose proof (confined_discard ctx base Hroot Huuid kind rel permanent recursive Hp _ _ _ Hr Hv) as [Hv' _].
  split; [done|]. clear Hv'. pose proof (valid_path_plain _ _ _ Hp) as Hps.
  pose proof (valid_path_visible _ _ _ Hp) as Hvis.
  pose proof (base_plain ctx base Hroot _ Hps) as Hk. pose proof (base_ne ctx base Hroot (split_on slash rel)) as Hkn.
  unfold discard in Hr. destruct permanent.
  - apply M_bind_ok in Hr as ([] & w1 & ->%rm_ok & Hr); [|done..|apply Hv]. injection Hr as <- <-. world.
    split_and!; [apply view_remove| |done]. apply log_same. rewrite lookup_remove_tree.
    by rewrite record_not_below by (done || apply split_on_nonnil).
  - rewrite (M_bind_run _ _ _ _ _ (trash_path_run ctx base Hroot Huuid kind rel w Hp)) in Hr.
    set (batch := replace_all 58 (js "-") (toISOString (w_now w)) ++ js "-" ++ uuid_text (w_next_uuid w)).
    pose proof (trash_segs_plain ctx base Hroot Huuid kind (w_now w) (w_next_uuid w) rel Hp) as Htp.
    rewrite (vaultPath_plain _ base Hroot) in Hr by by rewrite (split_trash ctx base Hroot Huuid kind).
    rewrite (split_trash ctx base Hroot Huuid kind), M_ret_bind in Hr by done.
    set (tsegs := trash_segs _ _ _) in *.
    assert (base ++ tsegs = trash_dir base ++ batch :: split_on slash rel) as Htd.
    { unfold trash_dir, tsegs, trash_segs. by rewrite <- app_assoc. }
    assert (tsegs = js ".kb1" :: js "trash" :: batch :: split_on slash rel) as Hts by done.
    apply M_bind_ok in Hr as ([] & w1 & Hm & Hr).
    apply mkdir_parent_any in Hm as (f & -> & Hwd & Hvf); [|done..]. world_in Hwd.
    apply M_bind_ok in Hr as ([] & w2 & Hren & Hr). injection Hr as <- <-.
    apply rename_run in Hren; [|done|by apply (base_plain ctx base Hroot)|done|apply Hvf].
    destruct Hren as [(_ & e & [=] & _)|[(_ & Heq & _)|(src & Hs & Hne & Hre & [[_ [=]]|[-> _]])]].
    { exfalso. apply app_inv_head in Heq. rewrite Heq, Hts in Hvis. done. }
    world. world_in Hs. world_in Hre.
    assert (forall k, below (kb1 base) k = false -> f !! k = w_fs w !! k) as Hhid.
    { intros k Hb. rewrite Hwd. destruct (w_fs w !! k) eqn:E; [done|].
      destruct (bool_decide _ && below k _) eqn:Ec; [|done]. to_prop.
      rewrite (made_hidden base _ k (removelast (tail tsegs)) Hv E) in Hb; [done..|]. done. }
    split_and!.
    + intros k. unfold spec_remove, view. rewrite lookup_move_tree, below_base_app, strip_base_app.
      destruct (internal_key k) eqn:Ei; [by destruct (below _ k)|].
      destruct (strip_prefix tsegs k) as [u|] eqn:Eu.
      { apply strip_prefix_spec in Eu as ->. by rewrite Hts in Ei. }
      destruct (below _ k); [done|]. by rewrite Hhid by by apply visible_not_kb1.
    + rewrite <- (log_records _ _ _ _ Hwd). apply log_same. rewrite lookup_move_tree.
      rewrite record_not_below by (done || apply split_on_nonnil). unfold audit_key.
      by rewrite strip_base_app, Hts.
    + exists batch. split; [done|]. intros s.
      replace (trash_dir base ++ batch :: split_on slash rel ++ s) with ((base ++ tsegs) ++ s)
        by by rewrite Htd, <- app_assoc.
      rewrite lookup_move_tree, strip_prefix_app. rewrite <- app_assoc. apply Hhid.
      apply not_true_is_false. unfold kb1. rewrite below_base_app.
      intros [u Hu]%below_spec. destruct (split_on slash rel) as [|x l] eqn:Es; [by apply split_on_nonnil in Es|].
      injection Hu as -> _. by rewrite internal_key_cons in Hvis.
Qed.

Lemma below_removelast segs : segs <> [] -> below segs (removelast segs) = false.
Proof.
  intros Hn. destruct (exists_last Hn) as (l & x & ->). rewrite removelast_snoc.
  apply below_longer. rewrite length_app. simpl. lia.
Qed.

(** Making the folders of the target, clearing it and moving, as one step. *)
Lemma spec_move_folders f (v : vault) from to :
  (forall k, view base f k = spec_folders (removelast to) v k) -> below from to = false ->
  to <> [] ->
  forall k,
  match strip_prefix to k with
  | Some s => view base (remove_tree f (base ++ to)) (from ++ s)
  | None => if below from k then None else view base (remove_tree f (base ++ to)) k
  end = spec_move from to (spec_remove to v) k.
Proof.
  intros Hv Hin Hto k. unfold spec_move. destruct (strip_prefix to k) as [s|] eqn:Es.
  - rewrite view_remove. unfold spec_remove. rewrite Hv. destruct (below to (from ++ s)); [done|].
    unfold spec_folders. destruct (v (from ++ s)); [done|].
    destruct (below (from ++ s) (removelast to)) eqn:Eb; [|done].
    rewrite (below_trans from (removelast to) to) in Hin; [done| |].
    + eapply below_trans; [|done]. apply below_app.
    + destruct (exists_last Hto) as (l & x & ->). rewrite removelast_snoc. apply below_app.
  - apply below_false in Es. destruct (below from k); [done|]. rewrite view_remove.
    unfold spec_remove, spec_folders. by rewrite Es, Hv.
Qed.

(** What [movePath] did before the records: the target was cleared, its folders made
    and the entry moved. *)
Lemma move_target_ok kind to overwrite w1 u w2 :
  valid_path Posix kind to -> vault_tree base (w_fs w1) ->
  clear_target (abs_path (base ++ split_on slash to)) overwrite w1 = (Ok u, w2) ->
  (overwrite = false -> w_fs w1 !! (base ++ split_on slash to) = None) ->
  vault_tree base (w_fs w2) /\
  w_fs w2 = remove_tree (w_fs w1) (base ++ split_on slash to).
Proof.
  intros Hp Hv Hr Hno. pose proof (valid_path_plain _ _ _ Hp) as Hps.
  pose proof (base_plain ctx base Hroot _ Hps) as Hk.
  pose proof (base_ne ctx base Hroot (split_on slash to)) as Hkn.
  assert (w_fs w1 !! (base ++ split_on slash to) = None ->
    w_fs w1 = remove_tree (w_fs w1) (base ++ split_on slash to)) as Hnone.
  { intros Hn. apply map_eq. intros k. rewrite lookup_remove_tree. destruct (below _ k) eqn:Eb; [|done].
    apply below_spec in Eb as [s ->]. apply tree_wf_none; [apply Hv|done..]. }
  unfold clear_target in Hr. destruct overwrite.
  - apply M_bind_ok in Hr as (ex & w3 & [-> ->]%exists_ok & Hr); [|done..|apply Hv].
    case_bool_decide as He.
    + pose proof (confined_rm base (proj1 (conj (vr_plain _ _ Hroot) I)) (vr_nonempty _ _ Hroot)
                    _ true Hps (split_on_nonnil _ _) _ _ _ Hr Hv) as [Hv2 _].
      apply rm_ok in Hr as ->; [|done..|apply Hv]. done.
    + injection Hr as <- <-. split; [done|]. apply Hnone. destruct (w_fs w1 !! _); [|done]. by destruct He.
  - injection Hr as <- <-. split; [done|]. by apply Hnone, Hno.
Qed.

Lemma move_path_ok kind input from to metadata w v w' :
  valid_path Posix kind from -> valid_path Posix kind to -> vault_tree base (w_fs w) ->
  movePath ctx input from to (abs_path (base ++ split_on slash from))
    (abs_path (base ++ split_on slash to)) metadata w = (Ok (VOk v), w') ->
  from <> to ->
  (forall k, view base (w_fs w') k =
     spec_move (split_on slash from) (split_on slash to)
       (spec_remove (split_on slash to) (view base (w_fs w))) k) /\
  (mi_overwrite input = false -> view base (w_fs w) (split_on slash to) = None) /\
  logged (w_fs w) (w_fs w') (mv_audit v).
Proof.
  intros Hf Ht Hv Hr Hne.
  pose proof (valid_path_plain _ _ _ Hf) as Hfs. pose proof (valid_path_plain _ _ _ Ht) as Hts.
  pose proof (valid_path_visible _ _ _ Hf) as Hfi. pose proof (valid_path_visible _ _ _ Ht) as Hti.
  pose proof (base_plain ctx base Hroot _ Hfs) as Hfk. pose proof (base_plain ctx base Hroot _ Hts) as Htk.
  pose proof (base_ne ctx base Hroot (split_on slash from)) as Hfn.
  pose proof (base_ne ctx base Hroot (split_on slash to)) as Htn.
  unfold movePath in Hr.
  apply M_bind_ok in Hr as (ex & w0 & [-> ->]%exists_ok & Hr); [|done..|apply Hv].
  destruct (_ && negb _) eqn:Eow; [done|].
  assert (mi_overwrite input = false -> w_fs w !! (base ++ split_on slash to) = None) as Hno.
  { intros Ho. rewrite Ho, andb_true_r in Eow. to_prop. by apply eq_None_not_Some. }
  clear Eow.
  apply M_bind_ok in Hr as ([] & w1 & Hm & Hr).
  apply mkdir_parent_any in Hm as (f & -> & Hwd & Hvf); [|done|apply split_on_nonnil|done].
  pose proof (internal_removelast _ Hti) as Hri.
  apply M_bind_ok in Hr as ([] & w2 & Hc & Hr).
  assert (mi_overwrite input = false -> f !! (base ++ split_on slash to) = None) as Hno'.
  { intros Ho. rewrite Hwd, below_base_app, (Hno Ho). rewrite below_removelast, andb_false_r; [done|apply split_on_nonnil]. }
  apply (move_target_ok kind to) in Hc as [Hv2 Hf2]; [|done..]. world_in Hf2.
  apply M_bind_ok in Hr as ([] & w3 & Hmv & Hr).
  pose proof (confined_rename_or_copy base (vr_plain _ _ Hroot) (vr_nonempty _ _ Hroot) _ _ Hfs Hts
    (split_on_nonnil _ _) (split_on_nonnil _ _) _ _ _ Hmv Hv2) as [Hv3 _].
  apply rename_or_copy_ok in Hmv as (f3 & -> & Hf3 & Hin); [|done..|apply Hv2| |].
  2:{ by rewrite Hf2, lookup_remove_tree, below_self. }
  2:{ by intros ?%app_inv_head%split_on_inj. }
  apply map_eq in Hf3. world_in Hv3. rewrite Hf2 in Hf3.
  apply M_bind_ok in Hr as ([] & w4 & Hmeta & Hr).
  assert (vault_tree base (w_fs w4) /\ (forall k, view base (w_fs w4) k = view base f3 k) /\
    log_bytes base (w_fs w4) = log_bytes base f3) as (Hv4 & Hview4 & Hlog4).
  { destruct metadata as [m|]; [|by injection Hmeta as <-].
    apply write_metadata_keeps in Hmeta; [|done]. by destruct Hmeta as (? & ? & ? & _). }
  apply M_bind_ok in Hr as (e & w5 & He & Hret). injection Hret as <- <-. cbn [mv_audit].
  pose proof (view_emit _ _ _ _ He Hv4 eq_refl) as Hview5.
  destruct (emit_logged _ _ _ _ He Hv4 eq_refl) as (Hlog & _).
  split_and!.
  - intros k. rewrite Hview5, Hview4, Hf3, view_move by done.
    pose proof (view_with_dirs base _ _ _ _ Hv Hwd Hri) as Hvd.
    rewrite below_base_app in Hin. apply spec_move_folders; [done..|apply split_on_nonnil].
  - intros Ho. unfold view. rewrite Hti. by rewrite (Hno Ho).
  - unfold logged in *. rewrite Hlog, Hlog4. f_equal. rewrite <- (log_dirs _ _ _ _ Hwd Hri).
    apply log_same. rewrite Hf3, lookup_move_tree, lookup_remove_tree.
    rewrite !record_not_below by (done || apply split_on_nonnil).
    rewrite (proj1 (below_false _ _)); [done|]. by rewrite record_not_below by (done || apply split_on_nonnil).
Qed.

(** The parent of an entry is there. *)
Lemma mkdir_parent_present k n w :
  plain_segs k = true -> k <> [] -> tree_wf (w_fs w) -> w_fs w !! k = Some n ->
  fs_mkdir (dirname (abs_path k)) w = (Ok tt, w).
Proof.
  intros Hp Hk Hwf Hn. destruct (exists_last Hk) as (l & x & ->). rewrite dirname_abs by done.
  unfold fs_mkdir. rewrite plain_segs_app in Hp. to_prop. rewrite path_key_abs by done.
  rewrite make_dirs_existing; [by destruct w|].
  intros s Hs [t ->]%below_spec. rewrite <- app_assoc in Hn.
  destruct (tree_wf_prefix _ s (t ++ [x]) n Hwf Hn) as [m Hm]; [by intros [_ ?]%app_eq_nil|].
  rewrite node_at_lookup in Hm by done. eauto.
Qed.

(** What moving an entry onto itself does: without [overwrite] the target is there;
    with it the source is removed before the move, which then fails. *)
Lemma move_self_run input p metadata n w kind :
  valid_path Posix kind p -> vault_tree base (w_fs w) ->
  w_fs w !! (base ++ split_on slash p) = Some n ->
  movePath ctx input p p (abs_path (base ++ split_on slash p))
    (abs_path (base ++ split_on slash p)) metadata w =
  if mi_overwrite input
  then (Err (ExNode ENOENT), set_fs (remove_tree (w_fs w) (base ++ split_on slash p)) w)
  else (Ok (VFail path_collision (js "target path already exists")), w).
Proof.
  intros Hp Hv Hn. pose proof (valid_path_plain _ _ _ Hp) as Hps.
  pose proof (base_plain ctx base Hroot _ Hps) as Hk.
  pose proof (base_ne ctx base Hroot (split_on slash p)) as Hkn.
  set (k := base ++ split_on slash p) in *.
  assert (forall w1, w_fs w1 = w_fs w -> exists_path (abs_path k) w1 = (Ok true, w1)) as Hex.
  { intros w1 Hw1. rewrite exists_run; [|done..| |].
    - by rewrite Hw1, Hn, bool_decide_eq_true_2.
    - rewrite Hw1. apply Hv.
    - intros Hwalk. rewrite Hw1 in Hwalk. by rewrite (tree_wf_walk _ _ _ (proj1 Hv) Hn) in Hwalk. }
  unfold movePath. rewrite (M_bind_run _ _ _ _ _ (Hex w eq_refl)).
  destruct (mi_overwrite input); [|done]. cbn [andb negb].
  rewrite (M_bind_run _ _ _ _ _ (mkdir_parent_present _ _ _ Hk Hkn (proj1 Hv) Hn)).
  assert (clear_target (abs_path k) true w = (Ok tt, set_fs (remove_tree (w_fs w) k) w)) as Hclear.
  { unfold clear_target. rewrite (M_bind_run _ _ _ _ _ (Hex w eq_refl)).
    by apply (rm_run _ Hk Hkn _ n (proj1 Hv)). }
  rewrite (M_bind_run _ _ _ _ _ Hclear).
  unfold rename_or_copy, try_catch, fs_rename, fs_stat. run. rewrite path_key_abs by done.
  assert (lookup_path (remove_tree (w_fs w) k) k = Err ENOENT) as ->; [|done].
  apply lookup_path_enoent; [done| |by rewrite lookup_remove_tree, below_self].
  apply walk_error_none. intros s t Hst Hs Ht.
  assert (w_fs w !! (s ++ t) = Some n) as Hst' by by rewrite <- Hst.
  destruct (tree_wf_prefix _ s t n (proj1 Hv) Hst') as [m Hm]; [done|]. exists m.
  cbn [app]. rewrite node_at_lookup in * by done. rewrite lookup_remove_tree.
  rewrite below_longer; [done|]. rewrite Hst, length_app. destruct t; [done|]. simpl. lia.
Qed.

(** ** The properties *)

(** a [writeVaultFile] that reports success wrote exactly the encoded content at
    the path and made the missing folders on the way; every other entry of the vault is
    as before; without [overwrite] nothing was there before; the answer carries the
    size of the file, and the log has one more line, for a creation or a write as the
    case was. *)
Theorem writeVaultFile_refines input w v w' :
  vault_tree base (w_fs w) -> writeVaultFile ctx input w = (Ok (VOk v), w') ->
  let segs := split_on slash (wi_path input) in
  let bytes := encode (wi_content input) in
  (forall k, view base (w_fs w') k = spec_write segs bytes (view base (w_fs w)) k) /\
  (wi_overwrite input = false -> view base (w_fs w) segs = None) /\
  wf_path v = wi_path input /\ wf_size v = Z.of_nat (length bytes) /\
  logged (w_fs w) (w_fs w') (wf_audit v) /\ ae_path (wf_audit v) = wi_path input /\
  ae_operation (wf_audit v) =
    (match view base (w_fs w) segs with Some _ => OpWrite | None => OpCreate end).
Proof.
  intros Hv Hr%catch_collision_ok. cbn zeta.
  apply M_bind_ok in Hr as (rel & w1 & (-> & Hp & ->)%valid_ok & Hr).
  apply vfail_as_ok in Hr as (art & _ & Hr). apply M_bind_ok in Hr as (r & w1 & Hwr & Hr).
  apply vfail_as_ok in Hr as ([s e] & -> & Hr). injection Hr as <- <-.
  destruct (write_bytes_ok PKFile _ _ _ _ _ _ _ Hp Hv Hwr) as (Hno & Hview & _ & Hs & Hlog & Hpath & Hop).
  split_and!; try done. cbn [wf_size]. by destruct s; [injection Hs as ->|].
Qed.

(** what [writeVaultFile] wrote is what [readVaultFile] then reads: the same text,
    with the size and modification time the write reported.  (For text without lone
    surrogates, which UTF-8 cannot express.) *)
Theorem writeVaultFile_readVaultFile input w v w' :
  vault_tree base (w_fs w) -> writeVaultFile ctx input w = (Ok (VOk v), w') ->
  is_jstr (wi_content input) = true -> well_formed (wi_content input) = true ->
  readVaultFile ctx (wi_path input) w' =
    (Ok (VOk {| rf_path := wi_path input; rf_content := wi_content input;
                rf_size := wf_size v; rf_mtimeMs := wf_mtimeMs v |}), w').
Proof.
  intros Hv Hr Hj Hwf. pose proof (confined_writeVaultFile ctx base Hroot input _ _ _ Hr Hv) as [Hv' _].
  apply catch_collision_ok in Hr.
  apply M_bind_ok in Hr as (rel & w1 & (-> & Hp & ->)%valid_ok & Hr).
  apply vfail_as_ok in Hr as (art & Hart & Hr). apply M_bind_ok in Hr as (r & w1 & Hwr & Hr).
  apply vfail_as_ok in Hr as ([s e] & -> & Hr). injection Hr as <- <-.
  destruct (write_bytes_ok PKFile _ _ _ _ _ _ _ Hp Hv Hwr) as (_ & _ & Hnode & Hs & _).
  destruct s as [b m c i|]; [|done]. injection Hs as ->.
  pose proof (base_plain ctx base Hroot _ (valid_path_plain _ _ _ Hp)) as Hk.
  pose proof (base_ne ctx base Hroot (split_on slash (wi_path input))) as Hkn.
  apply catch_path_value. rewrite (M_bind_run _ _ _ _ _ (valid_run _ _ _ Hp)), Hart. cbn [vfail_as].
  rewrite (vaultPath_valid _ base Hroot PKFile), M_ret_bind by done.
  assert (reachable (base ++ split_on slash (wi_path input)) (w_fs w1)) as Hre.
  { intros Hw. by rewrite (tree_wf_walk _ _ _ (proj1 Hv') Hnode) in Hw. }
  rewrite (M_bind_run _ _ _ _ _ (statOrNull_run _ Hk Hkn _ (proj1 Hv') Hre)), Hnode.
  assert ((decode <$> fs_readFile (abs_path (base ++ split_on slash (wi_path input)))) w1 =
    (Ok (wi_content input), w1)) as Hread.
  { unfold fmap, M_fmap. rewrite (readFile_run _ Hk Hkn _ _ _ _ _ (proj1 Hv') Hnode).
    by rewrite decode_encode. }
  by rewrite (M_bind_run _ _ _ _ _ Hread).
Qed.

(** a [writeVaultRawFile] that reports success put exactly the given bytes at the
    path, and changed nothing else but the folders on the way. *)
Theorem writeVaultRawFile_refines input w v w' :
  vault_tree base (w_fs w) -> writeVaultRawFile ctx input w = (Ok (VOk v), w') ->
  let segs := split_on slash (wri_path input) in
  (forall k, view base (w_fs w') k = spec_write segs (wri_bytes input) (view base (w_fs w)) k) /\
  (wri_overwrite input = false -> view base (w_fs w) segs = None) /\
  wr_artifact v = classifyArtifactPath (wri_path input) /\
  logged (w_fs w) (w_fs w') (wr_audit v).
Proof.
  intros Hv Hr%catch_collision_ok. cbn zeta.
  apply M_bind_ok in Hr as (rel & w1 & (-> & Hp & ->)%valid_ok & Hr).
  apply M_bind_ok in Hr as (r & w1 & Hwr & Hr).
  apply vfail_as_ok in Hr as ([s e] & -> & Hr). injection Hr as <- <-.
  by destruct (write_bytes_ok PKArtifact _ _ _ _ _ _ _ Hp Hv Hwr) as (Hno & Hview & _ & Hs & Hlog & Hpath & Hop).
Qed.

(** a [makeVaultFolder] that reports success made the folder and the missing
    folders on the way and changed nothing else; it logs the change exactly when the
    folder was not there. *)
Theorem makeVaultFolder_refines path w v w' :
  vault_tree base (w_fs w) -> makeVaultFolder ctx path w = (Ok (VOk v), w') ->
  let segs := split_on slash path in
  (forall k, view base (w_fs w') k = spec_folders segs (view base (w_fs w)) k) /\
  view base (w_fs w') segs = Some IFolder /\
  match mf_audit v with
  | None => view base (w_fs w) segs = Some IFolder /\ log_bytes base (w_fs w') = log_bytes base (w_fs w)
  | Some e => view base (w_fs w) segs = None /\ logged (w_fs w) (w_fs w') e
  end.
Proof.
  intros Hv Hr%catch_collision_ok. cbn zeta.
  apply M_bind_ok in Hr as (rel & w1 & (-> & Hp & ->)%valid_ok & Hr).
  pose proof (valid_path_plain _ _ _ Hp) as Hps. pose proof (valid_path_visible _ _ _ Hp) as Hvis.
  pose proof (base_plain ctx base Hroot _ Hps) as Hk. pose proof (base_ne ctx base Hroot (split_on slash path)) as Hkn.
  rewrite (vaultPath_valid _ base Hroot PKFolder), M_ret_bind in Hr by done.
  apply M_bind_ok in Hr as (ex & w0 & [-> ->]%exists_ok & Hr); [|done..|apply Hv].
  apply M_bind_ok in Hr as ([] & w1 & Hm & Hr).
  pose proof (confined_mkdir base (vr_plain _ _ Hroot) _ Hps _ _ _ Hm Hv) as [Hv1 _].
  apply mkdir_ok in Hm as (f & Hmk & ->); [|done]. world_in Hv1.
  pose proof (make_dirs_with _ _ _ _ Hmk) as Hwd.
  pose proof (view_with_dirs base _ _ _ _ Hv Hwd Hvis) as Hvd.
  assert (view base f (split_on slash path) = Some IFolder) as Hdir.
  { destruct (make_dirs_is_dir _ _ _ _ _ _ Hmk Hkn (below_self _)) as [m Hm'].
    unfold view. rewrite Hvis. cbn [app] in Hm'. by rewrite Hm'. }
  assert (view base (w_fs w) (split_on slash path) = item_of <$> w_fs w !! (base ++ split_on slash path)) as Hview
    by (unfold view; by rewrite Hvis).
  case_bool_decide as He.
  - injection Hr as <- <-. cbn [mf_audit]. world. split_and!; [done..| |by eapply log_dirs].
    rewrite Hvd in Hdir. unfold spec_folders in Hdir. rewrite Hview in *.
    destruct (w_fs w !! _); [done|by destruct He].
  - apply M_bind_ok in Hr as (e & w2 & Hem & Hret). injection Hret as <- <-. cbn [mf_audit].
    pose proof (view_emit _ _ _ _ Hem Hv1 eq_refl) as Hview2.
    destruct (emit_logged _ _ _ _ Hem Hv1 eq_refl) as (Hlog & _). world_in Hview2. world_in Hlog.
    split_and!; [intros k; by rewrite Hview2|by rewrite Hview2| |].
    + rewrite Hview. destruct (w_fs w !! _); [by destruct He|done].
    + unfold logged in *. by rewrite Hlog, (log_dirs _ _ _ _ Hwd Hvis).
Qed.

(** a [deleteVaultFile] that reports success took a file out of the vault and left
    everything else; unless it was deleted for good, the trash path it answers holds
    the very same entry, bytes and times included. *)
Theorem deleteVaultFile_refines input w v w' :
  vault_tree base (w_fs w) -> deleteVaultFile ctx input w = (Ok (VOk v), w') ->
  let segs := split_on slash (dfi_path input) in
  (exists bytes, view base (w_fs w) segs = Some (IFile bytes)) /\
  (forall k, view base (w_fs w') k = spec_remove segs (view base (w_fs w)) k) /\
  logged (w_fs w) (w_fs w') (dv_audit v) /\
  (if dfi_permanent input then dv_trashPath v = None
   else exists batch,
     dv_trashPath v = Some (join [slash] ([js ".kb1"; js "trash"; batch] ++ segs)) /\
     w_fs w' !! (trash_dir base ++ batch :: segs) = w_fs w !! (base ++ segs)).
Proof.
  intros Hv Hr%catch_path_ok. cbn zeta.
  apply M_bind_ok in Hr as (rel & w1 & (-> & Hp & ->)%valid_ok & Hr).
  pose proof (valid_path_plain _ _ _ Hp) as Hps. pose proof (valid_path_visible _ _ _ Hp) as Hvis.
  pose proof (base_plain ctx base Hroot _ Hps) as Hk.
  pose proof (base_ne ctx base Hroot (split_on slash (dfi_path input))) as Hkn.
  rewrite (vaultPath_valid _ base Hroot PKFile), M_ret_bind in Hr by done.
  apply M_bind_ok in Hr as (st & w0 & [-> ->]%statOrNull_ok & Hr); [|done..|apply Hv].
  destruct (negb _) eqn:Ef; [done|]. apply negb_false_iff in Ef.
  apply M_bind_ok in Hr as (t & w1 & Hd & Hr).
  apply (discard_ok PKFile) in Hd as (Hv1 & Hview & Hlog1 & Htrash); [|done..].
  apply M_bind_ok in Hr as (e & w2 & He & Hret). injection Hret as <- <-. cbn [dv_audit dv_trashPath].
  pose proof (view_emit _ _ _ _ He Hv1 eq_refl) as Hview2.
  destruct (emit_logged _ _ _ _ He Hv1 eq_refl) as (Hlog & _).
  destruct (emit_keeps_trash _ _ _ _ He Hv1 eq_refl) as (_ & Ht). split_and!.
  - unfold view. rewrite Hvis. destruct (w_fs w !! _) as [[b m c i|]|]; [|done..]. by exists b.
  - intros k. by rewrite Hview2.
  - unfold logged in *. by rewrite Hlog, Hlog1.
  - destruct (dfi_permanent input); [done|]. destruct Htrash as (batch & -> & Hb). exists batch.
    split; [done|]. rewrite Ht. specialize (Hb []). by rewrite !app_nil_r in Hb.
Qed.

(** a [deleteVaultFolder] that reports success took a folder with everything below
    it out of the vault and left everything else; a folder that was not empty only with
    [recursive]; unless it was deleted for good, the whole subtree is in the trash,
    entry by entry. *)
Theorem deleteVaultFolder_refines input w v w' :
  vault_tree base (w_fs w) -> (forall l, readdir_order l ≡ₚ l) ->
  deleteVaultFolder ctx input w = (Ok (VOk v), w') ->
  let segs := split_on slash (dpi_path input) in
  view base (w_fs w) segs = Some IFolder /\
  (dpi_recursive input = false -> forall s, s <> [] -> w_fs w !! (base ++ segs ++ s) = None) /\
  (forall k, view base (w_fs w') k = spec_remove segs (view base (w_fs w)) k) /\
  logged (w_fs w) (w_fs w') (dv_audit v) /\
  (if dpi_permanent input then dv_trashPath v = None
   else exists batch,
     dv_trashPath v = Some (join [slash] ([js ".kb1"; js "trash"; batch] ++ segs)) /\
     forall s, w_fs w' !! (trash_dir base ++ batch :: segs ++ s) = w_fs w !! (base ++ segs ++ s)).
Proof.
  intros Hv Hperm Hr%catch_path_ok. cbn zeta.
  apply M_bind_ok in Hr as (rel & w1 & (-> & Hp & ->)%valid_ok & Hr).
  pose proof (valid_path_plain _ _ _ Hp) as Hps. pose proof (valid_path_visible _ _ _ Hp) as Hvis.
  pose proof (base_plain ctx base Hroot _ Hps) as Hk.
  pose proof (base_ne ctx base Hroot (split_on slash (dpi_path input))) as Hkn.
  rewrite (vaultPath_valid _ base Hroot PKFolder), M_ret_bind in Hr by done.
  apply M_bind_ok in Hr as (st & w0 & [-> ->]%statOrNull_ok & Hr); [|done..|apply Hv].
  destruct (negb _) eqn:Ef; [done|]. apply negb_false_iff in Ef.
  apply M_bind_ok in Hr as (ch & w1 & Hrd & Hr).
  pose proof (readdir_ok _ Hk Hkn _ _ _ (proj1 Hv) Hrd) as [-> ->].
  destruct (_ && negb (dpi_recursive input)) eqn:Eempty; [done|].
  apply M_bind_ok in Hr as (md & w1 & Hmd & Hr). apply reads_only_metadata in Hmd as ->.
  apply vfail_as_ok in Hr as (m & _ & Hr).
  apply M_bind_ok in Hr as (t & w1 & Hd & Hr).
  apply (discard_ok PKFolder) in Hd as (Hv1 & Hview & Hlog1 & Htrash); [|done..].
  apply M_bind_ok in Hr as ([] & w2 & Hwm & Hr).
  apply write_metadata_keeps in Hwm as (Hv2 & Hview2 & Hlog2 & Htr2 & _); [|done].
  apply M_bind_ok in Hr as (e & w3 & He & Hret). injection Hret as <- <-. cbn [dv_audit dv_trashPath].
  pose proof (view_emit _ _ _ _ He Hv2 eq_refl) as Hview3.
  destruct (emit_logged _ _ _ _ He Hv2 eq_refl) as (Hlog & _).
  destruct (emit_keeps_trash _ _ _ _ He Hv2 eq_refl) as (_ & Ht). split_and!.
  - unfold view. rewrite Hvis. by destruct (w_fs w !! _) as [[]|].
  - intros Hrec s Hs. rewrite Hrec, andb_true_r in Eempty. to_prop.
    destruct s as [|x s]; [done|].
    assert (children (w_fs w) (base ++ split_on slash (dpi_path input)) = []) as Hc.
    { apply Permutation_nil_r. rewrite <- Hperm.
      destruct (readdir_order _) as [|c cs]; [done|]. by destruct Eempty. }
    rewrite app_assoc. change (x :: s) with ([x] ++ s). rewrite app_assoc.
    apply tree_wf_none; [apply Hv|by intros [_ ?]%app_eq_nil|by apply children_nil].
  - intros k. by rewrite Hview3, Hview2.
  - unfold logged in *. by rewrite Hlog, Hlog2, Hlog1.
  - destruct (dpi_permanent input); [done|]. destruct Htrash as (batch & -> & Hb). exists batch.
    split; [done|]. intros s. by rewrite Ht, Htr2.
Qed.

(** C2: a [moveVaultPath] that reports success moved the entry and everything below it
    to the target, made the missing folders on the way, and changed nothing else; the
    source had the asked-for kind, and without [overwrite] nothing was at the target.
    The outcome is the same whether the move was a rename or, across devices, a copy
    and a removal. *)
Theorem moveVaultPath_refines input w v w' :
  vault_tree base (w_fs w) -> moveVaultPath ctx input w = (Ok (VOk v), w') ->
  let from := split_on slash (mi_fromPath input) in
  let to := split_on slash (mi_toPath input) in
  (forall k, view base (w_fs w') k = spec_move from to (spec_remove to (view base (w_fs w))) k) /\
  (exists i, view base (w_fs w) from = Some i /\
     match mi_kind input with EkFolder => i = IFolder | EkFile => i <> IFolder end) /\
  (mi_overwrite input = false -> view base (w_fs w) to = None) /\
  logged (w_fs w) (w_fs w') (mv_audit v).
Proof.
  intros Hv Hr%catch_collision_ok. cbn zeta.
  apply M_bind_ok in Hr as (from & w1 & (-> & Hf & ->)%valid_ok & Hr).
  apply M_bind_ok in Hr as (to & w1 & (-> & Ht & ->)%valid_ok & Hr).
  destruct (_ && bool_decide (is_Some _)) eqn:Eself; [done|].
  pose proof (valid_path_plain _ _ _ Hf) as Hfs. pose proof (valid_path_visible _ _ _ Hf) as Hfi.
  pose proof (base_plain ctx base Hroot _ Hfs) as Hfk.
  pose proof (base_ne ctx base Hroot (split_on slash (mi_fromPath input))) as Hfn.
  rewrite (vaultPath_valid _ base Hroot _ _ Hf), M_ret_bind in Hr.
  rewrite (vaultPath_valid _ base Hroot _ _ Ht), M_ret_bind in Hr.
  apply M_bind_ok in Hr as (st & w0 & [-> ->]%statOrNull_ok & Hr); [|done..|apply Hv].
  destruct (negb _) eqn:Ek; [done|]. apply negb_false_iff in Ek.
  assert (exists metadata, movePath ctx input (mi_fromPath input) (mi_toPath input)
    (abs_path (base ++ split_on slash (mi_fromPath input)))
    (abs_path (base ++ split_on slash (mi_toPath input))) metadata w = (Ok (VOk v), w')) as [md Hmv].
  { destruct (mi_kind input); [by eexists|].
    apply M_bind_ok in Hr as (r & w1 & ->%reads_only_metadata & Hr).
    apply vfail_as_ok in Hr as (m & _ & Hr). by eexists. }
  assert (mi_fromPath input <> mi_toPath input) as Hne.
  { intros Heq. rewrite <- Heq in Hmv. 
    destruct (w_fs w !! (base ++ split_on slash (mi_fromPath input))) as [n|] eqn:En; [|done].
    rewrite (move_self_run _ _ _ n _ _ Hf Hv En) in Hmv. by destruct (mi_overwrite input). }
  destruct (move_path_ok _ _ _ _ _ _ _ _ Hf Ht Hv Hmv Hne) as (Hview & Hno & Hlog).
  split_and!; [done| |done..].
  unfold view. rewrite Hfi. destruct (w_fs w !! _) as [n|]; [|done]. exists (item_of n). split; [done|].
  by destruct (mi_kind input), n.
Qed.

(** C40: a move of a file onto its own path with [overwrite] destroys the file: the
    call throws, and the entry is gone from the vault without a copy in the trash and
    without a line in the log. *)
Theorem moveVaultPath_onto_itself_destroys input n w :
  vault_tree base (w_fs w) -> valid_path Posix PKFile (mi_fromPath input) ->
  mi_kind input = EkFile -> mi_toPath input = mi_fromPath input -> mi_overwrite input = true ->
  w_fs w !! (base ++ split_on slash (mi_fromPath input)) = Some n -> is_file n = true ->
  moveVaultPath ctx input w =
    (Err (ExNode ENOENT), set_fs (remove_tree (w_fs w) (base ++ split_on slash (mi_fromPath input))) w).
Proof.
  intros Hv Hp Hkind Heq Hover Hn Hfile.
  pose proof (base_plain ctx base Hroot _ (valid_path_plain _ _ _ Hp)) as Hk.
  pose proof (base_ne ctx base Hroot (split_on slash (mi_fromPath input))) as Hkn.
  unfold moveVaultPath. rewrite Heq, Hkind. cbn [path_kind].
  unfold catch_path_collision, try_catch.
  rewrite !(M_bind_run _ _ _ _ _ (valid_run _ _ _ Hp)).
  rewrite (bool_decide_eq_false_2 (EkFile = EkFolder)) by done. cbn [andb].
  rewrite (vaultPath_valid _ base Hroot _ _ Hp), !M_ret_bind.
  assert (reachable (base ++ split_on slash (mi_fromPath input)) (w_fs w)) as Hre.
  { intros Hw. by rewrite (tree_wf_walk _ _ _ (proj1 Hv) Hn) in Hw. }
  rewrite (M_bind_run _ _ _ _ _ (statOrNull_run _ Hk Hkn _ (proj1 Hv) Hre)), Hn. cbn [from_option kind_matches].
  rewrite Hfile. cbn [negb].
  rewrite (move_self_run _ _ _ n _ _ Hp Hv Hn), Hover. done.
Qed.

End refinement.
