(* ===== verification/VaultErrors.v ===== *)
(** What the operations of [VaultOps.v] answer when they do not succeed: every
    outcome of reading a file, and the refusals of writing and moving, each of which
    leaves the world as it was. *)
From S2P Require Import Prelude JsString Utf8 Json NodePath VaultPath Artifact FileSystem IsoDate AuditLog FolderMetadata VaultOps VaultCalls Confinement CallEffects VaultView.

Section errors.
Context `{Host, JsonHost, NodeHost, AuditHandlers, YamlLib}.
Context (ctx : VaultContext) (base : fskey) (Hroot : vault_root (root ctx) base).

Definition key (p : jstr) : fskey := base ++ split_on slash p.

(** A file stands where a folder of the path should be. *)
Definition file_in_the_way (f : tree) (p : jstr) : Prop := walk_error f [] (key p) = Some ENOTDIR.

#[export] Instance file_in_the_way_dec f p : Decision (file_in_the_way f p).
Proof. unfold file_in_the_way. apply _. Defined.

Definition invalid_path_failure {T} (e : InvalidPathError) : VaultResult T :=
  VFail invalid_path (ipe_message e).

Lemma valid_err p k w e : validateVaultPath Posix p k = Err e -> valid p k w = (Err (ExPath e), w).
Proof. unfold valid. by intros ->. Qed.

Lemma M_bind_err {A B} (m : M A) (g : A -> M B) w e w1 :
  m w = (Err e, w1) -> (m ≫= g) w = (Err e, w1).
Proof. unfold mbind, M_bind. by intros ->. Qed.

Lemma catch_path_err {T} (m : M (VaultResult T)) w e w1 :
  m w = (Err e, w1) ->
  catch_path m w = match classifyPathError e with Some r => (Ok r, w1) | None => (Err e, w1) end.
Proof. unfold catch_path, try_catch. intros ->. by destruct (classifyPathError e). Qed.

Lemma catch_collision_err {T} (m : M (VaultResult T)) w e w1 :
  m w = (Err e, w1) ->
  catch_path_collision m w =
    match classifyPathError e with
    | Some r => (Ok r, w1)
    | None => match classifyFsCollision e with Some r => (Ok r, w1) | None => (Err e, w1) end
    end.
Proof.
  unfold catch_path_collision, try_catch. intros ->.
  destruct (classifyPathError e); [done|]. by destruct (classifyFsCollision e).
Qed.

Lemma statOrNull_in_the_way k w :
  plain_segs k = true -> walk_error (w_fs w) [] k = Some ENOTDIR ->
  statOrNull (abs_path k) w = (Err (ExNode ENOTDIR), w).
Proof.
  intros Hk Hw. unfold statOrNull, try_catch, fs_stat, lookup_path. run. by rewrite path_key_abs, Hw.
Qed.

Lemma key_plain p k : valid_path Posix k p -> plain_segs (key p) = true /\ key p <> [].
Proof.
  intros Hp. split; [|apply (base_ne ctx base Hroot)].
  by apply (base_plain ctx base Hroot), valid_path_plain with (pf := Posix) (kind := k).
Qed.

Lemma vaultPath_key p k : valid_path Posix k p -> vaultPath (root ctx) p = mret (abs_path (key p)).
Proof. apply (vaultPath_valid _ base Hroot). Qed.

(** every outcome of [readVaultFile]: an invalid path, a file that is not text, a
    missing file or a folder are answered as failures; a file on the way of the path
    makes the call throw; otherwise the answer is the decoded bytes with the size and
    time of the entry. *)
Theorem readVaultFile_outcomes p w :
  tree_wf (w_fs w) ->
  readVaultFile ctx p w =
    (match validateVaultPath Posix p PKFile with
     | Err e => Ok (VFail invalid_path (ipe_message e))
     | Ok _ =>
         if negb (editable (classifyArtifactPath p))
         then Ok (VFail not_editable (js "file is not an editable text artifact"))
         else if decide (file_in_the_way (w_fs w) p) then Err (ExNode ENOTDIR)
         else match w_fs w !! key p with
              | Some (NFile b m _ _) =>
                  Ok (VOk {| rf_path := p; rf_content := decode b;
                             rf_size := Z.of_nat (length b); rf_mtimeMs := m |})
              | _ => Ok (VFail not_found (js "file not found"))
              end
     end, w).
Proof.
  intros Hwf. unfold readVaultFile. destruct (validateVaultPath Posix p PKFile) as [q|e] eqn:Ev.
  2:{ by rewrite (catch_path_err _ _ _ _ (M_bind_err _ _ _ _ _ (valid_err _ _ w _ Ev))). }
  apply validate_ok in Ev as [-> Hp]. destruct (key_plain _ _ Hp) as [Hk Hkn].
  unfold ensureEditableArtifact. destruct (negb (editable _)) eqn:Eed.
  { apply catch_path_value. rewrite (M_bind_run _ _ _ _ _ (valid_run _ _ _ Hp)). by rewrite Eed. }
  destruct (decide _) as [Hw|Hw].
  - rewrite (catch_path_err _ w (ExNode ENOTDIR) w); [done|].
    rewrite (M_bind_run _ _ _ _ _ (valid_run _ _ _ Hp)), Eed. cbn [vfail_as].
    rewrite (vaultPath_key _ _ Hp), M_ret_bind. by apply M_bind_err, statOrNull_in_the_way.
  - pose proof (statOrNull_run _ Hk Hkn _ Hwf Hw) as Hst.
    destruct (w_fs w !! key p) as [[b m c i|]|] eqn:En; apply catch_path_value;
      rewrite (M_bind_run _ _ _ _ _ (valid_run _ _ _ Hp)), Eed; cbn [vfail_as];
      rewrite (vaultPath_key _ _ Hp), M_ret_bind, (M_bind_run _ _ _ _ _ Hst); [|done..].
    assert ((decode <$> fs_readFile (abs_path (key p))) w = (Ok (decode b), w)) as Hread.
    { unfold fmap, M_fmap. by rewrite (readFile_run _ Hk Hkn _ _ _ _ _ Hwf En). }
    by rewrite (M_bind_run _ _ _ _ _ Hread).
Qed.

(** what [writeVaultFile] refuses, with the error it answers, and that a refusal
    writes nothing: an invalid path, a file that is not text, an entry in the place when
    [overwrite] is not set, and a file where a folder of the path should be. *)
Theorem writeVaultFile_refusals input w :
  tree_wf (w_fs w) ->
  let p := wi_path input in
  (forall e, validateVaultPath Posix p PKFile = Err e ->
     writeVaultFile ctx input w = (Ok (VFail invalid_path (ipe_message e)), w)) /\
  (validateVaultPath Posix p PKFile = Ok p ->
     (editable (classifyArtifactPath p) = false ->
        writeVaultFile ctx input w =
          (Ok (VFail not_editable (js "file is not an editable text artifact")), w)) /\
     (editable (classifyArtifactPath p) = true ->
        (is_Some (w_fs w !! key p) -> wi_overwrite input = false ->
           writeVaultFile ctx input w = (Ok (VFail already_exists (js "file already exists")), w)) /\
        (file_in_the_way (w_fs w) p ->
           writeVaultFile ctx input w =
             (Ok (VFail path_collision (js "path collides with an existing file or folder")), w)))).
Proof.
  intros Hwf. cbn zeta. unfold writeVaultFile. split.
  { intros e Ev. by rewrite (catch_collision_err _ _ _ _ (M_bind_err _ _ _ _ _ (valid_err _ _ w _ Ev))). }
  intros [_ Hp]%validate_ok. destruct (key_plain _ _ Hp) as [Hk Hkn].
  unfold ensureEditableArtifact. split; [|intros Hed; split].
  - intros Hed. apply catch_collision_value.
    rewrite (M_bind_run _ _ _ _ _ (valid_run _ _ _ Hp)). by rewrite Hed.
  - intros [n Hn] Hover. apply catch_collision_value.
    rewrite (M_bind_run _ _ _ _ _ (valid_run _ _ _ Hp)), Hed. cbn [vfail_as negb].
    unfold write_bytes. rewrite (vaultPath_key _ _ Hp), M_ret_bind.
    assert (reachable (key (wi_path input)) (w_fs w)) as Hre.
    { intros Hw. by rewrite (tree_wf_walk _ _ _ Hwf Hn) in Hw. }
    assert (exists_path (abs_path (key (wi_path input))) w = (Ok true, w)) as Hex.
    { rewrite exists_run by done. by rewrite Hn, bool_decide_eq_true_2. }
    unfold mbind at 1, M_bind at 1. by rewrite (M_bind_run _ _ _ _ _ Hex), Hover.
  - intros Hw. rewrite (catch_collision_err _ w (ExNode ENOTDIR) w); [done|].
    rewrite (M_bind_run _ _ _ _ _ (valid_run _ _ _ Hp)), Hed. cbn [vfail_as negb].
    unfold write_bytes. rewrite (vaultPath_key _ _ Hp), M_ret_bind. apply M_bind_err, M_bind_err.
    unfold exists_path. by apply M_bind_err, statOrNull_in_the_way.
Qed.

(** what [moveVaultPath] refuses without touching anything: a folder moved into
    itself or below itself, a source that is missing or of the other kind, and, without
    [overwrite], a file move onto an entry that is there. *)
Theorem moveVaultPath_refusals input w :
  tree_wf (w_fs w) ->
  let from := mi_fromPath input in let to := mi_toPath input in
  valid_path Posix (path_kind (mi_kind input)) from -> valid_path Posix (path_kind (mi_kind input)) to ->
  (mi_kind input = EkFolder -> (exists rest, split_on slash to = split_on slash from ++ rest) ->
     moveVaultPath ctx input w = (Ok (VFail invalid_path (js "folder cannot be moved into itself")), w)) /\
  ((mi_kind input = EkFolder -> forall rest, split_on slash to <> split_on slash from ++ rest) ->
   ~ file_in_the_way (w_fs w) from ->
   (from_option (kind_matches (mi_kind input)) false (w_fs w !! key from) = false ->
     moveVaultPath ctx input w =
       (Ok (VFail not_found (entity_text (mi_kind input) ++ js " not found")), w)) /\
   (from_option (kind_matches (mi_kind input)) false (w_fs w !! key from) = true ->
    mi_kind input = EkFile -> mi_overwrite input = false -> is_Some (w_fs w !! key to) ->
     moveVaultPath ctx input w = (Ok (VFail path_collision (js "target path already exists")), w))).
Proof.
  intros Hwf. cbn zeta. intros Hf Ht. destruct (key_plain _ _ Hf) as [Hfk Hfn].
  destruct (key_plain _ _ Ht) as [Htk Htn].
  assert (is_Some (relativeDescendantPath (mi_fromPath input) (mi_toPath input)) <->
    exists rest, split_on slash (mi_toPath input) = split_on slash (mi_fromPath input) ++ rest) as Hrdp
    by apply descendant_segments.
  split.
  - intros Hkind Hrest. apply catch_collision_value.
    rewrite (M_bind_run _ _ _ _ _ (valid_run _ _ _ Hf)), (M_bind_run _ _ _ _ _ (valid_run _ _ _ Ht)).
    by rewrite !bool_decide_eq_true_2 by (done || by apply Hrdp).
  - intros Hnot Hre.
    assert (bool_decide (mi_kind input = EkFolder) &&
      bool_decide (is_Some (relativeDescendantPath (mi_fromPath input) (mi_toPath input))) = false) as Hself.
    { destruct (decide (mi_kind input = EkFolder)) as [Hkd|Hkd]; [|by rewrite bool_decide_eq_false_2].
      apply andb_false_iff. right. apply bool_decide_eq_false_2. intros [rest Hr]%Hrdp. by eapply Hnot. }
    split.
    + intros Hmiss. apply catch_collision_value.
      rewrite (M_bind_run _ _ _ _ _ (valid_run _ _ _ Hf)), (M_bind_run _ _ _ _ _ (valid_run _ _ _ Ht)), Hself.
      rewrite (vaultPath_key _ _ Hf), (vaultPath_key _ _ Ht), !M_ret_bind.
      rewrite (M_bind_run _ _ _ _ _ (statOrNull_run _ Hfk Hfn _ Hwf Hre)). by rewrite Hmiss.
    + intros Hhave Hkind Hover [n Hn]. apply catch_collision_value.
      rewrite (M_bind_run _ _ _ _ _ (valid_run _ _ _ Hf)), (M_bind_run _ _ _ _ _ (valid_run _ _ _ Ht)), Hself.
      rewrite (vaultPath_key _ _ Hf), (vaultPath_key _ _ Ht), !M_ret_bind.
      rewrite (M_bind_run _ _ _ _ _ (statOrNull_run _ Hfk Hfn _ Hwf Hre)), Hhave, Hkind. cbn [negb].
      assert (exists_path (abs_path (key (mi_toPath input))) w = (Ok true, w)) as Hex.
      { rewrite exists_run; [by rewrite Hn, bool_decide_eq_true_2|done..|].
        intros Hw. by rewrite (tree_wf_walk _ _ _ Hwf Hn) in Hw. }
      unfold movePath. by rewrite (M_bind_run _ _ _ _ _ Hex), Hover.
Qed.

End errors.
