(* ===== verification/MetadataStore.v ===== *)
(** The folder metadata as a store: what [setFolderMetadata], moving and deleting
    leave in [.kb1/folders.yml] is what the next operation reads, provided the YAML
    library reads back what it writes. *)
From S2P Require Import Prelude JsString Utf8 Json NodePath VaultPath Artifact FileSystem IsoDate AuditLog FolderMetadata VaultOps VaultCalls Confinement CallEffects VaultView.

(** * Maps the file can hold *)

Definition stored_entry (k : jstr) (v : FolderMetadata) : Prop :=
  valid_path Posix PKFolder k /\ k <> proto_key /\ is_jstr k = true /\ well_formed k = true /\
  exists c, color v = Some c /\ canonical_color c.

(** A map as the operations keep it: only own properties, each a stored entry. *)
Definition stored_map (m : FolderMetadataMap) : Prop :=
  fm_proto m = None /\ forall k v, fm_own m !! k = Some v -> stored_entry k v.

Lemma stored_good m : stored_map m -> good_map m.
Proof.
  intros [Hp Hm]. split; [done|]. intros k v Hk. destruct (Hm k v Hk) as (Hv & Hkp & _).
  split; [by eapply valid_path_plain|done].
Qed.

Lemma stored_entry_read k v :
  stored_entry k v ->
  validateVaultPath Posix k PKFolder = Ok k /\
  normalizeFolderMetadataEntry (metadata_value (cloneMetadata v)) = VOk v /\ isEmptyMetadata v = false.
Proof.
  intros (Hp & _ & _ & _ & c & Hc & Hcan). split; [by apply validate_ok|].
  unfold metadata_value, cloneMetadata, isEmptyMetadata. destruct v as [o]. cbn in Hc. subst o. cbn [color].
  split; [|done]. unfold normalizeFolderMetadataEntry. cbn [isRecord].
  replace (get [(js "color", VStr c)] (js "color")) with (VStr c) by done.
  by rewrite canonical_color_fixed.
Qed.

Lemma read_entries_stored l acc :
  Forall (fun kv => stored_entry kv.1 kv.2) l -> NoDup l.*1 -> fm_proto acc = None ->
  read_entries (map (fun kv => (kv.1, metadata_value (cloneMetadata kv.2))) l) acc =
    VOk (own_map (list_to_map l ∪ fm_own acc)).
Proof.
  revert acc. induction l as [|[k v] l IH]; intros acc Hf Hnd Hacc.
  { cbn. rewrite map_empty_union. destruct acc as [o p]. cbn in Hacc. by subst. }
  apply Forall_cons in Hf as [Hk Hf]. cbn [fmap list_fmap fst] in Hnd. apply NoDup_cons in Hnd as [Hkl Hnd].
  destruct (stored_entry_read _ _ Hk) as (Hval & Hn & He). cbn [fst snd] in *.
  cbn [map read_entries fst snd]. rewrite Hval, Hn, He. destruct Hk as (_ & Hkp & _).
  unfold map_set. rewrite bool_decide_eq_false_2 by done. cbn [andb].
  rewrite IH by done. cbn [fm_own list_to_map foldr uncurry fst snd]. do 2 f_equal. simpl.
  rewrite <- insert_union_l, <- insert_union_r; [done|]. by apply not_elem_of_list_to_map_1.
Qed.

(** The document of a stored map reads back as the map. *)
Lemma read_folders_value `{Host} m :
  stored_map m -> read_document (folders_value m) = VOk m.
Proof.
  intros [Hp Hm]. unfold read_document, folders_value. cbn [isRecord].
  set (l := sort_by _ _).
  replace (get _ (js "folders")) with
    (VObj true (map (fun kv => (kv.1, metadata_value (cloneMetadata kv.2))) l)) by done.
  cbn [isRecord]. assert (l ≡ₚ map_entries m) as Hl by apply sort_by_perm.
  pose proof (NoDup_fst_map_to_list (fm_own m)) as Hnd. fold (map_entries m) in Hnd.
  rewrite read_entries_stored; [| | |done].
  - cbn. rewrite map_union_empty. rewrite (list_to_map_proper l (map_entries m)); [|by rewrite Hl|done].
    unfold map_entries. rewrite list_to_map_to_list. destruct m as [o p]. cbn in Hp. by subst.
  - rewrite Hl. apply Forall_forall. intros [k v] Hin%elem_of_map_to_list. by apply Hm.
  - by rewrite Hl.
Qed.

(** ** Maps after a folder was deleted or moved *)

Lemma remove_stored m p : stored_map m -> stored_map (removeFolderMetadataSubtree m p).
Proof.
  intros [_ Hm]. split; [done|]. intros k v. unfold removeFolderMetadataSubtree, map_from_entries, map_entries.
  cbn [fm_own own_map]. rewrite <- map_filter_alt. intros [Hk _]%map_lookup_filter_Some. by apply Hm.
Qed.

(** The path below [to] that corresponds to one below [from]. *)
Lemma valid_path_moved from to s :
  valid_path Posix PKFolder to -> valid_path Posix PKFolder (from ++ slash :: s) ->
  (jlen to + 1 + jlen s <= MAX_PATH_LENGTH)%Z -> valid_path Posix PKFolder (to ++ slash :: s).
Proof.
  intros [Hl Hrel Hb Hs _] [_ _ Hb' Hs' _] Hlen.
  assert (to <> []) as Htn by (intros ->; unfold jlen in Hl; simpl in Hl; lia). split.
  - unfold jlen in *. rewrite length_app. simpl. lia.
  - cbn [isAbsolute] in *. unfold posix_isAbsolute in *. destruct to as [|c to]; [done|].
    change (((47 =? c)%N && starts_with (to ++ slash :: s) []) = false).
    change (((47 =? c)%N && starts_with to []) = false) in Hrel. destruct (47 =? c)%N; [|done].
    by destruct to.
  - rewrite not_elem_of_app in *. rewrite not_elem_of_cons in *. naive_solver.
  - rewrite split_on_app_sep in *. apply Forall_app in Hs' as [_ Hs']. by apply Forall_app.
  - done.
Qed.

Lemma stored_moved from to k v k' :
  stored_entry k v -> valid_path Posix PKFolder to -> to <> proto_key -> is_jstr to = true ->
  well_formed to = true ->
  (forall s, relativeDescendantPath from k = Some s -> jlen to + 1 + jlen s <= MAX_PATH_LENGTH)%Z ->
  moved_key from to k = Some k' -> stored_entry k' v.
Proof.
  intros (Hp & Hkp & Hj & Hwf & Hc) Ht Htp Htj Htw Hlen Hk.
  pose proof (moved_key_not_proto from to k k' Htp Hkp Hk) as Hnp. revert Hk. unfold moved_key.
  pose proof (valid_path_plain _ _ _ Hp) as Hps.
  destruct (relativeDescendantPath from k) as [s|] eqn:E.
  - specialize (Hlen s eq_refl). destruct (rdp_cases from k s Hps E) as [[-> ->]|[Hs ->]].
    + intros [= <-]. done.
    + destruct s as [|c s]; [done|]. intros [= <-]. rewrite well_formed_app_unit in Hwf by done.
      rewrite is_jstr_app in Hj. to_prop. split_and!; [by eapply valid_path_moved|done| |by rewrite well_formed_app_unit, Htw by done|done].
      rewrite is_jstr_app, Htj. done.
  - case_bool_decide; [done|]. intros [= <-]. done.
Qed.

Lemma move_stored m from to :
  stored_map m -> valid_path Posix PKFolder to -> to <> proto_key -> is_jstr to = true ->
  well_formed to = true ->
  (forall k v s, fm_own m !! k = Some v -> relativeDescendantPath from k = Some s ->
     jlen to + 1 + jlen s <= MAX_PATH_LENGTH)%Z ->
  stored_map (moveFolderMetadataSubtree m from to).
Proof.
  intros [_ Hm] Ht Htp Htj Htw Hlen. unfold moveFolderMetadataSubtree.
  assert (Forall (fun kv => fm_own m !! kv.1 = Some kv.2) (map_entries m)) as Hf.
  { apply Forall_forall. intros [k v] Hin. by apply elem_of_map_to_list in Hin. }
  assert (stored_map empty_map) as Hacc by (split; [done|]; intros k v Hk; cbn [fm_own empty_map] in Hk; by rewrite lookup_empty in Hk).
  revert Hf Hacc. generalize (map_entries m), empty_map. intros l.
  induction l as [|[k v] l IH]; intros acc Hf Hacc; [done|].
  apply Forall_cons in Hf as [Hk Hf]. cbn [fst snd] in Hk. cbn [fold_left]. apply IH; [done|].
  pose proof (Hm _ _ Hk) as Hst. pose proof Hst as (Hp & Hkp & _).
  rewrite move_entry_spec; [|by eapply valid_path_plain|done|split; [by eapply valid_path_plain|done]].
  destruct (moved_key from to k) as [k'|] eqn:Ek; [|done]. destruct Hacc as [Hap Ha].
  split; [done|]. intros j u. cbn [fm_own]. intros [[<- <-]|[_ Hj]]%lookup_insert_Some; [|by apply Ha].
  apply (stored_moved from to k v); try done. intros s Hs. by apply (Hlen k v s).
Qed.

Section store.
Context `{Host, JsonHost, NodeHost, AuditHandlers, YamlLib}.
Context (ctx : VaultContext) (base : fskey) (Hroot : vault_root (root ctx) base).
Context (Huuid : uuid_plain).

(** The YAML library reads back, from the bytes of the file, what it wrote for a map of
    folders. *)
Definition yaml_round_trip : Prop := forall m,
  stored_map m -> parseYaml (decode (encode (stringifyYaml (folders_value m)))) = Some (folders_value m).
Context (Hyaml : yaml_round_trip).

(** The metadata file holds a map. *)
Definition holds (w : world) (m : FolderMetadataMap) : Prop :=
  exists t c i, w_fs w !! metadata_key base = Some (NFile (encode (stringifyYaml (folders_value m))) t c i).

Lemma metadata_key_ok : plain_segs (metadata_key base) = true /\ metadata_key base <> [].
Proof. split; [by apply (base_plain ctx base Hroot)|apply (base_ne ctx base Hroot)]. Qed.

Lemma read_holds w m :
  tree_wf (w_fs w) -> stored_map m -> holds w m -> readFolderMetadataMap (root ctx) w = (Ok (VOk m), w).
Proof.
  intros Hwf Hm (t & c & i & Hn). destruct metadata_key_ok as [Hk Hkn]. unfold readFolderMetadataMap.
  rewrite (metadata_path_eq _ base Hroot), M_ret_bind. fold (metadata_key base).
  assert (try_catch
    (bytes ← fs_readFile (abs_path (metadata_key base)); mret (Some (decode bytes)))
    (fun e => if bool_decide (isNodeError e = Some ENOENT) then mret None else throw e) w =
    (Ok (Some (decode (encode (stringifyYaml (folders_value m))))), w)) as Hread.
  { apply try_catch_ok. by rewrite (M_bind_run _ _ _ _ _ (readFile_run _ Hk Hkn _ _ _ _ _ Hwf Hn)). }
  rewrite (M_bind_run _ _ _ _ _ Hread), Hyaml by done. by rewrite read_folders_value.
Qed.

(** After the metadata file is written, it is what the next reader finds; the audit
    entry of the operation does not touch it. *)
Lemma written_then_held m w w1 e input w2 :
  writeFolderMetadataMap (root ctx) m w = (Ok tt, w1) -> vault_tree base (w_fs w) ->
  emitVaultAudit input w1 = (Ok e, w2) -> ai_root input = root ctx -> stored_map m ->
  vault_tree base (w_fs w2) /\ readFolderMetadataMap (root ctx) w2 = (Ok (VOk m), w2).
Proof.
  intros Hw Hv He Hi Hm. pose proof (write_metadata_keeps ctx base Hroot Huuid _ _ _ _ Hw Hv) as (Hv1 & _ & _ & _ & Hh).
  pose proof (confined_audit ctx base Hroot input Hi _ _ _ He Hv1) as [Hv2 _]. split; [done|].
  apply read_holds; [apply Hv2|done|]. destruct Hh as (t & c & i & Hh). exists t, c, i.
  destruct (emit_ok ctx base Hroot _ _ _ _ He (proj1 Hv1) Hi) as (_ & _ & Hk).
  rewrite Hk, Hh; [done|]. unfold metadata_key, audit_key. by intros ?%app_inv_head.
Qed.

Lemma set_map_stored m p next :
  stored_map m -> valid_path Posix PKFolder p -> p <> proto_key -> is_jstr p = true ->
  well_formed p = true -> (forall c, color next = Some c -> canonical_color c) ->
  stored_map (set_metadata_map m p next).
Proof.
  intros [Hproto Hm] Hp Hne Hj Hwf Hc. unfold set_metadata_map, isEmptyMetadata, map_set, map_delete.
  rewrite (bool_decide_eq_false_2 (p = proto_key)) by done. cbn [andb].
  case_bool_decide as He; (split; [done|]); intros k v; cbn [fm_own own_map].
  - intros [_ Hk]%lookup_delete_Some. by apply Hm.
  - intros [[<- <-]|[_ Hk]]%lookup_insert_Some; [|by apply Hm].
    destruct (color next) as [c|] eqn:Ec; [|done]. split_and!; [done..|]. exists c. auto.
Qed.

Lemma map_get_set m p next q :
  stored_map m -> q <> p -> p <> proto_key -> map_get (set_metadata_map m p next) q = map_get m q.
Proof.
  intros [Hproto _] Hqp Hp. unfold set_metadata_map, map_set, map_delete.
  rewrite (bool_decide_eq_false_2 (p = proto_key)) by done. cbn [andb].
  unfold map_get. rewrite Hproto.
  destruct (isEmptyMetadata next); cbn [fm_own own_map fm_proto];
    [by rewrite lookup_delete_ne|by rewrite lookup_insert_ne].
Qed.

Lemma map_get_set_same m p next :
  stored_map m -> p <> proto_key ->
  cloneMetadata (default no_metadata (map_get (set_metadata_map m p next) p)) = next.
Proof.
  intros _ Hp. unfold set_metadata_map, map_set, map_delete, isEmptyMetadata.
  rewrite (bool_decide_eq_false_2 (p = proto_key)) by done. cbn [andb]. unfold map_get.
  destruct next as [[c|]]; cbn [color].
  - rewrite bool_decide_eq_false_2 by done. cbn [fm_own own_map]. by rewrite lookup_insert_eq.
  - rewrite bool_decide_eq_true_2 by done. cbn [fm_own own_map fm_proto]. rewrite lookup_delete_eq.
    rewrite bool_decide_eq_false_2 by done. by destruct (bool_decide (p ∈ object_members)).
Qed.

(** The metadata [setFolderMetadata] computes has a normalized color. *)
Lemma applied_canonical m p input n c :
  stored_map m -> normalizeFolderMetadataInput input = VOk n ->
  color (applyFolderMetadataInput (default no_metadata (map_get m p)) n) = Some c -> canonical_color c.
Proof.
  intros [Hproto Hm] Hn. unfold applyFolderMetadataInput.
  unfold normalizeFolderMetadataInput in Hn. destruct (in_color input) as [[]|]; try done.
  - injection Hn as <-. done.
  - destruct (normalizeFolderMetadataColor s) as [c'|] eqn:Ec; [|done]. injection Hn as <-. cbn.
    intros [= ->]. by eapply normalizeFolderMetadataColor_canonical.
  - injection Hn as <-. cbn [cloneMetadata color]. unfold map_get. rewrite Hproto.
    destruct (fm_own m !! p) as [v|] eqn:E.
    + cbn. intros Hc. destruct (Hm _ _ E) as (_ & _ & _ & _ & c' & Hc' & ?). congruence.
    + repeat case_bool_decide; done.
Qed.

(** what [setFolderMetadata] answers is what [getFolderMetadata] then answers for
    the folder, and the metadata of every other folder is as it was.  (For a folder that
    is not called [__proto__].) *)
Theorem setFolderMetadata_getFolderMetadata p input m w v w' :
  vault_tree base (w_fs w) -> readFolderMetadataMap (root ctx) w = (Ok (VOk m), w) -> stored_map m ->
  p <> proto_key -> is_jstr p = true -> well_formed p = true ->
  setFolderMetadata ctx p input w = (Ok (VOk v), w') ->
  getFolderMetadata ctx p w' =
    (Ok (VOk {| fv_path := p; fv_metadata := fv_metadata v; fv_audit := None |}), w') /\
  exists m', listFolderMetadata ctx w' = (Ok (VOk m'), w') /\
    forall q, q <> p -> map_get m' q = map_get m q.
Proof.
  intros Hv Hm Hsm Hp Hj Hwf Hr%catch_path_ok.
  apply M_bind_ok in Hr as (rel & w1 & (-> & Hval & ->)%valid_ok & Hr).
  apply vfail_as_ok in Hr as (n & Hn & Hr).
  pose proof (base_plain ctx base Hroot _ (valid_path_plain _ _ _ Hval)) as Hk.
  pose proof (base_ne ctx base Hroot (split_on slash p)) as Hkn.
  rewrite (vaultPath_valid _ base Hroot PKFolder), M_ret_bind in Hr by done.
  apply M_bind_ok in Hr as (st & w0 & [-> ->]%statOrNull_ok & Hr); [|done..|apply Hv].
  destruct (negb _) eqn:Ed; [done|]. apply negb_false_iff in Ed.
  rewrite (M_bind_run _ _ _ _ _ Hm) in Hr. cbn [vfail_as] in Hr. cbn zeta in Hr.
  set (next := applyFolderMetadataInput _ n) in *.
  assert (stored_map (set_metadata_map m p next)) as Hsm'.
  { apply set_map_stored; [done..|]. intros c Hc. by eapply applied_canonical. }
  apply M_bind_ok in Hr as ([] & w1 & Hw & Hr). apply M_bind_ok in Hr as (e & w2 & He & Hret).
  injection Hret as <- <-. cbn [fv_metadata].
  destruct (written_then_held _ _ _ _ _ _ Hw Hv He eq_refl Hsm') as [Hv2 Hread].
  split; [|by exists (set_metadata_map m p next); split; [|intros; by apply map_get_set]].
  assert (exists t, w_fs w2 !! (base ++ split_on slash p) = Some (NDir t)) as [t Ht].
  { pose proof (write_metadata_keeps ctx base Hroot Huuid _ _ _ _ Hw Hv) as (Hv1 & Hview1 & _).
    pose proof (view_emit ctx base Hroot _ _ _ _ He Hv1 eq_refl (split_on slash p)) as Hview2.
    rewrite Hview1 in Hview2. unfold view in Hview2. rewrite (valid_path_visible _ _ _ Hval) in Hview2.
    destruct (w_fs w !! _) as [[]|]; [done| |done].
    destruct (w_fs w2 !! _) as [[]|]; [done| |done]. eauto. }
  apply catch_path_value. rewrite (M_bind_run _ _ _ _ _ (valid_run _ _ _ Hval)).
  rewrite (vaultPath_valid _ base Hroot PKFolder), M_ret_bind by done.
  assert (reachable (base ++ split_on slash p) (w_fs w2)) as Hre.
  { intros Hwalk. by rewrite (tree_wf_walk _ _ _ (proj1 Hv2) Ht) in Hwalk. }
  rewrite (M_bind_run _ _ _ _ _ (statOrNull_run _ Hk Hkn _ (proj1 Hv2) Hre)), Ht. cbn [from_option is_dir negb].
  rewrite (M_bind_run _ _ _ _ _ Hread). cbn [vfail_as]. by rewrite map_get_set_same.
Qed.

Lemma move_path_metadata kind input from to m w v w' :
  valid_path Posix kind from -> valid_path Posix kind to -> vault_tree base (w_fs w) ->
  stored_map (moveFolderMetadataSubtree m from to) ->
  movePath ctx input from to (abs_path (base ++ split_on slash from))
    (abs_path (base ++ split_on slash to)) (Some m) w = (Ok (VOk v), w') ->
  readFolderMetadataMap (root ctx) w' = (Ok (VOk (moveFolderMetadataSubtree m from to)), w').
Proof.
  intros Hf Ht Hv Hsm Hr. pose proof Hroot as [_ Hb Hbn].
  pose proof (valid_path_plain _ _ _ Hf) as Hfs. pose proof (valid_path_plain _ _ _ Ht) as Hts.
  pose proof (split_on_nonnil slash from) as Hfn. pose proof (split_on_nonnil slash to) as Htn.
  unfold movePath in Hr.
  apply M_bind_ok in Hr as (ex & w1 & ->%reads_only_exists & Hr). destruct (_ && negb _); [done|].
  apply M_bind_ok in Hr as ([] & w1 & Hm1 & Hr).
  destruct (confined_mkdir_parent ctx base Hroot _ Hts Htn _ _ _ Hm1 Hv) as [Hv1 _].
  apply M_bind_ok in Hr as ([] & w2 & Hc & Hr).
  destruct (confined_clear ctx base Hroot _ _ Hts Htn _ _ _ Hc Hv1) as [Hv2 _].
  apply M_bind_ok in Hr as ([] & w3 & Hmv & Hr).
  destruct (confined_rename_or_copy base Hb Hbn _ _ Hfs Hts Hfn Htn _ _ _ Hmv Hv2) as [Hv3 _].
  apply M_bind_ok in Hr as ([] & w4 & Hw & Hr). apply M_bind_ok in Hr as (e & w5 & He & Hret).
  injection Hret as <- <-. by destruct (written_then_held _ _ _ _ _ _ Hw Hv3 He eq_refl Hsm).
Qed.

(** after a folder moved, the metadata file holds the moved metadata: that of the
    folder and of everything below it under the target's paths, whatever the target had
    dropped, the rest as it was.  (As long as the new paths keep within the limit on the
    length of a path, and the target is not called [__proto__].) *)
Theorem moveVaultPath_moves_metadata input m w v w' :
  vault_tree base (w_fs w) -> readFolderMetadataMap (root ctx) w = (Ok (VOk m), w) -> stored_map m ->
  let from := mi_fromPath input in let to := mi_toPath input in
  to <> proto_key -> is_jstr to = true -> well_formed to = true ->
  (forall k u s, fm_own m !! k = Some u -> relativeDescendantPath from k = Some s ->
     jlen to + 1 + jlen s <= MAX_PATH_LENGTH)%Z ->
  mi_kind input = EkFolder -> moveVaultPath ctx input w = (Ok (VOk v), w') ->
  exists m', listFolderMetadata ctx w' = (Ok (VOk m'), w') /\
    forall k, plain_segs (split_on slash k) = true ->
      fm_own m' !! k =
        match relativeDescendantPath to k with
        | Some [] => fm_own m !! from
        | Some s => fm_own m !! (from ++ slash :: s)
        | None => match relativeDescendantPath from k with
                  | Some _ => None
                  | None => fm_own m !! k
                  end
        end.
Proof.
  intros Hv Hm Hsm from to Htp Htj Htw Hlen Hkind Hr%catch_collision_ok.
  apply M_bind_ok in Hr as (f & w1 & (-> & Hf & ->)%valid_ok & Hr).
  apply M_bind_ok in Hr as (t & w1 & (-> & Ht & ->)%valid_ok & Hr). rewrite Hkind in *.
  cbn [path_kind] in *. destruct (_ && bool_decide (is_Some _)) eqn:Eself; [done|].
  rewrite (vaultPath_valid _ base Hroot _ _ Hf), M_ret_bind in Hr.
  rewrite (vaultPath_valid _ base Hroot _ _ Ht), M_ret_bind in Hr.
  apply M_bind_ok in Hr as (st & w1 & Hst & Hr).
  apply reads_only_statOrNull in Hst as ->. destruct (negb _); [done|].
  rewrite (M_bind_run _ _ _ _ _ Hm) in Hr. cbn [vfail_as] in Hr.
  assert (stored_map (moveFolderMetadataSubtree m from to)) as Hsm' by by apply move_stored.
  exists (moveFolderMetadataSubtree m from to). split.
  - by eapply move_path_metadata.
  - intros k Hk. apply move_lookup; [by apply stored_good|split; [by eapply valid_path_plain|done]|done].
Qed.

(** after a folder was deleted, the metadata file holds no metadata of the folder
    or of anything below it, and all other metadata as it was. *)
Theorem deleteVaultFolder_drops_metadata input m w v w' :
  vault_tree base (w_fs w) -> readFolderMetadataMap (root ctx) w = (Ok (VOk m), w) -> stored_map m ->
  deleteVaultFolder ctx input w = (Ok (VOk v), w') ->
  exists m', listFolderMetadata ctx w' = (Ok (VOk m'), w') /\
    forall k, fm_own m' !! k =
      if bool_decide (is_Some (relativeDescendantPath (dpi_path input) k)) then None else fm_own m !! k.
Proof.
  intros Hv Hm Hsm Hr%catch_path_ok.
  apply M_bind_ok in Hr as (f & w1 & (-> & Hf & ->)%valid_ok & Hr).
  rewrite (vaultPath_valid _ base Hroot _ _ Hf), M_ret_bind in Hr.
  apply M_bind_ok in Hr as (st & w1 & Hst & Hr). apply reads_only_statOrNull in Hst as ->.
  destruct (negb _); [done|].
  apply M_bind_ok in Hr as (ch & w1 & Hrd & Hr). apply reads_only_readdir in Hrd as ->.
  destruct (_ && negb _); [done|].
  rewrite (M_bind_run _ _ _ _ _ Hm) in Hr. cbn [vfail_as] in Hr.
  apply M_bind_ok in Hr as (t & w1 & Hd & Hr).
  apply (discard_ok ctx base Hroot Huuid PKFolder) in Hd as (Hv1 & _); [|done..].
  apply M_bind_ok in Hr as ([] & w2 & Hwm & Hr). apply M_bind_ok in Hr as (e & w3 & He & Hret).
  injection Hret as <- <-.
  destruct (written_then_held _ _ _ _ _ _ Hwm Hv1 He eq_refl (remove_stored m (dpi_path input) Hsm)) as [_ Hread].
  exists (removeFolderMetadataSubtree m (dpi_path input)). split; [done|]. apply remove_lookup.
Qed.

End store.

(** * A moved map that cannot be read *)

Definition long_target : jstr := join [slash] (replicate 4 (replicate 250 98%N)).
Definition deep_map : FolderMetadataMap :=
  own_map {[ js "a/" ++ replicate 200 99%N := {| color := Some (js "inherit") |} ]}.

(** moving a folder to a longer path can leave a metadata file that no operation
    reads any more: the keys of the moved map are not checked against the limit on the
    length of a path before they are written, but they are when the file is read, and
    one key that is too long makes the whole file malformed.  Both paths of the move
    below are valid, and so is the map before it. *)
Theorem moved_metadata_may_be_unreadable :
  validateVaultPath Posix (js "a") PKFolder = Ok (js "a") /\
  validateVaultPath Posix long_target PKFolder = Ok long_target /\
  @read_document (@folders_value c_host deep_map) = VOk deep_map /\
  @read_document (@folders_value c_host (moveFolderMetadataSubtree deep_map (js "a") long_target)) =
    metadataFileFailure.
Proof.
  split_and!.
  - vm_cast_no_check (eq_refl (Ok (js "a") : result InvalidPathError jstr)).
  - vm_cast_no_check (eq_refl (Ok long_target : result InvalidPathError jstr)).
  - vm_cast_no_check (eq_refl (VOk deep_map)).
  - vm_cast_no_check (eq_refl (@metadataFileFailure FolderMetadataMap)).
Qed.
