(* ===== verification/ExampleVault.v ===== *)
(** A concrete host and a concrete vault, on which the properties of the vault are
    applied: paths of POSIX, a file system with a note, a folder and its metadata, and
    JSON, a subset of YAML, as the notation of the metadata file. *)
From S2P Require Import Prelude JsString Utf8 NodePath Json VaultPath Artifact FileSystem AuditLog FolderMetadata VaultOps VaultCalls.
From S2P Require Import Confinement MetadataStore.

(** * The host *)

#[export] Existing Instance c_host.

#[export] Instance c_json : JsonHost := {| print_number := fun _ => js "null"; read_number := fun _ => None |}.

#[export] Instance c_node : NodeHost := {|
  cwd := js "/";
  process_pid := 1;
  uuid_text := fun n => js "id" ++ dec_N n;
  readdir_order := fun l => l
|}.

#[export] Instance c_handlers : AuditHandlers := {| handler_throws := fun h _ => Nat.eqb h 1 |}.

#[export] Instance c_yaml : YamlLib := {|
  parseYaml := json_parse;
  stringifyYaml := fun v => default [] (stringify v)
|}.

Lemma c_uuid_plain : uuid_plain.
Proof.
  intros n. cbn. pose proof (dec_N_digits n) as Hd. split.
  - intros Hin. cbn in Hin. rewrite !elem_of_cons in Hin. destruct Hin as [?|[?|Hin]]; [done..|].
    rewrite Forall_forall in Hd. apply Hd in Hin. unfold slash in Hin. lia.
  - apply forallb_Forall. eapply Forall_impl; [exact Hd|]. intros c Hc. cbn in Hc. apply N.ltb_lt. lia.
Qed.

Lemma c_readdir_order l : readdir_order l ≡ₚ l.
Proof. done. Qed.

(** ** JSON text survives UTF-8 *)

Definition utf_ok (s : jstr) : Prop := is_jstr s = true /\ well_formed s = true.

Lemma utf_ok_app s t : utf_ok s -> utf_ok t -> utf_ok (s ++ t).
Proof.
  intros [Hs Hws] [Ht Hwt]. split; [by rewrite is_jstr_app, Hs, Ht|]. clear Hs Ht.
  revert Hws. induction s as [|h l s Hh Hl IH|h s Hc IH] using char_ind; intros H; [done|..].
  - cbn in *. rewrite Hh in *. rewrite Hl in *. by apply IH.
  - cbn [app well_formed] in *. destruct (is_high h) eqn:Eh.
    + destruct s as [|l s]; [done|]. rewrite (Hc eq_refl l s) in H by done. done.
    + to_prop. rewrite IH by done. by rewrite H.
Qed.

Lemma utf_ok_ascii s : forallb is_ascii s = true -> utf_ok s.
Proof.
  intros H. split; [|by apply ascii_well_formed]. apply forallb_Forall. apply forallb_Forall in H.
  eapply Forall_impl; [exact H|]. intros c. unfold is_ascii, is_unit. rewrite !N.ltb_lt. lia.
Qed.

Lemma utf_ok_join sep parts : utf_ok sep -> Forall utf_ok parts -> utf_ok (join sep parts).
Proof.
  intros Hs. induction 1 as [|p parts Hp Hps IH]; [done|]. destruct parts as [|q parts]; [done|].
  rewrite join_cons by done. auto using utf_ok_app.
Qed.

Lemma hex_digit_ascii d : (d < 16)%N -> is_ascii (hex_digit d) = true.
Proof. intros H. unfold hex_digit, is_ascii. case_match; to_prop; apply N.ltb_lt; lia. Qed.

Lemma utf_ok_escape c : is_unit c = true -> utf_ok (unicode_escape c).
Proof.
  intros H. apply utf_ok_ascii. unfold is_unit in H. apply N.ltb_lt in H. unfold unicode_escape, hex4. cbn [forallb].
  rewrite !hex_digit_ascii; [done|..]; zify; Z.to_euclidean_division_equations; lia.
Qed.

Lemma utf_ok_unit c : is_unit c = true -> is_high c = false -> is_low c = false -> utf_ok (quote_unit c).
Proof.
  intros Hu Hh Hl. unfold quote_unit. repeat case_match; try (by apply utf_ok_ascii); [by apply utf_ok_escape|].
  split; cbn; [by rewrite Hu|by rewrite Hh, Hl].
Qed.

Lemma utf_ok_quote s : is_jstr s = true -> utf_ok (json_quote s).
Proof.
  intros Hs. unfold json_quote. apply (utf_ok_app [34%N]); [by apply utf_ok_ascii|].
  apply utf_ok_app; [|by apply utf_ok_ascii].
  induction s as [|h l s Hh Hl IH|h s Hc IH] using char_ind; [done|..].
  - cbn in Hs. to_prop. cbn [quote_body]. rewrite Hh, Hl. apply (utf_ok_app [h; l]); [|by apply IH].
    split; cbn; [by rewrite H, H0|by rewrite Hh, Hl].
  - cbn in Hs. to_prop. cbn [quote_body]. destruct (is_high h) eqn:Eh.
    + destruct s as [|l s]; [by apply utf_ok_escape|]. rewrite (Hc eq_refl l s) by done.
      apply utf_ok_app; [by apply utf_ok_escape|by apply IH].
    + destruct (is_low h) eqn:El; apply utf_ok_app; auto using utf_ok_escape, utf_ok_unit.
Qed.

Lemma utf_ok_dec z : utf_ok (dec z).
Proof.
  apply utf_ok_ascii, forallb_Forall. assert (forall n, Forall (fun c => is_ascii c = true) (dec_N n)) as Hd.
  { intros n. eapply Forall_impl; [apply dec_N_digits|]. intros c Hc. apply N.ltb_lt. cbn in Hc. lia. }
  destruct z; cbn [dec]; [repeat constructor|apply Hd|]. by apply (Forall_app_2 _ [45%N]); [repeat constructor|apply Hd].
Qed.

Lemma utf_ok_text v : json_ok v = true -> utf_ok (text v).
Proof.
  induction v as [| | |b|n|s|items IH|b props IH] using value_rect'; intros Hok; try done.
  - by destruct b.
  - cbn in Hok. destruct n as [| |z|]; try done. unfold text. cbn. rewrite Hok. apply utf_ok_dec.
  - by apply utf_ok_quote.
  - cbn [json_ok] in Hok. rewrite stringify_arr by by apply forallb_Forall.
    apply utf_ok_app; [done|]. apply utf_ok_app; [|done]. apply utf_ok_join; [done|].
    apply forallb_Forall in Hok. apply Forall_map. rewrite Forall_forall in *. auto.
  - pose proof Hok as Hok'. cbn [json_ok] in Hok. to_prop. rewrite stringify_obj by by apply forallb_Forall.
    apply utf_ok_app; [done|]. apply utf_ok_app; [|done]. apply utf_ok_join; [done|].
    apply forallb_Forall in H0. apply Forall_map. rewrite Forall_forall in *. intros kv Hkv.
    specialize (H0 _ Hkv). to_prop. unfold member_text. auto using utf_ok_app, utf_ok_quote, utf_ok_ascii.
Qed.

Lemma folders_value_json_ok m : stored_map m -> json_ok (folders_value m) = true.
Proof.
  intros [_ Hm]. unfold folders_value. set (l := sort_by _ _).
  assert (l ≡ₚ map_entries m) as Hl by apply sort_by_perm.
  assert (forall kv, kv ∈ l -> stored_entry kv.1 kv.2) as Hst.
  { intros [k v] Hin. rewrite Hl in Hin. apply elem_of_map_to_list in Hin. by apply Hm. }
  assert (NoDup l.*1) as Hnd by (rewrite Hl; apply NoDup_fst_map_to_list).
  cbn [json_ok forallb fst snd]. rewrite is_jstr_js. cbn [andb].
  rewrite bool_decide_true by by apply NoDup_singleton. cbn [andb].
  rewrite andb_true_r, andb_true_iff. split.
  - apply bool_decide_eq_true. by rewrite <- list_fmap_compose.
  - apply forallb_Forall, Forall_map, Forall_forall. intros [k v] Hin. cbn [fst snd].
    destruct (Hst _ Hin) as (_ & _ & Hk & _ & c & Hc & Hcan). cbn [fst snd] in *. rewrite Hk.
    unfold metadata_value, cloneMetadata. cbn. rewrite Hc. cbn.
    destruct Hcan as [->|(ds & -> & _ & Hf)]; [done|]. cbn. rewrite !andb_true_r. apply forallb_Forall.
    eapply Forall_impl; [exact Hf|]. intros d [Hd _]. unfold is_hex in Hd. unfold is_unit.
    apply N.ltb_lt. repeat (apply orb_true_iff in Hd as [Hd|Hd]); to_prop; lia.
Qed.

Lemma c_yaml_round_trip : yaml_round_trip.
Proof.
  intros m Hm%folders_value_json_ok. cbn [parseYaml stringifyYaml c_yaml].
  rewrite (json_ok_text _ Hm). cbn [default]. destruct (utf_ok_text _ Hm) as [Hu Hw].
  rewrite decode_encode by done. by apply json_parse_stringify, json_ok_text.
Qed.

(** * The vault *)

Definition vault_base : fskey := [js "vault"].
Definition vault_ctx : VaultContext := {| root := js "/vault"; actor := Some (bare_actor AcSystem) |}.

(** A check of [tree_wf] that evaluates. *)
Definition tree_ok (f : tree) : bool :=
  forallb (fun kn => bool_decide (kn.1 <> []) && plain_segs kn.1 &&
    match node_at f (removelast kn.1) with Some (NDir _) => true | _ => false end) (map_to_list f).

Lemma tree_ok_wf f : tree_ok f = true -> tree_wf f.
Proof.
  intros Hf%forallb_Forall. rewrite Forall_forall in Hf.
  assert (forall k n, f !! k = Some n -> k <> [] /\ plain_segs k = true /\
    exists m, node_at f (removelast k) = Some (NDir m)) as H.
  { intros k n Hk%elem_of_map_to_list. apply Hf in Hk. cbn [fst] in Hk. to_prop. split_and!; [done..|].
    destruct (node_at f (removelast k)) as [[|t]|]; [done|eauto|done]. }
  split_and!.
  - destruct (f !! []) eqn:E; [|done]. by apply H in E as [? _].
  - intros k s n Hk. apply H in Hk as (_ & _ & Hd). by rewrite removelast_last in Hd.
  - intros k n Hk. by apply H in Hk as (_ & ? & _).
Qed.

Definition note_text : jstr := js "alpha" ++ 10%N :: js "beta gamma" ++ [10%N].
Definition example_map : FolderMetadataMap := own_map {[ js "notes" := {| color := Some (js "inherit") |} ]}.

Definition vault_files : tree := list_to_map [
  ([js "vault"], NDir 1);
  ([js "vault"; js "notes"], NDir 1);
  ([js "vault"; js "notes"; js "a.md"], NFile note_text 5 5 7);
  ([js "vault"; js ".kb1"], NDir 1);
  ([js "vault"; js ".kb1"; js "folders.yml"], NFile (encode (stringifyYaml (folders_value example_map))) 5 5 8)
].

Definition vault_world : world := {|
  w_fs := vault_files; w_now := 1700000000000; w_next_ino := 100; w_next_uuid := 0;
  w_mount := fun _ => 0%N; w_handlers := [1; 2]; w_delivered := []; w_warnings := 0 |}.

Lemma example_root : vault_root (VaultOps.root vault_ctx) vault_base.
Proof. split; vm_compute; done. Qed.

Lemma example_tree : vault_tree vault_base (w_fs vault_world).
Proof. split; [apply tree_ok_wf; by vm_compute|]. exists 1%Z. by vm_compute. Qed.

Lemma example_stored : stored_map example_map.
Proof.
  split; [done|]. intros k v. cbn [fm_own example_map own_map]. intros H. apply lookup_singleton_Some in H as [<- <-].
  split; [|split; [by vm_compute|split; [by vm_compute|split; [by vm_compute|]]]].
  - by apply (validate_ok Posix PKFolder (js "notes") (js "notes")); vm_compute.
  - exists (js "inherit"). split; [done|by left].
Qed.

Definition is_answer {E A} (r : result E (VaultResult A)) : bool :=
  match r with Ok (VOk _) => true | _ => false end.

Lemma answer {E A} (r : result E (VaultResult A) * world) :
  is_answer r.1 = true -> exists v, r = (Ok (VOk v), r.2).
Proof. destruct r as [[[v| ]|] w]; try done. by exists v. Qed.

(** Metadata read back from the example's file. *)
Lemma example_metadata :
  readFolderMetadataMap (VaultOps.root vault_ctx) vault_world = (Ok (VOk example_map), vault_world).
Proof. by vm_compute. Qed.
