(* ===== verification/VaultListing.v ===== *)
(** The tree walk: [walkEntries] never runs out of its bound, throws exactly when the
    cap is reached, and lists every visible entry of the vault within the depth, once. *)
From S2P Require Import Prelude JsString Utf8 Json NodePath VaultPath Artifact FileSystem IsoDate AuditLog FolderMetadata VaultOps VaultCalls Confinement CallEffects VaultView.

(** * The depth of a tree *)

(** The keys on the way to a key, itself included. *)
Definition prefixes (k : fskey) : list fskey := map (fun i => take i k) (seq 1 (length k)).

Lemma prefixes_nodup k : NoDup (prefixes k).
Proof.
  unfold prefixes. apply NoDup_fmap_2_strong; [|apply NoDup_seq].
  intros i j Hi%elem_of_seq Hj%elem_of_seq Heq%(f_equal length). rewrite !length_take in Heq. lia.
Qed.

Lemma key_length_size f k n : tree_wf f -> f !! k = Some n -> length k <= size f.
Proof.
  intros Hwf Hk. assert (length k = length (prefixes k)) as ->.
  { unfold prefixes. by rewrite length_map, length_seq. }
  rewrite <- (size_dom (D := gset (list (list N)))).
  rewrite <- (size_list_to_set (C := gset (list (list N))) (prefixes k)) by apply prefixes_nodup.
  apply subseteq_size. intros j Hj%elem_of_list_to_set. apply elem_of_dom.
  unfold prefixes in Hj. apply list_elem_of_fmap in Hj as (i & -> & Hi%elem_of_seq).
  destruct (decide (drop i k = [])) as [Hd|Hd].
  - exists n. rewrite <- (take_drop i k), Hd, app_nil_r in Hk. done.
  - rewrite <- (take_drop i k) in Hk. destruct (tree_wf_prefix _ _ _ _ Hwf Hk Hd) as [m Hm].
    exists (NDir m). rewrite node_at_lookup in Hm; [done|]. intros Ht%(f_equal length).
    rewrite length_take in Ht. simpl in Ht. lia.
Qed.

(** * The listing, without the cap *)

Lemma flat_map_bind {A B} (g : A -> list B) l : flat_map g l = l ≫= g.
Proof. induction l as [|x l IH]; [done|]. cbn [flat_map]. by rewrite IH. Qed.

Lemma children_nodup f k0 : NoDup (children f k0).
Proof.
  unfold children.
  pose proof (subtree_keys_nodup f k0) as Hnd.
  induction (subtree f k0) as [|[k n] l IH]; [constructor|].
  cbn [fmap list_fmap fst] in Hnd. apply NoDup_cons in Hnd as [Hk Hnd].
  cbn [omap list_omap fst snd]. destruct k as [|name [|]]; [by apply IH| |by apply IH].
  apply NoDup_cons. split; [|by apply IH]. intros Hin. apply list_elem_of_omap in Hin as ([k' n'] & Hin & Hs).
  cbn [fst snd] in Hs. destruct k' as [|name' [|]]; try done. injection Hs as -> ->.
  apply Hk, list_elem_of_fmap. by exists ([name], n).
Qed.

Section listing.
Context `{Host, NodeHost}.
Context (root : jstr) (base : fskey) (Hroot : vault_root root base).
Context (f : tree) (Hwf : tree_wf f) (Horder : forall l, readdir_order l ≡ₚ l).

Definition visible_children (segs : fskey) : list (jstr * node) :=
  filter (fun d => isInternalVaultPath (child_path (join [slash] segs) d.1) = false)
    (readdir_order (children f (base ++ segs))).

(** What the walk lists below a folder, in its order. *)
Fixpoint listing (fuel : nat) (segs : fskey) (depth maxDepth : Z) : list VaultEntry :=
  match fuel with
  | O => []
  | S fuel =>
      if (maxDepth <? depth)%Z then []
      else
        flat_map (fun d =>
          let rel := segs ++ [d.1] in
          if is_dir d.2
          then folder_entry (join [slash] rel) d.2 :: listing fuel rel (depth + 1) maxDepth
          else [file_entry (join [slash] rel) d.2])
        (visible_children segs)
  end.

(** [entries] and [new] together, unless that reaches the cap. *)
Definition capped (cap : Z) (entries new : list VaultEntry) : result exn (list VaultEntry) :=
  if (Z.of_nat (length (entries ++ new)) <? cap)%Z then Ok (entries ++ new) else Err ExEntryCap.

Lemma capped_app cap es l k w (g : list VaultEntry -> M (list VaultEntry)) (m : M (list VaultEntry)) :
  m w = (capped cap es l, w) ->
  ((Z.of_nat (length (es ++ l)) < cap)%Z -> g (es ++ l) w = (capped cap (es ++ l) k, w)) ->
  (m ≫= g) w = (capped cap es (l ++ k), w).
Proof.
  intros Hm Hg. unfold mbind, M_bind. rewrite Hm. unfold capped in *.
  destruct (Z.ltb_spec (Z.of_nat (length (es ++ l))) cap) as [Hl|Hl].
  - rewrite Hg by done. by rewrite <- app_assoc.
  - destruct (Z.ltb_spec (Z.of_nat (length (es ++ l ++ k))) cap); [|done].
    rewrite !length_app in *. lia.
Qed.

Lemma child_path_join segs name :
  plain_segs segs = true -> plain_segs [name] = true ->
  child_path (join [slash] segs) name = join [slash] (segs ++ [name]).
Proof.
  intros Hs Hn. unfold child_path. destruct (decide (segs = [])) as [->|Hne].
  - by rewrite bool_decide_eq_true_2.
  - rewrite bool_decide_eq_false_2 by by apply join_nonnil.
    assert (forall l, plain_segs l = true -> l <> [] -> split_on slash (join [slash] l) = l) as Hsplit.
    { intros l Hl%plain_segs_spec Hln. apply split_join; [done|]. by eapply Forall_impl; [done|]; intros ? []. }
    pose proof (Hsplit [name] Hn ltac:(done)) as Hname. cbn [join] in Hname.
    rewrite path_join_plain by (by rewrite ?Hsplit, ?Hname).
    by rewrite join_app.
Qed.

Definition row_of (segs : fskey) (d : jstr * node) : walk_row :=
  {| row_dirent := d.2; row_rel := join [slash] (segs ++ [d.1]); row_stat := d.2 |}.

Lemma stat_batch_run segs batch w :
  w_fs w = f -> plain_segs segs = true ->
  Forall (fun d => f !! (base ++ segs ++ [d.1]) = Some d.2) batch ->
  stat_batch root (join [slash] segs) batch w = (Ok (map (row_of segs) batch), w).
Proof.
  intros Hw Hs Hf. pose proof Hroot as [_ Hb Hbn].
  induction batch as [|[name n] batch IH]; [done|]. apply Forall_cons in Hf as [Hn Hf]. cbn [fst snd] in Hn.
  pose proof (proj2 (proj2 Hwf) _ _ Hn) as Hp. rewrite !plain_segs_app in Hp. to_prop.
  cbn [stat_batch]. rewrite child_path_join by done.
  assert (plain_segs (segs ++ [name]) = true) as Hsn by (rewrite plain_segs_app; by rewrite Hs).
  assert (split_on slash (join [slash] (segs ++ [name])) = segs ++ [name]) as Hsplit.
  { apply split_join; [by destruct segs|]. apply plain_segs_spec in Hsn.
    by eapply Forall_impl; [done|]; intros ? []. }
  rewrite (vaultPath_plain _ base Hroot), M_ret_bind by by rewrite Hsplit. rewrite Hsplit.
  rewrite (M_bind_run _ _ w n w).
  - by rewrite (M_bind_run _ _ _ _ _ (IH Hf)).
  - apply stat_run; [by rewrite plain_segs_app, Hb|by destruct base|by rewrite Hw|by rewrite Hw].
Qed.

Lemma walk_rows_run recurse new cap segs batch entries w :
  (forall d es, d ∈ batch -> is_dir d.2 = true -> (Z.of_nat (length es) < cap)%Z ->
     recurse (join [slash] (segs ++ [d.1])) es w = (capped cap es (new d), w)) ->
  (Z.of_nat (length entries) < cap)%Z ->
  walk_rows recurse cap (map (row_of segs) batch) entries w =
    (capped cap entries (flat_map (fun d =>
       if is_dir d.2 then folder_entry (join [slash] (segs ++ [d.1])) d.2 :: new d
       else [file_entry (join [slash] (segs ++ [d.1])) d.2]) batch), w).
Proof.
  revert entries. induction batch as [|d batch IH]; intros entries Hrec Hlt.
  - cbn. unfold capped. rewrite app_nil_r. by rewrite (proj2 (Z.ltb_lt _ _) Hlt).
  - cbn [map walk_rows flat_map row_of row_dirent row_rel row_stat].
    assert (forall e es, push_entry cap e es w = (capped cap es [e], w)) as Hpush.
    { intros e es. unfold push_entry, capped. rewrite Z.leb_antisym.
      destruct (Z.ltb_spec (Z.of_nat (length (es ++ [e]))) cap); done. }
    apply capped_app.
    + destruct (is_dir d.2) eqn:Ed; [|apply Hpush].
      change (folder_entry ?r ?n :: new d) with ([folder_entry r n] ++ new d).
      apply capped_app; [apply Hpush|]. intros Hl. apply Hrec; [set_solver|done..].
    + intros Hl. apply IH; [|done]. intros d' es Hd'. apply Hrec. set_solver.
Qed.

Lemma walk_batches_run recurse new cap segs batches entries w :
  w_fs w = f -> plain_segs segs = true ->
  Forall (fun d => f !! (base ++ segs ++ [d.1]) = Some d.2) (concat batches) ->
  (forall d es, d ∈ concat batches -> is_dir d.2 = true -> (Z.of_nat (length es) < cap)%Z ->
     recurse (join [slash] (segs ++ [d.1])) es w = (capped cap es (new d), w)) ->
  (Z.of_nat (length entries) < cap)%Z ->
  walk_batches recurse cap root (join [slash] segs) batches entries w =
    (capped cap entries (flat_map (fun d =>
       if is_dir d.2 then folder_entry (join [slash] (segs ++ [d.1])) d.2 :: new d
       else [file_entry (join [slash] (segs ++ [d.1])) d.2]) (concat batches)), w).
Proof.
  intros Hw Hs. revert entries. induction batches as [|b batches IH]; intros entries Hf Hrec Hlt.
  - cbn. unfold capped. rewrite app_nil_r. by rewrite (proj2 (Z.ltb_lt _ _) Hlt).
  - cbn [concat walk_batches] in *. apply Forall_app in Hf as [Hfb Hf].
    rewrite (M_bind_run _ _ _ _ _ (stat_batch_run _ _ _ Hw Hs Hfb)), flat_map_app.
    apply capped_app.
    + apply walk_rows_run; [|done]. intros d es Hd. apply Hrec. set_solver.
    + intros Hl. apply IH; [done| |done]. intros d es Hd. apply Hrec. set_solver.
Qed.

Lemma visible_children_nodes segs :
  Forall (fun d => f !! (base ++ segs ++ [d.1]) = Some d.2) (visible_children segs).
Proof.
  apply Forall_forall. intros [name n] [_ Hin]%list_elem_of_filter. rewrite Horder in Hin.
  apply elem_of_children in Hin. by rewrite <- app_assoc in Hin.
Qed.

(** The walk, in terms of the listing: the bound on the depth suffices. *)
Lemma walkEntries_run fuel : forall segs depth maxDepth cap entries w,
  w_fs w = f -> plain_segs segs = true ->
  (exists m, f !! (base ++ segs) = Some (NDir m)) ->
  (forall k n, f !! k = Some n -> length k < length (base ++ segs) + fuel) ->
  walkEntries fuel root (join [slash] segs) depth maxDepth cap entries w =
    (if (cap <=? Z.of_nat (length entries))%Z then Err ExEntryCap
     else capped cap entries (listing fuel segs depth maxDepth), w).
Proof.
  induction fuel as [|fuel IH]; intros segs depth maxDepth cap entries w Hw Hs [m Hm] Hlen.
  { apply Hlen in Hm. lia. }
  cbn [walkEntries listing]. destruct (Z.leb_spec cap (Z.of_nat (length entries))) as [|Hlt]; [done|].
  destruct (maxDepth <? depth)%Z.
  { unfold capped. rewrite app_nil_r. by rewrite (proj2 (Z.ltb_lt _ _) Hlt). }
  pose proof Hroot as [Hr Hb Hbn].
  assert (plain_segs (base ++ segs) = true) as Hbs by by rewrite plain_segs_app, Hb.
  assert (dir_path root (join [slash] segs) = mret (abs_path (base ++ segs))) as ->.
  { unfold dir_path. destruct (decide (segs = [])) as [->|Hne].
    - rewrite bool_decide_eq_true_2 by done. by rewrite app_nil_r, Hr.
    - rewrite bool_decide_eq_false_2 by by apply join_nonnil.
      assert (split_on slash (join [slash] segs) = segs) as Hsplit.
      { apply split_join; [done|]. apply plain_segs_spec in Hs. by eapply Forall_impl; [done|]; intros ? []. }
      rewrite (vaultPath_plain _ base Hroot) by by rewrite Hsplit. by rewrite Hsplit. }
  rewrite M_ret_bind.
  assert (fs_readdir (abs_path (base ++ segs)) w = (Ok (readdir_order (children f (base ++ segs))), w)) as Hrd.
  { unfold fs_readdir. rewrite (M_bind_run _ _ w (NDir m) w).
    - run. by rewrite path_key_abs, Hw.
    - apply stat_run; [done|by destruct base|by rewrite Hw|by rewrite Hw]. }
  rewrite (M_bind_run _ _ _ _ _ Hrd). fold (visible_children segs).
  rewrite (walk_batches_run _ (fun d => listing fuel (segs ++ [d.1]) (depth + 1) maxDepth)); try done.
  - by rewrite concat_chunks_of by (done || unfold STAT_BATCH_SIZE; lia).
  - rewrite concat_chunks_of by (done || unfold STAT_BATCH_SIZE; lia). apply visible_children_nodes.
  - rewrite concat_chunks_of by (done || unfold STAT_BATCH_SIZE; lia). intros d es Hd Hdir Hes.
    pose proof (visible_children_nodes segs) as Hn. rewrite Forall_forall in Hn. apply Hn in Hd.
    rewrite IH; [|done| | |].
    + by rewrite (proj2 (Z.leb_gt _ _) Hes).
    + pose proof (proj2 (proj2 Hwf) _ _ Hd) as Hp. rewrite !plain_segs_app in *. to_prop.
      apply andb_true_iff. done.
    + destruct d as [name [|t]]; [done|]. eauto.
    + intros k n Hk. apply Hlen in Hk. rewrite !length_app in *. simpl. lia.
Qed.

(** ** What the listing holds *)

Definition entry_for (rel : jstr) (n : node) : VaultEntry :=
  if is_dir n then folder_entry rel n else file_entry rel n.

Lemma entry_for_path rel n : ve_path (entry_for rel n) = rel.
Proof. unfold entry_for. by destruct (is_dir n). Qed.

Lemma internal_join l :
  plain_segs l = true -> l <> [] -> isInternalVaultPath (join [slash] l) = internal_key l.
Proof.
  intros Hl Hn. unfold isInternalVaultPath. rewrite bool_decide_eq_false_2 by by apply join_nonnil.
  rewrite split_join; [done|done|]. apply plain_segs_spec in Hl. by eapply Forall_impl; [done|]; intros ? [].
Qed.

Lemma elem_of_visible_children segs name n :
  plain_segs segs = true ->
  (name, n) ∈ visible_children segs <->
  f !! (base ++ segs ++ [name]) = Some n /\ internal_key (segs ++ [name]) = false.
Proof.
  intros Hs. unfold visible_children. rewrite list_elem_of_filter, Horder, elem_of_children. cbn [fst].
  rewrite <- app_assoc. split.
  - intros [Hi Hn]. split; [done|]. pose proof (proj2 (proj2 Hwf) _ _ Hn) as Hp.
    rewrite !plain_segs_app in Hp. to_prop. rewrite child_path_join in Hi by done.
    rewrite internal_join in Hi; [done|by apply plain_segs_cons2|by destruct segs].
  - intros [Hn Hi]. split; [|done]. pose proof (proj2 (proj2 Hwf) _ _ Hn) as Hp.
    rewrite !plain_segs_app in Hp. to_prop. rewrite child_path_join by done.
    rewrite internal_join; [done|by apply plain_segs_cons2|by destruct segs].
Qed.

Lemma elem_of_listing fuel maxDepth e : forall segs depth,
  plain_segs segs = true -> (exists m, f !! (base ++ segs) = Some (NDir m)) ->
  (forall k n, f !! k = Some n -> length k < length (base ++ segs) + fuel) ->
  e ∈ listing fuel segs depth maxDepth <->
  exists s n, s <> [] /\ f !! (base ++ segs ++ s) = Some n /\ internal_key (segs ++ s) = false /\
    (depth + Z.of_nat (length s) - 1 <= maxDepth)%Z /\ e = entry_for (join [slash] (segs ++ s)) n.
Proof.
  induction fuel as [|fuel IH]; intros segs depth Hs [m Hm] Hlen; [apply Hlen in Hm; lia|].
  cbn [listing]. destruct (Z.ltb_spec maxDepth depth) as [Hd|Hd].
  { split; [by intros ?%elem_of_nil|]. intros (s & n & Hsn & _ & _ & Hb & _). destruct s; [done|].
    simpl in Hb. lia. }
  assert (forall name n, f !! (base ++ segs ++ [name]) = Some n -> plain_segs (segs ++ [name]) = true) as Hplain.
  { intros name n Hn. pose proof (proj2 (proj2 Hwf) _ _ Hn) as Hp. rewrite plain_segs_app in Hp. by to_prop. }
  assert (forall name n k, f !! k = Some n -> length k < length (base ++ segs ++ [name]) + fuel) as Hlen'.
  { intros name n k Hk%Hlen. rewrite !length_app in *. simpl. lia. }
  rewrite list_elem_of_In, in_flat_map. setoid_rewrite <- list_elem_of_In. split.
  - intros ([name n] & [Hn Hi]%elem_of_visible_children & He); [|done]. cbn [fst snd] in *.
    assert (e = entry_for (join [slash] (segs ++ [name])) n \/
      (is_dir n = true /\ e ∈ listing fuel (segs ++ [name]) (depth + 1) maxDepth)) as [->|[Hdir He']].
    { unfold entry_for. destruct (is_dir n); [apply elem_of_cons in He as [->|He]; auto|].
      apply list_elem_of_singleton in He as ->. auto. }
    + exists [name], n. split_and!; [done..|simpl; lia|done].
    + apply IH in He' as (s & n' & Hsn & Hk & Hi' & Hb & ->); [|by eapply Hplain| |].
      * exists (name :: s), n'. rewrite <- !app_assoc in *. split_and!; [done..|simpl; lia|done].
      * destruct n; [done|eauto].
      * intros k u Hk. by eapply Hlen'.
  - intros (s & n & Hsn & Hk & Hi & Hb & ->). destruct s as [|name s]; [done|].
    destruct (decide (s = [])) as [->|Hs'].
    + exists (name, n). rewrite elem_of_visible_children by done. split; [done|]. cbn [fst snd].
      unfold entry_for. destruct (is_dir n); set_solver.
    + replace (base ++ segs ++ name :: s) with ((base ++ segs ++ [name]) ++ s) in Hk
        by by rewrite <- !app_assoc.
      destruct (tree_wf_prefix _ _ _ _ Hwf Hk Hs') as [t Ht].
      rewrite node_at_lookup in Ht by (intros [_ [_ ?]%app_eq_nil]%app_eq_nil; done).
      exists (name, NDir t). rewrite elem_of_visible_children by done.
      change (name :: s) with ([name] ++ s) in *. rewrite (app_assoc segs) in *.
      rewrite internal_key_app in Hi. apply orb_false_iff in Hi as [Hi1 Hi2]. split; [done|]. cbn [fst snd is_dir].
      apply elem_of_cons. right. apply IH; [by eapply Hplain|by exists t|intros k u ?; by eapply Hlen'|].
      exists s, n. rewrite internal_key_app, Hi1, Hi2. rewrite <- !app_assoc in *. cbn [app] in *.
      split_and!; [done..| |done]. cbn [length] in Hb. lia.
Qed.

Lemma join_plain_inj l k :
  plain_segs l = true -> plain_segs k = true -> l <> [] -> k <> [] ->
  join [slash] l = join [slash] k -> l = k.
Proof.
  intros Hl%plain_segs_spec Hk%plain_segs_spec Hln Hkn Heq%(f_equal (split_on slash)).
  rewrite !split_join in Heq; [done|done|by eapply Forall_impl; [done|]; intros ? []|done|].
  by eapply Forall_impl; [done|]; intros ? [].
Qed.

(** The path of an entry of the listing determines it. *)
Lemma listing_paths fuel maxDepth segs depth e e' :
  plain_segs segs = true -> (exists m, f !! (base ++ segs) = Some (NDir m)) ->
  (forall k n, f !! k = Some n -> length k < length (base ++ segs) + fuel) ->
  e ∈ listing fuel segs depth maxDepth -> e' ∈ listing fuel segs depth maxDepth ->
  ve_path e = ve_path e' -> e = e'.
Proof.
  intros Hs Hm Hlen He He' Heq.
  apply elem_of_listing in He as (s & n & Hsn & Hk & _ & _ & ->); [|done..].
  apply elem_of_listing in He' as (s' & n' & Hsn' & Hk' & _ & _ & ->); [|done..].
  rewrite !entry_for_path in Heq.
  pose proof (proj2 (proj2 Hwf) _ _ Hk) as Hp. pose proof (proj2 (proj2 Hwf) _ _ Hk') as Hp'.
  rewrite plain_segs_app in Hp, Hp'. to_prop.
  apply join_plain_inj in Heq; [|done|done|by destruct segs|by destruct segs].
  rewrite Heq in Hk. rewrite Hk in Hk'. injection Hk' as ->. by rewrite Heq.
Qed.

Lemma visible_children_nodup segs : NoDup (visible_children segs).
Proof.
  apply NoDup_filter. rewrite Horder. apply children_nodup.
Qed.

Lemma listing_nodup fuel maxDepth : forall segs depth,
  plain_segs segs = true -> (exists m, f !! (base ++ segs) = Some (NDir m)) ->
  (forall k n, f !! k = Some n -> length k < length (base ++ segs) + fuel) ->
  NoDup (listing fuel segs depth maxDepth).
Proof.
  induction fuel as [|fuel IH]; intros segs depth Hs [m Hm] Hlen; [apply Hlen in Hm; lia|].
  cbn [listing]. destruct (maxDepth <? depth)%Z; [constructor|].
  assert (forall name n, (name, n) ∈ visible_children segs ->
    plain_segs (segs ++ [name]) = true /\
    (forall k u, f !! k = Some u -> length k < length (base ++ segs ++ [name]) + fuel) /\
    (is_dir n = true -> exists t, f !! (base ++ segs ++ [name]) = Some (NDir t))) as Hchild.
  { intros name n [Hn _]%elem_of_visible_children; [|done]. split_and!.
    - pose proof (proj2 (proj2 Hwf) _ _ Hn) as Hp. rewrite plain_segs_app in Hp. by to_prop.
    - intros k u Hk%Hlen. rewrite !length_app in *. simpl. lia.
    - intros Hd. destruct n; [done|eauto]. }
  set (g := fun d => if is_dir d.2 then _ else _).
  assert (forall d e, d ∈ visible_children segs -> e ∈ g d ->
    exists s n, f !! (base ++ segs ++ d.1 :: s) = Some n /\ e = entry_for (join [slash] (segs ++ d.1 :: s)) n) as Hg.
  { intros [name n] e Hd He. destruct (Hchild _ _ Hd) as (Hp & Hl & Hdir).
    apply elem_of_visible_children in Hd as [Hn _]; [|done].
    unfold g in He. cbn [fst snd] in *. destruct (is_dir n) eqn:Ed.
    - apply elem_of_cons in He as [->|He].
      + exists [], n. split; [done|]. unfold entry_for. by rewrite Ed.
      + apply elem_of_listing in He as (s & u & _ & Hk & _ & _ & ->); [|done|by apply Hdir|done].
        exists s, u. by rewrite <- !app_assoc in *.
    - apply list_elem_of_singleton in He as ->. exists [], n. split; [done|]. unfold entry_for. by rewrite Ed. }
  rewrite flat_map_bind.
  apply NoDup_bind; [| |apply visible_children_nodup].
  - intros [n1 u1] [n2 u2] e Hd1 Hd2 He1 He2.
    destruct (Hg _ _ Hd1 He1) as (s1 & v1 & Hk1 & ->). destruct (Hg _ _ Hd2 He2) as (s2 & v2 & Hk2 & Heq).
    apply (f_equal ve_path) in Heq. rewrite !entry_for_path in Heq. cbn [fst] in *.
    pose proof (proj2 (proj2 Hwf) _ _ Hk1) as Hp1. pose proof (proj2 (proj2 Hwf) _ _ Hk2) as Hp2.
    rewrite plain_segs_app in Hp1, Hp2. to_prop.
    apply join_plain_inj in Heq; [|done|done|by destruct segs|by destruct segs].
    apply app_inv_head in Heq. injection Heq as -> _.
    apply elem_of_visible_children in Hd1 as [Hd1 _], Hd2 as [Hd2 _]; [|done..]. congruence.
  - intros [name n] Hd. destruct (Hchild _ _ Hd) as (Hp & Hl & Hdir). unfold g. cbn [fst snd] in *.
    destruct (is_dir n) eqn:Ed; [|apply NoDup_singleton]. apply NoDup_cons. split; [|by apply IH; [|apply Hdir|]].
    intros He. apply elem_of_listing in He as (s & u & Hsn & Hk & _ & _ & Heq); [|done|by apply Hdir|done].
    apply (f_equal ve_path) in Heq. rewrite entry_for_path in Heq. cbn in Heq.
    pose proof (proj2 (proj2 Hwf) _ _ Hk) as Hpk. rewrite plain_segs_app in Hpk. to_prop.
    apply join_plain_inj in Heq; [|done|done|by destruct segs|by destruct segs].
    rewrite <- (app_nil_r (segs ++ [name])) in Heq at 1. by apply app_inv_head in Heq.
Qed.

End listing.

(** * The operations *)

Section operations.
Context `{Host, JsonHost, NodeHost, AuditHandlers, YamlLib}.
Context (ctx : VaultContext) (base : fskey) (Hroot : vault_root (root ctx) base).

(** The entries a walk of the vault may list: visible, below [under], and no deeper
    than [depth] below its children. *)
Definition listed (f : tree) (under : fskey) (depth : Z) (e : VaultEntry) : Prop :=
  exists s n, s <> [] /\ f !! (base ++ under ++ s) = Some n /\ internal_key (under ++ s) = false /\
    (Z.of_nat (length s) - 1 <= depth)%Z /\ e = entry_for (join [slash] (under ++ s)) n.

(** The walk as the operations call it. *)
Lemma walk_run under maxDepth cap w :
  vault_tree base (w_fs w) -> (forall l, readdir_order l ≡ₚ l) -> (0 < cap)%Z ->
  plain_segs under = true -> (exists m, w_fs w !! (base ++ under) = Some (NDir m)) ->
  exists l, NoDup (map ve_path l) /\ (forall e, e ∈ l <-> listed (w_fs w) under maxDepth e) /\
    walk (root ctx) (join [slash] under) maxDepth cap w =
      (if (Z.of_nat (length l) <? cap)%Z then Ok l else Err ExEntryCap, w).
Proof.
  intros [Hwf _] Horder Hcap Hu Hdir.
  assert (forall k n, w_fs w !! k = Some n -> length k < length (base ++ under) + walk_fuel (w_fs w)) as Hlen.
  { intros k n Hk%key_length_size; [|done]. unfold walk_fuel. lia. }
  exists (listing base (w_fs w) (walk_fuel (w_fs w)) under 0 maxDepth). split_and!.
  - apply NoDup_fmap_2_strong; [|by apply (listing_nodup (root ctx) base Hroot)].
    intros e e' He He'. by eapply (listing_paths (root ctx) base Hroot).
  - intros e. rewrite (elem_of_listing (root ctx) base Hroot) by done. unfold listed. by setoid_rewrite Z.add_0_l.
  - unfold walk. unfold asks at 1. unfold mbind at 1, M_bind at 1.
    rewrite (walkEntries_run _ base Hroot (w_fs w)) by done. cbn [length Z.of_nat].
    by rewrite (proj2 (Z.leb_gt cap (Z.of_nat 0)) Hcap).
Qed.

(** The segments of the [under] input. *)
Definition under_segs (under : option jstr) : fskey :=
  match under with Some ((_ :: _) as p) => split_on slash p | _ => [] end.

Lemma optional_path_run under w :
  is_ok (validateOptionalVaultPath Posix under PKFolder) = true ->
  exists u, lift_path (validateOptionalVaultPath Posix under PKFolder) w = (Ok u, w) /\
    default [] u = join [slash] (under_segs under) /\ plain_segs (under_segs under) = true.
Proof.
  intros Hval. destruct under as [[|c p]|]; cbn [validateOptionalVaultPath] in *;
    [by exists None|..|by exists None].
  destruct (validateVaultPath _ _ _) as [q|] eqn:E; [|done]. apply validate_ok in E as [-> Hp].
  exists (Some (c :: p)).
  split_and!; [done|symmetry; apply (join_split slash (c :: p))|exact (valid_path_plain _ _ _ Hp)].
Qed.

(** C38: [listVaultTree] on a folder of the vault, with metadata that can be read: it
    terminates and answers every visible file and folder below the folder down to the
    given depth, each once and nothing else, with the metadata of the folders; unless
    there are as many as the cap, which it answers as a failure.  Nothing under a
    reserved name is ever listed. *)
Theorem listVaultTree_complete input m w :
  vault_tree base (w_fs w) -> (forall l, readdir_order l ≡ₚ l) ->
  let under := under_segs (li_under input) in
  let depth := default DEFAULT_DEPTH (li_depth input) in
  let cap := default DEFAULT_ENTRY_CAP (li_entryCap input) in
  (0 < cap)%Z ->
  is_ok (validateOptionalVaultPath Posix (li_under input) PKFolder) = true ->
  (exists t, w_fs w !! (base ++ under) = Some (NDir t)) ->
  readFolderMetadataMap (root ctx) w = (Ok (VOk m), w) ->
  exists l, NoDup (map ve_path l) /\ (forall e, e ∈ l <-> listed (w_fs w) under depth e) /\
    listVaultTree ctx input w =
      (Ok (if (Z.of_nat (length l) <? cap)%Z then VOk (attachFolderMetadata l m)
           else VFail entry_cap_exceeded (js "tree exceeds " ++ dec cap ++ js " entries")), w).
Proof.
  intros Hv Horder under depth cap Hcap Hval Hdir Hmeta.
  assert (exists u, lift_path (validateOptionalVaultPath Posix (li_under input) PKFolder) w = (Ok u, w) /\
    default [] u = join [slash] under /\ plain_segs under = true) as (u & Hu & Hud & Hup)
    by by apply optional_path_run.
  destruct (walk_run under depth cap w Hv Horder Hcap Hup Hdir) as (l & Hnd & Hl & Hwalk).
  exists l. split; [done|]. split; [done|].
  unfold listVaultTree, try_catch. fold cap depth.
  unfold fmap, M_fmap. unfold mbind at 1, M_bind at 1. rewrite Hu, Hud.
  pose proof (base_plain ctx base Hroot _ Hup) as Hk. pose proof (base_ne ctx base Hroot under) as Hkn.
  destruct Hdir as [t Ht].
  assert (dir_path (root ctx) (join [slash] under) = mret (abs_path (base ++ under))) as ->.
  { unfold dir_path. destruct (decide (under = [])) as [->|Hne].
    - rewrite bool_decide_eq_true_2 by done. rewrite app_nil_r. by destruct Hroot as [-> _ _].
    - rewrite bool_decide_eq_false_2 by by apply join_nonnil.
      assert (split_on slash (join [slash] under) = under) as Hsplit.
      { apply split_join; [done|]. apply plain_segs_spec in Hup. by eapply Forall_impl; [done|]; intros ? []. }
      rewrite (vaultPath_plain _ base Hroot) by by rewrite Hsplit. by rewrite Hsplit. }
  rewrite M_ret_bind.
  assert (reachable (base ++ under) (w_fs w)) as Hre.
  { intros Hw. by rewrite (tree_wf_walk _ _ _ (proj1 Hv) Ht) in Hw. }
  rewrite (M_bind_run _ _ _ _ _ (statOrNull_run _ Hk Hkn _ (proj1 Hv) Hre)), Ht. cbn [from_option is_dir negb].
  unfold mbind at 1, M_bind at 1. rewrite Hwalk. destruct (Z.of_nat (length l) <? cap)%Z; [|done].
  by rewrite (M_bind_run _ _ _ _ _ Hmeta).
Qed.

(** [getVaultInfo] counts the visible files and folders of the whole vault, or
    answers that there are at least the cap. *)
Theorem getVaultInfo_counts w :
  vault_tree base (w_fs w) -> (forall l, readdir_order l ≡ₚ l) ->
  exists l, NoDup (map ve_path l) /\ (forall e, e ∈ l <-> listed (w_fs w) [] MAX_SAFE_INTEGER e) /\
    getVaultInfo ctx w =
      (Ok (if (Z.of_nat (length l) <? DEFAULT_ENTRY_CAP)%Z
           then VOk {| rootName := last_segment base; fileCount := count_kind EkFile l;
                       folderCount := count_kind EkFolder l |}
           else VFail entry_cap_exceeded (js "vault exceeds 5000 entries")), w).
Proof.
  intros Hv Horder. destruct Hv as [Hwf [t Ht]]. pose proof Hroot as [Hr Hb Hbn].
  destruct (walk_run [] MAX_SAFE_INTEGER DEFAULT_ENTRY_CAP w) as (l & Hnd & Hl & Hwalk);
    [by split; [|exists t]|done..|rewrite app_nil_r; by exists t|].
  exists l. split; [done|]. split; [done|]. unfold getVaultInfo, try_catch.
  assert (fs_mkdir (root ctx) w = (Ok tt, w)) as Hmk.
  { unfold fs_mkdir. rewrite Hr, path_key_abs by done. rewrite make_dirs_existing; [by destruct w|].
    intros s Hs [u ->]%below_spec. cbn [app]. destruct (decide (u = [])) as [->|Hu].
    - rewrite app_nil_r in Ht. eauto.
    - destruct (tree_wf_prefix _ _ _ _ Hwf Ht Hu) as [m Hm]. rewrite node_at_lookup in Hm by done. eauto. }
  rewrite (M_bind_run _ _ _ _ _ Hmk). unfold mbind at 1, M_bind at 1. cbn [join] in Hwalk. rewrite Hwalk.
  destruct (Z.of_nat (length l) <? DEFAULT_ENTRY_CAP)%Z; [|done]. cbn. unfold mret, M_ret. do 4 f_equal.
  rewrite Hr, resolve_abs by done. by apply basename_abs.
Qed.

End operations.
