(* ===== verification/Search.v ===== *)
(** [packages/vault-core/src/search.ts]: the full-text search of a vault. *)
From S2P Require Import Prelude JsString Utf8 Json NodePath VaultPath FileSystem FolderMetadata VaultOps VaultCalls Confinement CallEffects VaultView VaultListing.

(** * Definitions *)

Record SearchInput := {
  si_q : jstr;
  si_under : option jstr;
  si_context : option number;
  si_limit : option number;
  si_offset : option number
}.

Record SearchHit := {
  hit_path : jstr;
  hit_line : Z;
  hit_lineText : jstr;
  hit_before : list jstr;
  hit_after : list jstr
}.

Record SearchResult := {
  sr_q : jstr;
  sr_under : jstr;
  sr_limit : Z;
  sr_offset : Z;
  sr_total : Z;
  sr_truncated : bool;
  sr_results : list SearchHit
}.

Definition DEFAULT_CONTEXT_LINES : Z := 2.
Definition MAX_CONTEXT_LINES : Z := 5.
Definition DEFAULT_SEARCH_LIMIT : Z := 20.
Definition MAX_SEARCH_LIMIT : Z := 100.
Definition SEARCH_ENTRY_CAP : nat := 5000.

(** [Math.floor] and the sign of a finite number. *)
Definition num_floor (n : number) : Z :=
  match n with
  | Int z => z
  | Frac m bits => m / 2 ^ Zpos bits
  | _ => 0
  end.
Definition num_sign (n : number) : Z :=
  match n with Int z | Frac z _ => Z.sgn z | _ => 0 end.

Definition clampPositiveInteger (value : option number) (fallback max : Z) : Z :=
  match value with
  | Some n => if negb (is_finite n) || (num_sign n <=? 0)%Z then fallback else Z.min (num_floor n) max
  | None => fallback
  end.

Definition clampNonNegativeInteger (value : option number) (fallback max : Z) : Z :=
  match value with
  | Some n => if negb (is_finite n) || (num_sign n <? 0)%Z then fallback else Z.min (num_floor n) max
  | None => fallback
  end.

Definition isExcludedSearchPath (relPath : jstr) : bool :=
  isInternalVaultPath relPath || jeqb relPath (js "trash") || starts_with relPath (js "trash/").

Definition isMarkdownLikePath (relPath : jstr) : bool :=
  ends_with relPath (js ".md") || ends_with relPath (js ".markdown") || ends_with relPath (js ".txt").

Section search.
Context `{Host, NodeHost}.

(** The loop over the names of a folder; [recurse] walks a folder. *)
Fixpoint search_dirents (recurse : jstr -> list jstr -> M (bool * list jstr)) (relDir : jstr)
  (dirents : list (jstr * node)) (files : list jstr) : M (bool * list jstr) :=
  match dirents with
  | [] => mret (false, files)
  | (name, dirent) :: dirents =>
      let rel := child_path relDir name in
      if isExcludedSearchPath rel then search_dirents recurse relDir dirents files
      else if is_dir dirent then
        r ← recurse rel files;
        if (r.1 : bool) then mret (true, r.2) else search_dirents recurse relDir dirents r.2
      else if isMarkdownLikePath rel then
        let files := files ++ [rel] in
        if (SEARCH_ENTRY_CAP <=? length files)%nat then mret (true, files)
        else search_dirents recurse relDir dirents files
      else search_dirents recurse relDir dirents files
  end.

Fixpoint search_walk (fuel : nat) (root relDir : jstr) (files : list jstr) : M (bool * list jstr) :=
  match fuel with
  | O => throw ExFuel
  | S fuel =>
      absDir ← dir_path root relDir;
      dirents ← fs_readdir absDir;
      search_dirents (search_walk fuel root) relDir dirents files
  end.

Definition collectSearchableFiles (root under : jstr) : M (list jstr * bool) :=
  start ← dir_path root under;
  startStat ← statOrNull start;
  if negb (from_option is_dir false startStat) then mret ([], false)
  else
    f ← asks w_fs;
    r ← search_walk (walk_fuel f) root under [];
    mret (sort_by locale_compare r.2, r.1).

(** [lines.slice(Math.max(0, index - context), index)] and the lines after. *)
Definition context_before (lines : list jstr) (index context : nat) : list jstr :=
  take (index - (index - context)) (drop (index - context) lines).
Definition context_after (lines : list jstr) (index context : nat) : list jstr :=
  take context (drop (S index) lines).

Definition hit_at (path : jstr) (lines : list jstr) (context index : nat) (lineText : jstr) : SearchHit :=
  {| hit_path := path; hit_line := Z.of_nat index + 1; hit_lineText := lineText;
     hit_before := context_before lines index context;
     hit_after := context_after lines index context |}.

Definition line_matches (lowerQuery lineText : jstr) : bool :=
  includes (to_locale_lower lineText) lowerQuery.

(** The counters of the scan: [total] and [results]. *)
Definition scan_state := (nat * list SearchHit)%type.

(** The loop over the lines of a file. *)
Fixpoint scan_lines (path : jstr) (lowerQuery : jstr) (context : nat) (limit offset : Z)
  (lines rest : list jstr) (index : nat) (st : scan_state) : scan_state :=
  match rest with
  | [] => st
  | lineText :: rest =>
      let st' :=
        if negb (line_matches lowerQuery lineText) then st
        else
          let matchIndex := st.1 in
          let total := S st.1 in
          if (Z.of_nat matchIndex <? offset)%Z || (limit <=? Z.of_nat (length st.2))%Z
          then (total, st.2)
          else (total, st.2 ++ [hit_at path lines context index lineText]) in
      scan_lines path lowerQuery context limit offset lines rest (S index) st'
  end.

(** The loop over the files. *)
Fixpoint scan_files (root : jstr) (lowerQuery : jstr) (context : nat) (limit offset : Z)
  (files : list jstr) (st : scan_state) : M scan_state :=
  match files with
  | [] => mret st
  | filePath :: files =>
      absolute ← vaultPath root filePath;
      content ← decode <$> fs_readFile absolute;
      let lines := split_on 10 content in
      scan_files root lowerQuery context limit offset files
        (scan_lines filePath lowerQuery context limit offset lines lines 0 st)
  end.

Definition searchVaultFiles (root : jstr) (input : SearchInput) : M SearchResult :=
  let query := trim (si_q input) in
  let limit := clampPositiveInteger (si_limit input) DEFAULT_SEARCH_LIMIT MAX_SEARCH_LIMIT in
  let offset := clampNonNegativeInteger (si_offset input) 0 MAX_SAFE_INTEGER in
  if bool_decide (query = []) then
    mret {| sr_q := si_q input; sr_under := []; sr_limit := limit; sr_offset := offset;
            sr_total := 0; sr_truncated := false; sr_results := [] |}
  else
    under ← default [] <$> lift_path (validateOptionalVaultPath Posix (si_under input) PKFolder);
    let context := clampNonNegativeInteger (si_context input) DEFAULT_CONTEXT_LINES MAX_CONTEXT_LINES in
    collected ← collectSearchableFiles root under;
    let lowerQuery := to_locale_lower query in
    st ← scan_files root lowerQuery (Z.to_nat context) limit offset collected.1 (0, []);
    mret {| sr_q := si_q input; sr_under := under; sr_limit := limit; sr_offset := offset;
            sr_total := Z.of_nat st.1; sr_truncated := collected.2; sr_results := st.2 |}.

End search.

(** * Bounds of the input *)

Lemma clampNonNegative_range value fallback max :
  (0 <= fallback <= max)%Z -> (0 <= clampNonNegativeInteger value fallback max <= max)%Z.
Proof.
  intros Hf. unfold clampNonNegativeInteger. destruct value as [n|]; [|done].
  destruct (negb (is_finite n) || _) eqn:E; [done|]. to_prop.
  assert (0 <= num_floor n)%Z; [|lia].
  destruct n as [| |z|m b]; try done; cbn [num_sign num_floor] in *; [lia|].
  apply Z.div_pos; [lia|]. apply Z.pow_pos_nonneg; lia.
Qed.

Lemma clampPositive_range value fallback max :
  (0 <= fallback <= max)%Z -> (0 <= clampPositiveInteger value fallback max <= max)%Z.
Proof.
  intros Hf. unfold clampPositiveInteger. destruct value as [n|]; [|done].
  destruct (negb (is_finite n) || _) eqn:E; [done|]. to_prop.
  assert (0 <= num_floor n)%Z; [|lia].
  destruct n as [| |z|m b]; try done; cbn [num_sign num_floor] in *; [lia|].
  apply Z.div_pos; [lia|]. apply Z.pow_pos_nonneg; lia.
Qed.

(** * The scan *)

(** Every hit of a file, in line order. *)
Fixpoint line_hits `{Host} (path lowerQuery : jstr) (context : nat) (lines rest : list jstr) (index : nat)
  : list SearchHit :=
  match rest with
  | [] => []
  | lineText :: rest =>
      (if line_matches lowerQuery lineText then [hit_at path lines context index lineText] else [])
      ++ line_hits path lowerQuery context lines rest (S index)
  end.

Definition file_hits `{Host} (lowerQuery : jstr) (context : nat) (path content : jstr) : list SearchHit :=
  let lines := split_on 10 content in line_hits path lowerQuery context lines lines 0.

(** The page of a list of hits. *)
Definition page (limit offset : Z) (all : list SearchHit) : list SearchHit :=
  take (Z.to_nat limit) (drop (Z.to_nat offset) all).

(** What the scan keeps: the number of hits so far, and their page. *)
Definition scanned (limit offset : Z) (all : list SearchHit) (st : scan_state) : Prop :=
  st.1 = length all /\ st.2 = page limit offset all.

Lemma scanned_hit limit offset all st h :
  (0 <= limit)%Z -> (0 <= offset)%Z -> scanned limit offset all st ->
  scanned limit offset (all ++ [h])
    (if (Z.of_nat st.1 <? offset)%Z || (limit <=? Z.of_nat (length st.2))%Z
     then (S st.1, st.2) else (S st.1, st.2 ++ [h])).
Proof.
  intros Hl Ho [Hn Hr]. assert (S st.1 = length (all ++ [h])) as Hlen by (rewrite length_app; simpl; lia).
  unfold page in Hr. unfold scanned, page. destruct (Z.ltb_spec (Z.of_nat st.1) offset) as [Hlt|Hge]; cbn [orb].
  - split; [done|]. cbn [snd]. rewrite Hr, !drop_ge; [done|lia|lia].
  - rewrite drop_app_le by lia.
    assert (length st.2 = min (Z.to_nat limit) (length (drop (Z.to_nat offset) all))) as Hpl
      by by rewrite Hr, length_take.
    destruct (Z.leb_spec limit (Z.of_nat (length st.2))) as [Hfull|Hroom]; (split; [done|]); cbn [snd].
    + rewrite take_app_le by lia. done.
    + rewrite (take_ge (_ ++ [h])) by (rewrite length_app; simpl; lia).
      rewrite Hr, take_ge by lia. done.
Qed.

Section scan.
Context `{Host}.

Lemma scan_lines_scanned path q context limit offset lines rest : forall index all st,
  (0 <= limit)%Z -> (0 <= offset)%Z -> scanned limit offset all st ->
  scanned limit offset (all ++ line_hits path q context lines rest index)
    (scan_lines path q context limit offset lines rest index st).
Proof.
  induction rest as [|l rest IH]; intros index all st Hl Ho Hs; cbn [line_hits scan_lines].
  - by rewrite app_nil_r.
  - destruct (line_matches q l); cbn [negb]; [|by apply IH].
    rewrite app_assoc. apply IH; [done..|]. by apply scanned_hit.
Qed.

End scan.

(** A hit says where it is: the line it quotes is line [hit_line] of the file, it
    contains the query, and the context is the lines around it. *)
Lemma line_hits_spec `{Host} path q context lines rest : forall index pre h,
  lines = pre ++ rest -> length pre = index ->
  h ∈ line_hits path q context lines rest index ->
  exists before after, lines = before ++ hit_lineText h :: after /\
    hit_path h = path /\ hit_line h = (Z.of_nat (length before) + 1)%Z /\
    line_matches q (hit_lineText h) = true /\
    hit_before h = drop (length before - context) before /\ hit_after h = take context after.
Proof.
  induction rest as [|l rest IH]; intros index pre h Hlines Hpre; cbn [line_hits]; [by intros ?%elem_of_nil|].
  intros [Hh|Hh]%elem_of_app.
  - destruct (line_matches q l) eqn:Em; [|by apply elem_of_nil in Hh].
    apply list_elem_of_singleton in Hh as ->. exists pre, rest. subst index. unfold hit_at. cbn.
    split_and!; [done..|lia|done| |].
    + unfold context_before. rewrite Hlines. rewrite drop_app_le by lia.
      rewrite take_app_le by (rewrite length_drop; lia). rewrite take_ge; [done|]. rewrite length_drop. lia.
    + unfold context_after. rewrite Hlines. replace (S (length pre)) with (length (pre ++ [l])) by (rewrite length_app; simpl; lia).
      change (l :: rest) with ([l] ++ rest). by rewrite app_assoc, drop_app_length.
  - apply (IH (S index) (pre ++ [l])); [by rewrite <- app_assoc|rewrite length_app; simpl; lia|done].
Qed.

(** * The files searched *)

Section files.
Context `{Host, NodeHost}.
Context (root : jstr) (base : fskey) (Hroot : vault_root root base).
Context (f : tree) (Hwf : tree_wf f) (Horder : forall l, readdir_order l ≡ₚ l).

(** The walk, without the cap. *)
Fixpoint search_list (fuel : nat) (segs : fskey) : list jstr :=
  match fuel with
  | O => []
  | S fuel =>
      flat_map (fun d =>
        let rel := join [slash] (segs ++ [d.1]) in
        if isExcludedSearchPath rel then []
        else if is_dir d.2 then search_list fuel (segs ++ [d.1])
        else if isMarkdownLikePath rel then [rel] else [])
      (readdir_order (children f (base ++ segs)))
  end.

(** [files] and [new] together, cut at the cap. *)
Definition cut (files new : list jstr) : bool * list jstr :=
  let all := files ++ new in
  if (SEARCH_ENTRY_CAP <=? length all)%nat then (true, take SEARCH_ENTRY_CAP all) else (false, all).

Lemma cut_app files l k :
  cut files (l ++ k) = (if (cut files l).1 then (true, (cut files l).2) else cut (cut files l).2 k).
Proof.
  unfold cut. destruct (Nat.leb_spec SEARCH_ENTRY_CAP (length (files ++ l))) as [Hf|Hr]; cbn [fst snd].
  - rewrite app_assoc. rewrite take_app_le by done.
    rewrite (proj2 (Nat.leb_le _ _)); [done|]. rewrite (length_app (files ++ l)). lia.
  - by rewrite <- app_assoc.
Qed.

Lemma cut_room files l : (cut files l).1 = false -> length (cut files l).2 < SEARCH_ENTRY_CAP.
Proof. unfold cut. destruct (Nat.leb_spec SEARCH_ENTRY_CAP (length (files ++ l))); cbn; [done|lia]. Qed.

Lemma child_nodes segs d :
  d ∈ readdir_order (children f (base ++ segs)) ->
  f !! (base ++ segs ++ [d.1]) = Some d.2 /\ plain_segs (base ++ segs ++ [d.1]) = true.
Proof.
  rewrite Horder. destruct d as [name n]. intros Hd%elem_of_children. rewrite <- app_assoc in Hd.
  split; [done|]. by eapply (proj2 (proj2 Hwf)).
Qed.

Lemma search_dirents_run recurse new segs dirents files w :
  plain_segs segs = true -> (forall d, d ∈ dirents -> plain_segs [d.1] = true) ->
  (forall d fs, d ∈ dirents -> is_dir d.2 = true -> length fs < SEARCH_ENTRY_CAP ->
     recurse (join [slash] (segs ++ [d.1])) fs w = (Ok (cut fs (new d)), w)) ->
  length files < SEARCH_ENTRY_CAP ->
  search_dirents recurse (join [slash] segs) dirents files w =
    (Ok (cut files (flat_map (fun d =>
      let rel := join [slash] (segs ++ [d.1]) in
      if isExcludedSearchPath rel then []
      else if is_dir d.2 then new d else if isMarkdownLikePath rel then [rel] else []) dirents)), w).
Proof.
  intros Hs. revert files. induction dirents as [|[name n] dirents IH]; intros files Hp Hrec Hlen.
  - cbn. unfold cut. rewrite app_nil_r. by rewrite (proj2 (Nat.leb_gt _ _) Hlen).
  - cbn [search_dirents flat_map fst snd].
    rewrite (child_path_join segs name Hs (Hp (name, n) ltac:(set_solver))).
    pose proof (fun fs => IH fs (fun d Hd => Hp d (list_elem_of_further _ _ _ Hd))
                  (fun d fs' Hd => Hrec d fs' (list_elem_of_further _ _ _ Hd))) as IH'.
    cbn zeta. destruct (isExcludedSearchPath _); [by apply IH'|].
    destruct (is_dir n) eqn:Ed.
    + rewrite (M_bind_run _ _ _ _ _ (Hrec (name, n) files ltac:(set_solver) Ed Hlen)).
      rewrite cut_app. pose proof (cut_room files (new (name, n))) as Hroom.
      destruct (cut files (new (name, n))) as [[] l]; cbn [fst snd] in *; [done|]. by rewrite IH' by auto.
    + destruct (isMarkdownLikePath _); [|by apply IH'].
      rewrite cut_app. set (x := join [slash] (segs ++ [name])).
      assert (cut files [x] = if (SEARCH_ENTRY_CAP <=? length (files ++ [x]))%nat
        then (true, take SEARCH_ENTRY_CAP (files ++ [x])) else (false, files ++ [x])) as -> by done.
      destruct (Nat.leb_spec SEARCH_ENTRY_CAP (length (files ++ [x]))) as [Hc|Hc]; cbn [fst snd].
      * rewrite take_ge; [done|]. rewrite length_app in *. simpl in *. lia.
      * by rewrite IH' by auto.
Qed.

Lemma dir_path_run segs :
  plain_segs segs = true -> dir_path root (join [slash] segs) = mret (abs_path (base ++ segs)).
Proof.
  intros Hs. unfold dir_path. pose proof Hroot as [Hr _ _]. destruct (decide (segs = [])) as [->|Hne].
  - rewrite bool_decide_eq_true_2 by done. by rewrite app_nil_r, Hr.
  - rewrite bool_decide_eq_false_2 by by apply join_nonnil.
    assert (split_on slash (join [slash] segs) = segs) as Hsplit.
    { apply split_join; [done|]. apply plain_segs_spec in Hs. by eapply Forall_impl; [done|]; intros ? []. }
    rewrite (vaultPath_plain _ base Hroot) by by rewrite Hsplit. by rewrite Hsplit.
Qed.

Lemma search_walk_run fuel : forall segs files w,
  w_fs w = f -> plain_segs segs = true -> (exists m, f !! (base ++ segs) = Some (NDir m)) ->
  (forall k n, f !! k = Some n -> length k < length (base ++ segs) + fuel) ->
  length files < SEARCH_ENTRY_CAP ->
  search_walk fuel root (join [slash] segs) files w = (Ok (cut files (search_list fuel segs)), w).
Proof.
  induction fuel as [|fuel IH]; intros segs files w Hw Hs [m Hm] Hlen Hfiles; [apply Hlen in Hm; lia|].
  cbn [search_walk search_list]. pose proof Hroot as [Hr Hb Hbn].
  assert (plain_segs (base ++ segs) = true) as Hbs by by rewrite plain_segs_app, Hb.
  rewrite dir_path_run, M_ret_bind by done.
  assert (fs_readdir (abs_path (base ++ segs)) w = (Ok (readdir_order (children f (base ++ segs))), w)) as Hrd.
  { unfold fs_readdir. rewrite (M_bind_run _ _ w (NDir m) w).
    - run. by rewrite path_key_abs, Hw.
    - apply stat_run; [done|by destruct base|by rewrite Hw|by rewrite Hw]. }
  rewrite (M_bind_run _ _ _ _ _ Hrd).
  apply (search_dirents_run _ (fun d => search_list fuel (segs ++ [d.1]))); [done| | |done].
  - intros d [_ Hp]%child_nodes. rewrite !plain_segs_app in Hp. by to_prop.
  - intros d fs [Hn Hp]%child_nodes Hdir Hfs. apply IH; [done| | | |done].
    + rewrite plain_segs_app in Hp. by to_prop.
    + destruct d as [name [|t]]; [done|]. eauto.
    + intros k n Hk%Hlen. rewrite !length_app in *. simpl. lia.
Qed.

(** The files a search looks at below a folder. *)
Definition searchable (under : fskey) (p : jstr) : Prop :=
  exists s b m c i, s <> [] /\ p = join [slash] (under ++ s) /\
    f !! (base ++ under ++ s) = Some (NFile b m c i) /\
    isExcludedSearchPath p = false /\ isMarkdownLikePath p = true.

Lemma excluded_join l k :
  plain_segs (l ++ k) = true -> l <> [] ->
  isExcludedSearchPath (join [slash] (l ++ k)) = false -> isExcludedSearchPath (join [slash] l) = false.
Proof.
  intros Hp Hl. destruct (decide (k = [])) as [->|Hk]; [by rewrite app_nil_r|].
  assert (plain_segs l = true) as Hpl by (rewrite plain_segs_app in Hp; by to_prop).
  unfold isExcludedSearchPath. rewrite !internal_join by (done || by destruct l).
  rewrite internal_key_app. intros [[[Hi _]%orb_false_iff Ht]%orb_false_iff Hs]%orb_false_iff.
  rewrite Hi. cbn [orb]. rewrite join_app in Ht, Hs by done. apply orb_false_iff. split.
  - apply not_true_is_false. intros Hj%jeqb_eq. rewrite Hj in Hs.
    by rewrite (proj2 (starts_with_spec _ _)) in Hs by by exists (join [slash] k).
  - apply not_true_is_false. intros [r Hr]%starts_with_spec. rewrite Hr in Hs.
    by rewrite (proj2 (starts_with_spec _ _)) in Hs by (exists (r ++ [slash] ++ join [slash] k); by rewrite <- app_assoc).
Qed.

Lemma elem_of_search_list fuel : forall segs p,
  plain_segs segs = true -> (exists m, f !! (base ++ segs) = Some (NDir m)) ->
  (forall k n, f !! k = Some n -> length k < length (base ++ segs) + fuel) ->
  p ∈ search_list fuel segs <-> searchable segs p.
Proof.
  induction fuel as [|fuel IH]; intros segs p Hs [m Hm] Hlen; [apply Hlen in Hm; lia|].
  cbn [search_list]. rewrite list_elem_of_In, in_flat_map. setoid_rewrite <- list_elem_of_In.
  assert (forall name k n, f !! k = Some n -> length k < length (base ++ segs ++ [name]) + fuel) as Hlen'.
  { intros name k n Hk%Hlen. rewrite !length_app in *. simpl. lia. }
  split.
  - intros ([name n] & Hd & Hp). destruct (child_nodes _ _ Hd) as [Hn Hpl]. cbn [fst snd] in *. cbn zeta in Hp.
    destruct (isExcludedSearchPath _) eqn:Ex; [by apply elem_of_nil in Hp|].
    destruct n as [b t c i|t]; cbn [is_dir] in Hp.
    + destruct (isMarkdownLikePath _) eqn:Em; [|by apply elem_of_nil in Hp].
      apply list_elem_of_singleton in Hp as ->. by exists [name], b, t, c, i.
    + apply IH in Hp as (s & b & t' & c & i & Hsn & -> & Hk & He & Hmd).
      * exists (name :: s), b, t', c, i. rewrite <- !app_assoc in *. done.
      * rewrite plain_segs_app in Hpl. by to_prop.
      * eauto.
      * apply Hlen'.
  - intros (s & b & t & c & i & Hsn & -> & Hk & He & Hmd). destruct s as [|name s]; [done|].
    change (name :: s) with ([name] ++ s) in *. rewrite !(app_assoc segs) in *.
    pose proof (proj2 (proj2 Hwf) _ _ Hk) as Hp. rewrite plain_segs_app in Hp. to_prop.
    assert (isExcludedSearchPath (join [slash] (segs ++ [name])) = false) as Hex.
    { eapply (excluded_join _ s); [done|by destruct segs|done]. }
    destruct (decide (s = [])) as [->|Hs'].
    + rewrite !app_nil_r in *. exists (name, NFile b t c i). rewrite Horder, elem_of_children, <- app_assoc.
      split; [done|]. cbn [fst snd is_dir]. cbn zeta. rewrite Hex, Hmd. set_solver.
    + rewrite app_assoc in Hk. destruct (tree_wf_prefix _ _ _ _ Hwf Hk Hs') as [u Hu].
      rewrite node_at_lookup in Hu by (intros [_ [_ ?]%app_eq_nil]%app_eq_nil; done).
      exists (name, NDir u). rewrite Horder, elem_of_children, <- app_assoc. split; [done|].
      cbn [fst snd is_dir]. cbn zeta. rewrite Hex. apply IH; [| eauto|apply Hlen'|].
      * match goal with H : plain_segs ((segs ++ [name]) ++ s) = true |- _ => rewrite plain_segs_app in H end. by to_prop.
      * exists s, b, t, c, i. rewrite <- !app_assoc in *. done.
Qed.

Lemma search_list_nodup fuel : forall segs,
  plain_segs segs = true -> (exists m, f !! (base ++ segs) = Some (NDir m)) ->
  (forall k n, f !! k = Some n -> length k < length (base ++ segs) + fuel) ->
  NoDup (search_list fuel segs).
Proof.
  induction fuel as [|fuel IH]; intros segs Hs [m Hm] Hlen; [apply Hlen in Hm; lia|].
  cbn [search_list]. rewrite flat_map_bind.
  assert (forall name k n, f !! k = Some n -> length k < length (base ++ segs ++ [name]) + fuel) as Hlen'.
  { intros name k n Hk%Hlen. rewrite !length_app in *. simpl. lia. }
  assert (forall d, d ∈ readdir_order (children f (base ++ segs)) -> plain_segs (segs ++ [d.1]) = true) as Hpl.
  { intros d [_ Hp]%child_nodes. rewrite plain_segs_app in Hp. by to_prop. }
  assert (forall d, d ∈ readdir_order (children f (base ++ segs)) -> is_dir d.2 = true ->
    exists t, f !! (base ++ segs ++ [d.1]) = Some (NDir t)) as Hdir.
  { intros [name [|t]] [Hn _]%child_nodes ?; [done|eauto]. }
  set (g := fun d => _).
  assert (forall d p, d ∈ readdir_order (children f (base ++ segs)) -> p ∈ g d ->
    exists s n, f !! (base ++ segs ++ d.1 :: s) = Some n /\ p = join [slash] (segs ++ d.1 :: s)) as Hg.
  { intros d p Hd Hp. unfold g in Hp. cbn zeta in Hp. destruct (isExcludedSearchPath _); [by apply elem_of_nil in Hp|].
    destruct (is_dir d.2) eqn:Ed.
    - apply elem_of_search_list in Hp as (s & b & t & c & i & _ & -> & Hk & _);
        [|by apply Hpl|by apply Hdir|apply Hlen']. exists s, (NFile b t c i). by rewrite <- !app_assoc in *.
    - destruct (isMarkdownLikePath _); [|by apply elem_of_nil in Hp]. apply list_elem_of_singleton in Hp as ->.
      exists [], d.2. split; [|done]. by apply child_nodes. }
  apply NoDup_bind.
  - intros d1 d2 p Hd1 Hd2 Hp1 Hp2.
    destruct (Hg _ _ Hd1 Hp1) as (s1 & n1 & Hk1 & ->). destruct (Hg _ _ Hd2 Hp2) as (s2 & n2 & Hk2 & Heq).
    pose proof (proj2 (proj2 Hwf) _ _ Hk1) as Hq1. pose proof (proj2 (proj2 Hwf) _ _ Hk2) as Hq2.
    rewrite plain_segs_app in Hq1, Hq2. to_prop.
    apply join_plain_inj in Heq; [|done|done|by destruct segs|by destruct segs].
    apply app_inv_head in Heq. injection Heq as Hname _.
    destruct (child_nodes _ _ Hd1) as [Hn1 _], (child_nodes _ _ Hd2) as [Hn2 _].
    destruct d1 as [a1 b1], d2 as [a2 b2]. cbn in *. subst. congruence.
  - intros d Hd. unfold g. cbn zeta. destruct (isExcludedSearchPath _); [constructor|].
    destruct (is_dir d.2) eqn:Ed.
    + apply IH; [by apply Hpl|by apply Hdir|apply Hlen'].
    + destruct (isMarkdownLikePath _); [apply NoDup_singleton|constructor].
  - rewrite Horder. apply children_nodup.
Qed.

(** The text of a file of the vault. *)
Definition content_of (p : jstr) : jstr :=
  match f !! (base ++ split_on slash p) with Some (NFile b _ _ _) => decode b | _ => [] end.

Lemma searchable_split under p :
  searchable under p -> exists b m c i,
    plain_segs (split_on slash p) = true /\ f !! (base ++ split_on slash p) = Some (NFile b m c i).
Proof.
  intros (s & b & m & c & i & Hs & -> & Hk & _). exists b, m, c, i.
  pose proof (proj2 (proj2 Hwf) _ _ Hk) as Hp. rewrite plain_segs_app in Hp. to_prop.
  rewrite split_join; [done|by destruct under|].
  match goal with H : plain_segs (under ++ s) = true |- _ => apply plain_segs_spec in H end.
  by eapply Forall_impl; [done|]; intros ? [].
Qed.

Lemma scan_files_run under q context limit offset files w : w_fs w = f ->
  (0 <= limit)%Z -> (0 <= offset)%Z -> Forall (searchable under) files ->
  forall all st, scanned limit offset all st ->
  exists st', scan_files root q context limit offset files st w = (Ok st', w) /\
    scanned limit offset (all ++ flat_map (fun p => file_hits q context p (content_of p)) files) st'.
Proof.
  intros Hw Hl Ho Hf. pose proof Hroot as [_ Hb Hbn].
  induction Hf as [|p files Hp Hf IH]; intros all st Hst; cbn [scan_files flat_map].
  - exists st. by rewrite app_nil_r.
  - destruct (searchable_split _ _ Hp) as (b & m & c & i & Hpl & Hk).
    rewrite (vaultPath_plain _ base Hroot), M_ret_bind by done.
    assert ((decode <$> fs_readFile (abs_path (base ++ split_on slash p))) w = (Ok (content_of p), w)) as Hread.
    { unfold fmap, M_fmap. rewrite (readFile_run (base ++ split_on slash p)
        ltac:(by rewrite plain_segs_app, Hb) ltac:(by destruct base) w b m c i); [|by rewrite Hw..].
      unfold content_of. by rewrite Hk. }
    rewrite (M_bind_run _ _ _ _ _ Hread). cbn zeta. rewrite app_assoc. apply IH.
    by apply scan_lines_scanned.
Qed.

End files.

Section search_correct.
Context `{Host, NodeHost}.
Context (root : jstr) (base : fskey) (Hroot : vault_root root base).

(** a search with a query that is not blank, below a folder of the vault, answers
    the page [offset .. offset + limit) of all matching lines of the searched files,
    and the number of all of them; the searched files are visible text files below the
    folder, outside the trash folder, each once; they are all such files unless the
    answer says it is truncated, and never more than 5000.  The search changes
    nothing. *)
Theorem searchVaultFiles_page input w :
  vault_tree base (w_fs w) -> (forall l, readdir_order l ≡ₚ l) ->
  let under := under_segs (si_under input) in
  trim (si_q input) <> [] ->
  is_ok (validateOptionalVaultPath Posix (si_under input) PKFolder) = true ->
  (exists t, w_fs w !! (base ++ under) = Some (NDir t)) ->
  exists files r,
    let q := to_locale_lower (trim (si_q input)) in
    let context := Z.to_nat (clampNonNegativeInteger (si_context input) DEFAULT_CONTEXT_LINES MAX_CONTEXT_LINES) in
    let all := flat_map (fun p => file_hits q context p (content_of base (w_fs w) p)) files in
    searchVaultFiles root input w = (Ok r, w) /\
    sr_results r = page (sr_limit r) (sr_offset r) all /\
    sr_total r = Z.of_nat (length all) /\
    (0 <= sr_limit r <= MAX_SEARCH_LIMIT)%Z /\ (0 <= sr_offset r)%Z /\
    NoDup files /\ length files <= SEARCH_ENTRY_CAP /\
    (forall p, p ∈ files -> searchable base (w_fs w) under p) /\
    (sr_truncated r = false -> forall p, searchable base (w_fs w) under p -> p ∈ files).
Proof.
  intros [Hwf Hbase] Horder under Hq Hval Hdir.
  assert (exists u, lift_path (validateOptionalVaultPath Posix (si_under input) PKFolder) w = (Ok u, w) /\
    default [] u = join [slash] under /\ plain_segs under = true) as (u & Hu & Hud & Hup)
    by by apply optional_path_run.
  pose proof Hroot as [_ Hb Hbn].
  set (fuel := walk_fuel (w_fs w)). set (L := search_list base (w_fs w) fuel under).
  assert (forall k n, w_fs w !! k = Some n -> length k < length (base ++ under) + fuel) as Hlen.
  { intros k n Hk%key_length_size; [|done]. unfold fuel, walk_fuel. lia. }
  assert (search_walk fuel root (join [slash] under) [] w = (Ok (cut [] L), w)) as Hwalk
    by (apply (search_walk_run root base Hroot (w_fs w)); done || (unfold SEARCH_ENTRY_CAP; simpl; lia)).
  assert (NoDup L) as Hnd by by apply (search_list_nodup root base Hroot).
  assert (forall p, p ∈ L <-> searchable base (w_fs w) under p) as Hin
    by (intros p; by apply (elem_of_search_list root base Hroot)).
  assert ((cut [] L).2 = take SEARCH_ENTRY_CAP L /\ ((cut [] L).1 = false -> (cut [] L).2 = L)) as [Hcut Hfull].
  { unfold cut. cbn [app]. destruct (Nat.leb_spec SEARCH_ENTRY_CAP (length L)); [done|].
    cbn [fst snd]. rewrite take_ge by lia. done. }
  clearbody L.
  set (files := sort_by locale_compare (cut [] L).2).
  assert (files ≡ₚ (cut [] L).2) as Hperm by apply sort_by_perm.
  set (limit := clampPositiveInteger (si_limit input) DEFAULT_SEARCH_LIMIT MAX_SEARCH_LIMIT).
  set (offset := clampNonNegativeInteger (si_offset input) 0 MAX_SAFE_INTEGER).
  assert (0 <= limit <= MAX_SEARCH_LIMIT)%Z as Hlimit by by apply clampPositive_range.
  assert (0 <= offset <= MAX_SAFE_INTEGER)%Z as Hoffset by by apply clampNonNegative_range.
  set (context := Z.to_nat (clampNonNegativeInteger (si_context input) DEFAULT_CONTEXT_LINES MAX_CONTEXT_LINES)).
  set (q := to_locale_lower (trim (si_q input))).
  assert (forall p, p ∈ files -> searchable base (w_fs w) under p) as Hsearchable.
  { intros p. rewrite Hperm, Hcut. intros Hp. apply Hin. by eapply subseteq_take. }
  assert (scanned limit offset [] (0, [])) as Hst0
    by (split; [done|]; unfold page; by rewrite drop_nil, take_nil).
  destruct (scan_files_run root base Hroot (w_fs w) Hwf under q context limit offset files w eq_refl
    (proj1 Hlimit) (proj1 Hoffset) (proj2 (Forall_forall _ _) Hsearchable) _ _ Hst0) as (st & Hscan & Hst).
  destruct Hst as [Htotal Hres]. cbn [app] in *.
  exists files. eexists. cbn zeta. split.
  - unfold searchVaultFiles. rewrite bool_decide_eq_false_2 by done.
    unfold fmap, M_fmap. unfold mbind at 1, M_bind at 1. rewrite Hu, Hud.
    assert (collectSearchableFiles root (join [slash] under) w = (Ok (files, (cut [] L).1), w)) as Hcoll.
    { unfold collectSearchableFiles. rewrite (dir_path_run root base Hroot), M_ret_bind by done.
      destruct Hdir as [t Ht].
      rewrite (M_bind_run _ _ w (Some (NDir t)) w).
      - cbn [from_option is_dir negb]. unfold asks. unfold mbind at 1, M_bind at 1. fold fuel.
        by rewrite (M_bind_run _ _ _ _ _ Hwalk).
      - rewrite statOrNull_run, Ht; [done|by rewrite plain_segs_app, Hb|by destruct base|done|].
        intros Hw. by rewrite (tree_wf_walk _ _ _ Hwf Ht) in Hw. }
    rewrite (M_bind_run _ _ _ _ _ Hcoll). cbn [fst snd]. fold q context limit offset.
    rewrite (M_bind_run _ _ _ _ _ Hscan). done.
  - cbn. rewrite Htotal, Hres. split_and!; [done|done|lia|lia|lia| | |done|].
    + rewrite Hperm, Hcut. rewrite <- (take_drop SEARCH_ENTRY_CAP L) in Hnd. by apply NoDup_app in Hnd as [? _].
    + rewrite Hperm, Hcut, length_take. lia.
    + intros Htr p Hp. rewrite Hperm, (Hfull Htr). by apply Hin.
Qed.

(** every hit is where it says: it quotes line [line] of the file it names, with up
    to [context] lines before and after, and that line contains the query. *)
Theorem search_hit_quotes_line q context path content h :
  h ∈ file_hits q context path content ->
  exists before after, split_on 10 content = before ++ hit_lineText h :: after /\
    hit_path h = path /\ hit_line h = (Z.of_nat (length before) + 1)%Z /\
    includes (to_locale_lower (hit_lineText h)) q = true /\
    hit_before h = drop (length before - context) before /\ hit_after h = take context after.
Proof. intros Hh. by apply (line_hits_spec path q context (split_on 10 content) (split_on 10 content) 0 []). Qed.

(** A limit between 0 and 1 is positive, and its floor is not. *)
Example clampPositiveInteger_fraction : clampPositiveInteger (Some (Frac 1 1)) 20 100 = 0%Z.
Proof. reflexivity. Qed.

End search_correct.
