(* ===== verification/PendingFrames.v ===== *)
(** [PendingFrameBuffer] of [packages/tunnel-protocol/src/index.ts]: the frames that
    wait for a stream to be paired, bounded in number and in bytes. *)
From S2P Require Import Prelude JsString.

Definition TUNNEL_PENDING_STREAM_FRAME_LIMIT : Z := 64.
Definition TUNNEL_PENDING_STREAM_BYTE_LIMIT : Z := 1024 * 1024.

Inductive PendingFrameBufferOverflowReason := OverflowFrames | OverflowBytes.

Record PendingFrameBufferPushResult := {
  push_ok : option PendingFrameBufferOverflowReason; (* [None] for [ok: true] *)
  queuedFrames : Z;
  push_queuedBytes : Z
}.

Record PendingFrameBufferOptions := { opt_maxFrames : option Z; opt_maxBytes : option Z }.

(** The fields of the object.  [push] copies the frame, so a frame is a value here. *)
Record PendingFrameBuffer := {
  maxFrames : Z;
  maxBytes : Z;
  frames : list (list N);
  queuedBytes : Z
}.

Definition byteLength (bytes : list N) : Z := Z.of_nat (length bytes).

Definition new_PendingFrameBuffer (options : PendingFrameBufferOptions) : PendingFrameBuffer :=
  {| maxFrames := default TUNNEL_PENDING_STREAM_FRAME_LIMIT (opt_maxFrames options);
     maxBytes := default TUNNEL_PENDING_STREAM_BYTE_LIMIT (opt_maxBytes options);
     frames := []; queuedBytes := 0 |}.

Definition frameCount (b : PendingFrameBuffer) : Z := Z.of_nat (length (frames b)).
Definition byteCount (b : PendingFrameBuffer) : Z := queuedBytes b.

Definition push_answer (b : PendingFrameBuffer) (r : option PendingFrameBufferOverflowReason)
  : PendingFrameBufferPushResult :=
  {| push_ok := r; queuedFrames := frameCount b; push_queuedBytes := byteCount b |}.

Definition push (b : PendingFrameBuffer) (frame : list N)
  : PendingFrameBuffer * PendingFrameBufferPushResult :=
  if (maxFrames b <? Z.of_nat (length (frames b)) + 1)%Z then (b, push_answer b (Some OverflowFrames))
  else if (maxBytes b <? queuedBytes b + byteLength frame)%Z then (b, push_answer b (Some OverflowBytes))
  else
    let b' := {| maxFrames := maxFrames b; maxBytes := maxBytes b; frames := frames b ++ [frame];
                 queuedBytes := queuedBytes b + byteLength frame |} in
    (b', push_answer b' None).

Definition clear (b : PendingFrameBuffer) : PendingFrameBuffer :=
  {| maxFrames := maxFrames b; maxBytes := maxBytes b; frames := []; queuedBytes := 0 |}.

Definition drain (b : PendingFrameBuffer) : PendingFrameBuffer * list (list N) :=
  (clear b, frames b).

(** * Sequences of operations *)

Inductive buffer_op := OpPush (frame : list N) | OpDrain | OpClear.

(** The buffer after the operations, the frames the drains answered, and the frames
    accepted since the last drain or clear. *)
Record buffer_run := { br_buffer : PendingFrameBuffer; br_drained : list (list N); br_waiting : list (list N) }.

Definition run_buffer_op (r : buffer_run) (op : buffer_op) : buffer_run :=
  match op with
  | OpPush frame =>
      let '(b, answer) := push (br_buffer r) frame in
      {| br_buffer := b; br_drained := br_drained r;
         br_waiting := match push_ok answer with None => br_waiting r ++ [frame] | Some _ => br_waiting r end |}
  | OpDrain =>
      let '(b, out) := drain (br_buffer r) in
      {| br_buffer := b; br_drained := br_drained r ++ out; br_waiting := [] |}
  | OpClear => {| br_buffer := clear (br_buffer r); br_drained := br_drained r; br_waiting := [] |}
  end.

Definition run_buffer (options : PendingFrameBufferOptions) (ops : list buffer_op) : buffer_run :=
  fold_left run_buffer_op ops
    {| br_buffer := new_PendingFrameBuffer options; br_drained := []; br_waiting := [] |}.

Fixpoint total_bytes (fs : list (list N)) : Z :=
  match fs with [] => 0 | f :: fs => byteLength f + total_bytes fs end.

Lemma total_bytes_app fs gs : total_bytes (fs ++ gs) = (total_bytes fs + total_bytes gs)%Z.
Proof. induction fs as [|f fs IH]; [done|]. cbn [app total_bytes]. lia. Qed.

(** Push frames one after the other: the buffer, and the frames it accepted. *)
Fixpoint push_all (b : PendingFrameBuffer) (fs : list (list N)) : PendingFrameBuffer * list (list N) :=
  match fs with
  | [] => (b, [])
  | f :: fs =>
      let '(b', r) := push b f in
      let '(b'', accepted) := push_all b' fs in
      (b'', match push_ok r with None => f :: accepted | Some _ => accepted end)
  end.

(** The representation invariant. *)
Record buffer_inv (b : PendingFrameBuffer) : Prop := {
  bi_bytes : queuedBytes b = total_bytes (frames b);
  bi_frames : (frameCount b <= Z.max 0 (maxFrames b))%Z;
  bi_limit : (queuedBytes b <= Z.max 0 (maxBytes b))%Z
}.

Lemma push_inv b frame : buffer_inv b -> buffer_inv (push b frame).1.
Proof.
  intros [Hb Hf Hl]. unfold push. destruct (Z.ltb_spec (maxFrames b) (Z.of_nat (length (frames b)) + 1)); [done|].
  destruct (Z.ltb_spec (maxBytes b) (queuedBytes b + byteLength frame)); [done|].
  split; cbn [fst frames queuedBytes maxFrames maxBytes]; unfold frameCount in *; cbn [frames].
  - rewrite total_bytes_app, Hb. cbn. lia.
  - rewrite length_app. simpl. lia.
  - lia.
Qed.

Lemma clear_inv b : buffer_inv (clear b).
Proof. split; cbn; unfold frameCount; cbn; lia. Qed.

(** after any sequence of pushes, drains and clears, the buffer holds no more
    frames and no more bytes than its limits, its byte count is that of the frames it
    holds, and these are exactly the frames accepted since the last drain or clear, in
    order. *)
Theorem pending_frames_bounded options ops :
  let r := run_buffer options ops in
  let b := br_buffer r in
  (frameCount b <= Z.max 0 (default TUNNEL_PENDING_STREAM_FRAME_LIMIT (opt_maxFrames options)))%Z /\
  (byteCount b <= Z.max 0 (default TUNNEL_PENDING_STREAM_BYTE_LIMIT (opt_maxBytes options)))%Z /\
  byteCount b = total_bytes (frames b) /\ frames b = br_waiting r.
Proof.
  cbn zeta. assert (forall ops r, buffer_inv (br_buffer r) -> frames (br_buffer r) = br_waiting r ->
    let r' := fold_left run_buffer_op ops r in
    buffer_inv (br_buffer r') /\ frames (br_buffer r') = br_waiting r' /\
    maxFrames (br_buffer r') = maxFrames (br_buffer r) /\ maxBytes (br_buffer r') = maxBytes (br_buffer r)) as H.
  { clear. induction ops as [|op ops IH]; intros r Hi Hw; [done|]. cbn [fold_left].
    assert (buffer_inv (br_buffer (run_buffer_op r op)) /\
      frames (br_buffer (run_buffer_op r op)) = br_waiting (run_buffer_op r op) /\
      maxFrames (br_buffer (run_buffer_op r op)) = maxFrames (br_buffer r) /\
      maxBytes (br_buffer (run_buffer_op r op)) = maxBytes (br_buffer r)) as (Hi' & Hw' & Hf' & Hb').
    { destruct op as [frame| |]; cbn [run_buffer_op].
      - pose proof (push_inv (br_buffer r) frame Hi) as Hp. revert Hp. unfold push.
        destruct (_ <? _)%Z; [done|]. destruct (_ <? _)%Z; [done|]. cbn. by rewrite Hw.
      - split; [apply clear_inv|done].
      - split; [apply clear_inv|done]. }
    destruct (IH _ Hi' Hw') as (? & ? & -> & ->). done. }
  set (r0 := {| br_buffer := new_PendingFrameBuffer options; br_drained := []; br_waiting := [] |}).
  assert (buffer_inv (br_buffer r0)) as H0 by apply (clear_inv (new_PendingFrameBuffer options)).
  destruct (H ops r0 H0 eq_refl) as (Hi & Hw & Hf & Hb).
  change (run_buffer options ops) with (fold_left run_buffer_op ops r0). destruct Hi as [Hi1 Hi2 Hi3].
  rewrite Hf in Hi2. rewrite Hb in Hi3. done.
Qed.

Lemma push_frames b f :
  frames (push b f).1 = frames b ++ (match push_ok (push b f).2 with None => [f] | Some _ => [] end).
Proof.
  unfold push. destruct (_ <? _)%Z; [by rewrite app_nil_r|].
  destruct (_ <? _)%Z; [by rewrite app_nil_r|done].
Qed.

(** nothing is lost or reordered before a drain: draining answers the frames that
    were waiting and then every accepted frame in the order they were pushed, and leaves
    the buffer empty; a push that is refused leaves the buffer as it was. *)
Theorem pending_frames_fifo b fs :
  (drain (push_all b fs).1).2 = frames b ++ (push_all b fs).2 /\
  frames (drain (push_all b fs).1).1 = [] /\ byteCount (drain (push_all b fs).1).1 = 0%Z /\
  (forall f r, push_ok (push b f).2 = Some r -> (push b f).1 = b).
Proof.
  split_and!; [|done|done|].
  - cbn [drain snd]. revert b. induction fs as [|f fs IH]; intros b; [cbn; by rewrite app_nil_r|].
    cbn [push_all]. pose proof (push_frames b f) as Hf. destruct (push b f) as [b' r]. cbn [fst snd] in Hf.
    specialize (IH b'). destruct (push_all b' fs) as [b'' accepted]. cbn [fst snd] in *.
    rewrite IH, Hf, <- app_assoc. by destruct (push_ok r).
  - intros f r. unfold push. destruct (_ <? _)%Z; [done|]. by destruct (_ <? _)%Z.
Qed.
