(* ===== verification/PendingRequests.v ===== *)
(** [RelayPendingRequestTable] of [packages/tunnel-protocol/src/index.ts]: the requests
    that wait for an answer, with their deadlines. *)
From S2P Require Import Prelude JsString.

Definition RELAY_PENDING_REQUEST_LIMIT : Z := 128.
Definition RELAY_DEFAULT_REQUEST_TIMEOUT_MS : Z := 15000.

(** The [Map] of deadlines, in insertion order. *)
Record RelayPendingRequestTable := {
  maxPending : Z;
  defaultTimeoutMs : Z;
  deadlines : list (jstr * Z)
}.

Record RelayPendingRequestTableOptions := { to_maxPending : option Z; to_defaultTimeoutMs : option Z }.
Record RelayPendingRequestAddOptions := { ao_timeoutMs : option Z; ao_deadlineAt : option Z }.

Inductive RelayPendingRequestAddResult :=
| Added (pending deadlineAt : Z)
| Duplicate (pending : Z)
| Limit (pending : Z).

Definition new_table (options : RelayPendingRequestTableOptions) : RelayPendingRequestTable :=
  {| maxPending := default RELAY_PENDING_REQUEST_LIMIT (to_maxPending options);
     defaultTimeoutMs := default RELAY_DEFAULT_REQUEST_TIMEOUT_MS (to_defaultTimeoutMs options);
     deadlines := [] |}.

Definition table_size (t : RelayPendingRequestTable) : Z := Z.of_nat (length (deadlines t)).
Definition with_deadlines (t : RelayPendingRequestTable) (d : list (jstr * Z)) : RelayPendingRequestTable :=
  {| maxPending := maxPending t; defaultTimeoutMs := defaultTimeoutMs t; deadlines := d |}.

Fixpoint map_lookup (d : list (jstr * Z)) (id : jstr) : option Z :=
  match d with
  | [] => None
  | (k, v) :: d => if jeqb id k then Some v else map_lookup d id
  end.
Definition map_remove (d : list (jstr * Z)) (id : jstr) : list (jstr * Z) :=
  filter (fun kv => kv.1 <> id) d.

Definition has (t : RelayPendingRequestTable) (id : jstr) : bool :=
  bool_decide (is_Some (map_lookup (deadlines t) id)).
Definition deadlineFor (t : RelayPendingRequestTable) (id : jstr) : option Z := map_lookup (deadlines t) id.

(** [now] is what the clock of the table answers. *)
Definition add (t : RelayPendingRequestTable) (now : Z) (id : jstr) (options : RelayPendingRequestAddOptions)
  : RelayPendingRequestTable * RelayPendingRequestAddResult :=
  if has t id then (t, Duplicate (table_size t))
  else if (maxPending t <=? table_size t)%Z then (t, Limit (table_size t))
  else
    let deadlineAt :=
      match ao_deadlineAt options with
      | Some d => d
      | None => (now + default (defaultTimeoutMs t) (ao_timeoutMs options))%Z
      end in
    let t' := with_deadlines t (deadlines t ++ [(id, deadlineAt)]) in
    (t', Added (table_size t') deadlineAt).

(** [resolve] and [cancel]. *)
Definition resolve (t : RelayPendingRequestTable) (id : jstr) : RelayPendingRequestTable * bool :=
  (with_deadlines t (map_remove (deadlines t) id), has t id).
Definition cancel (t : RelayPendingRequestTable) (id : jstr) : RelayPendingRequestTable * bool :=
  (with_deadlines t (map_remove (deadlines t) id), has t id).

(** The loop of [expire] over the entries of the map. *)
Fixpoint expire_loop (now : Z) (d : list (jstr * Z)) : list (jstr * Z) * list jstr :=
  match d with
  | [] => ([], [])
  | (id, deadlineAt) :: d =>
      let '(kept, expired) := expire_loop now d in
      if (deadlineAt <=? now)%Z then (kept, id :: expired) else ((id, deadlineAt) :: kept, expired)
  end.
Definition expire (t : RelayPendingRequestTable) (now : Z) : RelayPendingRequestTable * list jstr :=
  let '(kept, expired) := expire_loop now (deadlines t) in (with_deadlines t kept, expired).

Definition table_clear (t : RelayPendingRequestTable) : RelayPendingRequestTable := with_deadlines t [].

(** * Lemmas *)

Lemma has_spec t id : has t id = true <-> id ∈ (deadlines t).*1.
Proof.
  unfold has. rewrite bool_decide_eq_true. induction (deadlines t) as [|[k v] d IH]; cbn.
  - split; [by intros [? ?]|by intros ?%elem_of_nil].
  - destruct (jeqb id k) eqn:E.
    + apply jeqb_eq in E as ->. split; [intros _; set_solver|eauto].
    + rewrite IH, elem_of_cons. split; [auto|]. intros [->|H]; [|done].
      by rewrite (proj2 (jeqb_eq _ _)) in E.
Qed.

Lemma elem_of_map_remove d id k v : (k, v) ∈ map_remove d id <-> (k, v) ∈ d /\ k <> id.
Proof. unfold map_remove. rewrite list_elem_of_filter. naive_solver. Qed.

Lemma map_remove_keys d id k : k ∈ (map_remove d id).*1 <-> k ∈ d.*1 /\ k <> id.
Proof.
  rewrite !list_elem_of_fmap. split.
  - intros ([k' v] & -> & [Hin Hne]%elem_of_map_remove). split; [by exists (k', v)|done].
  - intros [([k' v] & -> & Hin) Hne]. exists (k', v). by rewrite elem_of_map_remove.
Qed.

Lemma filter_keys_nodup (P : jstr * Z -> Prop) `{!forall x, Decision (P x)} d :
  NoDup d.*1 -> NoDup (filter P d).*1.
Proof.
  induction d as [|kv d IH]; [done|]. cbn [fmap list_fmap]. intros [Hk Hnd]%NoDup_cons.
  rewrite filter_cons. case_decide; [|by apply IH]. apply NoDup_cons. split; [|by apply IH].
  intros (kv' & Heq & [_ Hin]%list_elem_of_filter)%list_elem_of_fmap. apply Hk. rewrite Heq.
  by apply list_elem_of_fmap_2.
Qed.

Lemma keys_unique (d : list (jstr * Z)) k v v' :
  NoDup d.*1 -> (k, v) ∈ d -> (k, v') ∈ d -> v = v'.
Proof.
  induction d as [|[k0 v0] d IH]; [by intros _ ?%elem_of_nil|].
  cbn [fmap list_fmap fst]. intros [Hk Hnd]%NoDup_cons.
  assert (forall u, (k0, u) ∈ d -> False) as Hno.
  { intros u Hu. apply Hk, list_elem_of_fmap. by exists (k0, u). }
  intros [[= -> ->]|H1]%elem_of_cons [[= ->]|H2]%elem_of_cons; [done|by destruct (Hno v')| |by apply IH].
  subst. by destruct (Hno v).
Qed.

Lemma expire_loop_spec now d :
  expire_loop now d = (filter (fun kv => now < kv.2)%Z d, (filter (fun kv => kv.2 <= now)%Z d).*1).
Proof.
  induction d as [|[id dl] d IH]; [done|]. cbn [expire_loop]. rewrite IH, !filter_cons. cbn [snd].
  destruct (Z.leb_spec dl now).
  - rewrite (decide_True (P := (dl <= now)%Z)), (decide_False (P := (now < dl)%Z)) by lia. done.
  - rewrite (decide_False (P := (dl <= now)%Z)), (decide_True (P := (now < dl)%Z)) by lia. done.
Qed.

(** * Runs of the table *)

Inductive table_op :=
| TAdd (now : Z) (id : jstr) (options : RelayPendingRequestAddOptions)
| TResolve (id : jstr)
| TCancel (id : jstr)
| TExpire (now : Z).

(** What a request goes through. *)
Inductive table_event := Opened (id : jstr) | Closed (id : jstr).

#[export] Instance table_event_eq_dec : EqDecision table_event.
Proof. solve_decision. Defined.

Definition run_table_op (st : RelayPendingRequestTable * list table_event) (op : table_op)
  : RelayPendingRequestTable * list table_event :=
  let '(t, events) := st in
  match op with
  | TAdd now id options =>
      let '(t', r) := add t now id options in
      (t', match r with Added _ _ => events ++ [Opened id] | _ => events end)
  | TResolve id => let '(t', b) := resolve t id in (t', if (b : bool) then events ++ [Closed id] else events)
  | TCancel id => let '(t', b) := cancel t id in (t', if (b : bool) then events ++ [Closed id] else events)
  | TExpire now => let '(t', ids) := expire t now in (t', events ++ map Closed ids)
  end.

Definition run_table (options : RelayPendingRequestTableOptions) (ops : list table_op) :=
  fold_left run_table_op ops (new_table options, []).

Definition count (e : table_event) (events : list table_event) : nat :=
  length (filter (fun e' => e' = e) events).

Lemma count_app e l k : count e (l ++ k) = count e l + count e k.
Proof. unfold count. by rewrite filter_app, length_app. Qed.

Lemma count_singleton e e' : count e [e'] = if decide (e' = e) then 1 else 0.
Proof. unfold count. rewrite filter_cons. by case_decide. Qed.

Definition pending (t : RelayPendingRequestTable) (id : jstr) : nat := if has t id then 1 else 0.

(** The invariant of a run. *)
Record table_inv (st : RelayPendingRequestTable * list table_event) : Prop := {
  ti_nodup : NoDup (deadlines st.1).*1;
  ti_limit : (table_size st.1 <= Z.max 0 (maxPending st.1))%Z;
  ti_count : forall id, count (Opened id) st.2 = count (Closed id) st.2 + pending st.1 id
}.

Lemma pending_keys t t' id :
  (id ∈ (deadlines t).*1 <-> id ∈ (deadlines t').*1) -> pending t id = pending t' id.
Proof.
  intros Hk. unfold pending. pose proof (has_spec t id). pose proof (has_spec t' id).
  destruct (has t id), (has t' id); naive_solver.
Qed.

Lemma remove_inv t events id :
  table_inv (t, events) ->
  table_inv (with_deadlines t (map_remove (deadlines t) id),
             if has t id then events ++ [Closed id] else events).
Proof.
  intros [Hnd Hl Hc]. cbn [fst snd] in *. split; cbn [fst snd].
  - by apply filter_keys_nodup.
  - cbn [maxPending with_deadlines]. unfold table_size in *. cbn [deadlines with_deadlines].
    unfold map_remove. pose proof (length_filter (fun kv : jstr * Z => kv.1 <> id) (deadlines t)). lia.
  - intros id'. specialize (Hc id'). unfold pending in *.
    pose proof (has_spec t id') as Hh. pose proof (has_spec (with_deadlines t (map_remove (deadlines t) id)) id') as Hh'.
    cbn [deadlines with_deadlines] in Hh'. rewrite map_remove_keys in Hh'.
    destruct (decide (id' = id)) as [->|Hne].
    + destruct (has (with_deadlines _ _) id) eqn:E; [by destruct (proj1 Hh' eq_refl)|].
      destruct (has t id); [|lia]. rewrite !count_app, !count_singleton.
      rewrite decide_False, decide_True by done. lia.
    + assert (has (with_deadlines t (map_remove (deadlines t) id)) id' = has t id') as ->.
      { destruct (has t id'), (has (with_deadlines _ _) id'); naive_solver. }
      destruct (has t id); [|lia]. rewrite !count_app, !count_singleton.
      rewrite !decide_False by congruence. lia.
Qed.

Lemma add_inv t events now id options :
  table_inv (t, events) ->
  table_inv (run_table_op (t, events) (TAdd now id options)).
Proof.
  intros Hi. pose proof Hi as [Hnd Hl Hc]. cbn [fst snd] in *. cbn [run_table_op]. unfold add.
  destruct (has t id) eqn:Eh; [done|]. destruct (Z.leb_spec (maxPending t) (table_size t)); [done|].
  set (d := match ao_deadlineAt options with Some _ => _ | None => _ end).
  assert (id ∉ (deadlines t).*1) as Hid by (rewrite <- has_spec; congruence).
  split; cbn [fst snd deadlines with_deadlines maxPending].
  - rewrite fmap_app. apply NoDup_app. split_and!; [done| |apply NoDup_singleton].
    intros k Hk ->%list_elem_of_singleton. done.
  - unfold table_size in *. cbn [deadlines with_deadlines]. rewrite length_app. simpl. lia.
  - intros id'. specialize (Hc id'). rewrite !count_app, !count_singleton.
    rewrite (decide_False (P := Opened id = Closed id')) by done.
    pose proof (has_spec t id') as Hh.
    pose proof (has_spec (with_deadlines t (deadlines t ++ [(id, d)])) id') as Hh'.
    cbn [deadlines with_deadlines] in Hh'. rewrite fmap_app, elem_of_app in Hh'. cbn [fmap list_fmap fst] in Hh'.
    rewrite list_elem_of_singleton in Hh'. unfold pending in *.
    destruct (decide (Opened id = Opened id')) as [[= ->]|Hne].
    + destruct (has (with_deadlines _ _) id') eqn:E; [|naive_solver]. rewrite Eh in Hc. lia.
    + assert (has (with_deadlines t (deadlines t ++ [(id, d)])) id' = has t id') as ->; [|lia].
      destruct (has t id') eqn:E1, (has (with_deadlines _ _) id') eqn:E2; try done; [naive_solver|].
      destruct (proj1 Hh' eq_refl) as [Hin| ->]; naive_solver.
Qed.

Lemma count_closed_map id ids : count (Closed id) (map Closed ids) = length (filter (fun k => k = id) ids).
Proof.
  induction ids as [|k ids IH]; [done|]. cbn [map]. unfold count in *. rewrite !filter_cons.
  destruct (decide (k = id)) as [->|Hne].
  - rewrite decide_True by done. simpl. lia.
  - rewrite decide_False by congruence. done.
Qed.

Lemma count_opened_map id ids : count (Opened id) (map Closed ids) = 0.
Proof.
  induction ids as [|k ids IH]; [done|]. cbn [map]. unfold count in *. rewrite filter_cons.
  by rewrite decide_False.
Qed.

Lemma filter_nodup_count (l : list jstr) id :
  NoDup l -> length (filter (fun k => k = id) l) = if decide (id ∈ l) then 1 else 0.
Proof.
  induction 1 as [|x l Hx Hnd IH]; [done|]. rewrite filter_cons.
  destruct (decide (x = id)) as [->|Hne].
  - cbn [length]. rewrite IH, decide_False, decide_True by set_solver. done.
  - rewrite IH. by apply decide_ext; set_solver.
Qed.

Lemma expire_inv t events now :
  table_inv (t, events) -> table_inv (run_table_op (t, events) (TExpire now)).
Proof.
  intros [Hnd Hl Hc]. cbn [fst snd] in *. cbn [run_table_op]. unfold expire. rewrite expire_loop_spec.
  split; cbn [fst snd deadlines with_deadlines maxPending].
  - by apply filter_keys_nodup.
  - unfold table_size in *. cbn [deadlines with_deadlines].
    pose proof (length_filter (fun kv : jstr * Z => now < kv.2)%Z (deadlines t)). lia.
  - intros id. rewrite !count_app, count_opened_map, count_closed_map, Hc.
    rewrite filter_nodup_count by by apply filter_keys_nodup. unfold pending.
    set (t' := with_deadlines t _). pose proof (has_spec t id) as Hh. pose proof (has_spec t' id) as Hh'.
    cbn [deadlines with_deadlines t'] in Hh'.
    assert (forall P : jstr * Z -> Prop, forall Hd : (forall x, Decision (P x)),
      id ∈ (filter P (deadlines t)).*1 <-> exists v, (id, v) ∈ deadlines t /\ P (id, v)) as Hf.
    { intros P Hd. rewrite list_elem_of_fmap. split.
      - intros ([k v] & -> & [HP Hin]%list_elem_of_filter). eauto.
      - intros (v & Hin & HP). exists (id, v). by rewrite list_elem_of_filter. }
    rewrite Hf in Hh'. cbn [snd] in Hh'.
    assert (forall v v', (id, v) ∈ deadlines t -> (id, v') ∈ deadlines t -> v = v') as Huniq.
    { intros v v' Hv Hv'. by apply (keys_unique (deadlines t) id). }
    destruct (decide (id ∈ (filter _ (deadlines t)).*1)) as [Hin|Hnin].
    + rewrite Hf in Hin. cbn [snd] in Hin. destruct Hin as (v & Hv & Hle).
      destruct (has t id) eqn:E1.
      * destruct (has t' id) eqn:E2; [|lia]. destruct (proj1 Hh' eq_refl) as (v' & Hv' & Hlt).
        rewrite (Huniq _ _ Hv Hv') in Hle. lia.
      * exfalso. assert (false = true) as Hc'; [|done]. apply Hh, list_elem_of_fmap. by exists (id, v).
    + rewrite Hf in Hnin. cbn [snd] in Hnin. assert (has t id = has t' id) as ->; [|lia].
      destruct (has t id) eqn:E1, (has t' id) eqn:E2; try done.
      * pose proof (proj1 Hh eq_refl) as ([k v] & -> & Hin)%list_elem_of_fmap. cbn [fst] in *. exfalso.
        destruct (Z.le_gt_cases v now); [by apply Hnin; exists v|].
        assert (false = true) as Hc'; [|done]. apply Hh'. exists v. split; [done|lia].
      * destruct (proj1 Hh' eq_refl) as (v & Hv & _). assert (false = true) as Hc'; [|done].
        apply Hh, list_elem_of_fmap. by exists (id, v).
Qed.

Lemma run_table_inv ops st : table_inv st -> table_inv (fold_left run_table_op ops st).
Proof.
  revert st. induction ops as [|op ops IH]; intros [t events] Hi; [done|]. cbn [fold_left]. apply IH.
  destruct op as [now id options|id|id|now]; [by apply add_inv|by apply remove_inv|by apply remove_inv|by apply expire_inv].
Qed.

Lemma run_table_limit ops st :
  maxPending (fold_left run_table_op ops st).1 = maxPending st.1.
Proof.
  revert st. induction ops as [|op ops IH]; intros [t events]; [done|]. cbn [fold_left]. rewrite IH.
  destruct op as [now id options|id|id|now]; cbn [run_table_op]; [|done|done|].
  - unfold add. repeat case_match; simplify_eq/=; done.
  - unfold expire. by destruct (expire_loop now (deadlines t)).
Qed.

(** whatever is added, resolved, cancelled and expired, every request that was
    accepted ends exactly once (resolved, cancelled or expired) or is still pending, no
    identifier is pending twice, and no more requests are pending than the limit. *)
Theorem pending_requests_end_once options ops :
  let '(t, events) := run_table options ops in
  NoDup (deadlines t).*1 /\
  (table_size t <= Z.max 0 (default RELAY_PENDING_REQUEST_LIMIT (to_maxPending options)))%Z /\
  forall id, count (Opened id) events = count (Closed id) events + (if has t id then 1 else 0).
Proof.
  unfold run_table.
  assert (table_inv (new_table options, [])) as Hi0.
  { split; cbn [fst snd]; [apply NoDup_nil_2|unfold table_size; cbn [deadlines new_table length]; lia|done]. }
  pose proof (run_table_inv ops _ Hi0) as Hi. pose proof (run_table_limit ops (new_table options, [])) as Hm.
  destruct (fold_left _ ops _) as [t events]. destruct Hi as [Hnd Hl Hc]. cbn [fst snd] in *.
  rewrite Hm in Hl. done.
Qed.

(** [expire] answers exactly the requests whose deadline has come, takes exactly
    them out of the table, and a second call at the same time answers none. *)
Theorem expire_exact t now :
  let '(t', expired) := expire t now in
  expired = (filter (fun kv => kv.2 <= now)%Z (deadlines t)).*1 /\
  deadlines t' = filter (fun kv => now < kv.2)%Z (deadlines t) /\
  (expire t' now).2 = [].
Proof.
  unfold expire. rewrite expire_loop_spec. split_and!; [done|done|].
  cbn [deadlines with_deadlines]. rewrite expire_loop_spec. cbn [snd].
  induction (deadlines t) as [|[k v] d IH]; [done|]. rewrite !filter_cons. cbn [snd].
  destruct (decide (now < v)%Z); [|done]. rewrite filter_cons. cbn [snd].
  by rewrite decide_False by lia.
Qed.
