(* ===== verification/Base64.v ===== *)
(** Base64 as the packages use it: [btoa] and [atob] of the platform, and the two
    helpers of [packages/tunnel-protocol/src/index.ts] built on them. *)
From S2P Require Import Prelude JsString.

#[local] Open Scope N_scope.

(** * The platform's functions *)

Definition b64_char (v : N) : N :=
  if v <? 26 then v + 65 else if v <? 52 then v + 71 else if v <? 62 then v - 4
  else if v =? 62 then 43 else 47.

Definition b64_value (c : N) : option N :=
  if (65 <=? c) && (c <=? 90) then Some (c - 65)
  else if (97 <=? c) && (c <=? 122) then Some (c - 71)
  else if (48 <=? c) && (c <=? 57) then Some (c + 4)
  else if c =? 43 then Some 62 else if c =? 47 then Some 63 else None.

Definition pad : N := 61.

(** [btoa], on the units of a binary string. *)
Fixpoint btoa (bytes : list N) : jstr :=
  match bytes with
  | [] => []
  | [a] => [b64_char (a / 4); b64_char ((a mod 4) * 16); pad; pad]
  | [a; b] => [b64_char (a / 4); b64_char ((a mod 4) * 16 + b / 16); b64_char ((b mod 16) * 4); pad]
  | a :: b :: c :: r =>
      b64_char (a / 4) :: b64_char ((a mod 4) * 16 + b / 16) ::
      b64_char ((b mod 16) * 4 + c / 64) :: b64_char (c mod 64) :: btoa r
  end.

Definition is_ascii_space (c : N) : bool := (c =? 9) || (c =? 10) || (c =? 12) || (c =? 13) || (c =? 32).

(** At most two trailing signs of padding. *)
Definition strip_pad (s : jstr) : jstr :=
  match rev s with
  | c :: d :: r => if (c =? pad) && (d =? pad) then rev r else if c =? pad then rev (d :: r) else s
  | [c] => if c =? pad then [] else s
  | [] => s
  end.

Fixpoint decode_groups (s : jstr) : option (list N) :=
  match s with
  | [] => Some []
  | a :: b :: c :: d :: r =>
      a ← b64_value a; b ← b64_value b; c ← b64_value c; d ← b64_value d; rest ← decode_groups r;
      Some (a * 4 + b / 16 :: (b mod 16) * 16 + c / 4 :: (c mod 4) * 64 + d :: rest)
  | [a; b; c] =>
      a ← b64_value a; b ← b64_value b; c ← b64_value c;
      Some [a * 4 + b / 16; (b mod 16) * 16 + c / 4]
  | [a; b] => a ← b64_value a; b ← b64_value b; Some [a * 4 + b / 16]
  | [_] => None
  end.

(** [atob]: forgiving-base64 decode; [None] when it throws. *)
Definition atob (s : jstr) : option (list N) :=
  let s := filter (fun c => is_ascii_space c = false) s in
  decode_groups (if (length s mod 4 =? 0)%nat then strip_pad s else s).

(** * [tunnel-protocol] *)

Definition CHUNK_SIZE : nat := N.to_nat 0x8000.

(** [binary += String.fromCharCode(...bytes.subarray(...))], chunk by chunk. *)
Definition bytesToBase64 (bytes : list N) : jstr :=
  btoa (concat (chunks_of CHUNK_SIZE (length bytes) bytes)).

Definition base64ToBytes (base64 : jstr) : option (list N) := atob base64.

#[global] Arguments bytesToBase64 : simpl never.
#[global] Arguments base64ToBytes : simpl never.

(** [result.set(chunk, offset)]: [None] is the [RangeError] of a chunk that does not fit. *)
Definition typed_set (result chunk : list N) (offset : nat) : option (list N) :=
  if (offset + length chunk <=? length result)%nat
  then Some (take offset result ++ chunk ++ drop (offset + length chunk) result) else None.

Fixpoint concat_loop (chunks : list (list N)) (result : list N) (offset : nat) : option (list N) :=
  match chunks with
  | [] => Some result
  | chunk :: chunks => result ← typed_set result chunk offset; concat_loop chunks result (offset + length chunk)
  end.

(** [concatBytes(chunks, totalBytes)]. *)
Definition concatBytes (chunks : list (list N)) (totalBytes : Z) : option (list N) :=
  concat_loop chunks (replicate (Z.to_nat totalBytes) 0) 0.

#[global] Arguments concatBytes : simpl never.

(** * Base64 of Node's [Buffer] *)

Definition encodeBase64Bytes (bytes : list N) : jstr := btoa bytes.

(** The value of a unit, of either alphabet. *)
Definition buffer_value (c : N) : option N :=
  if (c =? 45) then Some 62 else if (c =? 95) then Some 63 else b64_value c.

Fixpoint until_pad (s : jstr) : jstr :=
  match s with [] => [] | c :: s => if (c =? pad) then [] else c :: until_pad s end.

Fixpoint buffer_bytes (values : list N) : list N :=
  match values with
  | a :: b :: c :: d :: r =>
      (a * 4 + b / 16 :: (b mod 16) * 16 + c / 4 :: (c mod 4) * 64 + d :: buffer_bytes r)
  | [a; b; c] => [a * 4 + b / 16; (b mod 16) * 16 + c / 4]
  | [a; b] => [a * 4 + b / 16]
  | _ => []
  end.

(** [Buffer.from(value, "base64")] skips what is no digit. *)
Definition decodeBase64Bytes (s : jstr) : list N := buffer_bytes (omap buffer_value (until_pad s)).

(** * The round trip *)

Definition is_byte (b : N) : bool := b <? 256.

Lemma b64_value_char v : v < 64 -> b64_value (b64_char v) = Some v.
Proof.
  intros Hv. unfold b64_char.
  destruct (N.ltb_spec v 26); [|destruct (N.ltb_spec v 52); [|destruct (N.ltb_spec v 62); [|destruct (N.eqb_spec v 62)]]].
  - unfold b64_value. rewrite (proj2 (N.leb_le 65 (v + 65))), (proj2 (N.leb_le (v + 65) 90)) by lia.
    cbn [andb]. f_equal. lia.
  - unfold b64_value. rewrite (proj2 (N.leb_gt (v + 71) 90)), andb_false_r by lia.
    rewrite (proj2 (N.leb_le 97 (v + 71))), (proj2 (N.leb_le (v + 71) 122)) by lia. cbn [andb]. f_equal. lia.
  - unfold b64_value. rewrite (proj2 (N.leb_gt 65 (v - 4))), (proj2 (N.leb_gt 97 (v - 4))) by lia. cbn [andb].
    rewrite (proj2 (N.leb_le 48 (v - 4))), (proj2 (N.leb_le (v - 4) 57)) by lia. cbn [andb]. f_equal. lia.
  - by subst.
  - by replace v with 63 by lia.
Qed.

Lemma b64_char_plain v : v < 64 -> b64_char v <> pad /\ is_ascii_space (b64_char v) = false.
Proof.
  intros Hv. assert (forall c u, b64_value c = Some u -> c <> pad /\ is_ascii_space c = false) as H.
  { intros c u Hc. split; [by intros ->|]. apply not_true_is_false. unfold is_ascii_space.
    rewrite !orb_true_iff, !N.eqb_eq. intros [[[[->| ->]| ->]| ->]| ->]; done. }
  by apply (H _ v), b64_value_char.
Qed.

Ltac b64_bytes :=
  repeat match goal with H : is_byte _ = true |- _ => unfold is_byte in H; apply N.ltb_lt in H end;
  zify; Z.to_euclidean_division_equations; lia.

(** Induction on the groups of three bytes. *)
Lemma group_ind (P : list N -> Prop) :
  P [] -> (forall a, P [a]) -> (forall a b, P [a; b]) -> (forall a b c r, P r -> P (a :: b :: c :: r)) ->
  forall l, P l.
Proof.
  intros H0 H1 H2 H3 l. assert (forall n l, (length l <= n)%nat -> P l) as H; [|by apply (H (length l))].
  clear l. induction n as [|n IH]; intros [|a [|b [|c r]]] Hl; auto; simpl in Hl; [lia..|].
  apply H3, IH. lia.
Qed.

Lemma btoa_length bytes : (length (btoa bytes) mod 4 = 0)%nat.
Proof.
  induction bytes as [| | |a b c r IH] using group_ind; try done. cbn [btoa length].
  rewrite <- Nat.add_1_l. replace (1 + S (S (S (length (btoa r)))))%nat with (length (btoa r) + 1 * 4)%nat by lia.
  by rewrite Nat.Div0.mod_add.
Qed.

Lemma btoa_count bytes : length (btoa bytes) = (4 * ((length bytes + 2) / 3))%nat.
Proof.
  induction bytes as [| | |a b c r IH] using group_ind; try done. cbn [btoa length]. rewrite IH.
  replace (S (S (S (length r))) + 2)%nat with (length r + 2 + 1 * 3)%nat by lia.
  rewrite Nat.div_add by lia. lia.
Qed.

Lemma bytesToBase64_count bytes : length (bytesToBase64 bytes) = (4 * ((length bytes + 2) / 3))%nat.
Proof.
  unfold bytesToBase64. rewrite concat_chunks_of; [apply btoa_count| |done]. unfold CHUNK_SIZE. lia.
Qed.

(** The output, without its padding, and the length of the padding. *)
Fixpoint btoa_body (bytes : list N) : jstr :=
  match bytes with
  | [] => []
  | [a] => [b64_char (a / 4); b64_char ((a mod 4) * 16)]
  | [a; b] => [b64_char (a / 4); b64_char ((a mod 4) * 16 + b / 16); b64_char ((b mod 16) * 4)]
  | a :: b :: c :: r =>
      b64_char (a / 4) :: b64_char ((a mod 4) * 16 + b / 16) ::
      b64_char ((b mod 16) * 4 + c / 64) :: b64_char (c mod 64) :: btoa_body r
  end.
Fixpoint pad_count (bytes : list N) : nat :=
  match bytes with [] => 0%nat | [_] => 2%nat | [_; _] => 1%nat | _ :: _ :: _ :: r => pad_count r end.

Lemma btoa_split bytes : btoa bytes = btoa_body bytes ++ repeat pad (pad_count bytes).
Proof. induction bytes as [| | |a b c r IH] using group_ind; try done. cbn. by rewrite IH. Qed.

Lemma pad_count_bound bytes : (pad_count bytes <= 2)%nat.
Proof. induction bytes using group_ind; cbn; lia. Qed.

Lemma btoa_body_chars bytes :
  Forall (fun b => is_byte b = true) bytes ->
  Forall (fun c => exists v, v < 64 /\ c = b64_char v) (btoa_body bytes).
Proof.
  induction bytes as [|a|a b|a b c r IH] using group_ind; intros H; rewrite ?Forall_cons in H; cbn;
    repeat (apply Forall_cons; split); try apply Forall_nil; try done; try (apply IH; tauto);
    destruct_and?; eexists; (split; [|reflexivity]); b64_bytes.
Qed.

Lemma decode_body bytes :
  Forall (fun b => is_byte b = true) bytes -> decode_groups (btoa_body bytes) = Some bytes.
Proof.
  induction bytes as [|a|a b|a b c r IH] using group_ind; intros H; [done|..]; rewrite ?Forall_cons in H;
    destruct_and?; cbn [btoa_body decode_groups]; rewrite !b64_value_char by b64_bytes; cbn -[N.div N.modulo N.mul];
    rewrite ?IH by done; cbn -[N.div N.modulo N.mul]; repeat f_equal; b64_bytes.
Qed.

Lemma strip_pad_app s k :
  (k <= 2)%nat -> (s = [] -> k = 0%nat) -> (forall c, last s = Some c -> c <> pad) -> strip_pad (s ++ repeat pad k) = s.
Proof.
  intros Hk Hs Hc. destruct s as [|c s] using rev_ind; [by rewrite Hs|clear IHs].
  specialize (Hc c (last_snoc _ _)). unfold strip_pad.
  assert ((c =? pad) = false) as Hp by (by apply N.eqb_neq).
  destruct k as [|[|[|k]]]; [| | |lia]; cbn [repeat]; rewrite ?app_nil_r, ?rev_app_distr; cbn [rev app].
  - destruct (rev s); by rewrite ?Hp.
  - by rewrite Hp, N.eqb_refl, rev_involutive.
  - by rewrite rev_involutive.
Qed.

Lemma btoa_chars bytes :
  Forall (fun b => is_byte b = true) bytes ->
  filter (fun c => is_ascii_space c = false) (btoa bytes) = btoa bytes.
Proof.
  intros H. assert (Forall (fun c => is_ascii_space c = false) (btoa bytes)) as Hall;
    [|induction Hall as [|c s Hc _ IH]; [done|by rewrite filter_cons_True, IH]].
  rewrite btoa_split. apply Forall_app. split.
  - eapply Forall_impl; [by apply btoa_body_chars|]. intros c (v & Hv & ->). by apply b64_char_plain.
  - apply Forall_forall. intros c Hc. apply list_elem_of_In, repeat_spec in Hc. by subst.
Qed.

Lemma atob_btoa bytes : Forall (fun b => is_byte b = true) bytes -> atob (btoa bytes) = Some bytes.
Proof.
  intros H. unfold atob. rewrite btoa_chars, btoa_length, Nat.eqb_refl by done.
  rewrite btoa_split, strip_pad_app; [by apply decode_body|apply pad_count_bound|..].
  - by destruct bytes as [|? [|? [|? ?]]].
  - intros c Hc. pose proof (btoa_body_chars _ H) as Hb. rewrite Forall_forall in Hb.
    apply last_Some_elem_of, Hb in Hc as (v & Hv & ->). by apply b64_char_plain.
Qed.

(** The helpers round-trip: the bytes of a chunk, of any length, are recovered
    from their base64 text. *)
Lemma base64_bytes bytes :
  Forall (fun b => is_byte b = true) bytes -> base64ToBytes (bytesToBase64 bytes) = Some bytes.
Proof.
  intros H. unfold base64ToBytes, bytesToBase64. rewrite concat_chunks_of; [by apply atob_btoa|..].
  { unfold CHUNK_SIZE. lia. } { done. }
Qed.

Lemma concat_loop_app chunks done_ rest :
  length (concat chunks) = length rest ->
  concat_loop chunks (done_ ++ rest) (length done_) = Some (done_ ++ concat chunks).
Proof.
  revert done_ rest. induction chunks as [|c chunks IH]; intros done_ rest H; cbn in *.
  { by destruct rest. }
  rewrite length_app in H. unfold typed_set. rewrite length_app.
  rewrite (proj2 (Nat.leb_le _ _)) by lia. cbn.
  rewrite take_app_length, drop_app_add, app_assoc, <- length_app.
  rewrite IH; [by rewrite app_assoc|]. rewrite length_drop. lia.
Qed.

(** With the sum of the lengths, [concatBytes] concatenates. *)
Lemma concatBytes_concat chunks (totalBytes : Z) :
  totalBytes = Z.of_nat (length (concat chunks)) -> concatBytes chunks totalBytes = Some (concat chunks).
Proof.
  intros ->. unfold concatBytes. rewrite Nat2Z.id.
  apply (concat_loop_app chunks [] (replicate (length (concat chunks)) 0)). by rewrite length_replicate.
Qed.

(** ** The round trip of Node *)

Lemma until_pad_app s k : pad ∉ s -> until_pad (s ++ repeat pad k) = s.
Proof.
  induction s as [|c s IH]; intros Hs; [by destruct k|]. apply not_elem_of_cons in Hs as [Hc Hs].
  cbn [app until_pad]. by rewrite (proj2 (N.eqb_neq c pad)) by congruence; rewrite IH.
Qed.

Lemma buffer_value_char v : v < 64 -> buffer_value (b64_char v) = Some v.
Proof.
  intros Hv. unfold buffer_value. rewrite b64_value_char by done.
  destruct (_ =? 45) eqn:E1; to_prop; [|destruct (_ =? 95) eqn:E2; to_prop; [|done]];
    exfalso; [apply (f_equal b64_value) in E1; rewrite b64_value_char in E1 by done|
              apply (f_equal b64_value) in E2; rewrite b64_value_char in E2 by done]; discriminate.
Qed.

Lemma buffer_body bytes :
  Forall (fun b => is_byte b = true) bytes -> buffer_bytes (omap buffer_value (btoa_body bytes)) = bytes.
Proof.
  induction bytes as [|a|a b|a b c r IH] using group_ind; intros H; [done|..]; rewrite ?Forall_cons in H;
    destruct_and?; cbn [btoa_body omap list_omap]; rewrite !buffer_value_char by b64_bytes; cbn [buffer_bytes];
    rewrite ?IH by done; repeat f_equal; b64_bytes.
Qed.

(** What is encoded is read back. *)
Lemma decodeBase64Bytes_encode bytes :
  Forall (fun b => is_byte b = true) bytes -> decodeBase64Bytes (encodeBase64Bytes bytes) = bytes.
Proof.
  intros Hb. unfold decodeBase64Bytes, encodeBase64Bytes. rewrite btoa_split, until_pad_app; [by apply buffer_body|].
  intros Hp. pose proof (btoa_body_chars _ Hb) as Hc. rewrite Forall_forall in Hc. apply Hc in Hp as (v & Hv & Hp).
  destruct (b64_char_plain v Hv). congruence.
Qed.

(** * What [atob] accepts *)

Definition b64_unit (c : N) : Prop := is_Some (b64_value c).

Lemma b64_unit_plain c : b64_unit c -> c <> pad /\ is_ascii_space c = false.
Proof.
  intros [v Hv]. split; [by intros ->|]. apply not_true_is_false. unfold is_ascii_space.
  rewrite !orb_true_iff, !N.eqb_eq. intros [[[[->| ->]| ->]| ->]| ->]; done.
Qed.

Lemma decode_groups_some s : Forall b64_unit s -> (length s mod 4 <> 1)%nat -> is_Some (decode_groups s).
Proof.
  assert (forall n s, (length s <= n)%nat -> Forall b64_unit s -> (length s mod 4 <> 1)%nat -> is_Some (decode_groups s)) as H.
  { clear s. induction n as [|n IH]; intros s Hn Hs Hm; [destruct s; [by eexists|simpl in Hn; lia]|].
    destruct s as [|a [|b [|c [|d r]]]]; rewrite ?Forall_cons in Hs; destruct_and?; cbn [decode_groups];
      repeat match goal with H : b64_unit ?x |- _ => destruct H as [? ->] end; try done; try (by eexists).
    destruct (IH r) as [l Hl]; [simpl in Hn; lia|done| |].
    - intros Hr. apply Hm. cbn [length].
      replace (S (S (S (S (length r))))) with (length r + 1 * 4)%nat by lia. by rewrite Nat.Div0.mod_add.
    - cbn [mbind option_bind]. rewrite Hl. by eexists. }
  by apply (H (length s)).
Qed.

(** Letters, a multiple of four with at most two signs of padding, decode. *)
Lemma atob_padded l k :
  Forall b64_unit l -> (k <= 2)%nat -> (length (l ++ repeat pad k) mod 4 = 0)%nat ->
  is_Some (atob (l ++ repeat pad k)).
Proof.
  intros Hl Hk Hm. unfold atob.
  assert (forall s, Forall (fun c => is_ascii_space c = false) s -> filter (fun c => is_ascii_space c = false) s = s) as Hfil.
  { induction 1 as [|c s Hc _ IH]; [done|by rewrite filter_cons_True, IH]. }
  rewrite Hfil.
  2:{ apply Forall_app. split; [eapply Forall_impl; [exact Hl|]; intros c Hc; by apply b64_unit_plain|].
      apply Forall_forall. intros c Hc. apply list_elem_of_In, repeat_spec in Hc. by subst. }
  rewrite Hm, Nat.eqb_refl, strip_pad_app; [|done|..].
  - apply decode_groups_some; [done|]. rewrite length_app, repeat_length in Hm.
    intros H1. rewrite Nat.Div0.add_mod, H1 in Hm. destruct k as [|[|[|k]]]; [done..|lia].
  - intros ->. rewrite app_nil_l, repeat_length in Hm. by destruct k as [|[|[|k]]]; [| | |lia].
  - intros c Hc. rewrite Forall_forall in Hl. apply b64_unit_plain, Hl. by apply last_Some_elem_of.
Qed.
