(* ===== verification/DocStream.v ===== *)
(** [DocumentStreamCodec] of [packages/tunnel-protocol/src/index.ts]: a message of
    a document stream goes out as chunks under a send window, and the other side
    puts the chunks together again.  A two-party system of the codec, a wire in
    each direction and the acknowledgements shows what the pair delivers. *)
From S2P Require Import Prelude JsString Base64 PendingFrames.

#[local] Open Scope Z_scope.

Definition TUNNEL_WS_FRAME_BYTE_LIMIT : Z := 256 * 1024.
Definition TUNNEL_WS_DATA_CHUNK_BYTES : Z := (TUNNEL_WS_FRAME_BYTE_LIMIT - 1024) / 4 * 3.
Definition TUNNEL_WS_DATA_WINDOW_BYTES : Z := 4 * 1024 * 1024.
Definition TUNNEL_WS_DATA_MESSAGE_BYTE_LIMIT : Z := 8 * 1024 * 1024.

Record TunnelWebSocketDataEnvelope := {
  wd_streamId : jstr;
  wd_seq : Z;
  wd_bytesB64 : jstr;
  wd_fin : bool
}.

Record TunnelWebSocketDataAckEnvelope := { wa_streamId : jstr; wa_seq : Z }.

(** An element of [outbound]: the frame, and the bytes it carries. *)
Record Outbound := { ob_frame : TunnelWebSocketDataEnvelope; ob_bytes : Z }.

Record CodecOptions := {
  opt_chunkBytes : option Z; opt_windowBytes : option Z; opt_messageByteLimit : option Z
}.

Record DocumentStreamCodec := {
  streamId : jstr;
  txSeq : Z;
  unacked : Z;
  unackedBySeq : gmap Z Z;
  outbound : list Outbound;
  inbound : list (list N);
  inboundBytes : Z;
  chunkBytes : Z;
  windowBytes : Z;
  messageByteLimit : Z
}.

Definition new_DocumentStreamCodec (id : jstr) (opts : CodecOptions) : DocumentStreamCodec :=
  {| streamId := id; txSeq := 0; unacked := 0; unackedBySeq := ∅; outbound := []; inbound := [];
     inboundBytes := 0;
     chunkBytes := default TUNNEL_WS_DATA_CHUNK_BYTES (opt_chunkBytes opts);
     windowBytes := default TUNNEL_WS_DATA_WINDOW_BYTES (opt_windowBytes opts);
     messageByteLimit := default TUNNEL_WS_DATA_MESSAGE_BYTE_LIMIT (opt_messageByteLimit opts) |}.

(** The codec with the fields the sending half writes, and with those of the receiving half. *)
Definition with_tx (c : DocumentStreamCodec) (seq un : Z) (m : gmap Z Z) (out : list Outbound) : DocumentStreamCodec :=
  {| streamId := streamId c; txSeq := seq; unacked := un; unackedBySeq := m; outbound := out;
     inbound := inbound c; inboundBytes := inboundBytes c; chunkBytes := chunkBytes c;
     windowBytes := windowBytes c; messageByteLimit := messageByteLimit c |}.
Definition with_rx (c : DocumentStreamCodec) (chunks : list (list N)) (n : Z) : DocumentStreamCodec :=
  {| streamId := streamId c; txSeq := txSeq c; unacked := unacked c; unackedBySeq := unackedBySeq c;
     outbound := outbound c; inbound := chunks; inboundBytes := n; chunkBytes := chunkBytes c;
     windowBytes := windowBytes c; messageByteLimit := messageByteLimit c |}.

(** [bytes.subarray(begin, end)]: negative ends count from the end, the rest is clamped. *)
Definition clamp_index (len i : Z) : Z := if i <? 0 then Z.max 0 (len + i) else Z.min i len.
Definition subarray (bytes : list N) (from to : Z) : list N :=
  let first := clamp_index (byteLength bytes) from in
  let last := clamp_index (byteLength bytes) to in
  take (Z.to_nat (last - first)) (drop (Z.to_nat first) bytes).

Definition data_frame (id : jstr) (seq : Z) (bytes : list N) (fin : bool) : TunnelWebSocketDataEnvelope :=
  {| wd_streamId := id; wd_seq := seq; wd_bytesB64 := bytesToBase64 bytes; wd_fin := fin |}.

(** The loop of [enqueue]: the frames it pushes and the next [txSeq]; [None] when
    the fuel is spent, as it always is when [chunkBytes] is not positive. *)
Fixpoint enqueue_loop (fuel : nat) (id : jstr) (chunkBytes : Z) (bytes : list N) (offset seq : Z)
  : option (list Outbound * Z) :=
  if offset <? byteLength bytes then
    match fuel with
    | O => None
    | S fuel =>
        let chunk := subarray bytes offset (offset + chunkBytes) in
        let offset := offset + byteLength chunk in
        '(rest, next) ← enqueue_loop fuel id chunkBytes bytes offset (seq + 1);
        Some ({| ob_frame := data_frame id seq chunk (byteLength bytes <=? offset);
                 ob_bytes := byteLength chunk |} :: rest, next)
    end
  else Some ([], seq).

(** [enqueue]; [None] when its loop does not end. *)
Definition enqueue (c : DocumentStreamCodec) (bytes : list N) : option DocumentStreamCodec :=
  if byteLength bytes =? 0 then
    let frame := {| wd_streamId := streamId c; wd_seq := txSeq c; wd_bytesB64 := []; wd_fin := true |} in
    Some (with_tx c (txSeq c + 1) (unacked c) (unackedBySeq c)
      (outbound c ++ [{| ob_frame := frame; ob_bytes := 0 |}]))
  else
    '(frames, next) ← enqueue_loop (length bytes) (streamId c) (chunkBytes c) bytes 0 (txSeq c);
    Some (with_tx c next (unacked c) (unackedBySeq c) (outbound c ++ frames)).

(** The loop of [pullSendable] over [outbound]. *)
Fixpoint pull_loop (window : Z) (out : list Outbound) (un : Z) (m : gmap Z Z)
  : list TunnelWebSocketDataEnvelope * (list Outbound * Z * gmap Z Z) :=
  match out with
  | [] => ([], ([], un, m))
  | next :: rest =>
      if (0 <? un) && (window <? un + ob_bytes next) then ([], (out, un, m))
      else
        let m := if 0 <? ob_bytes next then <[wd_seq (ob_frame next) := ob_bytes next]> m else m in
        let '(frames, st) := pull_loop window rest (un + ob_bytes next) m in
        (ob_frame next :: frames, st)
  end.

Definition pullSendable (c : DocumentStreamCodec) : DocumentStreamCodec * list TunnelWebSocketDataEnvelope :=
  let '(frames, (out, un, m)) := pull_loop (windowBytes c) (outbound c) (unacked c) (unackedBySeq c) in
  (with_tx c (txSeq c) un m out, frames).

Definition hasPendingOutbound (c : DocumentStreamCodec) : bool := 0 <? Z.of_nat (length (outbound c)).

(** What [ingest] throws: [atob] on a malformed text, the [RangeError] of a message
    over the limit, the [RangeError] of [concatBytes]. *)
Inductive ingest_error := BadBase64 | MessageTooLarge | BadConcat.

Definition ingest (c : DocumentStreamCodec) (frame : TunnelWebSocketDataEnvelope)
  : DocumentStreamCodec * result ingest_error (option (list N)) :=
  match base64ToBytes (wd_bytesB64 frame) with
  | None => (c, Err BadBase64)
  | Some chunk =>
      if messageByteLimit c <? inboundBytes c + byteLength chunk then (with_rx c [] 0, Err MessageTooLarge)
      else
        let c := with_rx c (inbound c ++ [chunk]) (inboundBytes c + byteLength chunk) in
        if negb (wd_fin frame) then (c, Ok None)
        else match concatBytes (inbound c) (inboundBytes c) with
             | None => (c, Err BadConcat)
             | Some message => (with_rx c [] 0, Ok (Some message))
             end
  end.

Definition onAck (c : DocumentStreamCodec) (seq : Z) : DocumentStreamCodec :=
  match unackedBySeq c !! seq with
  | None => c
  | Some bytes =>
      with_tx c (txSeq c) (Z.max 0 (unacked c - bytes)) (delete seq (unackedBySeq c)) (outbound c)
  end.

Definition unackedBytes (c : DocumentStreamCodec) : Z := unacked c.

Definition canSend (c : DocumentStreamCodec) : bool := unacked c <? windowBytes c.

(** * What [enqueue] makes *)

(** The frames of a message cut into [chunks]. *)
Fixpoint chunk_frames (id : jstr) (seq : Z) (chunks : list (list N)) : list Outbound :=
  match chunks with
  | [] => []
  | chunk :: rest =>
      {| ob_frame := data_frame id seq chunk (match rest with [] => true | _ => false end);
         ob_bytes := byteLength chunk |} :: chunk_frames id (seq + 1) rest
  end.

(** The pieces of a message: one empty piece for the empty message. *)
Definition pieces (chunkBytes : Z) (bytes : list N) : list (list N) :=
  match bytes with [] => [[]] | _ => chunks_of (Z.to_nat chunkBytes) (length bytes) bytes end.

Lemma subarray_ok bytes (offset : nat) (n : Z) :
  (offset <= length bytes)%nat -> 0 < n ->
  subarray bytes (Z.of_nat offset) (Z.of_nat offset + n) = take (Z.to_nat n) (drop offset bytes).
Proof.
  intros Ho Hn. unfold subarray, clamp_index, byteLength.
  rewrite !(proj2 (Z.ltb_ge _ 0)) by lia. rewrite (Z.min_l (Z.of_nat offset)), Nat2Z.id by lia.
  destruct (decide (Z.of_nat offset + n <= Z.of_nat (length bytes))).
  - rewrite Z.min_l by lia. f_equal. lia.
  - rewrite Z.min_r by lia. rewrite !take_ge; [done|rewrite length_drop; lia..].
Qed.

Lemma enqueue_loop_ok fuel id n bytes (offset : nat) seq :
  0 < n -> (offset <= length bytes)%nat -> (length bytes - offset <= fuel)%nat ->
  let chunks := chunks_of (Z.to_nat n) fuel (drop offset bytes) in
  enqueue_loop fuel id n bytes (Z.of_nat offset) seq
    = Some (chunk_frames id seq chunks, seq + Z.of_nat (length chunks)).
Proof.
  intros Hn. revert offset seq. induction fuel as [|fuel IH]; intros offset seq Ho Hf.
  { cbn. unfold byteLength. rewrite (proj2 (Z.ltb_ge _ _)) by lia. f_equal. f_equal. lia. }
  cbn [enqueue_loop]. destruct (Z.ltb_spec (Z.of_nat offset) (byteLength bytes)) as [Hlt|Hge]; unfold byteLength in *.
  2:{ rewrite drop_ge by lia. cbn. f_equal. f_equal. lia. }
  rewrite subarray_ok by done. set (chunk := take (Z.to_nat n) (drop offset bytes)).
  assert (0 < length chunk /\ offset + length chunk <= length bytes)%nat as [Hpos Hle].
  { unfold chunk. rewrite length_take, length_drop. lia. }
  rewrite <- Nat2Z.inj_add, IH by lia.
  destruct (drop offset bytes) as [|x l] eqn:Hd.
  { apply (f_equal length) in Hd. rewrite length_drop in Hd. simpl in Hd. lia. }
  cbn [mbind option_bind]. cbn [chunks_of]. fold chunk.
  assert (drop (offset + length chunk) bytes = drop (Z.to_nat n) (x :: l)) as Hrest.
  { rewrite <- drop_drop, Hd. unfold chunk. rewrite length_take.
    destruct (decide (Z.to_nat n <= length (x :: l))%nat); [by rewrite Nat.min_l by lia|].
    rewrite Nat.min_r by lia. rewrite !drop_ge by lia. done. }
  rewrite <- Hrest. cbn [chunk_frames length]. f_equal. f_equal; [|lia]. f_equal.
  f_equal. unfold data_frame. f_equal.
  destruct (drop (offset + length chunk) bytes) as [|y r] eqn:Hr.
  - apply (f_equal length) in Hr. rewrite length_drop in Hr. simpl in Hr.
    rewrite (proj2 (Z.leb_le _ _)) by lia. by destruct fuel.
  - apply (f_equal length) in Hr. rewrite length_drop in Hr. simpl in Hr.
    rewrite (proj2 (Z.leb_gt _ _)) by lia. destruct fuel; [lia|done].
Qed.

Lemma enqueue_ok c bytes :
  0 < chunkBytes c ->
  let chunks := pieces (chunkBytes c) bytes in
  enqueue c bytes = Some (with_tx c (txSeq c + Z.of_nat (length chunks)) (unacked c) (unackedBySeq c)
                            (outbound c ++ chunk_frames (streamId c) (txSeq c) chunks)).
Proof.
  intros Hn. unfold enqueue, pieces. destruct bytes as [|x l] eqn:Hb; [done|rewrite <- Hb].
  assert (byteLength bytes <> 0) as Hne by (subst; unfold byteLength; simpl; lia).
  rewrite (proj2 (Z.eqb_neq _ _)) by done.
  pose proof (enqueue_loop_ok (length bytes) (streamId c) (chunkBytes c) bytes 0 (txSeq c) Hn
    ltac:(lia) ltac:(lia)) as H.
  change (Z.of_nat 0) with 0 in H. rewrite H, drop_0, Hb. done.
Qed.

(** ** The pieces *)

Definition bytes_ok (bytes : list N) : Prop := Forall (fun b => is_byte b = true) bytes.

Lemma pieces_concat n bytes : 0 < n -> concat (pieces n bytes) = bytes.
Proof.
  intros Hn. destruct bytes as [|x l]; [done|]. apply concat_chunks_of; [lia|done].
Qed.

Lemma pieces_nonempty n bytes : pieces n bytes <> [].
Proof. by destruct bytes. Qed.

Lemma pieces_bounded n bytes : 0 < n -> Forall (fun c => 0 <= byteLength c <= n) (pieces n bytes).
Proof.
  intros Hn. unfold byteLength. destruct bytes as [|x l]; [repeat constructor; simpl; lia|].
  cbn [pieces]. generalize (length (x :: l)) as fuel. generalize (x :: l) as bytes. intros bytes fuel. revert bytes.
  induction fuel as [|fuel IH]; intros [|y bytes]; try constructor; [|apply IH].
  rewrite length_take. lia.
Qed.

Lemma concat_bytes_ok chunks : bytes_ok (concat chunks) <-> Forall bytes_ok chunks.
Proof. unfold bytes_ok. induction chunks; cbn; [by split|]. by rewrite Forall_app, Forall_cons, IHchunks. Qed.

(** * Reassembly *)

(** The messages a list of frames completes, after the chunks [acc] of an open one;
    [None] when a frame is malformed or the last message stays open. *)
Fixpoint assemble (acc : list (list N)) (frames : list TunnelWebSocketDataEnvelope) : option (list (list N)) :=
  match frames with
  | [] => match acc with [] => Some [] | _ => None end
  | f :: frames =>
      chunk ← base64ToBytes (wd_bytesB64 f);
      if wd_fin f then rest ← assemble [] frames; Some (concat (acc ++ [chunk]) :: rest)
      else assemble (acc ++ [chunk]) frames
  end.

Lemma assemble_app acc fs gs rest more :
  assemble acc fs = Some rest -> assemble [] gs = Some more -> assemble acc (fs ++ gs) = Some (rest ++ more).
Proof.
  revert acc rest. induction fs as [|f fs IH]; intros acc rest Hfs Hgs; cbn in *.
  { destruct acc; [|done]. by injection Hfs as <-. }
  destruct (base64ToBytes (wd_bytesB64 f)) as [chunk|]; [|done]. cbn in *. destruct (wd_fin f); [|by eapply IH].
  destruct (assemble [] fs) as [l|] eqn:Hl; [|done]. cbn in Hfs. injection Hfs as <-.
  by rewrite (IH [] l Hl Hgs).
Qed.

Lemma assemble_chunks acc id seq chunks :
  chunks <> [] -> Forall bytes_ok chunks ->
  assemble acc (ob_frame <$> chunk_frames id seq chunks) = Some [concat (acc ++ chunks)].
Proof.
  intros Hne Hok. revert acc seq Hne. induction Hok as [|c chunks Hc Hok IH]; intros acc seq Hne; [done|].
  cbn. rewrite base64_bytes by done. cbn. destruct chunks as [|d chunks]; [done|].
  rewrite IH by done. by rewrite <- (app_assoc acc [c]).
Qed.

(** * The sending half *)

(** [len] consecutive sequence numbers. *)
Fixpoint seqs_from (start : Z) (len : nat) : list Z :=
  match len with O => [] | S len => start :: seqs_from (start + 1) len end.

Lemma seqs_from_app start n m : seqs_from start (n + m) = seqs_from start n ++ seqs_from (start + Z.of_nat n) m.
Proof.
  revert start. induction n as [|n IH]; intros start; [by rewrite Z.add_0_r|].
  cbn [Nat.add seqs_from app]. rewrite IH. replace (start + Z.of_nat (S n)) with (start + 1 + Z.of_nat n) by lia. done.
Qed.

Lemma elem_of_seqs_from start len s : s ∈ seqs_from start len <-> start <= s < start + Z.of_nat len.
Proof.
  revert start. induction len as [|len IH]; intros start; cbn [seqs_from]; [rewrite elem_of_nil; lia|].
  rewrite elem_of_cons, IH. lia.
Qed.

Lemma NoDup_seqs_from start len : NoDup (seqs_from start len).
Proof.
  revert start. induction len as [|len IH]; intros start; constructor; [|done]. rewrite elem_of_seqs_from. lia.
Qed.

Lemma chunk_frames_seqs id seq chunks :
  (wd_seq ∘ ob_frame <$> chunk_frames id seq chunks) = seqs_from seq (length chunks).
Proof. revert seq. induction chunks as [|c chunks IH]; intros seq; [done|]. cbn. by rewrite <- IH. Qed.

Lemma chunk_frames_length id seq chunks : length (chunk_frames id seq chunks) = length chunks.
Proof. revert seq. induction chunks as [|c chunks IH]; intros seq; [done|]. cbn. by rewrite IH. Qed.

(** The frames sent and not acknowledged, with their sizes: what the window accounts for. *)
Definition flight_sum (fl : list (Z * Z)) : Z := foldr (fun p n => p.2 + n) 0 fl.
Definition flight_map (fl : list (Z * Z)) : gmap Z Z := list_to_map (filter (fun p => 0 < p.2) fl).

Record tx_inv (c : DocumentStreamCodec) (fl : list (Z * Z)) : Prop := {
  tx_chunk : 0 < chunkBytes c;
  tx_seqs : exists start, fl.*1 ++ (wd_seq ∘ ob_frame <$> outbound c)
              = seqs_from start (length fl + length (outbound c))
            /\ txSeq c = start + Z.of_nat (length fl + length (outbound c));
  tx_map : unackedBySeq c = flight_map fl;
  tx_sum : unacked c = flight_sum fl;
  tx_flight : Forall (fun p => 0 <= p.2) fl;
  tx_sizes : Forall (fun o => 0 <= ob_bytes o <= chunkBytes c) (outbound c);
  tx_window : unacked c <= Z.max (windowBytes c) (chunkBytes c)
}.

Lemma flight_sum_cons p fl : flight_sum (p :: fl) = p.2 + flight_sum fl.
Proof. done. Qed.

Lemma flight_sum_app fl fl' : flight_sum (fl ++ fl') = flight_sum fl + flight_sum fl'.
Proof. induction fl as [|p fl IH]; [done|]. cbn [app]. rewrite !flight_sum_cons, IH. lia. Qed.

Lemma flight_sum_nonneg fl : Forall (fun p => 0 <= p.2) fl -> 0 <= flight_sum fl.
Proof. induction 1 as [|p fl Hp _ IH]; [done|]. rewrite flight_sum_cons. lia. Qed.

Lemma flight_map_fresh fl s : s ∉ fl.*1 -> flight_map fl !! s = None.
Proof.
  intros Hs. apply not_elem_of_list_to_map_1. intros (p & -> & [_ Hp]%list_elem_of_filter)%list_elem_of_fmap.
  apply Hs. apply list_elem_of_fmap. eauto.
Qed.

Lemma flight_map_snoc fl s n :
  s ∉ fl.*1 -> flight_map (fl ++ [(s, n)]) = if 0 <? n then <[s := n]> (flight_map fl) else flight_map fl.
Proof.
  intros Hs. unfold flight_map. rewrite filter_app. destruct (Z.ltb_spec 0 n).
  - rewrite filter_cons_True, filter_nil by done. rewrite list_to_map_snoc; [done|].
    intros (p & -> & [_ Hp]%list_elem_of_filter)%list_elem_of_fmap. apply Hs, list_elem_of_fmap. eauto.
  - rewrite filter_cons_False, filter_nil, app_nil_r by (simpl; lia). done.
Qed.

Lemma flight_map_cons fl s n :
  flight_map ((s, n) :: fl) = if 0 <? n then <[s := n]> (flight_map fl) else flight_map fl.
Proof.
  unfold flight_map. destruct (Z.ltb_spec 0 n).
  - by rewrite filter_cons_True.
  - by rewrite filter_cons_False by (simpl; lia).
Qed.

Lemma enqueue_tx_inv c fl bytes c' : tx_inv c fl -> enqueue c bytes = Some c' -> tx_inv c' fl.
Proof.
  intros [Hc (start & Hs & Hn) Hm Hsum Hfl Hsz Hw] He. rewrite enqueue_ok in He by done. injection He as <-.
  split; cbn; try done.
  - exists start. rewrite fmap_app, app_assoc, Hs, chunk_frames_seqs, Hn, <- seqs_from_app.
    rewrite length_app, chunk_frames_length.
    split; [f_equal; lia|lia].
  - apply Forall_app. split; [done|]. pose proof (pieces_bounded (chunkBytes c) bytes Hc) as Hb.
    clear -Hb. generalize (txSeq c). induction Hb; intros seq; constructor; [done|]. apply IHHb.
Qed.

(** One turn of [pullSendable]'s loop after the other. *)
Lemma pull_loop_ok w chunk out un m fl :
  (fl.*1 ++ (wd_seq ∘ ob_frame <$> out)) = seqs_from (hd 0 (fl.*1 ++ (wd_seq ∘ ob_frame <$> out))) (length fl + length out) ->
  m = flight_map fl -> un = flight_sum fl -> Forall (fun p => 0 <= p.2) fl ->
  Forall (fun o => 0 <= ob_bytes o <= chunk) out -> un <= Z.max w chunk ->
  exists sent rest,
    out = sent ++ rest /\
    let fl' := fl ++ ((fun o => (wd_seq (ob_frame o), ob_bytes o)) <$> sent) in
    pull_loop w out un m = (ob_frame <$> sent, (rest, flight_sum fl', flight_map fl'))
    /\ flight_sum fl' <= Z.max w chunk
    /\ (out <> [] -> un = 0 -> sent <> []).
Proof.
  revert un m fl. induction out as [|o out IH]; intros un m fl Hs Hm Hun Hfl Hsz Hw.
  { exists [], []. cbn. rewrite app_nil_r. subst. done. }
  cbn [pull_loop]. inversion_clear Hsz as [|? ? Ho Hsz'].
  destruct ((0 <? un) && (w <? un + ob_bytes o)) eqn:Hstop.
  { exists [], (o :: out). cbn. rewrite app_nil_r, Hm, Hun. split; [done|]. split; [done|]. split; [by subst|].
    to_prop. lia. }
  pose proof (flight_sum_nonneg fl Hfl) as Hnn.
  edestruct (IH (un + ob_bytes o) (if 0 <? ob_bytes o then <[wd_seq (ob_frame o) := ob_bytes o]> m else m)
    (fl ++ [(wd_seq (ob_frame o), ob_bytes o)])) as (sent & rest & -> & Hpull & Hle & _).
  - rewrite fmap_app, <- app_assoc. cbn. cbn in Hs. rewrite length_app. cbn.
    replace (length fl + 1 + length out)%nat with (length fl + S (length out))%nat by lia. done.
  - rewrite flight_map_snoc; [by rewrite Hm|]. pose proof (NoDup_seqs_from
      (hd 0 (fl.*1 ++ (wd_seq ∘ ob_frame <$> o :: out))) (length fl + length (o :: out))) as Hnd.
    rewrite <- Hs in Hnd. apply NoDup_app in Hnd as (_ & Hdis & _). intros Hin. apply (Hdis _ Hin). cbn. left.
  - rewrite flight_sum_app, flight_sum_cons, Hun. cbn [flight_sum foldr snd]. lia.
  - apply Forall_app. split; [done|]. repeat constructor. cbn. lia.
  - done.
  - apply andb_false_iff in Hstop as [H|H]; to_prop; lia.
  - rewrite Hpull. rewrite <- app_assoc in Hpull, Hle |- *. cbn [app] in *.
    exists (o :: sent), rest. cbn [fmap list_fmap app]. repeat split; done.
Qed.

Lemma pull_tx_inv c fl :
  tx_inv c fl ->
  exists sent rest,
    let '(c', frames) := pullSendable c in
    outbound c = sent ++ rest /\ outbound c' = rest /\ frames = ob_frame <$> sent /\
    c' = with_tx c (txSeq c) (unacked c') (unackedBySeq c') rest /\
    tx_inv c' (fl ++ ((fun o => (wd_seq (ob_frame o), ob_bytes o)) <$> sent)) /\
    (outbound c <> [] -> unacked c = 0 -> sent <> []).
Proof.
  intros [Hc (start & Hs & Hn) Hm Hsum Hfl Hsz Hw].
  destruct (pull_loop_ok (windowBytes c) (chunkBytes c) (outbound c) (unacked c) (unackedBySeq c) fl)
    as (sent & rest & Hout & Hpull & Hle & Hprog); try done.
  { rewrite Hs at 1. destruct (length fl + length (outbound c))%nat eqn:Hlen; [|by rewrite Hs].
    by rewrite Hs. }
  exists sent, rest. unfold pullSendable. rewrite Hpull. cbn. repeat split; cbn; try done.
  - rewrite Hout in Hs, Hn, Hsz. exists start. rewrite fmap_app in Hs.
    rewrite fmap_app, <- app_assoc, length_app, length_fmap, <- list_fmap_compose.
    rewrite length_app in Hs, Hn. rewrite Nat.add_assoc in Hs, Hn. split; [exact Hs|exact Hn].
  - apply Forall_app. split; [done|]. apply Forall_fmap. rewrite Hout in Hsz.
    apply Forall_app in Hsz as [Hsz _]. eapply Forall_impl; [exact Hsz|]. cbn. lia.
  - rewrite Hout in Hsz. by apply Forall_app in Hsz as [_ Hsz].
Qed.

Lemma ack_tx_inv c fl s n : tx_inv c ((s, n) :: fl) -> tx_inv (onAck c s) fl.
Proof.
  intros [Hc (start & Hs & Hn) Hm Hsum Hfl Hsz Hw]. cbn [fmap list_fmap fst app length Nat.add seqs_from] in Hs.
  pose proof (NoDup_seqs_from start (S (length fl + length (outbound c)))) as Hnd. cbn [seqs_from] in Hnd.
  rewrite <- Hs in Hnd. apply NoDup_cons in Hnd as [Hfresh _].
  assert (s ∉ fl.*1) as Hf by (intros ?; apply Hfresh, elem_of_app; by left).
  injection Hs as -> Hs. apply Forall_cons in Hfl as [Hpos Hfl]. cbn in Hpos. rewrite flight_sum_cons in Hsum. cbn in Hsum.
  rewrite flight_map_cons in Hm. pose proof (flight_sum_nonneg fl Hfl) as Hnn.
  assert (exists start', fl.*1 ++ (wd_seq ∘ ob_frame <$> outbound c) = seqs_from start' (length fl + length (outbound c))
            /\ txSeq c = start' + Z.of_nat (length fl + length (outbound c))) as Hseq.
  { exists (start + 1). split; [done|]. rewrite Hn. cbn [length]. lia. }
  unfold onAck. rewrite Hm. destruct (Z.ltb_spec 0 n).
  - rewrite lookup_insert_eq. rewrite delete_insert_id by (by apply flight_map_fresh).
    split; cbn; try done; lia.
  - rewrite flight_map_fresh by done. split; try done; lia.
Qed.

(** ** The window *)

Definition tx_start : list (Z * Z) := [].
Lemma new_tx_inv id opts : 0 < default TUNNEL_WS_DATA_CHUNK_BYTES (opt_chunkBytes opts) ->
  tx_inv (new_DocumentStreamCodec id opts) tx_start.
Proof. intros Hc. split; cbn; try done; [by exists 0|lia]. Qed.

(** * The receiving half *)

Record rx_inv (c : DocumentStreamCodec) : Prop := {
  rx_count : inboundBytes c = Z.of_nat (length (concat (inbound c)));
}.

Lemma assemble_first acc frames rest :
  acc <> [] -> assemble acc frames = Some rest ->
  exists m rest', rest = m :: rest' /\ (length (concat acc) <= length m)%nat.
Proof.
  revert acc. induction frames as [|f frames IH]; intros acc Hne Ha; cbn in Ha; [by destruct acc|].
  destruct (base64ToBytes (wd_bytesB64 f)) as [chunk|]; [|done]. cbn in Ha. destruct (wd_fin f).
  - destruct (assemble [] frames) as [l|]; [|done]. injection Ha as <-. do 2 eexists. split; [done|].
    rewrite concat_app, length_app. lia.
  - destruct (IH (acc ++ [chunk]) ltac:(by destruct acc) Ha) as (m & rest' & -> & Hm). do 2 eexists. split; [done|].
    rewrite concat_app, length_app in Hm. lia.
Qed.

(** A frame that [assemble] accepts, of messages within the limit, is taken. *)
Lemma ingest_assemble c f frames rest :
  rx_inv c -> assemble (inbound c) (f :: frames) = Some rest ->
  Forall (fun m => byteLength m <= messageByteLimit c) rest ->
  exists c' got,
    ingest c f = (c', Ok got) /\ rx_inv c' /\ c' = with_rx c (inbound c') (inboundBytes c') /\
    exists rest', assemble (inbound c') frames = Some rest' /\ rest = option_list got ++ rest'.
Proof.
  intros [Hn] Ha Hfit. cbn in Ha. unfold ingest. destruct (base64ToBytes (wd_bytesB64 f)) as [chunk|]; [|done].
  cbn [mbind option_bind] in Ha.
  assert (inboundBytes c + byteLength chunk = Z.of_nat (length (concat (inbound c ++ [chunk])))) as Hn'.
  { unfold byteLength. rewrite concat_app, length_app, Hn. cbn. rewrite app_nil_r. lia. }
  assert (exists m, m ∈ rest /\ (length (concat (inbound c ++ [chunk])) <= length m)%nat) as (m & Hm & Hlen).
  { destruct (wd_fin f).
    - destruct (assemble [] frames); [|done]. injection Ha as <-. eexists. split; [by left|done].
    - destruct (assemble_first (inbound c ++ [chunk]) _ _ ltac:(by destruct (inbound c)) Ha) as (m & r & -> & Hm).
      exists m. split; [by left|done]. }
  rewrite Forall_forall in Hfit. specialize (Hfit m Hm). unfold byteLength in Hfit.
  rewrite (proj2 (Z.ltb_ge _ _)) by lia. destruct (wd_fin f); cbn [negb].
  - cbn [inbound inboundBytes with_rx]. rewrite concatBytes_concat by done.
    destruct (assemble [] frames) as [l|] eqn:Hl; [|done]. injection Ha as <-.
    do 2 eexists. split; [done|]. split; [done|]. split; [done|]. by exists l.
  - do 2 eexists. split; [done|]. split; [done|]. split; [done|]. by exists rest.
Qed.

(** * Two parties *)

(** A sender, a receiver, the frames and the acknowledgements on their way, and what
    the two ends have sent and got. *)
Record exchange := {
  ex_tx : DocumentStreamCodec;
  ex_rx : DocumentStreamCodec;
  ex_wire : list TunnelWebSocketDataEnvelope;
  ex_acks : list TunnelWebSocketDataAckEnvelope;
  ex_sent : list (list N);
  ex_got : list (list N);
  ex_errors : list ingest_error
}.

Definition ack_of (f : TunnelWebSocketDataEnvelope) : TunnelWebSocketDataAckEnvelope :=
  {| wa_streamId := wd_streamId f; wa_seq := wd_seq f |}.

(** What the parties do by themselves: send what the window allows, take a frame and
    acknowledge it, take an acknowledgement. *)
Inductive transmit : exchange -> exchange -> Prop :=
| t_pull x tx f fs :
    pullSendable (ex_tx x) = (tx, f :: fs) ->
    transmit x {| ex_tx := tx; ex_rx := ex_rx x; ex_wire := ex_wire x ++ f :: fs; ex_acks := ex_acks x;
                  ex_sent := ex_sent x; ex_got := ex_got x; ex_errors := ex_errors x |}
| t_deliver x f wire rx got :
    ex_wire x = f :: wire -> ingest (ex_rx x) f = (rx, Ok got) ->
    transmit x {| ex_tx := ex_tx x; ex_rx := rx; ex_wire := wire; ex_acks := ex_acks x ++ [ack_of f];
                  ex_sent := ex_sent x; ex_got := ex_got x ++ option_list got; ex_errors := ex_errors x |}
| t_fail x f wire rx e :
    ex_wire x = f :: wire -> ingest (ex_rx x) f = (rx, Err e) ->
    transmit x {| ex_tx := ex_tx x; ex_rx := rx; ex_wire := wire; ex_acks := ex_acks x;
                  ex_sent := ex_sent x; ex_got := ex_got x; ex_errors := ex_errors x ++ [e] |}
| t_ack x a acks :
    ex_acks x = a :: acks ->
    transmit x {| ex_tx := onAck (ex_tx x) (wa_seq a); ex_rx := ex_rx x; ex_wire := ex_wire x; ex_acks := acks;
                  ex_sent := ex_sent x; ex_got := ex_got x; ex_errors := ex_errors x |}.

(** The steps: those, and a message handed to the sender, of bytes the receiver's limit
    allows. *)
Inductive exchange_step : exchange -> exchange -> Prop :=
| x_transmit x x' : transmit x x' -> exchange_step x x'
| x_send x tx m :
    bytes_ok m -> byteLength m <= messageByteLimit (ex_rx x) -> enqueue (ex_tx x) m = Some tx ->
    exchange_step x {| ex_tx := tx; ex_rx := ex_rx x; ex_wire := ex_wire x; ex_acks := ex_acks x;
                       ex_sent := ex_sent x ++ [m]; ex_got := ex_got x; ex_errors := ex_errors x |}.

Definition exchange_start (id : jstr) (opts opts' : CodecOptions) : exchange :=
  {| ex_tx := new_DocumentStreamCodec id opts; ex_rx := new_DocumentStreamCodec id opts';
     ex_wire := []; ex_acks := []; ex_sent := []; ex_got := []; ex_errors := [] |}.

(** A measure that every step of the transmission decreases. *)
Definition work_left (x : exchange) : nat :=
  3 * length (outbound (ex_tx x)) + 2 * length (ex_wire x) + length (ex_acks x).

Record exchange_inv (x : exchange) : Prop := {
  xi_tx : exists fl, tx_inv (ex_tx x) fl /\ fl.*1 = (wa_seq <$> ex_acks x) ++ (wd_seq <$> ex_wire x);
  xi_rx : rx_inv (ex_rx x);
  xi_rest : exists rest,
    assemble (inbound (ex_rx x)) (ex_wire x ++ (ob_frame <$> outbound (ex_tx x))) = Some rest /\
    ex_sent x = ex_got x ++ rest /\ Forall (fun m => byteLength m <= messageByteLimit (ex_rx x)) rest;
  xi_ok : ex_errors x = []
}.

Lemma transmit_inv x x' :
  exchange_inv x -> transmit x x' -> exchange_inv x' /\ (work_left x' < work_left x)%nat.
Proof.
  intros [(fl & Htx & Hfl) Hrx (rest & Ha & Hsent & Hfit) Hok] Hstep. destruct Hstep as
    [x tx f fs Hp|x f wire rx got Hw Hi|x f wire rx e Hw Hi|x a acks Hack]; unfold work_left; cbn.
  - destruct (pull_tx_inv _ _ Htx) as (sent & left & H). rewrite Hp in H.
    destruct H as (Hout & Hout' & Hfr & Hc & Htx' & _). rewrite Hout, fmap_app, <- Hfr in Ha.
    split.
    + split; cbn; [|done| |done].
      * eexists. split; [exact Htx'|]. rewrite fmap_app, Hfl, (fmap_app wd_seq), Hfr, <- !list_fmap_compose.
        by rewrite <- app_assoc.
      * exists rest. rewrite Hout', <- app_assoc. done.
    + rewrite Hout, Hout', !length_app, Hfr. apply (f_equal length) in Hfr. rewrite !length_fmap in *.
      cbn in Hfr. lia.
  - rewrite Hw in Ha, Hfl. cbn [app] in Ha.
    destruct (ingest_assemble _ _ _ _ Hrx Ha Hfit) as (c' & g & Hi' & Hrx' & Hc' & rest' & Ha' & ->).
    rewrite Hi in Hi'. injection Hi' as -> ->. split.
    + split; cbn; [|done| |done].
      * exists fl. split; [done|]. rewrite Hfl, fmap_app, <- app_assoc. done.
      * exists rest'. rewrite Hsent, <- app_assoc. split; [done|]. split; [done|].
        rewrite Hc'. cbn. by apply Forall_app in Hfit as [_ Hfit].
    + rewrite Hw, length_app. cbn. lia.
  - rewrite Hw in Ha. cbn [app] in Ha.
    destruct (ingest_assemble _ _ _ _ Hrx Ha Hfit) as (c' & g & Hi' & _). by rewrite Hi in Hi'.
  - rewrite Hack in Hfl |- *. cbn in Hfl. destruct fl as [|[s n] fl]; [done|]. injection Hfl as -> Hfl.
    pose proof (ack_tx_inv _ _ _ _ Htx) as Htx'.
    assert (outbound (onAck (ex_tx x) (wa_seq a)) = outbound (ex_tx x)) as Ho
      by (unfold onAck; by destruct (_ !! _)).
    split; [|rewrite Ho; cbn; lia]. split; cbn; [by exists fl|done| |done]. exists rest. by rewrite Ho.
Qed.

Lemma exchange_step_inv x x' : exchange_inv x -> exchange_step x x' -> exchange_inv x'.
Proof.
  intros Hinv Hstep. destruct Hstep as [x x' Ht|x tx m Hm Hlim He]; [by eapply transmit_inv|].
  destruct Hinv as [(fl & Htx & Hfl) Hrx (rest & Ha & Hsent & Hfit) Hok].
  pose proof (enqueue_tx_inv _ _ _ _ Htx He) as Htx'. rewrite enqueue_ok in He by apply Htx.
  injection He as <-. split; cbn; [by exists fl|done| |done]. exists (rest ++ [m]). split; [|split].
  - rewrite fmap_app, app_assoc. eapply assemble_app; [done|].
    rewrite assemble_chunks; [cbn [app]; rewrite pieces_concat; [done|apply Htx]|apply pieces_nonempty|].
    apply concat_bytes_ok. rewrite pieces_concat; [done|apply Htx].
  - by rewrite Hsent, app_assoc.
  - apply Forall_app. by repeat constructor.
Qed.

Section exchanges.
Context (id : jstr) (opts opts' : CodecOptions).
Context (Hchunk : 0 < default TUNNEL_WS_DATA_CHUNK_BYTES (opt_chunkBytes opts)).

Definition exchanges (x : exchange) : Prop := rtc exchange_step (exchange_start id opts opts') x.

Lemma exchanges_inv x : exchanges x -> exchange_inv x.
Proof.
  intros H. unfold exchanges in H. apply rtc_ind_r with (P := exchange_inv) (z := x) in H; [done| |].
  - split; cbn; [|done|by exists []|done]. exists []. split; [by apply new_tx_inv|done].
  - intros. by eapply exchange_step_inv.
Qed.

(** C3: Whatever the order of sending, delivery and acknowledgement, the receiver never
    fails on messages within its limit, and what it has got is a prefix, message by
    message and byte by byte, of what the sender was handed. *)
Theorem stream_delivers_in_order x :
  exchanges x -> ex_errors x = [] /\ exists rest, ex_sent x = ex_got x ++ rest.
Proof.
  intros H. destruct (exchanges_inv x H) as [_ _ (rest & _ & Hsent & _) Hok]. split; [done|by exists rest].
Qed.

(** The window never deadlocks the stream: every step of the transmission makes
    progress, and when there is none left to take, every message has arrived and
    nothing is counted as unacknowledged. *)
Theorem stream_drains x :
  exchanges x ->
  (forall x', transmit x x' -> (work_left x' < work_left x)%nat) /\
  ((forall x', ~ transmit x x') -> ex_got x = ex_sent x /\ unackedBytes (ex_tx x) = 0 /\ unackedBySeq (ex_tx x) = ∅).
Proof.
  intros H%exchanges_inv. split; [intros x' Hx; by eapply transmit_inv|]. intros Hstuck.
  destruct H as [(fl & Htx & Hfl) Hrx (rest & Ha & Hsent & Hfit) Hok].
  destruct (ex_acks x) as [|a acks] eqn:Hacks; [|exfalso; eapply Hstuck, t_ack, Hacks].
  destruct (ex_wire x) as [|f wire] eqn:Hwire.
  2:{ exfalso. destruct (ingest (ex_rx x) f) as [rx [got|e]] eqn:Hi;
      [by eapply Hstuck, t_deliver|by eapply Hstuck, t_fail]. }
  apply fmap_nil_inv in Hfl as ->. unfold unackedBytes. rewrite (tx_sum _ _ Htx), (tx_map _ _ Htx).
  split; [|done]. destruct (pull_tx_inv _ _ Htx) as (sent & left & Hp).
  destruct (pullSendable (ex_tx x)) as [tx fs] eqn:Hpull. destruct Hp as (Hout & _ & Hfs & _ & _ & Hprog).
  destruct (outbound (ex_tx x)) as [|o out] eqn:Ho.
  - cbn in Ha. destruct (inbound (ex_rx x)); [|done]. injection Ha as <-. by rewrite app_nil_r in Hsent.
  - exfalso. destruct sent as [|o' sent]; [by eapply Hprog; [|apply (tx_sum _ _ Htx)|]|].
    cbn in Hfs. subst fs. by eapply Hstuck, t_pull.
Qed.

(** The bytes in flight are exactly what is recorded per frame, and stay within the
    window, or within one chunk when a chunk is larger than the window. *)
Theorem send_window_bounded x :
  exchanges x ->
  0 <= unackedBytes (ex_tx x) <= Z.max (windowBytes (ex_tx x)) (chunkBytes (ex_tx x)) /\
  unackedBytes (ex_tx x) = map_fold (fun _ n sum => n + sum) 0 (unackedBySeq (ex_tx x)).
Proof.
  intros [(fl & Htx & Hfl) _ _ _]%exchanges_inv. unfold unackedBytes. split.
  - split; [|apply (tx_window _ _ Htx)]. rewrite (tx_sum _ _ Htx). apply flight_sum_nonneg, Htx.
  - rewrite (tx_sum _ _ Htx), (tx_map _ _ Htx). destruct Htx as [_ (start & Hs & _) _ _ Hpos _ _].
    assert (NoDup fl.*1) as Hnd.
    { pose proof (NoDup_seqs_from start (length fl + length (outbound (ex_tx x)))) as Hn.
      rewrite <- Hs in Hn. by apply NoDup_app in Hn as [? _]. }
    clear -Hpos Hnd. induction fl as [|[s n] fl IH]; [done|]. cbn in Hnd. apply NoDup_cons in Hnd as [Hf Hnd].
    apply Forall_cons in Hpos as [Hn Hpos]. cbn in Hn. rewrite flight_sum_cons, flight_map_cons, IH by done. cbn.
    destruct (Z.ltb_spec 0 n); [|lia]. rewrite map_fold_insert_L; [done|lia|by apply flight_map_fresh].
Qed.
End exchanges.

(** With the default chunk size, the text of every frame that [enqueue] makes leaves
    at least 1024 characters of the frame limit to the envelope around it. *)
Theorem enqueue_frames_fit c bytes c' :
  chunkBytes c = TUNNEL_WS_DATA_CHUNK_BYTES -> enqueue c bytes = Some c' ->
  exists frames,
    outbound c' = outbound c ++ frames /\
    Forall (fun o => Z.of_nat (length (wd_bytesB64 (ob_frame o))) + 1024 <= TUNNEL_WS_FRAME_BYTE_LIMIT) frames.
Proof.
  intros Hc He. assert (0 < chunkBytes c) as Hpos by (rewrite Hc; done).
  rewrite enqueue_ok in He by done. injection He as <-. eexists. split; [reflexivity|].
  pose proof (pieces_bounded (chunkBytes c) bytes Hpos) as Hb. rewrite Hc in Hb.
  generalize (txSeq c) as seq. revert Hb. rewrite Hc. generalize (pieces TUNNEL_WS_DATA_CHUNK_BYTES bytes) as chunks.
  intros chunks Hb. induction Hb as [|chunk chunks Hlen _ IH]; intros seq; constructor; [|apply IH].
  cbn [ob_frame data_frame wd_bytesB64]. rewrite bytesToBase64_count. unfold byteLength in Hlen.
  change TUNNEL_WS_DATA_CHUNK_BYTES with 195840 in Hlen. change TUNNEL_WS_FRAME_BYTE_LIMIT with 262144.
  rewrite Nat2Z.inj_mul, Nat2Z.inj_div, Nat2Z.inj_add. Z.to_euclidean_division_equations. lia.
Qed.

(** * Concrete runs *)

Definition small_opts : CodecOptions :=
  {| opt_chunkBytes := Some 2; opt_windowBytes := Some 3; opt_messageByteLimit := None |}.

Definition small_sent : exchange :=
  {| ex_tx := default (new_DocumentStreamCodec [] small_opts) (enqueue (new_DocumentStreamCodec [] small_opts) [1; 2; 3; 255; 0]%N);
     ex_rx := new_DocumentStreamCodec [] small_opts; ex_wire := []; ex_acks := [];
     ex_sent := [[1; 2; 3; 255; 0]%N]; ex_got := []; ex_errors := [] |}.

Lemma small_sent_reached : exchanges [] small_opts small_opts small_sent.
Proof.
  eapply rtc_once. eapply x_send with (m := [1; 2; 3; 255; 0]%N) (x := exchange_start [] small_opts small_opts);
    [repeat constructor|done|reflexivity].
Defined.

Definition small_pulled : exchange :=
  {| ex_tx := (pullSendable (ex_tx small_sent)).1; ex_rx := ex_rx small_sent;
     ex_wire := (pullSendable (ex_tx small_sent)).2; ex_acks := [];
     ex_sent := ex_sent small_sent; ex_got := []; ex_errors := [] |}.

(** The window of three bytes lets one of the three chunks out. *)
Lemma small_pulled_reached : exchanges [] small_opts small_opts small_pulled /\ length (ex_wire small_pulled) = 1%nat.
Proof.
  split; [|reflexivity]. eapply rtc_r; [exact small_sent_reached|]. apply x_transmit.
  eapply (t_pull small_sent). vm_compute. reflexivity.
Defined.

Lemma stream_delivers_in_order_witness : ex_errors small_pulled = [] /\ exists rest, ex_sent small_pulled = ex_got small_pulled ++ rest.
Proof. apply (stream_delivers_in_order [] small_opts small_opts); [reflexivity|apply small_pulled_reached]. Defined.

Lemma stream_drains_witness :
  work_left small_pulled = 8%nat /\
  (forall x', transmit small_pulled x' -> (work_left x' < work_left small_pulled)%nat).
Proof.
  split; [reflexivity|]. apply (stream_drains [] small_opts small_opts); [reflexivity|apply small_pulled_reached].
Defined.

Lemma send_window_bounded_witness :
  0 <= unackedBytes (ex_tx small_pulled) <= 3 /\ unackedBytes (ex_tx small_pulled) = 2.
Proof.
  split; [|reflexivity]. apply (send_window_bounded [] small_opts small_opts); [reflexivity|apply small_pulled_reached].
Defined.

Definition default_opts : CodecOptions :=
  {| opt_chunkBytes := None; opt_windowBytes := None; opt_messageByteLimit := None |}.

Lemma enqueue_frames_fit_witness :
  exists c' frames, enqueue (new_DocumentStreamCodec [] default_opts) [1; 2; 3]%N = Some c' /\
    outbound c' = [] ++ frames /\
    Forall (fun o => Z.of_nat (length (wd_bytesB64 (ob_frame o))) + 1024 <= TUNNEL_WS_FRAME_BYTE_LIMIT) frames.
Proof.
  eexists. edestruct (enqueue_frames_fit (new_DocumentStreamCodec [] default_opts) [1; 2; 3]%N) as (frames & H);
    [reflexivity|vm_compute; reflexivity|]. exists frames. split; [reflexivity|]. exact H.
Defined.
