(* ===== verification/StreamMux.v ===== *)
(** [StreamMux] of [packages/tunnel-client/src/stream-mux.ts]: the document streams of
    the relay, each joined to a loopback WebSocket of the daemon.

    The callbacks of a loopback socket hold the object of its stream, which may have left
    the map of streams by then: streams are objects of a store, the map holds their
    addresses. *)
From S2P Require Import Prelude JsString Utf8 Base64 PendingFrames DocStream.

#[local] Open Scope Z_scope.

(** * Data *)

Definition STREAM_RETRY_SAFE : Z := 4001.
Definition OVERSIZED_WS_FRAME : Z := 4004.
Definition WS_OPEN : Z := 1.

(** What the mux does to a loopback socket and sees of it: its [readyState], what was sent
    to it, the calls of [pause] (true) and [resume], and of [close]. *)
Record MuxLoopbackSocket := {
  lb_readyState : Z;
  lb_attempts : nat;
  lb_sent : list (list N);
  lb_flow : list bool;
  lb_closed : list (Z * jstr)
}.

Record MuxStream := {
  ms_id : jstr;                    (* [open.streamId] of the callbacks *)
  ms_codec : DocumentStreamCodec;
  ms_loopback : MuxLoopbackSocket;
  ms_loopbackOpen : bool;
  ms_paused : bool;
  ms_pendingInbound : list (list N);
  ms_pendingInboundBytes : Z
}.

Inductive mux_message :=
| MData (frame : TunnelWebSocketDataEnvelope)
| MAck (ack : TunnelWebSocketDataAckEnvelope)
| MClose (streamId : jstr) (code : Z) (reason : jstr).

#[export] Instance data_envelope_eq_dec : EqDecision TunnelWebSocketDataEnvelope.
Proof. solve_decision. Defined.
#[export] Instance ack_envelope_eq_dec : EqDecision TunnelWebSocketDataAckEnvelope.
Proof. solve_decision. Defined.
#[export] Instance mux_message_eq_dec : EqDecision mux_message.
Proof. solve_decision. Defined.

(** The objects made so far, the map [streams] in the order of insertion, the messages
    given to [deps.send], and the number of warnings logged. *)
Record StreamMux := {
  mx_store : gmap nat MuxStream;
  mx_next : nat;
  mx_streams : list (jstr * nat);
  mx_sent : list mux_message;
  mx_warnings : nat
}.

Record MuxDeps := { md_chunkBytes : option Z; md_windowBytes : option Z }.

(** Of the host: whether the [n]-th [send] to the socket of an object throws, and the text
    of the errors of [atob] and [Uint8Array.prototype.set]. *)
Class MuxHost := {
  send_throws : nat -> nat -> bool;
  bad_base64_text : jstr;
  bad_concat_text : jstr
}.

(** What arrives on a loopback socket, and the reason of its end. *)
Inductive ws_data := WsText (s : jstr) | WsBytes (bytes : list N) | WsBuffers (parts : list (list N)) | WsOther.
Inductive ws_reason := RsText (s : jstr) | RsBuffer (bytes : list N) | RsOther.

Definition toBytes (data : ws_data) : option (list N) :=
  match data with
  | WsText s => Some (encode s)
  | WsBytes bytes => Some bytes
  | WsBuffers parts => Some (concat parts)
  | WsOther => None
  end.

Definition reasonText (reason : ws_reason) : jstr :=
  match reason with RsText s => s | RsBuffer bytes => decode bytes | RsOther => [] end.

(** * State *)

Definition set_store (x : StreamMux) (a : nat) (s : MuxStream) : StreamMux :=
  {| mx_store := <[a := s]> (mx_store x); mx_next := mx_next x; mx_streams := mx_streams x;
     mx_sent := mx_sent x; mx_warnings := mx_warnings x |}.
Definition set_streams (x : StreamMux) (l : list (jstr * nat)) : StreamMux :=
  {| mx_store := mx_store x; mx_next := mx_next x; mx_streams := l; mx_sent := mx_sent x; mx_warnings := mx_warnings x |}.
(** [this.deps.send(message)]. *)
Definition send_all (x : StreamMux) (ms : list mux_message) : StreamMux :=
  {| mx_store := mx_store x; mx_next := mx_next x; mx_streams := mx_streams x; mx_sent := mx_sent x ++ ms;
     mx_warnings := mx_warnings x |}.
(** [this.deps.logger.log("warn", ...)]. *)
Definition log_warn (x : StreamMux) : StreamMux :=
  {| mx_store := mx_store x; mx_next := mx_next x; mx_streams := mx_streams x; mx_sent := mx_sent x;
     mx_warnings := S (mx_warnings x) |}.

Definition with_codec (s : MuxStream) (c : DocumentStreamCodec) : MuxStream :=
  {| ms_id := ms_id s; ms_codec := c; ms_loopback := ms_loopback s; ms_loopbackOpen := ms_loopbackOpen s;
     ms_paused := ms_paused s; ms_pendingInbound := ms_pendingInbound s; ms_pendingInboundBytes := ms_pendingInboundBytes s |}.
Definition with_loopback (s : MuxStream) (lb : MuxLoopbackSocket) : MuxStream :=
  {| ms_id := ms_id s; ms_codec := ms_codec s; ms_loopback := lb; ms_loopbackOpen := ms_loopbackOpen s;
     ms_paused := ms_paused s; ms_pendingInbound := ms_pendingInbound s; ms_pendingInboundBytes := ms_pendingInboundBytes s |}.
Definition with_open (s : MuxStream) : MuxStream :=
  {| ms_id := ms_id s; ms_codec := ms_codec s; ms_loopback := ms_loopback s; ms_loopbackOpen := true;
     ms_paused := ms_paused s; ms_pendingInbound := ms_pendingInbound s; ms_pendingInboundBytes := ms_pendingInboundBytes s |}.
Definition with_pending (s : MuxStream) (p : list (list N)) (n : Z) : MuxStream :=
  {| ms_id := ms_id s; ms_codec := ms_codec s; ms_loopback := ms_loopback s; ms_loopbackOpen := ms_loopbackOpen s;
     ms_paused := ms_paused s; ms_pendingInbound := p; ms_pendingInboundBytes := n |}.
(** [paused = b] and the call on the socket. *)
Definition with_paused (s : MuxStream) (b : bool) : MuxStream :=
  let lb := ms_loopback s in
  {| ms_id := ms_id s; ms_codec := ms_codec s;
     ms_loopback := {| lb_readyState := lb_readyState lb; lb_attempts := lb_attempts lb; lb_sent := lb_sent lb;
                       lb_flow := lb_flow lb ++ [b]; lb_closed := lb_closed lb |};
     ms_loopbackOpen := ms_loopbackOpen s; ms_paused := b; ms_pendingInbound := ms_pendingInbound s;
     ms_pendingInboundBytes := ms_pendingInboundBytes s |}.

Fixpoint streams_get (l : list (jstr * nat)) (id : jstr) : option nat :=
  match l with [] => None | (i, a) :: l => if jeqb i id then Some a else streams_get l id end.
Definition streams_delete (l : list (jstr * nat)) (id : jstr) : list (jstr * nat) :=
  List.filter (fun p => negb (jeqb p.1 id)) l.

(** [this.streams.get(id)], with its object. *)
Definition get_stream (x : StreamMux) (id : jstr) : option (nat * MuxStream) :=
  a ← streams_get (mx_streams x) id; s ← mx_store x !! a; Some (a, s).

(** [if (stream.loopback.readyState === WS_OPEN) stream.loopback.close(code, reason)]: the
    socket is then closing. *)
Definition close_loopback (x : StreamMux) (a : nat) (s : MuxStream) (code : Z) (reason : jstr) : StreamMux :=
  let lb := ms_loopback s in
  if lb_readyState lb =? WS_OPEN
  then set_store x a (with_loopback s
         {| lb_readyState := 2; lb_attempts := lb_attempts lb; lb_sent := lb_sent lb; lb_flow := lb_flow lb;
            lb_closed := lb_closed lb ++ [(code, reason)] |})
  else x.

Section mux.
Context `{MuxHost} (deps : MuxDeps).

(** * Private methods *)

Definition tearDown (x : StreamMux) (id : jstr) (code : Z) (reason : jstr) : StreamMux :=
  match get_stream x id with
  | None => x
  | Some (a, s) =>
      let x := set_streams x (streams_delete (mx_streams x) id) in
      send_all (close_loopback x a s 1002 reason) [MClose id code reason]
  end.

(** The answer, and the stream after the attempt. *)
Definition writeLoopback (x : StreamMux) (a : nat) (s : MuxStream) (bytes : list N) : StreamMux * bool :=
  let lb := ms_loopback s in
  let throws := send_throws a (lb_attempts lb) in
  let x := set_store x a (with_loopback s
    {| lb_readyState := lb_readyState lb; lb_attempts := S (lb_attempts lb);
       lb_sent := if throws then lb_sent lb else lb_sent lb ++ [bytes]; lb_flow := lb_flow lb; lb_closed := lb_closed lb |}) in
  if throws then (log_warn x, false) else (x, true).

Definition flushOutbound (x : StreamMux) (a : nat) (s : MuxStream) : StreamMux :=
  let '(c, fs) := pullSendable (ms_codec s) in
  let s := with_codec s c in
  let pending := hasPendingOutbound c in
  let s := if pending && negb (ms_paused s) then with_paused s true
           else if negb pending && ms_paused s then with_paused s false else s in
  set_store (send_all x (map MData fs)) a s.

Definition sendDataAck (x : StreamMux) (frame : TunnelWebSocketDataEnvelope) : StreamMux := send_all x [MAck (ack_of frame)].

(** * The socket's callbacks *)

(** The loop over [pendingInbound]: whether every write went through. *)
Fixpoint write_pending (x : StreamMux) (a : nat) (pending : list (list N)) : StreamMux * bool :=
  match pending with
  | [] => (x, true)
  | bytes :: pending =>
      match mx_store x !! a with
      | None => (x, true)
      | Some s =>
          let '(x, written) := writeLoopback x a s bytes in
          if written then write_pending x a pending else (x, false)
      end
  end.

Definition on_loopback_open (x : StreamMux) (a : nat) : StreamMux :=
  match mx_store x !! a with
  | None => x
  | Some s =>
      let x := set_store x a (with_open s) in
      let '(x, written) := write_pending x a (ms_pendingInbound s) in
      if written then
        match mx_store x !! a with Some s => set_store x a (with_pending s [] 0) | None => x end
      else tearDown x (ms_id s) STREAM_RETRY_SAFE (js "loopback delivery failed")
  end.

(** [None] when the loop of [enqueue] does not end. *)
Definition on_loopback_message (x : StreamMux) (a : nat) (data : ws_data) : option StreamMux :=
  match mx_store x !! a, toBytes data with
  | Some s, Some bytes => c ← enqueue (ms_codec s) bytes; Some (flushOutbound x a (with_codec s c))
  | _, _ => Some x
  end.

Definition on_loopback_close (x : StreamMux) (a : nat) (code : option Z) (reason : ws_reason) : StreamMux :=
  match mx_store x !! a with
  | None => x
  | Some s =>
      if bool_decide (streams_get (mx_streams x) (ms_id s) = None) then x
      else send_all (set_streams x (streams_delete (mx_streams x) (ms_id s)))
             [MClose (ms_id s) (default STREAM_RETRY_SAFE code) (reasonText reason)]
  end.

Definition on_loopback_error (x : StreamMux) : StreamMux := log_warn x.

(** * Methods *)

Definition new_stream (id : jstr) (readyState : Z) : MuxStream :=
  {| ms_id := id;
     ms_codec := new_DocumentStreamCodec id
       {| opt_chunkBytes := md_chunkBytes deps; opt_windowBytes := md_windowBytes deps; opt_messageByteLimit := None |};
     ms_loopback := {| lb_readyState := readyState; lb_attempts := 0; lb_sent := []; lb_flow := []; lb_closed := [] |};
     ms_loopbackOpen := false; ms_paused := false; ms_pendingInbound := []; ms_pendingInboundBytes := 0 |}.

(** The socket that [openLoopback] answers has a [readyState]. *)
Definition handleOpen (x : StreamMux) (id : jstr) (readyState : Z) : StreamMux :=
  if bool_decide (streams_get (mx_streams x) id = None) then
    {| mx_store := <[mx_next x := new_stream id readyState]> (mx_store x); mx_next := S (mx_next x);
       mx_streams := mx_streams x ++ [(id, mx_next x)]; mx_sent := mx_sent x; mx_warnings := mx_warnings x |}
  else x.

(** [String(error)]. *)
Definition ingest_error_text (c : DocumentStreamCodec) (e : ingest_error) : jstr :=
  match e with
  | BadBase64 => bad_base64_text
  | MessageTooLarge => js "RangeError: ws.data reassembly for " ++ streamId c ++ js " exceeded "
                       ++ dec (messageByteLimit c) ++ js " bytes"
  | BadConcat => bad_concat_text
  end.

Definition handleData (x : StreamMux) (frame : TunnelWebSocketDataEnvelope) : StreamMux :=
  let id := wd_streamId frame in
  match get_stream x id with
  | None => x
  | Some (a, s) =>
      let '(c, r) := ingest (ms_codec s) frame in
      let s := with_codec s c in
      let x := set_store x a s in
      match r with
      | Err e => tearDown x id OVERSIZED_WS_FRAME (ingest_error_text c e)
      | Ok None => sendDataAck x frame
      | Ok (Some message) =>
          if ms_loopbackOpen s then
            let '(x, written) := writeLoopback x a s message in
            if written then sendDataAck x frame
            else tearDown x id STREAM_RETRY_SAFE (js "loopback delivery failed")
          else
            let limit := default TUNNEL_WS_DATA_WINDOW_BYTES (md_windowBytes deps) in
            if limit <? ms_pendingInboundBytes s + byteLength message
            then tearDown x id STREAM_RETRY_SAFE (js "pending inbound buffer overflow")
            else sendDataAck (set_store x a (with_pending s (ms_pendingInbound s ++ [message])
                                               (ms_pendingInboundBytes s + byteLength message))) frame
      end
  end.

Definition handleDataAck (x : StreamMux) (ack : TunnelWebSocketDataAckEnvelope) : StreamMux :=
  match get_stream x (wa_streamId ack) with
  | None => x
  | Some (a, s) => flushOutbound x a (with_codec s (onAck (ms_codec s) (wa_seq ack)))
  end.

Definition handleClose (x : StreamMux) (id reason : jstr) : StreamMux :=
  match get_stream x id with
  | None => x
  | Some (a, s) => close_loopback (set_streams x (streams_delete (mx_streams x) id)) a s 1000 reason
  end.

Definition disposeAll (x : StreamMux) (reason : jstr) : StreamMux :=
  set_streams
    (fold_left (fun x p => match mx_store x !! p.2 with Some s => close_loopback x p.2 s 1001 reason | None => x end)
       (mx_streams x) x) [].

(** * Runs *)

(** What happens to the mux.  [EvReady] is the socket's own change of state. *)
Inductive mux_event :=
| EvOpen (id : jstr) (readyState : Z)
| EvData (frame : TunnelWebSocketDataEnvelope)
| EvAck (ack : TunnelWebSocketDataAckEnvelope)
| EvClose (id reason : jstr)
| EvDispose (reason : jstr)
| EvLoopbackOpen (a : nat)
| EvLoopbackMessage (a : nat) (data : ws_data)
| EvLoopbackClose (a : nat) (code : option Z) (reason : ws_reason)
| EvLoopbackError (a : nat)
| EvReady (a : nat) (readyState : Z).

Definition set_ready (x : StreamMux) (a : nat) (readyState : Z) : StreamMux :=
  match mx_store x !! a with
  | None => x
  | Some s =>
      let lb := ms_loopback s in
      set_store x a (with_loopback s
        {| lb_readyState := readyState; lb_attempts := lb_attempts lb; lb_sent := lb_sent lb; lb_flow := lb_flow lb;
           lb_closed := lb_closed lb |})
  end.

Definition mux_step (x : StreamMux) (e : mux_event) : option StreamMux :=
  match e with
  | EvOpen id ready => Some (handleOpen x id ready)
  | EvData frame => Some (handleData x frame)
  | EvAck ack => Some (handleDataAck x ack)
  | EvClose id reason => Some (handleClose x id reason)
  | EvDispose reason => Some (disposeAll x reason)
  | EvLoopbackOpen a => Some (on_loopback_open x a)
  | EvLoopbackMessage a data => on_loopback_message x a data
  | EvLoopbackClose a code reason => Some (on_loopback_close x a code reason)
  | EvLoopbackError a => Some (on_loopback_error x)
  | EvReady a ready => Some (set_ready x a ready)
  end.

Definition new_mux : StreamMux :=
  {| mx_store := ∅; mx_next := 0; mx_streams := []; mx_sent := []; mx_warnings := 0 |}.

(** A socket opens once. *)
Definition event_ok (x : StreamMux) (e : mux_event) : Prop :=
  match e with
  | EvLoopbackOpen a => forall s, mx_store x !! a = Some s -> ms_loopbackOpen s = false
  | _ => True
  end.

Inductive mux_runs : list mux_event -> StreamMux -> Prop :=
| runs_start : mux_runs [] new_mux
| runs_step es x e x' : mux_runs es x -> event_ok x e -> mux_step x e = Some x' -> mux_runs (es ++ [e]) x'.
End mux.
