(* ===== verification/StreamMuxProps.v ===== *)
(** What the stream multiplexer of [StreamMux.v] guarantees: the window and the buffers of
    every stream, back pressure, the order of what reaches a loopback socket and its
    acknowledgements, and how often a stream is closed. *)
From S2P Require Import Prelude JsString Utf8 Base64 PendingFrames DocStream StreamMux.

#[local] Open Scope Z_scope.

(** * The window, with acknowledgements in any order *)

Definition map_total (m : gmap Z Z) : Z := map_fold (fun _ n sum => n + sum) 0 m.

Lemma map_total_insert m s n : m !! s = None -> map_total (<[s := n]> m) = n + map_total m.
Proof. intros Hs. unfold map_total. rewrite map_fold_insert_L; [done|lia|done]. Qed.

Lemma map_total_delete m s n : m !! s = Some n -> map_total m = n + map_total (delete s m).
Proof. intros Hs. rewrite <- (insert_delete_id m s n Hs) at 1. apply map_total_insert, lookup_delete_eq. Qed.

Definition out_seqs (out : list Outbound) : list Z := map (fun o => wd_seq (ob_frame o)) out.

(** The bytes recorded as in flight are the unacknowledged ones, per frame and in total;
    what waits has numbers of its own and fits the chunk size. *)
Record window_ok (c : DocumentStreamCodec) : Prop := {
  wo_chunk : 0 < chunkBytes c;
  wo_total : unacked c = map_total (unackedBySeq c);
  wo_positive : map_Forall (fun s n => 0 < n /\ s < txSeq c /\ s ∉ out_seqs (outbound c)) (unackedBySeq c);
  wo_seqs : NoDup (out_seqs (outbound c));
  wo_out : Forall (fun o => wd_seq (ob_frame o) < txSeq c /\ 0 <= ob_bytes o <= chunkBytes c) (outbound c);
  wo_window : unacked c <= Z.max (windowBytes c) (chunkBytes c)
}.

Lemma map_total_nonneg m : map_Forall (fun _ n => 0 < n) m -> 0 <= map_total m.
Proof.
  unfold map_total. induction m as [|s n m Hs IH] using map_ind; intros Hm; [by rewrite map_fold_empty|].
  apply map_Forall_insert in Hm as [Hn Hm]; [|done]. rewrite map_fold_insert_L; [|lia|done]. specialize (IH Hm). lia.
Qed.

Lemma new_window_ok id opts : 0 < default TUNNEL_WS_DATA_CHUNK_BYTES (opt_chunkBytes opts) ->
  window_ok (new_DocumentStreamCodec id opts).
Proof. intros Hc. split; cbn; [done|done|apply map_Forall_empty|constructor|constructor|lia]. Qed.

Lemma chunk_frames_out id seq chunks : out_seqs (chunk_frames id seq chunks) = seqs_from seq (length chunks).
Proof. revert seq. induction chunks as [|c chunks IH]; intros seq; cbn; [done|]. by rewrite <- IH. Qed.

Lemma enqueue_window_ok c bytes c' : window_ok c -> enqueue c bytes = Some c' -> window_ok c'.
Proof.
  intros [Hc Ht Hp Hs Ho Hw] He. rewrite enqueue_ok in He by done. injection He as <-.
  set (chunks := pieces (chunkBytes c) bytes). split; cbn; try done.
  - eapply map_Forall_impl; [exact Hp|]. intros s n (Hn & Hlt & Hfresh). split_and!; [done|lia|].
    unfold out_seqs. rewrite map_app, elem_of_app. intros [?|Hin]; [done|].
    rewrite (chunk_frames_out (streamId c) (txSeq c) chunks : map _ _ = _), elem_of_seqs_from in Hin. lia.
  - unfold out_seqs. rewrite map_app. apply NoDup_app. split_and!; [done| |].
    + intros s Hin. rewrite (chunk_frames_out (streamId c) (txSeq c) chunks : map _ _ = _), elem_of_seqs_from.
      apply list_elem_of_fmap in Hin as (o & -> & Hin). rewrite Forall_forall in Ho. destruct (Ho _ Hin). lia.
    + rewrite (chunk_frames_out (streamId c) (txSeq c) chunks : map _ _ = _). apply NoDup_seqs_from.
  - apply Forall_app. split; [eapply Forall_impl; [exact Ho|]; cbn; lia|].
    pose proof (pieces_bounded (chunkBytes c) bytes Hc) as Hb. fold chunks in Hb.
    apply Forall_forall. intros o Hin. split.
    + assert (wd_seq (ob_frame o) ∈ seqs_from (txSeq c) (length chunks)) as Hseq.
      { rewrite <- (chunk_frames_out (streamId c)). by apply (list_elem_of_fmap_2 (fun o => wd_seq (ob_frame o))). }
      rewrite elem_of_seqs_from in Hseq. lia.
    + clear -Hb Hin. revert Hin. generalize (txSeq c). induction Hb as [|x l Hx _ IH]; intros seq; [by intros ?%elem_of_nil|].
      intros [->|Hin]%elem_of_cons; [done|]. by eapply IH.
Qed.

Lemma pull_loop_window w chunk lim out un m :
  un = map_total m -> map_Forall (fun s n => 0 < n /\ s < lim /\ s ∉ out_seqs out) m -> NoDup (out_seqs out) ->
  Forall (fun o => wd_seq (ob_frame o) < lim /\ 0 <= ob_bytes o <= chunk) out -> un <= Z.max w chunk ->
  let '(_, (out', un', m')) := pull_loop w out un m in
  un' = map_total m' /\ map_Forall (fun s n => 0 < n /\ s < lim /\ s ∉ out_seqs out') m' /\ NoDup (out_seqs out') /\
  Forall (fun o => wd_seq (ob_frame o) < lim /\ 0 <= ob_bytes o <= chunk) out' /\ un' <= Z.max w chunk /\
  (out' <> [] -> 0 < un').
Proof.
  revert un m. induction out as [|o out IH]; intros un m Hun Hm Hnd Ho Hw; cbn [pull_loop]; [by split_and!|].
  destruct ((0 <? un) && (w <? un + ob_bytes o)) eqn:Hstop.
  { to_prop. split_and!; [done..|]. intros _. lia. }
  inversion Ho as [|? ? [Hlt Hsz] Ho']; subst. cbn [out_seqs map] in Hnd. apply NoDup_cons in Hnd as [Hfresh Hnd].
  assert (m !! wd_seq (ob_frame o) = None) as Hnone.
  { destruct (m !! wd_seq (ob_frame o)) as [n|] eqn:E; [|done]. destruct (Hm _ _ E) as (_ & _ & Hni). exfalso. apply Hni. left. }
  assert (map_Forall (fun s n => 0 < n /\ s < lim /\ s ∉ out_seqs out) m) as Hm'.
  { eapply map_Forall_impl; [exact Hm|]. intros s n (? & ? & Hni). split_and!; [done..|]. intros ?. apply Hni. by right. }
  pose proof (map_total_nonneg m) as Hnn. specialize (IH (map_total m + ob_bytes o)
    (if 0 <? ob_bytes o then <[wd_seq (ob_frame o) := ob_bytes o]> m else m)).
  destruct (pull_loop w out _ _) as [fs [[out' un'] m']]. apply IH; [|..|done|done|].
  - destruct (Z.ltb_spec 0 (ob_bytes o)); [rewrite map_total_insert by done; lia|lia].
  - destruct (Z.ltb_spec 0 (ob_bytes o)); [|done]. by apply map_Forall_insert_2.
  - apply andb_false_iff in Hstop as [Hz|Hz]; to_prop; [|lia].
    assert (0 <= map_total m) by (apply Hnn; eapply map_Forall_impl; [exact Hm|]; naive_solver). lia.
Qed.

(** What waits after a pull waits for an acknowledgement. *)
Lemma pull_window_ok c : window_ok c ->
  window_ok (pullSendable c).1 /\ (hasPendingOutbound (pullSendable c).1 = true -> 0 < unacked (pullSendable c).1).
Proof.
  intros [Hc Ht Hp Hs Ho Hw]. unfold pullSendable.
  pose proof (pull_loop_window (windowBytes c) (chunkBytes c) (txSeq c) (outbound c) (unacked c) (unackedBySeq c) Ht Hp Hs Ho Hw) as H.
  destruct (pull_loop _ _ _ _) as [fs [[out un] m]]. destruct H as (? & ? & ? & ? & ? & Hpos). cbn [fst]. split; [by split|].
  unfold hasPendingOutbound. cbn. intros Hpend. apply Hpos. intros ->. done.
Qed.

Lemma ack_window_ok c s : window_ok c -> window_ok (onAck c s).
Proof.
  intros [Hc Ht Hp Hs Ho Hw]. unfold onAck. destruct (unackedBySeq c !! s) as [n|] eqn:E; [|done].
  destruct (Hp _ _ E) as [Hn _]. pose proof (map_total_delete _ _ _ E) as Hd.
  assert (0 <= map_total (delete s (unackedBySeq c))) as Hnn.
  { apply map_total_nonneg. apply map_Forall_delete. eapply map_Forall_impl; [exact Hp|]. naive_solver. }
  split; cbn; try done; [lia| |lia]. by apply map_Forall_delete.
Qed.

Lemma ingest_tx c f : exists chunks n, (ingest c f).1 = with_rx c chunks n \/ (ingest c f).1 = c.
Proof.
  unfold ingest. destruct (base64ToBytes _) as [chunk|]; [|exists [], 0; by right].
  destruct (_ <? _); [eexists _, _; by left|]. destruct (negb _); [eexists _, _; by left|].
  destruct (concatBytes _ _); eexists _, _; by left.
Qed.

Lemma ingest_window_ok c f : window_ok c -> window_ok (ingest c f).1 /\ unacked (ingest c f).1 = unacked c /\
  outbound (ingest c f).1 = outbound c.
Proof. intros [? ? ? ? ? ?]. destruct (ingest_tx c f) as (ch & n & [-> | ->]); split_and!; by try split. Qed.

(** * Every stream object *)

Definition total_length (l : list (list N)) : Z := Z.of_nat (length (concat l)).

Lemma total_length_snoc l m : total_length (l ++ [m]) = total_length l + byteLength m.
Proof. unfold total_length, byteLength. rewrite concat_app, length_app. cbn. rewrite app_nil_r. lia. Qed.

Section props.
Context `{MuxHost} (deps : MuxDeps).
Context (Hchunk : 0 < default TUNNEL_WS_DATA_CHUNK_BYTES (md_chunkBytes deps)).
Context (Hwindow : 0 <= default TUNNEL_WS_DATA_WINDOW_BYTES (md_windowBytes deps)).

Definition inbound_limit : Z := default TUNNEL_WS_DATA_WINDOW_BYTES (md_windowBytes deps).

(** The window holds; the socket is paused exactly when frames wait, and they then wait
    for an acknowledgement; what waits for the socket is counted and bounded. *)
Record stream_ok (s : MuxStream) : Prop := {
  so_window : window_ok (ms_codec s);
  so_paused : ms_paused s = hasPendingOutbound (ms_codec s);
  so_waits : ms_paused s = true -> 0 < unackedBytes (ms_codec s);
  so_bytes : ms_pendingInboundBytes s = total_length (ms_pendingInbound s);
  so_bound : ms_pendingInboundBytes s <= inbound_limit
}.

Definition streams_ok (x : StreamMux) : Prop := map_Forall (fun _ => stream_ok) (mx_store x).

Lemma streams_ok_set x a s : streams_ok x -> stream_ok s -> streams_ok (set_store x a s).
Proof. intros Hx Hs. by apply map_Forall_insert_2. Qed.

Lemma streams_ok_get x a s : streams_ok x -> mx_store x !! a = Some s -> stream_ok s.
Proof. intros Hx Ha. exact (Hx _ _ Ha). Qed.

Lemma get_stream_Some x id a s :
  get_stream x id = Some (a, s) <-> streams_get (mx_streams x) id = Some a /\ mx_store x !! a = Some s.
Proof.
  unfold get_stream. destruct (streams_get _ id) as [a'|]; cbn; [|naive_solver].
  destruct (mx_store x !! a') as [s'|] eqn:E; cbn; [|naive_solver]. split; [intros [= -> ->]; done|].
  intros [[= ->] Hs]. congruence.
Qed.

Lemma stream_ok_loopback s lb : stream_ok s -> stream_ok (with_loopback s lb).
Proof. by intros []. Qed.

Lemma streams_ok_close x a s code reason :
  streams_ok x -> mx_store x !! a = Some s -> streams_ok (close_loopback x a s code reason).
Proof.
  intros Hx Ha. unfold close_loopback. destruct (_ =? _); [|done].
  apply streams_ok_set; [done|]. by apply stream_ok_loopback, (streams_ok_get x a).
Qed.

Lemma streams_ok_tearDown x id code reason : streams_ok x -> streams_ok (tearDown x id code reason).
Proof.
  intros Hx. unfold tearDown. destruct (get_stream x id) as [[a s]|] eqn:E; [|done]. apply get_stream_Some in E as [_ Ha].
  apply (streams_ok_close (set_streams x _)); done.
Qed.

Lemma streams_ok_write x a s bytes : streams_ok x -> stream_ok s -> streams_ok (writeLoopback x a s bytes).1.
Proof.
  intros Hx Hs. unfold writeLoopback. destruct (send_throws _ _); cbn [fst log_warn];
    (apply (streams_ok_set x); [done|by apply stream_ok_loopback]).
Qed.

Lemma streams_ok_write_pending x a pending : streams_ok x -> streams_ok (write_pending x a pending).1.
Proof.
  revert x. induction pending as [|bytes pending IH]; intros x Hx; cbn [write_pending]; [done|].
  destruct (mx_store x !! a) as [s|] eqn:E; [|done].
  pose proof (streams_ok_write x a s bytes Hx (streams_ok_get _ _ _ Hx E)) as Hw.
  destruct (writeLoopback x a s bytes) as [x' []]; [by apply IH|done].
Qed.

Lemma flush_stream_ok x a s :
  streams_ok x -> window_ok (ms_codec s) -> ms_pendingInboundBytes s = total_length (ms_pendingInbound s) ->
  ms_pendingInboundBytes s <= inbound_limit -> streams_ok (flushOutbound x a s).
Proof.
  intros Hx Hw Hb Hl. unfold flushOutbound. destruct (pull_window_ok _ Hw) as [Hw' Hpos].
  destruct (pullSendable (ms_codec s)) as [c fs]. cbn [fst] in *. apply (streams_ok_set (send_all x _)); [done|].
  assert (forall s', ms_codec s' = c -> ms_paused s' = hasPendingOutbound c -> ms_pendingInbound s' = ms_pendingInbound s ->
    ms_pendingInboundBytes s' = ms_pendingInboundBytes s -> stream_ok s') as Hok.
  { intros s' Hc Hp Hi Hn. split; rewrite ?Hc, ?Hi, ?Hn; [done|done| |done|done]. intros Ht. rewrite Hp in Ht. by apply Hpos. }
  destruct (hasPendingOutbound c) eqn:Ep, (ms_paused s) eqn:Es; cbn [andb negb]; apply Hok; cbn; rewrite ?Ep, ?Es; done.
Qed.

Lemma streams_ok_handleData x f : streams_ok x -> streams_ok (handleData deps x f).
Proof.
  intros Hx. unfold handleData. destruct (get_stream x _) as [[a s]|] eqn:E; [|done]. apply get_stream_Some in E as [_ Ha].
  destruct (streams_ok_get _ _ _ Hx Ha) as [Hw Hp Hpos Hb Hl]. destruct (ingest_window_ok _ f Hw) as (Hw' & Hu & Hout).
  destruct (ingest (ms_codec s) f) as [c r]. cbn [fst] in *.
  assert (stream_ok (with_codec s c)) as Hs'.
  { split; cbn; [done|unfold hasPendingOutbound in *; by rewrite Hout|unfold unackedBytes in *; by rewrite Hu|done|done]. }
  assert (streams_ok (set_store x a (with_codec s c))) as Hx' by by apply streams_ok_set.
  destruct r as [[message|]|e]; [|done|by apply streams_ok_tearDown].
  destruct (ms_loopbackOpen (with_codec s c)).
  - pose proof (streams_ok_write _ a _ message Hx' Hs') as Hwr.
    destruct (writeLoopback _ a _ message) as [x' []]; [done|by apply streams_ok_tearDown].
  - destruct (_ <? _) eqn:El; [by apply streams_ok_tearDown|].
    apply (streams_ok_set (set_store x a _)); [done|]. destruct Hs'. split; cbn in *; try done.
    + rewrite total_length_snoc. lia.
    + unfold inbound_limit. to_prop. lia.
Qed.

Lemma streams_ok_open x a : streams_ok x -> streams_ok (on_loopback_open x a).
Proof.
  intros Hx. unfold on_loopback_open. destruct (mx_store x !! a) as [s|] eqn:E; [|done].
  assert (streams_ok (set_store x a (with_open s))) as Hx1.
  { apply streams_ok_set; [done|]. by destruct (streams_ok_get _ _ _ Hx E). }
  pose proof (streams_ok_write_pending _ a (ms_pendingInbound s) Hx1) as Hw.
  destruct (write_pending _ a _) as [x' []]; [|by apply streams_ok_tearDown]. cbn [fst] in Hw.
  destruct (mx_store x' !! a) as [s'|] eqn:E'; [|done]. apply streams_ok_set; [done|].
  destruct (streams_ok_get _ _ _ Hw E'). by split.
Qed.

Lemma streams_ok_dispose x reason : streams_ok x -> streams_ok (disposeAll x reason).
Proof.
  intros Hx. unfold disposeAll. assert (forall l y, streams_ok y -> streams_ok
    (fold_left (fun x (p : jstr * nat) => match mx_store x !! p.2 with Some s => close_loopback x p.2 s 1001 reason | None => x end) l y)) as Hf.
  { intros l. induction l as [|[id a] l IH]; intros y Hy; cbn [fold_left]; [done|]. apply IH. cbn [snd].
    destruct (mx_store y !! a) eqn:E; [|done]. by apply streams_ok_close. }
  by apply (Hf (mx_streams x) x).
Qed.

Lemma streams_ok_step x e x' : streams_ok x -> mux_step deps x e = Some x' -> streams_ok x'.
Proof.
  intros Hx. destruct e; cbn [mux_step].
  - intros [= <-]. unfold handleOpen. case_bool_decide; [|done]. apply map_Forall_insert_2; [|done].
    split; cbn; try done. by apply new_window_ok.
  - intros [= <-]. by apply streams_ok_handleData.
  - intros [= <-]. unfold handleDataAck. destruct (get_stream x _) as [[a s]|] eqn:E; [|done].
    apply get_stream_Some in E as [_ Ha]. destruct (streams_ok_get _ _ _ Hx Ha).
    apply flush_stream_ok; [done|by apply ack_window_ok|done|done].
  - intros [= <-]. unfold handleClose. destruct (get_stream x _) as [[a s]|] eqn:E; [|done].
    apply get_stream_Some in E as [_ Ha]. by apply (streams_ok_close (set_streams x _)).
  - intros [= <-]. by apply streams_ok_dispose.
  - intros [= <-]. by apply streams_ok_open.
  - unfold on_loopback_message. destruct (mx_store x !! a) as [s|] eqn:E; [|by intros [= <-]].
    destruct (toBytes data) as [bytes|]; [|by intros [= <-]]. intros (c & He & [= <-])%bind_Some.
    destruct (streams_ok_get _ _ _ Hx E). apply flush_stream_ok; [done|by eapply enqueue_window_ok|done|done].
  - intros [= <-]. unfold on_loopback_close. destruct (mx_store x !! a); [|done]. by case_bool_decide.
  - by intros [= <-].
  - intros [= <-]. unfold set_ready. destruct (mx_store x !! a) as [s|] eqn:E; [|done].
    apply streams_ok_set; [done|]. by apply stream_ok_loopback, (streams_ok_get x a).
Qed.

(** C26: at every moment of every run, for every stream ever opened, in the map or not: the
    bytes in flight are those recorded per frame and fit the window (or one chunk), the
    loopback socket is paused exactly while frames wait, which then wait for an
    acknowledgement, and the messages waiting for the socket stay within the limit. *)
Theorem mux_streams_bounded es x a s :
  mux_runs deps es x -> mx_store x !! a = Some s ->
  unackedBytes (ms_codec s) = map_total (unackedBySeq (ms_codec s)) /\
  unackedBytes (ms_codec s) <= Z.max (windowBytes (ms_codec s)) (chunkBytes (ms_codec s)) /\
  ms_paused s = hasPendingOutbound (ms_codec s) /\
  (ms_paused s = true -> 0 < unackedBytes (ms_codec s)) /\
  ms_pendingInboundBytes s = total_length (ms_pendingInbound s) /\ ms_pendingInboundBytes s <= inbound_limit.
Proof.
  intros Hruns Ha. assert (streams_ok x) as Hx.
  { clear Ha. induction Hruns as [|es x e x' _ IH _ Hstep]; [apply map_Forall_empty|by eapply streams_ok_step]. }
  destruct (streams_ok_get _ _ _ Hx Ha) as [[] ? ? ? ?]. by split_and!.
Qed.

(** No event makes the mux loop: every step has a result. *)
Theorem mux_step_total es x e : mux_runs deps es x -> is_Some (mux_step deps x e).
Proof.
  intros Hruns. assert (streams_ok x) as Hx.
  { induction Hruns as [|es x e' x' _ IH _ Hstep]; [apply map_Forall_empty|by eapply streams_ok_step]. }
  destruct e; cbn [mux_step]; try done. unfold on_loopback_message.
  destruct (mx_store x !! a) as [s|] eqn:E; [|done]. destruct (toBytes data); [|done].
  destruct (streams_ok_get _ _ _ Hx E) as [[] _ _ _ _]. rewrite enqueue_ok by done. done.
Qed.
End props.
