(* ===== verification/StreamMuxDelivery.v ===== *)
(** The order of delivery of the stream multiplexer: what a loopback socket has got, and
    what waits for it, are the messages of the frames that were acknowledged, in order. *)
From S2P Require Import Prelude JsString Utf8 Base64 PendingFrames DocStream StreamMux StreamMuxProps.

#[local] Open Scope Z_scope.

(** * Frames taken *)

(** The messages the frames complete after those before, and the chunks of the open one;
    [None] when the text of a frame is malformed. *)
Fixpoint feed (msgs acc : list (list N)) (frames : list TunnelWebSocketDataEnvelope)
  : option (list (list N) * list (list N)) :=
  match frames with
  | [] => Some (msgs, acc)
  | f :: frames =>
      chunk ← base64ToBytes (wd_bytesB64 f);
      if wd_fin f then feed (msgs ++ [concat (acc ++ [chunk])]) [] frames else feed msgs (acc ++ [chunk]) frames
  end.

Lemma feed_app msgs acc fs gs : feed msgs acc (fs ++ gs) = '(m, c) ← feed msgs acc fs; feed m c gs.
Proof.
  revert msgs acc. induction fs as [|f fs IH]; intros msgs acc; cbn; [done|].
  destruct (base64ToBytes _); cbn; [|done]. destruct (wd_fin f); apply IH.
Qed.

Definition frames_at (taken : list (nat * TunnelWebSocketDataEnvelope)) (a : nat) : list TunnelWebSocketDataEnvelope :=
  map snd (List.filter (fun p => Nat.eqb p.1 a) taken).

Lemma frames_at_snoc taken b f a :
  frames_at (taken ++ [(b, f)]) a = frames_at taken a ++ if Nat.eqb b a then [f] else [].
Proof. unfold frames_at. rewrite List.filter_app, map_app. cbn. by destruct (Nat.eqb b a). Qed.

(** A frame is taken when its acknowledgement goes out. *)
Definition taken_of (x : StreamMux) (e : mux_event) (x' : StreamMux) : list (nat * TunnelWebSocketDataEnvelope) :=
  match e with
  | EvData f =>
      match streams_get (mx_streams x) (wd_streamId f) with
      | Some a => if bool_decide (mx_sent x' = mx_sent x ++ [MAck (ack_of f)]) then [(a, f)] else []
      | None => []
      end
  | _ => []
  end.

Definition ack_message (m : mux_message) : option TunnelWebSocketDataAckEnvelope :=
  match m with MAck a => Some a | _ => None end.
Definition acks_sent (x : StreamMux) : list TunnelWebSocketDataAckEnvelope := omap ack_message (mx_sent x).

Section delivery.
Context `{MuxHost} (deps : MuxDeps).

(** A run with the frames taken in it, each with the address of its stream. *)
Inductive mux_history : list (nat * TunnelWebSocketDataEnvelope) -> StreamMux -> Prop :=
| history_start : mux_history [] new_mux
| history_step taken x e x' :
    mux_history taken x -> event_ok x e -> mux_step deps x e = Some x' -> mux_history (taken ++ taken_of x e x') x'.

(** * The invariant *)

Definition live (x : StreamMux) (a : nat) (s : MuxStream) : Prop := streams_get (mx_streams x) (ms_id s) = Some a.

Record delivered (taken : list (nat * TunnelWebSocketDataEnvelope)) (lives : Prop) (a : nat) (s : MuxStream)
    (msgs chunks : list (list N)) : Prop := {
  de_feed : feed [] [] (frames_at taken a) = Some (msgs, chunks);
  de_prefix : exists rest, msgs = lb_sent (ms_loopback s) ++ rest;
  de_closed : ms_loopbackOpen s = false -> msgs = lb_sent (ms_loopback s) ++ ms_pendingInbound s;
  de_live : lives -> inbound (ms_codec s) = chunks /\ inboundBytes (ms_codec s) = total_length chunks /\
    msgs = lb_sent (ms_loopback s) ++ ms_pendingInbound s /\ (ms_loopbackOpen s = true -> ms_pendingInbound s = [])
}.

Record delivery_inv (taken : list (nat * TunnelWebSocketDataEnvelope)) (x : StreamMux) : Prop := {
  di_taken : Forall (fun p => (p.1 < mx_next x)%nat) taken;
  di_store : forall a s, mx_store x !! a = Some s -> (a < mx_next x)%nat;
  di_streams : forall id a, streams_get (mx_streams x) id = Some a -> exists s, mx_store x !! a = Some s /\ ms_id s = id;
  di_objects : forall a s, mx_store x !! a = Some s -> exists msgs chunks, delivered taken (live x a s) a s msgs chunks;
  di_acks : acks_sent x = map (fun p => ack_of p.2) taken
}.

(** ** Steps that take no frame *)

(** Between two states of an object: nothing of what it has received changes, or it is
    no longer of interest to the sender. *)
Definition same_rx (lives : Prop) (s s' : MuxStream) : Prop :=
  ms_id s' = ms_id s /\ lb_sent (ms_loopback s') = lb_sent (ms_loopback s) /\
  ms_loopbackOpen s' = ms_loopbackOpen s /\ ms_pendingInbound s' = ms_pendingInbound s /\
  (lives -> inbound (ms_codec s') = inbound (ms_codec s) /\ inboundBytes (ms_codec s') = inboundBytes (ms_codec s)).

Record quiet_step (x x' : StreamMux) : Prop := {
  qs_next : mx_next x' = mx_next x;
  qs_streams : forall id a, streams_get (mx_streams x') id = Some a -> streams_get (mx_streams x) id = Some a;
  qs_store : forall a, match mx_store x !! a, mx_store x' !! a with
                       | Some s, Some s' => same_rx (live x' a s) s s'
                       | None, None => True
                       | _, _ => False
                       end;
  qs_acks : acks_sent x' = acks_sent x
}.

Lemma same_rx_refl P s : same_rx P s s.
Proof. by split_and!. Qed.

#[export] Instance quiet_step_preorder : PreOrder quiet_step.
Proof.
  split.
  - intros x. split; [done..| |done]. intros a. destruct (mx_store x !! a); [apply same_rx_refl|done].
  - intros x y z [N1 S1 O1 A1] [N2 S2 O2 A2]. split; [congruence|auto| |congruence]. intros a. specialize (O1 a). specialize (O2 a).
    destruct (mx_store x !! a) as [s|], (mx_store y !! a) as [s'|], (mx_store z !! a) as [s''|]; try done.
    destruct O1 as (I1 & L1 & P1 & Q1 & R1), O2 as (I2 & L2 & P2 & Q2 & R2). split_and!; [congruence..|].
    intros Hl. unfold live in *. rewrite I1 in R2. destruct (R2 Hl). destruct (R1 (S2 _ _ Hl)). split; congruence.
Qed.

Lemma quiet_step_inv taken x x' : delivery_inv taken x -> quiet_step x x' -> delivery_inv taken x'.
Proof.
  intros [Ht Hs Hm Ho Ha] [Qn Qs Qo Qa]. split; [by rewrite Qn|..|by rewrite Qa].
  - intros a s' E. rewrite Qn. specialize (Qo a). rewrite E in Qo. destruct (mx_store x !! a) eqn:E'; [|done]. by eapply Hs.
  - intros id a E. destruct (Hm _ _ (Qs _ _ E)) as (s & Es & <-). specialize (Qo a). rewrite Es in Qo.
    destruct (mx_store x' !! a) as [s'|]; [|done]. exists s'. split; [done|]. apply Qo.
  - intros a s' E. specialize (Qo a). rewrite E in Qo. destruct (mx_store x !! a) as [s|] eqn:E'; [|done].
    destruct (Ho _ _ E') as (msgs & chunks & [Hf Hp Hc Hl]). destruct Qo as (Qi & Ql & Qop & Qp & Qr).
    exists msgs, chunks. split; rewrite ?Ql, ?Qp, ?Qop; [done..|]. intros Hlive. unfold live in Hlive. rewrite Qi in Hlive.
    destruct (Qr Hlive) as [-> ->]. by apply Hl, Qs.
Qed.

Lemma streams_get_delete l id j : streams_get (streams_delete l id) j = if jeqb id j then None else streams_get l j.
Proof.
  unfold streams_delete. induction l as [|[i a] l IH]; cbn; [by destruct (jeqb id j)|]. destruct (jeqb i id) eqn:E; cbn.
  - apply jeqb_eq in E as ->. rewrite IH. destruct (jeqb id j) eqn:E'; [done|]. done.
  - rewrite IH. destruct (jeqb i j) eqn:E'; [|done]. apply jeqb_eq in E' as ->. destruct (jeqb id j) eqn:E''; [|done].
    apply jeqb_eq in E'' as ->. unfold jeqb in E. by rewrite bool_decide_true in E.
Qed.

Lemma quiet_set x a s s' :
  mx_store x !! a = Some s -> same_rx (live x a s) s s' -> quiet_step x (set_store x a s').
Proof.
  intros Ha Hs. split; [done..| |done]. intros b. cbn. destruct (decide (a = b)) as [<-|Hne].
  - by rewrite Ha, lookup_insert_eq.
  - rewrite lookup_insert_ne by done. destruct (mx_store x !! b); [apply same_rx_refl|done].
Qed.

Lemma quiet_shrink x l :
  (forall id a, streams_get l id = Some a -> streams_get (mx_streams x) id = Some a) -> quiet_step x (set_streams x l).
Proof. intros Hl. split; [done..| |done]. intros a. cbn. destruct (mx_store x !! a); [apply same_rx_refl|done]. Qed.

Lemma quiet_delete x id : quiet_step x (set_streams x (streams_delete (mx_streams x) id)).
Proof. apply quiet_shrink. intros j a. rewrite streams_get_delete. by destruct (jeqb id j). Qed.

Lemma quiet_send x ms : omap ack_message ms = [] -> quiet_step x (send_all x ms).
Proof.
  intros Hms. split; [done..| |].
  - intros a. cbn. destruct (mx_store x !! a); [apply same_rx_refl|done].
  - unfold acks_sent. cbn. by rewrite omap_app, Hms, app_nil_r.
Qed.

Lemma quiet_log x : quiet_step x (log_warn x).
Proof. split; [done..| |done]. intros a. cbn. destruct (mx_store x !! a); [apply same_rx_refl|done]. Qed.

Lemma quiet_close x a s code reason : mx_store x !! a = Some s -> quiet_step x (close_loopback x a s code reason).
Proof. intros Ha. unfold close_loopback. destruct (_ =? _); [|done]. apply (quiet_set _ _ s); [done|by split_and!]. Qed.

Lemma quiet_tearDown x id code reason : quiet_step x (tearDown x id code reason).
Proof.
  unfold tearDown. destruct (get_stream x id) as [[a s]|] eqn:E; [|done]. apply get_stream_Some in E as [_ Ha].
  etransitivity; [apply quiet_delete|]. etransitivity; [by apply (quiet_close _ a s)|]. by apply quiet_send.
Qed.

Lemma quiet_flush x a s s' :
  mx_store x !! a = Some s -> same_rx (live x a s) s s' -> quiet_step x (flushOutbound x a s').
Proof.
  intros Ha (Hi & Hl & Ho & Hp & Hr). unfold flushOutbound. destruct (pullSendable (ms_codec s')) as [c fs] eqn:Ep.
  assert (inbound c = inbound (ms_codec s') /\ inboundBytes c = inboundBytes (ms_codec s')) as [Hc Hn].
  { unfold pullSendable in Ep. destruct (pull_loop _ _ _ _) as [? [[? ?] ?]]. by injection Ep as <- _. }
  etransitivity; [apply (quiet_send x (map MData fs)); clear; induction fs as [|f fs IH]; [done|exact IH]|]. apply (quiet_set _ a s); [done|].
  assert (forall s'', ms_id s'' = ms_id s' -> ms_codec s'' = c -> lb_sent (ms_loopback s'') = lb_sent (ms_loopback s') ->
    ms_loopbackOpen s'' = ms_loopbackOpen s' -> ms_pendingInbound s'' = ms_pendingInbound s' -> same_rx (live x a s) s s'') as Hok.
  { intros s'' E1 Hc'' E3 E4 E5. unfold same_rx. rewrite E1, E3, E4, E5. split_and!; [done..|]. intros Hlive. rewrite Hc'', Hc, Hn. by apply Hr. }
  destruct (_ && _); [|destruct (_ && _)]; by apply Hok.
Qed.

Lemma quiet_dispose x reason : quiet_step x (disposeAll x reason).
Proof.
  unfold disposeAll. etransitivity; [|by apply quiet_shrink].
  assert (forall l y, quiet_step y (fold_left (fun y (p : jstr * nat) =>
    match mx_store y !! p.2 with Some s => close_loopback y p.2 s 1001 reason | None => y end) l y)) as Hf.
  { intros l. induction l as [|p l IH]; intros y; cbn [fold_left]; [done|]. etransitivity; [|apply IH].
    destruct (mx_store y !! p.2) eqn:E; [by apply quiet_close|done]. }
  apply Hf.
Qed.

(** ** Opening the socket *)

Lemma write_pending_run x a s pending :
  mx_store x !! a = Some s ->
  exists n k lb, let '(x', written) := write_pending x a pending in
    x' = {| mx_store := <[a := with_loopback s lb]> (mx_store x); mx_next := mx_next x; mx_streams := mx_streams x;
            mx_sent := mx_sent x; mx_warnings := n |} /\
    lb_sent lb = lb_sent (ms_loopback s) ++ take k pending /\ (written = true -> (length pending <= k)%nat).
Proof.
  revert x s. induction pending as [|bytes pending IH]; intros x s Ha; cbn [write_pending].
  { exists (mx_warnings x), 0%nat, (ms_loopback s). rewrite app_nil_r. split_and!; [|done|done].
    rewrite insert_id; [by destruct x|]. rewrite Ha. by destruct s. }
  rewrite Ha. unfold writeLoopback. set (throws := send_throws _ _). destruct throws.
  - exists (S (mx_warnings x)), 0%nat. eexists. split_and!; [reflexivity|by rewrite app_nil_r|done].
  - set (s1 := with_loopback s _). destruct (IH (set_store x a s1) s1) as (n & k & lb & Hk); [apply lookup_insert_eq|].
    exists n, (S k), lb. destruct (write_pending _ a pending) as [x' w]. destruct Hk as (-> & Hlb & Hw).
    split_and!; [cbn; by rewrite insert_insert_eq|rewrite Hlb; cbn; by rewrite <- app_assoc|intros Hwt; specialize (Hw Hwt); cbn; lia].
Qed.

(** One object is replaced, its frames perhaps extended by one that is acknowledged, and
    what follows takes no frame. *)
Lemma update_inv taken taken' x y x' a s s2 :
  delivery_inv taken x -> mx_store x !! a = Some s -> ms_id s2 = ms_id s ->
  mx_next y = mx_next x -> mx_streams y = mx_streams x -> mx_store y = <[a := s2]> (mx_store x) ->
  acks_sent y = map (fun p => ack_of p.2) taken' -> Forall (fun p => (p.1 < mx_next x)%nat) taken' ->
  (forall b, b <> a -> frames_at taken' b = frames_at taken b) ->
  quiet_step y x' -> (exists msgs chunks, delivered taken' (live x' a s2) a s2 msgs chunks) ->
  delivery_inv taken' x'.
Proof.
  intros [_ Hs Hm Ho _] Ha Hid Hn Hst Hsto Hak Htk Hfr [Qn Qs Qo Qa] (msgs & chunks & Hd).
  rewrite Hst in Qs. rewrite Hn in Qn. split; [by rewrite Qn|..|by rewrite Qa].
  - intros b t E. rewrite Qn. specialize (Qo b). rewrite E, Hsto in Qo. destruct (decide (a = b)) as [<-|Hne]; [by eapply Hs|].
    rewrite lookup_insert_ne in Qo by done. destruct (mx_store x !! b) eqn:E'; [|done]. by eapply Hs.
  - intros id b (t & E & <-)%Qs%Hm. specialize (Qo b). rewrite Hsto in Qo. destruct (decide (a = b)) as [<-|Hne].
    + rewrite lookup_insert_eq in Qo. destruct (mx_store x' !! a) as [s'|]; [|done]. exists s'. split; [done|].
      destruct Qo as [-> _]. congruence.
    + rewrite lookup_insert_ne, E in Qo by done. destruct (mx_store x' !! b) as [s'|]; [|done]. exists s'. split; [done|]. apply Qo.
  - intros b t E. specialize (Qo b). rewrite E, Hsto in Qo. destruct (decide (a = b)) as [<-|Hne].
    + rewrite lookup_insert_eq in Qo. destruct Qo as (Qi & Ql & Qop & Qp & Qr), Hd as [Hf Hp Hc Hl]. exists msgs, chunks.
      split; rewrite ?Ql, ?Qp, ?Qop; [done..|]. unfold live in *. rewrite Qi. intros Hlive. destruct (Qr Hlive) as [-> ->]. by apply Hl.
    + rewrite lookup_insert_ne in Qo by done. destruct (mx_store x !! b) as [s'|] eqn:E'; [|done].
      destruct (Ho _ _ E') as (msgs' & chunks' & [Hf Hp Hc Hl]), Qo as (Qi & Ql & Qop & Qp & Qr). exists msgs', chunks'.
      split; rewrite ?Ql, ?Qp, ?Qop; [by rewrite Hfr|done..|]. unfold live in *. rewrite Qi. intros Hlive.
      destruct (Qr Hlive) as [-> ->]. by apply Hl, Qs.
Qed.

Lemma quiet_same x x' :
  mx_next x' = mx_next x -> mx_streams x' = mx_streams x -> mx_store x' = mx_store x -> acks_sent x' = acks_sent x ->
  quiet_step x x'.
Proof. intros Hn Hst Hs Ha. split; [done|by rewrite Hst| |done]. intros a. rewrite Hs. destruct (mx_store x !! a); [apply same_rx_refl|done]. Qed.

(** After a teardown the object no longer stands under its name. *)
Lemma tearDown_dead x a s code reason :
  mx_store x !! a = Some s -> ~ live (tearDown x (ms_id s) code reason) a s.
Proof.
  unfold live, tearDown. intros Ha. destruct (get_stream x (ms_id s)) as [[b t]|] eqn:E.
  - unfold close_loopback. destruct (_ =? _); cbn; rewrite streams_get_delete; unfold jeqb; by rewrite bool_decide_true.
  - intros Hl. unfold get_stream in E. rewrite Hl in E. cbn in E. by rewrite Ha in E.
Qed.

Lemma open_inv taken x a :
  delivery_inv taken x -> (forall s, mx_store x !! a = Some s -> ms_loopbackOpen s = false) ->
  delivery_inv taken (on_loopback_open x a).
Proof.
  intros Hinv Hshut. unfold on_loopback_open. destruct (mx_store x !! a) as [s|] eqn:Ea; [|done]. specialize (Hshut _ eq_refl).
  destruct (write_pending_run (set_store x a (with_open s)) a (with_open s) (ms_pendingInbound s)) as (n & k & lb & Hrun);
    [apply lookup_insert_eq|]. destruct (write_pending _ a _) as [x1 written]. destruct Hrun as (-> & Hlb & Hall).
  cbn [set_store mx_store mx_next mx_streams mx_sent ms_loopback with_open] in *. rewrite insert_insert_eq.
  destruct (di_objects _ _ Hinv _ _ Ea) as (msgs & chunks & [Hf Hp Hc Hl]). specialize (Hc Hshut).
  pose proof (di_taken _ _ Hinv) as Htk. pose proof (di_acks _ _ Hinv) as Hak. destruct written.
  - rewrite lookup_insert_eq. rewrite take_ge in Hlb by auto.
    match goal with |- delivery_inv _ ?y =>
      apply (update_inv taken taken x y y a s (with_pending (with_loopback (with_open s) lb) [] 0)) end; try done.
    { cbn. by rewrite insert_insert_eq. }
    exists msgs, chunks. split; cbn; rewrite ?Hlb, ?app_nil_r; [done|exists []; by rewrite app_nil_r|done|].
    intros (? & ? & _)%Hl. done.
  - set (x1 := {| mx_store := _ |}). eapply (update_inv taken taken x x1 _ a s (with_loopback (with_open s) lb) Hinv Ea eq_refl);
      [done..|exact Hak|exact Htk|done|apply quiet_tearDown|].
    exists msgs, chunks. split; cbn; [done| |done|].
    + exists (drop k (ms_pendingInbound s)). rewrite Hc, Hlb, <- app_assoc. f_equal. by rewrite take_drop.
    + intros Hlive. exfalso. revert Hlive. apply (tearDown_dead x1 a (with_loopback (with_open s) lb)). apply lookup_insert_eq.
Qed.

(** ** Data *)

Lemma acks_send x ms : acks_sent (send_all x ms) = acks_sent x ++ omap ack_message ms.
Proof. unfold acks_sent. cbn. by rewrite omap_app. Qed.

(** What [ingest] does with a chunk, when it does not fail. *)
Lemma ingest_ok c f c' r chunks :
  ingest c f = (c', Ok r) -> inbound c = chunks -> inboundBytes c = total_length chunks ->
  exists chunk, base64ToBytes (wd_bytesB64 f) = Some chunk /\
    match r with
    | None => wd_fin f = false /\ inbound c' = chunks ++ [chunk] /\ inboundBytes c' = total_length (chunks ++ [chunk])
    | Some m => wd_fin f = true /\ m = concat (chunks ++ [chunk]) /\ inbound c' = [] /\ inboundBytes c' = 0
    end.
Proof.
  unfold ingest. intros Hi <- Hn. destruct (base64ToBytes _) as [chunk|]; [|done]. exists chunk. split; [done|].
  destruct (_ <? _); [done|]. destruct (wd_fin f); cbn [negb] in Hi.
  - cbn [inbound inboundBytes with_rx] in Hi. rewrite concatBytes_concat in Hi.
    + injection Hi as <- <-. by split_and!.
    + rewrite Hn. unfold total_length, byteLength. rewrite concat_app, length_app. cbn. rewrite app_nil_r. lia.
  - injection Hi as <- <-. split_and!; [done..|]. cbn. by rewrite total_length_snoc, Hn.
Qed.

Lemma not_taken taken x f x' :
  acks_sent x' = acks_sent x -> delivery_inv taken x' -> delivery_inv (taken ++ taken_of x (EvData f) x') x'.
Proof.
  intros Hak Hx'. replace (taken_of x (EvData f) x') with (@nil (nat * TunnelWebSocketDataEnvelope)); [by rewrite app_nil_r|].
  cbn [taken_of]. destruct (streams_get _ _); [|done]. rewrite bool_decide_false; [done|].
  intros Hsent. unfold acks_sent in Hak. rewrite Hsent, omap_app in Hak.
  apply (f_equal length) in Hak. rewrite length_app in Hak. cbn in Hak. lia.
Qed.

(** [y] is [x] with another object at [a]. *)
Record replaces (x y : StreamMux) (a : nat) (s2 : MuxStream) : Prop := {
  rp_next : mx_next y = mx_next x;
  rp_streams : mx_streams y = mx_streams x;
  rp_store : mx_store y = <[a := s2]> (mx_store x);
  rp_sent : mx_sent y = mx_sent x
}.

(** The stream is torn down, and its object has received nothing more. *)
Lemma dropped_frame taken x f a s y s2 code reason :
  delivery_inv taken x -> mx_store x !! a = Some s -> replaces x y a s2 -> same_rx False s s2 ->
  let x' := tearDown y (ms_id s) code reason in delivery_inv (taken ++ taken_of x (EvData f) x') x'.
Proof.
  intros Hinv Ha [Hyn Hys Hyo Hyt] (Hi2 & Hl2 & Ho2 & Hp2 & _) x'.
  assert (acks_sent y = acks_sent x) as Hya by (unfold acks_sent; by rewrite Hyt).
  pose proof (quiet_tearDown y (ms_id s) code reason) as Hq.
  destruct (di_objects _ _ Hinv _ _ Ha) as (msgs & chunks & [Hf Hp Hc Hl]).
  apply not_taken; [unfold x'; by rewrite (qs_acks _ _ Hq)|]. apply (update_inv taken taken x y _ a s s2); try done.
  - rewrite Hya. apply (di_acks _ _ Hinv).
  - apply (di_taken _ _ Hinv).
  - exists msgs, chunks. split; rewrite ?Hl2, ?Ho2, ?Hp2; [done..|]. intros Hl'. exfalso. revert Hl'. unfold x'. rewrite <- Hi2.
    apply tearDown_dead. rewrite Hyo. apply lookup_insert_eq.
Qed.

(** The frame is acknowledged, and the messages it completes are with the object. *)
Lemma taken_frame taken x f a s y s2 msgs chunks msgs' chunks' :
  delivery_inv taken x -> mx_store x !! a = Some s -> streams_get (mx_streams x) (wd_streamId f) = Some a ->
  replaces x y a s2 -> ms_id s2 = ms_id s ->
  feed [] [] (frames_at taken a) = Some (msgs, chunks) -> feed msgs chunks [f] = Some (msgs', chunks') ->
  msgs' = lb_sent (ms_loopback s2) ++ ms_pendingInbound s2 ->
  inbound (ms_codec s2) = chunks' -> inboundBytes (ms_codec s2) = total_length chunks' ->
  (ms_loopbackOpen s2 = true -> ms_pendingInbound s2 = []) ->
  let x' := sendDataAck y f in delivery_inv (taken ++ taken_of x (EvData f) x') x'.
Proof.
  intros Hinv Ha Hget [Hyn Hys Hyo Hyt] Hi2 Hf Hfeed Hm' Hc' Hn' Hop' x'.
  assert (taken_of x (EvData f) x' = [(a, f)]) as ->.
  { cbn [taken_of]. rewrite Hget, bool_decide_true; [done|]. cbn. by rewrite Hyt. }
  apply (update_inv taken _ x x' _ a s s2); try done.
  - unfold x', sendDataAck. rewrite acks_send, map_app. cbn. f_equal. rewrite <- (di_acks _ _ Hinv). unfold acks_sent. by rewrite Hyt.
  - apply Forall_app. split; [apply (di_taken _ _ Hinv)|]. repeat constructor. by apply (di_store _ _ Hinv a s).
  - intros b Hne. rewrite frames_at_snoc. destruct (Nat.eqb_spec a b); [congruence|]. apply app_nil_r.
  - exists msgs', chunks'. split; [|by eexists|done|by intros _; split_and!].
    rewrite frames_at_snoc, Nat.eqb_refl, feed_app, Hf. exact Hfeed.
Qed.

(** A frame is not taken, or taken by its stream. *)
Lemma data_inv taken x f :
  delivery_inv taken x -> delivery_inv (taken ++ taken_of x (EvData f) (handleData deps x f)) (handleData deps x f).
Proof.
  intros Hinv. unfold handleData. destruct (get_stream x (wd_streamId f)) as [[a s]|] eqn:Eg; [|by apply not_taken].
  apply get_stream_Some in Eg as [Hget Ha]. destruct (di_streams _ _ Hinv _ _ Hget) as (s' & Ha' & Hid).
  assert (s' = s) as -> by congruence. clear Ha'. pose proof Hget as Hlive. rewrite <- Hid in Hlive.
  destruct (di_objects _ _ Hinv _ _ Ha) as (msgs & chunks & [Hf Hp Hc Hl]). destruct (Hl Hlive) as (Hin & Hn & Hmsgs & Hopen).
  destruct (ingest (ms_codec s) f) as [c r] eqn:Ei. rewrite <- Hid. set (s1 := with_codec s c).
  assert (replaces x (set_store x a s1) a s1) as Hrep by done. destruct r as [r|e]; [|by eapply dropped_frame].
  destruct (ingest_ok _ _ _ _ _ Ei Hin Hn) as (chunk & Hb & Hr). destruct r as [m|].
  2:{ destruct Hr as (Hfin & Hin' & Hn'). eapply taken_frame; try done. cbn. rewrite Hb. cbn. by rewrite Hfin. }
  destruct Hr as (Hfin & -> & Hin' & Hn').
  assert (feed msgs chunks [f] = Some (msgs ++ [concat (chunks ++ [chunk])], [])) as Hfeed.
  { cbn. rewrite Hb. cbn. by rewrite Hfin. }
  assert (forall s2, replaces x (set_store (set_store x a s1) a s2) a s2) as Hrep2.
  { intros s2. split; cbn; [done..|by rewrite insert_insert_eq|done]. }
  destruct (ms_loopbackOpen s1) eqn:Eo.
  - change (ms_loopbackOpen s = true) in Eo. specialize (Hopen Eo). unfold writeLoopback. destruct (send_throws _ _).
    + eapply dropped_frame; [done|done| |]; [split; cbn; [done..|by rewrite insert_insert_eq|done]|done].
    + eapply taken_frame; try done. cbn. rewrite Hmsgs, Hopen. by rewrite !app_nil_r.
  - change (ms_loopbackOpen s = false) in Eo. destruct (_ <? _); [by eapply dropped_frame|].
    eapply taken_frame; try done; cbn; [by rewrite Hmsgs, <- app_assoc|congruence].
Qed.

Lemma other_steps_quiet x e x' :
  mux_step deps x e = Some x' ->
  match e with EvOpen _ _ | EvData _ | EvLoopbackOpen _ => True | _ => quiet_step x x' end.
Proof.
  destruct e; cbn [mux_step]; try done.
  - intros [= <-]. unfold handleDataAck. destruct (get_stream x _) as [[a s]|] eqn:E; [|done].
    apply get_stream_Some in E as [_ Ha]. apply (quiet_flush _ _ s); [done|]. unfold same_rx, onAck. by destruct (unackedBySeq (ms_codec s) !! wa_seq ack).
  - intros [= <-]. unfold handleClose. destruct (get_stream x _) as [[a s]|] eqn:E; [|done]. apply get_stream_Some in E as [_ Ha].
    etransitivity; [apply quiet_delete|]. by apply quiet_close.
  - intros [= <-]. apply quiet_dispose.
  - unfold on_loopback_message. destruct (mx_store x !! a) as [s|] eqn:E; [|by intros [= <-]].
    destruct (toBytes data) as [bytes|]; [|by intros [= <-]]. intros (c & He & [= <-])%bind_Some.
    apply (quiet_flush _ _ s); [done|]. unfold enqueue in He.
    destruct (_ =? _); [injection He as <-; by split_and!|]. apply bind_Some in He as ([fs n] & _ & [= <-]). by split_and!.
  - intros [= <-]. unfold on_loopback_close. destruct (mx_store x !! a); [|done]. case_bool_decide; [done|].
    etransitivity; [apply quiet_delete|]. by apply quiet_send.
  - intros [= <-]. apply quiet_log.
  - intros [= <-]. unfold set_ready. destruct (mx_store x !! a) as [s|] eqn:E; [|done]. apply (quiet_set _ _ s); [done|by split_and!].
Qed.

Lemma streams_get_snoc l id a j :
  streams_get l id = None -> streams_get (l ++ [(id, a)]) j = if jeqb id j then Some a else streams_get l j.
Proof.
  intros Hn. induction l as [|[i b] l IH]; cbn in *; [done|]. destruct (jeqb i id) eqn:E; [done|]. specialize (IH Hn).
  destruct (jeqb i j) eqn:E'; [|done]. apply jeqb_eq in E' as ->. destruct (jeqb id j) eqn:E''; [|done].
  apply jeqb_eq in E'' as ->. unfold jeqb in E. by rewrite bool_decide_true in E.
Qed.

Lemma frames_at_fresh taken n : Forall (fun p => (p.1 < n)%nat) taken -> frames_at taken n = [].
Proof.
  unfold frames_at. induction 1 as [|[a f] taken Hlt _ IH]; cbn; [done|]. cbn in Hlt.
  destruct (Nat.eqb_spec a n); [lia|done].
Qed.

Lemma handleOpen_inv taken x id ready : delivery_inv taken x -> delivery_inv taken (handleOpen deps x id ready).
Proof.
  intros [Ht Hs Hm Ho Hak]. unfold handleOpen. case_bool_decide as Hnew; [|by split]. split; cbn; [|..|done].
  - eapply Forall_impl; [exact Ht|]. cbn. lia.
  - intros a s [[<- _]|[_ E]]%lookup_insert_Some; [lia|]. specialize (Hs _ _ E). lia.
  - intros j a. rewrite streams_get_snoc by done. destruct (jeqb id j) eqn:E.
    + apply jeqb_eq in E as ->. intros [= <-]. eexists. by rewrite lookup_insert_eq.
    + intros (s & Es & <-)%Hm. exists s. rewrite lookup_insert_ne; [done|]. intros <-. specialize (Hs _ _ Es). lia.
  - intros a s [[<- <-]|[Hne E]]%lookup_insert_Some.
    + exists [], []. split; cbn; [by rewrite frames_at_fresh|by exists []|done|done].
    + destruct (Ho _ _ E) as (msgs & chunks & [Hf Hp Hc Hl]). exists msgs, chunks. split; [done..|].
      unfold live. cbn. rewrite streams_get_snoc by done. destruct (jeqb id (ms_id s)) eqn:Eid; [congruence|done].
Qed.

Lemma mux_history_inv taken x : mux_history taken x -> delivery_inv taken x.
Proof.
  induction 1 as [|taken x e x' _ IH Hok Hstep]; [by split; cbn|].
  pose proof (other_steps_quiet x e x' Hstep) as Hq. destruct e; cbn [mux_step] in Hstep;
    try (cbn [taken_of]; rewrite app_nil_r; by eapply quiet_step_inv).
  - injection Hstep as <-. cbn [taken_of]. rewrite app_nil_r. by apply handleOpen_inv.
  - injection Hstep as <-. by apply data_inv.
  - injection Hstep as <-. cbn [taken_of]. rewrite app_nil_r. by apply open_inv.
Qed.

(** C25: whatever happens, the acknowledgements sent are those of the frames taken, in
    order; what the loopback socket of a stream has got is a prefix of the messages these
    frames make up, and while the stream is in the map nothing acknowledged is missing:
    the rest waits for the socket, and nothing waits once it is open. *)
Theorem mux_delivers_in_order taken x a s :
  mux_history taken x -> mx_store x !! a = Some s ->
  acks_sent x = map (fun p => ack_of p.2) taken /\
  exists msgs chunks,
    feed [] [] (frames_at taken a) = Some (msgs, chunks) /\
    (exists rest, msgs = lb_sent (ms_loopback s) ++ rest) /\
    (live x a s -> msgs = lb_sent (ms_loopback s) ++ ms_pendingInbound s /\
                   (ms_loopbackOpen s = true -> ms_pendingInbound s = [])).
Proof.
  intros [_ _ _ Ho Hak]%mux_history_inv Ha. split; [done|]. destruct (Ho _ _ Ha) as (msgs & chunks & [Hf Hp _ Hl]).
  exists msgs, chunks. split_and!; [done..|]. intros Hlive. destruct (Hl Hlive) as (_ & _ & ? & ?). by split.
Qed.

(** * How often a stream is closed *)

Definition is_close_of (id : jstr) (m : mux_message) : bool := match m with MClose i _ _ => jeqb i id | _ => false end.
Definition is_open_of (id : jstr) (e : mux_event) : bool := match e with EvOpen i _ => jeqb i id | _ => false end.

Definition closes (x : StreamMux) (id : jstr) : nat := length (List.filter (is_close_of id) (mx_sent x)).
Definition in_map (x : StreamMux) (id : jstr) : nat :=
  match streams_get (mx_streams x) id with Some _ => 1 | None => 0 end.

(** What is sent of a stream's end, and the stream while it is in the map, uses up an opening. *)
Definition spends (x x' : StreamMux) : Prop := forall id, (closes x' id + in_map x' id <= closes x id + in_map x id)%nat.

#[export] Instance spends_preorder : PreOrder spends.
Proof. split; [by intros x id|]. intros x y z H1 H2 id. specialize (H1 id). specialize (H2 id). lia. Qed.

Lemma spends_same x x' : mx_streams x' = mx_streams x -> mx_sent x' = mx_sent x -> spends x x'.
Proof. intros Hs Hm id. unfold closes, in_map. by rewrite Hs, Hm. Qed.

Lemma spends_send x ms : (forall id, List.filter (is_close_of id) ms = []) -> spends x (send_all x ms).
Proof.
  intros Hms id. unfold closes, in_map. cbn. rewrite List.filter_app, Hms, app_nil_r. lia.
Qed.

Lemma spends_end x id code reason :
  is_Some (streams_get (mx_streams x) id) ->
  spends x (send_all (set_streams x (streams_delete (mx_streams x) id)) [MClose id code reason]).
Proof.
  intros [a Ha] j. unfold closes, in_map. cbn. rewrite List.filter_app, length_app, streams_get_delete. cbn.
  destruct (jeqb id j) eqn:E; cbn; [|lia]. apply jeqb_eq in E as ->. rewrite Ha. lia.
Qed.

Lemma spends_close x a s code reason : spends x (close_loopback x a s code reason).
Proof. unfold close_loopback. destruct (_ =? _); [by apply spends_same|done]. Qed.

Lemma spends_delete x id : spends x (set_streams x (streams_delete (mx_streams x) id)).
Proof.
  intros j. unfold closes, in_map. cbn. rewrite streams_get_delete. destruct (jeqb id j); [|lia].
  destruct (streams_get _ _); lia.
Qed.

Lemma spends_clear x : spends x (set_streams x []).
Proof. intros id. unfold closes, in_map. cbn [set_streams mx_streams mx_sent streams_get]. destruct (streams_get (mx_streams x) id); lia. Qed.

Lemma close_loopback_fields x a s code reason :
  mx_streams (close_loopback x a s code reason) = mx_streams x /\ mx_sent (close_loopback x a s code reason) = mx_sent x.
Proof. unfold close_loopback. by destruct (_ =? _). Qed.

Lemma spends_tearDown x id code reason : spends x (tearDown x id code reason).
Proof.
  unfold tearDown. destruct (get_stream x id) as [[a s]|] eqn:E; [|done]. apply get_stream_Some in E as [Hg _].
  etransitivity; [apply (spends_end x id code reason); by rewrite Hg|]. apply spends_same; cbn;
    destruct (close_loopback_fields (set_streams x (streams_delete (mx_streams x) id)) a s 1002 reason) as [Hs Hm]; [done|by rewrite Hm].
Qed.

Lemma spends_flush x a s : spends x (flushOutbound x a s).
Proof.
  unfold flushOutbound. destruct (pullSendable _) as [c fs]. etransitivity; [apply (spends_send x (map MData fs))|by apply spends_same].
  intros id. by induction fs.
Qed.

Lemma spends_write x a s bytes : spends x (writeLoopback x a s bytes).1.
Proof. unfold writeLoopback. destruct (send_throws _ _); by apply spends_same. Qed.

Lemma spends_write_pending x a pending : spends x (write_pending x a pending).1.
Proof.
  revert x. induction pending as [|b pending IH]; intros x; cbn [write_pending]; [done|]. destruct (mx_store x !! a) as [s|]; [|done].
  pose proof (spends_write x a s b) as Hw. destruct (writeLoopback x a s b) as [x' []]; [|done].
  etransitivity; [exact Hw|apply IH].
Qed.

Lemma spends_data x f : spends x (handleData deps x f).
Proof.
  unfold handleData. destruct (get_stream x _) as [[a s]|]; [|done]. destruct (ingest _ f) as [c r].
  assert (spends x (set_store x a (with_codec s c))) as H1 by by apply spends_same.
  destruct r as [[m|]|e]; [|etransitivity; [exact H1|by apply spends_send]|etransitivity; [exact H1|apply spends_tearDown]].
  destruct (ms_loopbackOpen _).
  - pose proof (spends_write (set_store x a (with_codec s c)) a (with_codec s c) m) as Hw.
    destruct (writeLoopback _ a _ m) as [x' []]; (etransitivity; [exact H1|]); (etransitivity; [exact Hw|]);
      [by apply spends_send|apply spends_tearDown].
  - destruct (_ <? _); (etransitivity; [exact H1|]); [apply spends_tearDown|].
    etransitivity; [|by apply spends_send]. by apply spends_same.
Qed.

Lemma spends_step x e x' id :
  mux_step deps x e = Some x' ->
  (closes x' id + in_map x' id <= closes x id + in_map x id + (if is_open_of id e then 1 else 0))%nat.
Proof.
  assert (forall x', spends x x' -> (closes x' id + in_map x' id <= closes x id + in_map x id + (if is_open_of id e then 1 else 0))%nat)
    as Hsp by (intros y Hy; specialize (Hy id); lia).
  destruct e; cbn [mux_step].
  - intros [= <-]. unfold handleOpen. case_bool_decide as Hn; [|by apply Hsp]. unfold closes, in_map. cbn.
    rewrite streams_get_snoc by done. destruct (jeqb id0 id) eqn:E; [|lia]. apply jeqb_eq in E as ->. rewrite Hn. lia.
  - intros [= <-]. apply Hsp, spends_data.
  - intros [= <-]. apply Hsp. unfold handleDataAck. destruct (get_stream x _) as [[a s]|]; [apply spends_flush|done].
  - intros [= <-]. apply Hsp. unfold handleClose. destruct (get_stream x _) as [[a s]|]; [|done].
    etransitivity; [apply spends_delete|apply spends_close].
  - intros [= <-]. apply Hsp. unfold disposeAll. assert (forall l y, spends y (fold_left (fun y (p : jstr * nat) =>
      match mx_store y !! p.2 with Some s => close_loopback y p.2 s 1001 reason | None => y end) l y)) as Hf.
    { intros l. induction l as [|p l IH]; intros y; cbn [fold_left]; [done|]. etransitivity; [|apply IH].
      destruct (mx_store y !! p.2); [apply spends_close|done]. }
    etransitivity; [apply Hf|apply spends_clear].
  - intros [= <-]. apply Hsp. unfold on_loopback_open. destruct (mx_store x !! a) as [s|]; [|done].
    pose proof (spends_write_pending (set_store x a (with_open s)) a (ms_pendingInbound s)) as Hw.
    destruct (write_pending _ a _) as [x' b]. cbn [fst] in Hw.
    assert (spends x x') as Hx' by (etransitivity; [|exact Hw]; by apply spends_same).
    destruct b; (etransitivity; [exact Hx'|]); [|apply spends_tearDown].
    destruct (mx_store x' !! a); [by apply spends_same|done].
  - unfold on_loopback_message. destruct (mx_store x !! a); [|intros [= <-]; by apply Hsp].
    destruct (toBytes data); [|intros [= <-]; by apply Hsp]. intros (c & _ & [= <-])%bind_Some. apply Hsp, spends_flush.
  - intros [= <-]. apply Hsp. unfold on_loopback_close. destruct (mx_store x !! a) as [s|]; [|done]. case_bool_decide as Hn; [done|].
    apply spends_end. by apply not_eq_None_Some.
  - intros [= <-]. by apply Hsp, spends_same.
  - intros [= <-]. apply Hsp. unfold set_ready. destruct (mx_store x !! a); [by apply spends_same|done].
Qed.

(** the mux sends at most one close for each opening of a stream, however often its
    socket, its peer and its failures end it; and none while the stream is in the map
    after its only opening. *)
Theorem mux_closes_once es x id :
  mux_runs deps es x -> (closes x id + in_map x id <= length (List.filter (is_open_of id) es))%nat.
Proof.
  induction 1 as [|es x e x' _ IH _ Hstep]; [done|]. pose proof (spends_step _ _ _ id Hstep) as Hs.
  rewrite List.filter_app, length_app. cbn. destruct (is_open_of id e); cbn in *; lia.
Qed.
End delivery.

(** * A socket that opens too late *)

Definition quiet_sockets : MuxHost := {| send_throws := fun _ _ => false; bad_base64_text := []; bad_concat_text := [] |}.
Definition default_deps : MuxDeps := {| md_chunkBytes := None; md_windowBytes := None |}.

(** The stream opens, the peer closes it while the socket is still connecting, the socket
    opens after all and the daemon writes to it. *)
Definition late_socket : list mux_event :=
  [EvOpen (js "s1") 0; EvClose (js "s1") (js "gone"); EvReady 0 WS_OPEN; EvLoopbackOpen 0; EvLoopbackMessage 0 (WsText (js "hi"))].

(** Events as they come, as long as no socket opens twice. *)
Definition opens_once (x : StreamMux) (e : mux_event) : bool :=
  match e with
  | EvLoopbackOpen a => from_option (fun s => negb (ms_loopbackOpen s)) true (mx_store x !! a)
  | _ => true
  end.
Definition run_events `{MuxHost} (deps : MuxDeps) (es : list mux_event) : option StreamMux :=
  fold_left (fun o e => x ← o; if opens_once x e then mux_step deps x e else None) es (Some new_mux).

Lemma opens_once_ok x e : opens_once x e = true -> event_ok x e.
Proof. destruct e; cbn; try done. intros Ho s Hs. rewrite Hs in Ho. by apply negb_true_iff in Ho. Qed.

Lemma run_events_runs `{MuxHost} deps es x :
  run_events deps es = Some x -> mux_runs deps es x /\ exists taken, mux_history deps taken x.
Proof.
  revert x. induction es as [|e es IH] using rev_ind; intros x.
  { intros [= <-]. split; [constructor|exists []; constructor]. }
  unfold run_events. rewrite fold_left_app. cbn [fold_left]. intros (y & Hy & Hstep)%bind_Some.
  destruct (opens_once y e) eqn:Eo; [|done]. apply opens_once_ok in Eo. destruct (IH _ Hy) as [Hr (taken & Ht)].
  split; [by eapply runs_step|]. eexists. by eapply history_step.
Qed.

(** The socket is open after the end of its stream, [close] was never called on it, and what
    it receives is still sent as data of the stream. *)
Example late_socket_still_sends :
  exists x s, run_events (H := quiet_sockets) default_deps late_socket = Some x /\
    mx_streams x = [] /\ mx_store x !! 0%nat = Some s /\
    lb_readyState (ms_loopback s) = WS_OPEN /\ lb_closed (ms_loopback s) = [] /\
    mx_sent x = [MData (data_frame (js "s1") 0 (encode (js "hi")) true)].
Proof. eexists _, _. split; [vm_compute; reflexivity|]. split_and!; by vm_compute. Qed.

(** * Witnesses *)

(** A message that waits for its socket, and one that does not. *)
Definition two_messages : list mux_event :=
  [EvOpen (js "s1") 0; EvData (data_frame (js "s1") 0 [1; 2]%N true); EvReady 0 WS_OPEN; EvLoopbackOpen 0;
   EvData (data_frame (js "s1") 1 [3]%N false); EvData (data_frame (js "s1") 2 [4]%N true);
   EvLoopbackMessage 0 (WsBytes [9]%N)].
Definition after_two : StreamMux := Eval vm_compute in default new_mux (run_events (H := quiet_sockets) default_deps two_messages).

Lemma after_two_run : run_events (H := quiet_sockets) default_deps two_messages = Some after_two.
Proof. by vm_compute. Qed.

Lemma mux_streams_bounded_witness :
  exists s, mx_store after_two !! 0%nat = Some s /\ unackedBytes (ms_codec s) = 1 /\ ms_paused s = hasPendingOutbound (ms_codec s).
Proof.
  destruct (mx_store after_two !! 0%nat) as [s|] eqn:E; [|by vm_compute in E]. exists s. split; [done|].
  destruct (run_events_runs (H := quiet_sockets) default_deps two_messages after_two after_two_run) as [Hr _].
  split; [vm_compute in E; by injection E as <-|].
  by apply (mux_streams_bounded (H := quiet_sockets) default_deps eq_refl ltac:(by vm_compute) two_messages after_two 0%nat s Hr E).
Defined.

Lemma mux_delivers_in_order_witness :
  exists s, mx_store after_two !! 0%nat = Some s /\ lb_sent (ms_loopback s) = [[1; 2]; [3; 4]]%N /\
    exists taken, acks_sent after_two = map (fun p : nat * TunnelWebSocketDataEnvelope => ack_of p.2) taken /\ length taken = 3%nat.
Proof.
  destruct (mx_store after_two !! 0%nat) as [s|] eqn:E; [|by vm_compute in E]. exists s. split; [done|].
  split; [vm_compute in E; by injection E as <-|].
  destruct (run_events_runs (H := quiet_sockets) default_deps two_messages after_two after_two_run) as [_ (taken & Ht)].
  destruct (mux_delivers_in_order (H := quiet_sockets) default_deps taken after_two 0%nat s Ht E) as [Hak _].
  exists taken. split; [exact Hak|]. apply (f_equal length) in Hak. rewrite length_map in Hak. rewrite <- Hak. by vm_compute.
Defined.

Lemma mux_closes_once_witness : (closes after_two (js "s1") + in_map after_two (js "s1") <= 1)%nat.
Proof.
  destruct (run_events_runs (H := quiet_sockets) default_deps two_messages after_two after_two_run) as [Hr _].
  exact (mux_closes_once (H := quiet_sockets) default_deps two_messages after_two (js "s1") Hr).
Defined.
