(* ===== verification/StreamMuxLeak.v ===== *)
(** Which loopback sockets the mux closes: those of streams in its map, when they are open at
    that moment.  A socket that is still connecting when the relay closes its stream is
    therefore never closed. *)
From S2P Require Import Prelude JsString Utf8 Base64 PendingFrames DocStream StreamMux StreamMuxProps StreamMuxDelivery.

#[local] Open Scope Z_scope.

Section leak.
Context `{MuxHost} (deps : MuxDeps).
Implicit Types (x y : StreamMux) (a b : nat) (s : MuxStream) (id : jstr).

(** The sockets of the map. *)
Definition mapped x : list nat := (mx_streams x).*2.

(** Every stream of the map is there under its own id, and its socket has not been closed. *)
Record map_inv x : Prop := {
  mi_store : forall a s, mx_store x !! a = Some s -> (a < mx_next x)%nat;
  mi_streams : forall id a, (id, a) ∈ mx_streams x ->
    exists s, mx_store x !! a = Some s /\ ms_id s = id /\ lb_closed (ms_loopback s) = []
}.

(** The calls of [close] on a socket stay as they are, unless the stream leaves the map. *)
Record tame x y : Prop := {
  ta_next : mx_next y = mx_next x;
  ta_streams : forall p, p ∈ mx_streams y -> p ∈ mx_streams x;
  ta_store : forall b, match mx_store x !! b, mx_store y !! b with
    | Some s, Some s' => ms_id s' = ms_id s /\
        (b ∈ mapped y \/ b ∉ mapped x -> lb_closed (ms_loopback s') = lb_closed (ms_loopback s))
    | None, None => True
    | _, _ => False
    end
}.

Lemma tame_mapped x y b : tame x y -> b ∈ mapped y -> b ∈ mapped x.
Proof. intros [_ Hs _] ([i a] & -> & Hp)%list_elem_of_fmap. apply list_elem_of_fmap. exists (i, a). auto. Qed.

#[local] Instance tame_preorder : PreOrder tame.
Proof.
  split.
  - intros x. split; [done..|]. intros b. by destruct (mx_store x !! b).
  - intros x y z Hxy Hyz. pose proof Hxy as [N1 S1 O1]. pose proof Hyz as [N2 S2 O2]. split; [congruence|auto|]. intros b.
    specialize (O1 b). specialize (O2 b). destruct (mx_store x !! b), (mx_store y !! b), (mx_store z !! b); try done.
    destruct O1 as [I1 C1], O2 as [I2 C2]. split; [congruence|]. intros [Hb|Hb].
    + rewrite C2 by by left. apply C1. left. by eapply tame_mapped.
    + rewrite C2; [apply C1; by right|]. right. by intros Hy%(tame_mapped x y).
Qed.

Lemma tame_inv x y : map_inv x -> tame x y -> map_inv y.
Proof.
  intros [Hs Hm] [Hn Hp Ho]. split.
  - intros a s' E. rewrite Hn. specialize (Ho a). rewrite E in Ho. destruct (mx_store x !! a) eqn:E'; [|done]. by eapply Hs.
  - intros id a Hin. destruct (Hm id a (Hp _ Hin)) as (s & Es & Hid & Hc). specialize (Ho a). rewrite Es in Ho.
    destruct (mx_store y !! a) as [s'|]; [|done]. destruct Ho as [Hid' Hc']. exists s'. split_and!; [done|congruence|].
    rewrite Hc'; [done|]. left. apply list_elem_of_fmap. by exists (id, a).
Qed.

(** * The parts of the steps *)

Lemma tame_set x a s s' :
  mx_store x !! a = Some s -> ms_id s' = ms_id s -> lb_closed (ms_loopback s') = lb_closed (ms_loopback s) -> tame x (set_store x a s').
Proof.
  intros Ha Hi Hc. split; [done..|]. intros b. cbn. destruct (decide (a = b)) as [<-|Hne].
  - by rewrite Ha, lookup_insert_eq.
  - rewrite lookup_insert_ne by done. by destruct (mx_store x !! b).
Qed.

Lemma tame_streams x l : (forall p, p ∈ l -> p ∈ mx_streams x) -> tame x (set_streams x l).
Proof. intros Hl. split; [done..|]. intros b. cbn. by destruct (mx_store x !! b). Qed.

Lemma elem_of_delete l id p : p ∈ streams_delete l id -> p ∈ l /\ p.1 <> id.
Proof.
  unfold streams_delete. intros [Hin Hn]%list_elem_of_In%filter_In. split; [by apply list_elem_of_In|].
  intros He. rewrite He in Hn. unfold jeqb in Hn. by rewrite bool_decide_true in Hn.
Qed.

Lemma tame_delete x id : tame x (set_streams x (streams_delete (mx_streams x) id)).
Proof. apply tame_streams. by intros p [? _]%elem_of_delete. Qed.

Lemma tame_send x ms : tame x (send_all x ms).
Proof. split; [done..|]. intros b. cbn. by destruct (mx_store x !! b). Qed.

Lemma tame_log x : tame x (log_warn x).
Proof. split; [done..|]. intros b. cbn. by destruct (mx_store x !! b). Qed.

Lemma get_elem l id a : streams_get l id = Some a -> (id, a) ∈ l.
Proof.
  induction l as [|[i b] l IH]; cbn; [done|]. destruct (jeqb i id) eqn:E; [|intros Hg; right; by apply IH].
  apply jeqb_eq in E as ->. intros [= ->]. by left.
Qed.

(** Only the stream of the id has its socket, so that it leaves the map with it. *)
Lemma delete_unmaps x id a s : map_inv x -> get_stream x id = Some (a, s) -> a ∉ mapped (set_streams x (streams_delete (mx_streams x) id)).
Proof.
  intros [_ Hm] [Hg%get_elem Ha]%get_stream_Some ([i b] & -> & [Hin Hne]%elem_of_delete)%list_elem_of_fmap. cbn in *.
  destruct (Hm _ _ Hg) as (s1 & E1 & H1' & _), (Hm _ _ Hin) as (s2 & E2 & H2' & _). congruence.
Qed.

Lemma tame_end x id a s code reason :
  map_inv x -> get_stream x id = Some (a, s) -> tame x (close_loopback (set_streams x (streams_delete (mx_streams x) id)) a s code reason).
Proof.
  intros Hx Hg. pose proof (delete_unmaps _ _ _ _ Hx Hg) as Hun. pose proof Hg as [Hget Ha]%get_stream_Some.
  set (y := set_streams _ _) in *. unfold close_loopback. destruct (_ =? _); [|apply tame_delete].
  destruct (tame_delete x id) as [Hn Hs _]. fold y in Hn, Hs. split; [done..|]. intros b. cbn. destruct (decide (a = b)) as [<-|Hne].
  - rewrite Ha, lookup_insert_eq. cbn. split; [done|]. intros [Hb|Hb]; [by destruct Hun|]. destruct Hb.
    apply list_elem_of_fmap. exists (id, a). split; [done|]. by apply get_elem.
  - rewrite lookup_insert_ne by done. by destruct (mx_store x !! b).
Qed.

Lemma tame_tearDown x id code reason : map_inv x -> tame x (tearDown x id code reason).
Proof.
  intros Hx. unfold tearDown. destruct (get_stream x id) as [[a s]|] eqn:E; [|done].
  etrans; [by apply (tame_end x id a s 1002 reason)|]. apply tame_send.
Qed.

Lemma tame_flush x a s s' :
  mx_store x !! a = Some s -> ms_id s' = ms_id s -> lb_closed (ms_loopback s') = lb_closed (ms_loopback s) -> tame x (flushOutbound x a s').
Proof.
  intros Ha Hi Hc. unfold flushOutbound. destruct (pullSendable (ms_codec s')) as [c fs].
  etrans; [apply (tame_send x (map MData fs))|]. apply (tame_set _ a s); [done|..]; destruct (_ && _); try done; by destruct (_ && _).
Qed.

Lemma tame_write x a s s' bytes :
  mx_store x !! a = Some s -> ms_id s' = ms_id s -> lb_closed (ms_loopback s') = lb_closed (ms_loopback s) ->
  tame x (writeLoopback x a s' bytes).1.
Proof.
  intros Ha Hi Hc. unfold writeLoopback. destruct (send_throws _ _); cbn [fst]; [etrans; [|apply tame_log]|]; by apply (tame_set _ a s).
Qed.

Lemma tame_write_pending x a pending : tame x (write_pending x a pending).1.
Proof.
  revert x. induction pending as [|bytes pending IH]; intros x; cbn [write_pending]; [done|].
  destruct (mx_store x !! a) as [s|] eqn:E; [|done]. pose proof (tame_write x a s s bytes E eq_refl eq_refl) as Hw.
  destruct (writeLoopback x a s bytes) as [y [|]]; cbn [fst] in *; [|done]. etrans; [exact Hw|apply IH].
Qed.

Lemma close_all_store l x reason b :
  let y := fold_left (fun x (p : jstr * nat) => match mx_store x !! p.2 with Some s => close_loopback x p.2 s 1001 reason | None => x end) l x in
  mx_next y = mx_next x /\
  match mx_store x !! b, mx_store y !! b with
  | Some s, Some s' => ms_id s' = ms_id s /\ (b ∉ l.*2 -> lb_closed (ms_loopback s') = lb_closed (ms_loopback s))
  | None, None => True
  | _, _ => False
  end.
Proof.
  revert x. induction l as [|[i a] l IH]; intros x; cbn [fold_left]; [split; [done|by destruct (mx_store x !! b)]|].
  cbn [snd]. set (x1 := match mx_store x !! a with Some _ => _ | None => _ end). destruct (IH x1) as [Hn Hb].
  assert (mx_next x1 = mx_next x /\ match mx_store x !! b, mx_store x1 !! b with
    | Some s, Some s' => ms_id s' = ms_id s /\ (a <> b -> lb_closed (ms_loopback s') = lb_closed (ms_loopback s))
    | None, None => True | _, _ => False end) as [Hn1 Hb1].
  { unfold x1. destruct (mx_store x !! a) as [s|] eqn:E; [|split; [done|by destruct (mx_store x !! b)]].
    unfold close_loopback. destruct (_ =? _); [|split; [done|by destruct (mx_store x !! b)]]. split; [done|]. cbn.
    destruct (decide (a = b)) as [<-|Hne]; [by rewrite E, lookup_insert_eq|]. rewrite lookup_insert_ne by done. by destruct (mx_store x !! b). }
  clearbody x1. split; [congruence|]. destruct (mx_store x !! b), (mx_store x1 !! b), (mx_store _ !! b); try done.
  destruct Hb as [I2 C2], Hb1 as [I1 C1]. split; [congruence|]. intros [Hne Hnl]%not_elem_of_cons. cbn in Hne. rewrite C2, C1; [done| |done]. congruence.
Qed.

Lemma tame_dispose x reason : tame x (disposeAll x reason).
Proof.
  unfold disposeAll. split; cbn; [by apply (close_all_store _ _ _ 0%nat)|by intros p ?%elem_of_nil|]. intros b.
  destruct (close_all_store (mx_streams x) x reason b) as [_ Hb]. destruct (mx_store x !! b), (mx_store _ !! b); try done.
  destruct Hb as [Hi Hc]. split; [done|]. intros [Hb|Hb]; [by apply elem_of_nil in Hb|by apply Hc].
Qed.

Lemma tame_open x a : map_inv x -> tame x (on_loopback_open x a).
Proof.
  intros Hx. unfold on_loopback_open. destruct (mx_store x !! a) as [s|] eqn:E; [|done].
  assert (tame x (set_store x a (with_open s))) as H1' by by apply (tame_set _ _ s).
  pose proof (tame_write_pending (set_store x a (with_open s)) a (ms_pendingInbound s)) as H2'.
  destruct (write_pending _ a _) as [y [|]]; cbn [fst] in H2'; (etrans; [exact H1'|]; etrans; [exact H2'|]).
  - destruct (mx_store y !! a) as [s'|] eqn:E'; [|done]. by apply (tame_set _ _ s').
  - apply tame_tearDown. by eapply tame_inv, H2'; eapply tame_inv, H1'.
Qed.

Lemma tame_data x f : map_inv x -> tame x (handleData deps x f).
Proof.
  intros Hx. unfold handleData. destruct (get_stream x _) as [[a s]|] eqn:E; [|done]. apply get_stream_Some in E as [_ Ha].
  destruct (ingest (ms_codec s) f) as [c r]. assert (tame x (set_store x a (with_codec s c))) as H1' by by apply (tame_set _ _ s).
  assert (map_inv (set_store x a (with_codec s c))) as Hx1 by by eapply tame_inv, H1'. etrans; [exact H1'|]. clear H1'.
  assert (mx_store (set_store x a (with_codec s c)) !! a = Some (with_codec s c)) as Ha1 by apply lookup_insert_eq.
  destruct r as [[message|]|e]; [|apply tame_send|by apply tame_tearDown].
  destruct (ms_loopbackOpen _).
  - pose proof (tame_write _ a _ (with_codec s c) message Ha1 eq_refl eq_refl) as H2'. destruct (writeLoopback _ a _ _) as [y [|]]; cbn [fst] in H2'.
    + etrans; [exact H2'|apply tame_send].
    + etrans; [exact H2'|]. apply tame_tearDown. by eapply tame_inv.
  - destruct (_ <? _); [by apply tame_tearDown|]. etrans; [|apply tame_send]. by eapply tame_set.
Qed.

Lemma step_tame x e y : map_inv x -> mux_step deps x e = Some y -> (forall id ready, e <> EvOpen id ready) -> tame x y.
Proof.
  intros Hx Hs Hno. destruct e; cbn [mux_step] in Hs.
  - by destruct (Hno id readyState).
  - injection Hs as <-. by apply tame_data.
  - injection Hs as <-. unfold handleDataAck. destruct (get_stream x _) as [[a s]|] eqn:E; [|done].
    apply get_stream_Some in E as [_ Ha]. by apply (tame_flush _ _ s).
  - injection Hs as <-. unfold handleClose. destruct (get_stream x _) as [[a s]|] eqn:E; [|done]. by apply tame_end.
  - injection Hs as <-. apply tame_dispose.
  - injection Hs as <-. by apply tame_open.
  - unfold on_loopback_message in Hs. destruct (mx_store x !! a) as [s|] eqn:E; [|by injection Hs as <-].
    destruct (toBytes data) as [bytes|]; [|by injection Hs as <-]. apply bind_Some in Hs as (c & _ & [= <-]). by apply (tame_flush _ _ s).
  - injection Hs as <-. unfold on_loopback_close. destruct (mx_store x !! a) as [s|]; [|done]. case_bool_decide; [done|].
    etrans; [apply tame_delete|apply tame_send].
  - injection Hs as <-. apply tame_log.
  - injection Hs as <-. unfold set_ready. destruct (mx_store x !! a) as [s|] eqn:E; [|done]. by apply (tame_set _ _ s).
Qed.

(** * Runs *)

(** The socket has left the map, and its calls of [close] are these. *)
Definition orphan a (closed : list (Z * jstr)) x : Prop :=
  (a < mx_next x)%nat /\ (a ∉ mapped x) /\ exists s, mx_store x !! a = Some s /\ lb_closed (ms_loopback s) = closed.

Lemma orphan_tame a closed x y : orphan a closed x -> tame x y -> orphan a closed y.
Proof.
  intros (Hlt & Hn & s & Hs & Hc) Ht. pose proof Ht as [Hnx _ Ho]. split_and!; [lia|by intros Hy%(tame_mapped x)|].
  specialize (Ho a). rewrite Hs in Ho. destruct (mx_store y !! a) as [s'|]; [|done]. exists s'. split; [done|].
  destruct Ho as [_ Ho]. rewrite Ho; [done|by right].
Qed.

Lemma open_inv_orphan x id ready :
  map_inv x -> map_inv (handleOpen deps x id ready) /\ forall a closed, orphan a closed x -> orphan a closed (handleOpen deps x id ready).
Proof.
  intros Hx. unfold handleOpen. case_bool_decide; [|done]. pose proof Hx as [Hst Hm]. split.
  - split; cbn.
    + intros a s [[<- _]|[_ E]]%lookup_insert_Some; [lia|]. specialize (Hst _ _ E). lia.
    + intros i a [Hin|[= -> ->]%list_elem_of_singleton]%elem_of_app.
      * destruct (Hm _ _ Hin) as (s & Es & Hrest). exists s. rewrite lookup_insert_ne; [done|]. intros <-. specialize (Hst _ _ Es). lia.
      * eexists. by rewrite lookup_insert_eq.
  - intros a closed (Hlt & Hn & s & Hs & Hc). split_and!; cbn; [lia| |].
    + unfold mapped. cbn. rewrite fmap_app. intros [Hin|[= ->]%list_elem_of_singleton]%elem_of_app; [done|lia].
    + exists s. rewrite lookup_insert_ne by lia. done.
Qed.

Lemma step_inv_orphan x e y :
  map_inv x -> mux_step deps x e = Some y -> map_inv y /\ forall a closed, orphan a closed x -> orphan a closed y.
Proof.
  intros Hx Hs. assert ((exists id ready, e = EvOpen id ready) \/ forall id ready, e <> EvOpen id ready) as [(id & ready & ->)|Hno].
  { destruct e; [left; eauto|right; done..]. }
  - injection Hs as <-. by apply open_inv_orphan.
  - pose proof (step_tame _ _ _ Hx Hs Hno) as Ht. split; [by eapply tame_inv|]. intros a closed Ho. by eapply orphan_tame.
Qed.

Lemma mux_last es e x : mux_runs deps (es ++ [e]) x -> exists y, mux_runs deps es y /\ mux_step deps y e = Some x.
Proof.
  inversion 1 as [Hnil|es0 y e0 x0 Hr0 Hev Hstep Heq]; [by destruct es|]. apply app_inj_tail in Heq as [-> ->]. by exists y.
Qed.

Lemma mux_runs_inv es x : mux_runs deps es x -> map_inv x.
Proof.
  induction 1 as [|es x e y _ IH _ Hs]; [split; [done|by intros ? ? ?%elem_of_nil]|]. by apply (step_inv_orphan x e y).
Qed.

Lemma mux_runs_det es x y : mux_runs deps es x -> mux_runs deps es y -> x = y.
Proof.
  intros Hr. revert y. induction Hr as [|es x e x1 _ IH _ Hs]; intros y.
  - inversion 1 as [|es0 y0 e0 y1 _ _ _ Heq]; [done|]. by destruct es0.
  - intros (y0 & Hy & Hsy)%mux_last. rewrite (IH _ Hy) in Hs. congruence.
Qed.

(** C32: [handleClose] closes only a socket that is already open.  A stream whose socket is not,
    because it is still connecting, leaves the map with [close] never called on its socket,
    and however the mux goes on, whether the socket opens later, the id is used again or the
    whole mux is disposed of, it is never called and the socket never comes back into the
    map. *)
Theorem close_while_connecting_leaks es x id reason a s es' y :
  mux_runs deps es x -> get_stream x id = Some (a, s) -> lb_readyState (ms_loopback s) <> WS_OPEN ->
  mux_runs deps ((es ++ [EvClose id reason]) ++ es') y ->
  (forall id', streams_get (mx_streams y) id' <> Some a) /\
  exists s', mx_store y !! a = Some s' /\ lb_closed (ms_loopback s') = [].
Proof.
  intros Hr Hg Hready Hr'. pose proof (mux_runs_inv _ _ Hr) as Hx.
  enough (orphan a [] y) as (_ & Hn & s' & Hs' & Hc).
  { split; [|by exists s']. intros id' Hid%get_elem. apply Hn, list_elem_of_fmap. by exists (id', a). }
  revert y Hr'. induction es' as [|e es' IH] using rev_ind; intros y Hr'.
  - rewrite app_nil_r in Hr'. apply mux_last in Hr' as (x0 & Hr0 & Hs). rewrite <- (mux_runs_det _ _ _ Hr Hr0) in Hs. injection Hs as <-.
    unfold handleClose. rewrite Hg. pose proof (delete_unmaps _ _ _ _ Hx Hg) as Hun. unfold close_loopback. rewrite (proj2 (Z.eqb_neq _ _) Hready).
    apply get_stream_Some in Hg as [Hget%get_elem Ha]. split_and!; [by eapply (mi_store _ Hx)|done|]. exists s. split; [done|].
    destruct (mi_streams _ Hx _ _ Hget) as (s1 & Hs1 & _ & Hc). congruence.
  - rewrite app_assoc in Hr'. apply mux_last in Hr' as (y0 & Hr0 & Hs).
    destruct (step_inv_orphan y0 e y (mux_runs_inv _ _ Hr0) Hs) as [_ Ho]. by apply Ho, IH.
Qed.
End leak.

(** The run [late_socket] after its stream is opened: the peer closes it, then the socket opens. *)
Lemma close_while_connecting_leaks_witness :
  exists y, run_events (H := quiet_sockets) default_deps late_socket = Some y /\
    (forall id', streams_get (mx_streams y) id' <> Some 0%nat) /\
    exists s', mx_store y !! 0%nat = Some s' /\ lb_closed (ms_loopback s') = [].
Proof.
  assert (exists x, run_events (H := quiet_sockets) default_deps (take 1 late_socket) = Some x) as [x Hx] by (vm_compute; eauto).
  assert (exists y, run_events (H := quiet_sockets) default_deps late_socket = Some y) as [y Hy] by (vm_compute; eauto).
  exists y. split; [exact Hy|].
  destruct (run_events_runs (H := quiet_sockets) default_deps _ _ Hx) as [Hrx _].
  destruct (run_events_runs (H := quiet_sockets) default_deps _ _ Hy) as [Hry _].
  assert (exists s, get_stream x (js "s1") = Some (0%nat, s) /\ lb_readyState (ms_loopback s) = 0) as (s & Hg & Hready).
  { vm_compute in Hx. injection Hx as <-. eexists. split; [vm_compute; reflexivity|reflexivity]. }
  apply (close_while_connecting_leaks (H := quiet_sockets) default_deps (take 1 late_socket) x (js "s1") (js "gone") 0%nat s (drop 2 late_socket) y);
    [exact Hrx|exact Hg|by rewrite Hready|exact Hry].
Defined.
