(* ===== verification/RelayFrame.v ===== *)
(** The relay frames of [packages/tunnel-protocol/src/index.ts]: their data, their
    text, and the parser that checks what arrives. *)
From Stdlib Require Import Strings.String.
From S2P Require Import Prelude JsString Utf8 Json Base64.

Definition RELAY_TRANSPORT_PROTOCOL_VERSION : Z := 1.
Definition RELAY_FRAME_BYTE_LIMIT : Z := 256 * 1024.

Inductive RelayErrorCode :=
| BAD_MESSAGE | UNSUPPORTED_VERSION | UNKNOWN_CAPABILITY | UNAUTHORIZED | DEADLINE_EXCEEDED
| CANCELLED | INDETERMINATE | PAYLOAD_TOO_LARGE | BACKPRESSURE | INTERNAL.

Definition RELAY_ERROR_CODES (c : RelayErrorCode) : jstr :=
  match c with
  | BAD_MESSAGE => js "bad-message" | UNSUPPORTED_VERSION => js "unsupported-version"
  | UNKNOWN_CAPABILITY => js "unknown-capability" | UNAUTHORIZED => js "unauthorized"
  | DEADLINE_EXCEEDED => js "deadline-exceeded" | CANCELLED => js "cancelled"
  | INDETERMINATE => js "indeterminate" | PAYLOAD_TOO_LARGE => js "payload-too-large"
  | BACKPRESSURE => js "backpressure" | INTERNAL => js "internal"
  end.

Definition all_error_codes : list RelayErrorCode :=
  [BAD_MESSAGE; UNSUPPORTED_VERSION; UNKNOWN_CAPABILITY; UNAUTHORIZED; DEADLINE_EXCEEDED;
   CANCELLED; INDETERMINATE; PAYLOAD_TOO_LARGE; BACKPRESSURE; INTERNAL].

Inductive RelayStreamCloseCode :=
| CLOSE_NORMAL | CLOSE_CANCELLED | CLOSE_DEADLINE_EXCEEDED | CLOSE_PAYLOAD_TOO_LARGE
| CLOSE_BACKPRESSURE | CLOSE_BAD_MESSAGE | CLOSE_INTERNAL.

Definition RELAY_STREAM_CLOSE_CODES (c : RelayStreamCloseCode) : jstr :=
  match c with
  | CLOSE_NORMAL => js "normal" | CLOSE_CANCELLED => js "cancelled"
  | CLOSE_DEADLINE_EXCEEDED => js "deadline-exceeded" | CLOSE_PAYLOAD_TOO_LARGE => js "payload-too-large"
  | CLOSE_BACKPRESSURE => js "backpressure" | CLOSE_BAD_MESSAGE => js "bad-message"
  | CLOSE_INTERNAL => js "internal"
  end.

Definition all_close_codes : list RelayStreamCloseCode :=
  [CLOSE_NORMAL; CLOSE_CANCELLED; CLOSE_DEADLINE_EXCEEDED; CLOSE_PAYLOAD_TOO_LARGE;
   CLOSE_BACKPRESSURE; CLOSE_BAD_MESSAGE; CLOSE_INTERNAL].

(** A [RelayJsonObject] is given by its properties. *)
Definition RelayJsonObject := list (jstr * value).

Inductive RelayPayload :=
| RelayJsonPayload (v : value)
| RelayBinaryPayload (dataB64 : jstr).

Record RelayFrameError := { fe_code : RelayErrorCode; fe_message : jstr; fe_data : option value }.

Inductive RelayCancelTarget := CancelRpc (id : jstr) | CancelStream (streamId : jstr).

Inductive RelayFrame :=
| RelayRpcRequestFrame (id capability : jstr) (deadlineMs : option Z) (payload : option RelayPayload)
    (context : option RelayJsonObject)
| RelayRpcResponseOk (id : jstr) (payload : RelayPayload)
| RelayRpcResponseError (id : jstr) (error : RelayFrameError)
| RelayStreamOpenFrame (streamId capability : jstr) (payload : option RelayPayload) (context : option RelayJsonObject)
| RelayStreamDataFrame (streamId : jstr) (sequence : Z) (payload : RelayPayload)
| RelayStreamCloseFrame (streamId : jstr) (code : RelayStreamCloseCode) (reason : option jstr)
| RelayEventFrame (topic : jstr) (id : option jstr) (payload : option RelayPayload) (resource : option RelayJsonObject)
| RelayCancelFrame (target : RelayCancelTarget) (reason : option jstr)
| RelayErrorFrame (error : RelayFrameError) (target : option RelayCancelTarget).

(** * The expectations *)

(** The functions throw an [Error], given by its message. *)
Abbreviation parsed := (result jstr).

Definition relay_error {A} (field rest : jstr) : parsed A := Err (js "Relay " ++ field ++ rest).

Definition isRecord (v : value) : option (list (jstr * value)) :=
  match v with VObj _ props => Some props | _ => None end.
Definition isPlainRecord (v : value) : option (list (jstr * value)) :=
  match v with VObj true props => Some props | _ => None end.

Fixpoint isRelayJsonValue (v : value) : bool :=
  match v with
  | VNull | VStr _ | VBool _ => true
  | VNum n => is_finite n
  | VArr items => forallb isRelayJsonValue items
  | VObj true props => forallb (fun kv => isRelayJsonValue kv.2) props
  | VObj false _ | VUndefined | VOther => false
  end.

Definition expectString (v : value) (field : jstr) : parsed jstr :=
  match v with VStr s => Ok s | _ => relay_error field (js " must be a string") end.

Definition expectNonEmptyString (v : value) (field : jstr) : parsed jstr :=
  s ← expectString v field;
  if (jlen s =? 0)%Z then relay_error field (js " must not be empty") else Ok s.

Definition expectNonNegativeInteger (v : value) (field : jstr) : parsed Z :=
  match v with
  | VNum (Int n) => if (0 <=? n)%Z then Ok n else relay_error field (js " must be a non-negative integer")
  | _ => relay_error field (js " must be a non-negative integer")
  end.

Definition expectPositiveInteger (v : value) (field : jstr) : parsed Z :=
  match v with
  | VNum (Int n) => if (0 <? n)%Z then Ok n else relay_error field (js " must be a positive integer")
  | _ => relay_error field (js " must be a positive integer")
  end.

(** [/^[A-Za-z0-9+/]*={0,2}$/.test(s)]: what is left after the letters is at most two
    signs of padding. *)
Fixpoint base64_pattern (s : jstr) : bool :=
  match s with
  | [] => true
  | c :: r => if bool_decide (is_Some (b64_value c)) then base64_pattern r
              else jeqb s [pad] || jeqb s [pad; pad]
  end.

Definition expectBase64 (v : value) (field : jstr) : parsed jstr :=
  s ← expectString v field;
  if negb (jlen s mod 4 =? 0)%Z || negb (base64_pattern s) then relay_error field (js " must be base64") else Ok s.

Definition find_code {C} (text : C -> jstr) (codes : list C) (s : jstr) : option C :=
  snd <$> list_find (fun c => jeqb (text c) s = true) codes.

Definition expectRelayErrorCode (v : value) (field : jstr) : parsed RelayErrorCode :=
  match v with
  | VStr s => match find_code RELAY_ERROR_CODES all_error_codes s with
              | Some c => Ok c
              | None => relay_error field (js " is not a known error code")
              end
  | _ => relay_error field (js " is not a known error code")
  end.

Definition expectRelayStreamCloseCode (v : value) (field : jstr) : parsed RelayStreamCloseCode :=
  match v with
  | VStr s => match find_code RELAY_STREAM_CLOSE_CODES all_close_codes s with
              | Some c => Ok c
              | None => relay_error field (js " is not a known stream close code")
              end
  | _ => relay_error field (js " is not a known stream close code")
  end.

Definition expectRelayJsonValue (v : value) (field : jstr) : parsed value :=
  if isRelayJsonValue v then Ok v else relay_error field (js " must be JSON-compatible").

Definition expectRelayJsonObject (v : value) (field : jstr) : parsed RelayJsonObject :=
  match isPlainRecord v with
  | Some props => if isRelayJsonValue v then Ok props else relay_error field (js " must be a JSON object")
  | None => relay_error field (js " must be a JSON object")
  end.

(** [v === s] for a string [s]. *)
Definition is_str (v : value) (s : jstr) : bool := match v with VStr t => jeqb t s | _ => false end.

Definition expectRelayPayload (v : value) (field : jstr) : parsed RelayPayload :=
  match isRecord v with
  | None => relay_error field (js " must be an object")
  | Some p =>
      if is_str (get p (js "encoding")) (js "json") then
        if bool_decide (prop_get p (js "value") = None) || negb (isRelayJsonValue (get p (js "value")))
        then relay_error (field ++ js ".value") (js " must be JSON-compatible")
        else Ok (RelayJsonPayload (get p (js "value")))
      else if is_str (get p (js "encoding")) (js "base64") then
        dataB64 ← expectBase64 (get p (js "dataB64")) (field ++ js ".dataB64");
        Ok (RelayBinaryPayload dataB64)
      else relay_error (field ++ js ".encoding") (js " must be json or base64")
  end.

Definition expectRelayFrameError (v : value) (field : jstr) : parsed RelayFrameError :=
  match isRecord v with
  | None => relay_error field (js " must be an object")
  | Some p =>
      code ← expectRelayErrorCode (get p (js "code")) (field ++ js ".code");
      message ← expectNonEmptyString (get p (js "message")) (field ++ js ".message");
      data ← match get p (js "data") with
             | VUndefined => Ok None
             | d => Some <$> expectRelayJsonValue d (field ++ js ".data")
             end;
      Ok {| fe_code := code; fe_message := message; fe_data := data |}
  end.

Definition expectRelayCancelTarget (v : value) (field : jstr) : parsed RelayCancelTarget :=
  match isRecord v with
  | None => relay_error field (js " must be an object")
  | Some p =>
      if is_str (get p (js "kind")) (js "rpc") then
        CancelRpc <$> expectNonEmptyString (get p (js "id")) (field ++ js ".id")
      else if is_str (get p (js "kind")) (js "stream") then
        CancelStream <$> expectNonEmptyString (get p (js "streamId")) (field ++ js ".streamId")
      else relay_error (field ++ js ".kind") (js " must be rpc or stream")
  end.

Definition expectVersion (v : value) : parsed unit :=
  match v with
  | VNum (Int n) => guard_err (negb (n =? RELAY_TRANSPORT_PROTOCOL_VERSION)%Z)
                      (js "Unsupported relay protocol version")
  | _ => Err (js "Unsupported relay protocol version")
  end.

(** [...(v === undefined ? {} : { key: expect(v, key) })]. *)
Definition if_defined {A} (v : value) (expect : value -> parsed A) : parsed (option A) :=
  match v with VUndefined => Ok None | _ => Some <$> expect v end.
Definition optional {A} (p : list (jstr * value)) (key : jstr) (expect : value -> jstr -> parsed A) : parsed (option A) :=
  if_defined (get p key) (fun v => expect v key).
Definition required {A} (p : list (jstr * value)) (key : jstr) (expect : value -> jstr -> parsed A) : parsed A :=
  expect (get p key) key.

Definition parseRelayRpcRequestFrame (p : list (jstr * value)) : parsed RelayFrame :=
  id ← required p (js "id") expectNonEmptyString;
  capability ← required p (js "capability") expectNonEmptyString;
  deadlineMs ← optional p (js "deadlineMs") expectPositiveInteger;
  payload ← optional p (js "payload") expectRelayPayload;
  context ← optional p (js "context") expectRelayJsonObject;
  Ok (RelayRpcRequestFrame id capability deadlineMs payload context).

Definition parseRelayRpcResponseFrame (p : list (jstr * value)) : parsed RelayFrame :=
  id ← required p (js "id") expectNonEmptyString;
  match get p (js "ok") with
  | VBool true => payload ← required p (js "payload") expectRelayPayload; Ok (RelayRpcResponseOk id payload)
  | VBool false => error ← required p (js "error") expectRelayFrameError; Ok (RelayRpcResponseError id error)
  | _ => Err (js "Relay rpc.response ok must be boolean")
  end.

Definition parseRelayStreamOpenFrame (p : list (jstr * value)) : parsed RelayFrame :=
  streamId ← required p (js "streamId") expectNonEmptyString;
  capability ← required p (js "capability") expectNonEmptyString;
  payload ← optional p (js "payload") expectRelayPayload;
  context ← optional p (js "context") expectRelayJsonObject;
  Ok (RelayStreamOpenFrame streamId capability payload context).

Definition parseRelayStreamDataFrame (p : list (jstr * value)) : parsed RelayFrame :=
  streamId ← required p (js "streamId") expectNonEmptyString;
  sequence ← required p (js "sequence") expectNonNegativeInteger;
  payload ← required p (js "payload") expectRelayPayload;
  Ok (RelayStreamDataFrame streamId sequence payload).

Definition parseRelayStreamCloseFrame (p : list (jstr * value)) : parsed RelayFrame :=
  streamId ← required p (js "streamId") expectNonEmptyString;
  code ← required p (js "code") expectRelayStreamCloseCode;
  reason ← optional p (js "reason") expectString;
  Ok (RelayStreamCloseFrame streamId code reason).

Definition parseRelayEventFrame (p : list (jstr * value)) : parsed RelayFrame :=
  topic ← required p (js "topic") expectNonEmptyString;
  id ← optional p (js "id") expectNonEmptyString;
  payload ← optional p (js "payload") expectRelayPayload;
  resource ← optional p (js "resource") expectRelayJsonObject;
  Ok (RelayEventFrame topic id payload resource).

Definition parseRelayCancelFrame (p : list (jstr * value)) : parsed RelayFrame :=
  target ← required p (js "target") expectRelayCancelTarget;
  reason ← optional p (js "reason") expectString;
  Ok (RelayCancelFrame target reason).

Definition parseRelayErrorFrame (p : list (jstr * value)) : parsed RelayFrame :=
  error ← required p (js "error") expectRelayFrameError;
  target ← optional p (js "target") expectRelayCancelTarget;
  Ok (RelayErrorFrame error target).

Definition parseRelayFrame (frame : value) : parsed RelayFrame :=
  match isRecord frame with
  | None => Err (js "Relay frame must be an object")
  | Some p =>
      type ← required p (js "type") expectString;
      _ ← expectVersion (get p (js "version"));
      if jeqb type (js "rpc.request") then parseRelayRpcRequestFrame p
      else if jeqb type (js "rpc.response") then parseRelayRpcResponseFrame p
      else if jeqb type (js "stream.open") then parseRelayStreamOpenFrame p
      else if jeqb type (js "stream.data") then parseRelayStreamDataFrame p
      else if jeqb type (js "stream.close") then parseRelayStreamCloseFrame p
      else if jeqb type (js "event") then parseRelayEventFrame p
      else if jeqb type (js "cancel") then parseRelayCancelFrame p
      else if jeqb type (js "error") then parseRelayErrorFrame p
      else Err (js "Unsupported relay frame type: " ++ type)
  end.

(** * The objects the frames are *)

Definition prop (key : String.string) (v : value) : list (jstr * value) := [(js key, v)].
Definition opt_prop {A} (key : String.string) (f : A -> value) (o : option A) : list (jstr * value) :=
  match o with Some a => prop key (f a) | None => [] end.

#[global] Arguments prop key%_string v.
#[global] Arguments opt_prop {A} key%_string f o.

Definition payload_value (p : RelayPayload) : value :=
  match p with
  | RelayJsonPayload v => VObj true (prop "encoding" (VStr (js "json")) ++ prop "value" v)
  | RelayBinaryPayload d => VObj true (prop "encoding" (VStr (js "base64")) ++ prop "dataB64" (VStr d))
  end.

Definition error_value (e : RelayFrameError) : value :=
  VObj true (prop "code" (VStr (RELAY_ERROR_CODES (fe_code e))) ++ prop "message" (VStr (fe_message e)) ++
             opt_prop "data" (fun v => v) (fe_data e)).

Definition target_value (t : RelayCancelTarget) : value :=
  match t with
  | CancelRpc id => VObj true (prop "kind" (VStr (js "rpc")) ++ prop "id" (VStr id))
  | CancelStream id => VObj true (prop "kind" (VStr (js "stream")) ++ prop "streamId" (VStr id))
  end.

Definition frame_head (type : String.string) : list (jstr * value) :=
  prop "type" (VStr (js type)) ++ prop "version" (VNum (Int RELAY_TRANSPORT_PROTOCOL_VERSION)).

#[global] Arguments frame_head type%_string.

Definition frame_props (f : RelayFrame) : list (jstr * value) :=
  match f with
  | RelayRpcRequestFrame id capability deadlineMs payload context =>
      frame_head "rpc.request" ++ prop "id" (VStr id) ++ prop "capability" (VStr capability) ++
      opt_prop "deadlineMs" (fun n => VNum (Int n)) deadlineMs ++ opt_prop "payload" payload_value payload ++
      opt_prop "context" (VObj true) context
  | RelayRpcResponseOk id payload =>
      frame_head "rpc.response" ++ prop "id" (VStr id) ++ prop "ok" (VBool true) ++ prop "payload" (payload_value payload)
  | RelayRpcResponseError id error =>
      frame_head "rpc.response" ++ prop "id" (VStr id) ++ prop "ok" (VBool false) ++ prop "error" (error_value error)
  | RelayStreamOpenFrame streamId capability payload context =>
      frame_head "stream.open" ++ prop "streamId" (VStr streamId) ++ prop "capability" (VStr capability) ++
      opt_prop "payload" payload_value payload ++ opt_prop "context" (VObj true) context
  | RelayStreamDataFrame streamId sequence payload =>
      frame_head "stream.data" ++ prop "streamId" (VStr streamId) ++ prop "sequence" (VNum (Int sequence)) ++
      prop "payload" (payload_value payload)
  | RelayStreamCloseFrame streamId code reason =>
      frame_head "stream.close" ++ prop "streamId" (VStr streamId) ++
      prop "code" (VStr (RELAY_STREAM_CLOSE_CODES code)) ++ opt_prop "reason" VStr reason
  | RelayEventFrame topic id payload resource =>
      frame_head "event" ++ prop "topic" (VStr topic) ++ opt_prop "id" VStr id ++
      opt_prop "payload" payload_value payload ++ opt_prop "resource" (VObj true) resource
  | RelayCancelFrame target reason =>
      frame_head "cancel" ++ prop "target" (target_value target) ++ opt_prop "reason" VStr reason
  | RelayErrorFrame error target =>
      frame_head "error" ++ prop "error" (error_value error) ++ opt_prop "target" target_value target
  end.

Definition frame_value (f : RelayFrame) : value := VObj true (frame_props f).

(** * Text *)

Section codec.
Context `{JsonHost}.

Definition encodeTunnelMessage (message : value) : option jstr := stringify message.

(** What decoding throws: an [Error] of the functions above, or the [SyntaxError] of
    [JSON.parse]. *)
Inductive decode_exn := FrameError (message : jstr) | SyntaxError.

Definition lift_error {A} (r : parsed A) : result decode_exn A :=
  match r with Ok a => Ok a | Err m => Err (FrameError m) end.

Definition decodeTunnelMessage (data : jstr) : result decode_exn value :=
  match json_parse data with
  | None => Err SyntaxError
  | Some parsed_ =>
      match parsed_ with
      | VObj _ props =>
          if bool_decide (prop_get props (js "type") = None)
          then Err (FrameError (js "Tunnel message must be an object with a type")) else Ok parsed_
      | _ => Err (FrameError (js "Tunnel message must be an object with a type"))
      end
  end.

Definition encodeRelayFrame (frame : RelayFrame) : option jstr := stringify (frame_value frame).

Definition relayFrameByteLength (data : jstr) : Z := Z.of_nat (length (encode data)).

Definition assertRelayFrameSize (data : jstr) (maxBytes : option Z) : parsed unit :=
  guard_err (default RELAY_FRAME_BYTE_LIMIT maxBytes <? relayFrameByteLength data)%Z
    (js "Relay frame exceeds byte limit").

Definition decodeRelayFrame (data : jstr) (maxBytes : option Z) : result decode_exn RelayFrame :=
  _ ← lift_error (assertRelayFrameSize data maxBytes);
  match json_parse data with None => Err SyntaxError | Some v => lift_error (parseRelayFrame v) end.
End codec.

(** * Well-formed frames: the types of the source, and what they leave to the parser *)

Definition payload_ok (p : RelayPayload) : bool :=
  match p with
  | RelayJsonPayload v => isRelayJsonValue v
  | RelayBinaryPayload d => (jlen d mod 4 =? 0)%Z && base64_pattern d
  end.
Definition text_ok (s : jstr) : bool := negb (jlen s =? 0)%Z.
Definition object_ok (o : RelayJsonObject) : bool := isRelayJsonValue (VObj true o).
Definition error_ok (e : RelayFrameError) : bool := text_ok (fe_message e) && from_option isRelayJsonValue true (fe_data e).
Definition target_ok (t : RelayCancelTarget) : bool := match t with CancelRpc id | CancelStream id => text_ok id end.

Definition frame_ok (f : RelayFrame) : bool :=
  match f with
  | RelayRpcRequestFrame id capability deadlineMs payload context =>
      text_ok id && text_ok capability && from_option (Z.ltb 0) true deadlineMs &&
      from_option payload_ok true payload && from_option object_ok true context
  | RelayRpcResponseOk id payload => text_ok id && payload_ok payload
  | RelayRpcResponseError id error => text_ok id && error_ok error
  | RelayStreamOpenFrame streamId capability payload context =>
      text_ok streamId && text_ok capability && from_option payload_ok true payload && from_option object_ok true context
  | RelayStreamDataFrame streamId sequence payload => text_ok streamId && (0 <=? sequence)%Z && payload_ok payload
  | RelayStreamCloseFrame streamId code reason => text_ok streamId
  | RelayEventFrame topic id payload resource =>
      text_ok topic && from_option text_ok true id && from_option payload_ok true payload && from_option object_ok true resource
  | RelayCancelFrame target reason => target_ok target
  | RelayErrorFrame error target => error_ok error && from_option target_ok true target
  end.

(** ** The expectations, both ways

    [faithful expect val ok]: the values that [expect] takes are, up to what it drops,
    the [val a] of the [a] that are [ok], and it gives back [a]. *)
Record faithful {A} (expect : value -> jstr -> parsed A) (val : A -> value) (ok : A -> bool) : Prop := {
  f_sound : forall v field a, expect v field = Ok a -> ok a = true;
  f_complete : forall a field, ok a = true -> expect (val a) field = Ok a;
  f_defined : forall a, ok a = true -> val a <> VUndefined
}.

Ltac expected :=
  repeat first
    [ progress inv_result
    | match goal with
      | H : relay_error _ _ = Ok _ |- _ => discriminate H
      | H : (if ?c then _ else _) = Ok _ |- _ => destruct c eqn:?
      | H : match ?v with _ => _ end = Ok _ |- _ => destruct v eqn:?
      | H : (_ <$> _) = Ok _ |- _ => unfold fmap, result_fmap in H
      end
    | discriminate ].

Lemma expectString_faithful : faithful expectString VStr (fun _ => true).
Proof. by split. Qed.

Lemma expectNonEmptyString_faithful : faithful expectNonEmptyString VStr text_ok.
Proof.
  split; [|intros s field Hs|done]; unfold expectNonEmptyString, text_ok in *.
  - intros v field a H. expected. by rewrite Heqb.
  - cbn. to_prop. by rewrite (proj2 (Z.eqb_neq _ _)).
Qed.

Lemma expectNonNegativeInteger_faithful :
  faithful expectNonNegativeInteger (fun n => VNum (Int n)) (Z.leb 0).
Proof. split; [|intros s field Hs; cbn; by rewrite Hs|done]. intros [] field a H; cbn in H; expected. done. Qed.

Lemma expectPositiveInteger_faithful : faithful expectPositiveInteger (fun n => VNum (Int n)) (Z.ltb 0).
Proof. split; [|intros s field Hs; cbn; by rewrite Hs|done]. intros [] field a H; cbn in H; expected. done. Qed.

Lemma expectRelayJsonObject_faithful : faithful expectRelayJsonObject (VObj true) object_ok.
Proof.
  split; [|intros o field Ho; unfold object_ok in Ho; unfold expectRelayJsonObject; cbn [isPlainRecord]; by rewrite Ho|done].
  intros v field a H. unfold expectRelayJsonObject in H. destruct v as [| | | | | |[] props|]; cbn [isPlainRecord] in H; expected. done.
Qed.

Lemma expectRelayJsonValue_faithful : faithful expectRelayJsonValue (fun v => v) isRelayJsonValue.
Proof.
  split; [|intros v field Hv; unfold expectRelayJsonValue; by rewrite Hv|by intros v Hv ->].
  intros v field a H. unfold expectRelayJsonValue in H. by expected.
Qed.

Lemma find_code_sound {C} (text : C -> jstr) codes s c : find_code text codes s = Some c -> text c = s.
Proof.
  unfold find_code. destruct (list_find _ codes) as [[i c']|] eqn:E; [|done]. intros [= <-].
  apply list_find_Some in E as (_ & H & _). by apply jeqb_eq in H.
Qed.

Lemma expectRelayErrorCode_faithful :
  faithful expectRelayErrorCode (fun c => VStr (RELAY_ERROR_CODES c)) (fun _ => true).
Proof. split; [done|by intros [] ?|done]. Qed.

Lemma expectRelayStreamCloseCode_faithful :
  faithful expectRelayStreamCloseCode (fun c => VStr (RELAY_STREAM_CLOSE_CODES c)) (fun _ => true).
Proof. split; [done|by intros [] ?|done]. Qed.

(** Evaluate the lookups of an object literal. *)
Ltac lookups :=
  repeat first
    [ progress cbn [id get prop_get prop opt_prop frame_head app default from_option fmap option_fmap option_map isRecord is_str mbind result_bind]
    | match goal with
      | |- context [jeqb (js ?a) (js ?b)] =>
          let r := eval vm_compute in (jeqb (js a) (js b)) in change (jeqb (js a) (js b)) with r
      end ].

Lemma expectRelayPayload_faithful : faithful expectRelayPayload payload_value payload_ok.
Proof.
  split; [|intros [v|d] field Hp; cbn [payload_ok] in Hp; unfold expectRelayPayload, payload_value; lookups|by intros []].
  - intros v field a H. unfold expectRelayPayload, expectBase64 in H. expected; cbn [payload_ok].
    + by to_prop.
    + match goal with H : negb _ || negb _ = false |- _ =>
        apply orb_false_iff in H as [?%negb_false_iff ?%negb_false_iff] end. by apply andb_true_iff.
  - rewrite bool_decide_false by done. by rewrite Hp.
  - unfold expectBase64. cbn. apply andb_true_iff in Hp as [-> ->]. done.
Qed.

Lemma expectRelayFrameError_faithful : faithful expectRelayFrameError error_value error_ok.
Proof.
  split; [|intros [c m d] field He; unfold error_ok in He; cbn [fe_message fe_data] in He;
           apply andb_true_iff in He as [Hm Hd]|done].
  - intros v field a H. unfold expectRelayFrameError in H. expected; unfold error_ok; cbn [fe_message fe_data from_option];
      match goal with H : expectNonEmptyString _ _ = Ok _ |- _ => rewrite (f_sound _ _ _ expectNonEmptyString_faithful _ _ _ H) end;
      cbn [andb]; try done; by eapply (f_sound _ _ _ expectRelayJsonValue_faithful).
  - unfold expectRelayFrameError, error_value. cbn [fe_code fe_message fe_data]. destruct d as [d|]; lookups;
      rewrite (f_complete _ _ _ expectRelayErrorCode_faithful) by done; lookups;
      rewrite (f_complete _ _ _ expectNonEmptyString_faithful) by done; lookups; [|done].
    cbn [from_option] in Hd. destruct d; try done; by rewrite (f_complete _ _ _ expectRelayJsonValue_faithful).
Qed.

Lemma expectRelayCancelTarget_faithful : faithful expectRelayCancelTarget target_value target_ok.
Proof.
  split; [|intros [id|id] field Ht; unfold expectRelayCancelTarget, target_value; lookups|by intros []].
  - intros v field a H. unfold expectRelayCancelTarget in H. expected;
      by eapply (f_sound _ _ _ expectNonEmptyString_faithful).
  - by rewrite (f_complete _ _ _ expectNonEmptyString_faithful).
  - by rewrite (f_complete _ _ _ expectNonEmptyString_faithful).
Qed.

Create HintDb frames.
#[export] Hint Resolve expectString_faithful expectNonEmptyString_faithful expectNonNegativeInteger_faithful
  expectPositiveInteger_faithful expectRelayJsonObject_faithful expectRelayJsonValue_faithful
  expectRelayErrorCode_faithful expectRelayStreamCloseCode_faithful expectRelayPayload_faithful
  expectRelayFrameError_faithful expectRelayCancelTarget_faithful : frames.

Section fields.
Context {A} (expect : value -> jstr -> parsed A) (val : A -> value) (ok : A -> bool) (Hf : faithful expect val ok).

Lemma required_sound p key a : required p key expect = Ok a -> ok a = true.
Proof. apply Hf. Qed.

Lemma optional_sound p key o : optional p key expect = Ok o -> from_option ok true o = true.
Proof.
  unfold optional, if_defined. destruct (get p key); intros H; expected; try done; cbn [from_option]; by eapply f_sound.
Qed.

Lemma if_defined_complete a key : ok a = true -> if_defined (val a) (fun v => expect v key) = Ok (Some a).
Proof.
  intros Ha. pose proof (f_defined _ _ _ Hf a Ha). pose proof (f_complete _ _ _ Hf a key Ha) as E.
  unfold if_defined. destruct (val a); try done; by rewrite E.
Qed.
End fields.

Ltac sound_fields :=
  repeat match goal with
  | H : required _ _ ?e = Ok _ |- _ => eapply required_sound in H; [|solve [auto with frames]]
  | H : optional _ _ ?e = Ok _ |- _ => eapply optional_sound in H; [|solve [auto with frames]]
  end.

Lemma parse_sound v f : parseRelayFrame v = Ok f -> frame_ok f = true.
Proof.
  unfold parseRelayFrame. destruct (isRecord v) as [p|]; [|done]. intros H.
  apply bind_ok_inv in H as (type & _ & H). apply bind_ok_inv in H as ([] & _ & H).
  repeat match type of H with (if ?c then _ else _) = _ => destruct c eqn:? end; [..|done];
    match type of H with ?g _ = _ => unfold g in H end; expected; sound_fields; cbn [frame_ok];
    by repeat match goal with E : _ = true |- _ => rewrite E; clear E end.
Qed.

(** The parser gives a well-formed frame back, field by field. *)
Definition complete_nonempty s k := f_complete _ _ _ expectNonEmptyString_faithful s k.
Definition complete_natural n k : (0 <= n)%Z -> expectNonNegativeInteger (VNum (Int n)) k = Ok n :=
  fun Hn => f_complete _ _ _ expectNonNegativeInteger_faithful n k (proj2 (Z.leb_le 0 n) Hn).
Definition complete_payload p k := f_complete _ _ _ expectRelayPayload_faithful p k.
Definition complete_error e k := f_complete _ _ _ expectRelayFrameError_faithful e k.
Definition complete_target c k := f_complete _ _ _ expectRelayCancelTarget_faithful c k.
Definition complete_close c k : expectRelayStreamCloseCode (VStr (RELAY_STREAM_CLOSE_CODES c)) k = Ok c :=
  f_complete _ _ _ expectRelayStreamCloseCode_faithful c k eq_refl.
Definition defined_string s k : if_defined (VStr s) (fun v => expectString v k) = Ok (Some s) :=
  if_defined_complete _ _ _ expectString_faithful s k eq_refl.
Definition defined_nonempty s k := if_defined_complete _ _ _ expectNonEmptyString_faithful s k.
Definition defined_positive n k : (0 <? n)%Z = true ->
  if_defined (VNum (Int n)) (fun v => expectPositiveInteger v k) = Ok (Some n) :=
  if_defined_complete _ _ _ expectPositiveInteger_faithful n k.
Definition defined_payload p k := if_defined_complete _ _ _ expectRelayPayload_faithful p k.
Definition defined_object o k := if_defined_complete _ _ _ expectRelayJsonObject_faithful o k.
Definition defined_target c k := if_defined_complete _ _ _ expectRelayCancelTarget_faithful c k.

Lemma undefined_none {A} (k : value -> parsed A) : if_defined VUndefined k = Ok None.
Proof. done. Qed.

Create Rewrite HintDb frames.
#[export] Hint Rewrite complete_nonempty complete_natural complete_payload complete_error complete_target complete_close
  defined_string defined_nonempty defined_positive defined_payload defined_object defined_target
  @undefined_none @bind_ok using assumption : frames.

Ltac complete_fields :=
  match goal with |- ?parse _ = _ => unfold parse, required, optional, prop end;
  lookups; autorewrite with frames; reflexivity.

Lemma parse_frame_value f : frame_ok f = true -> parseRelayFrame (frame_value f) = Ok f.
Proof.
  intros Hf. unfold parseRelayFrame, frame_value. cbn [isRecord].
  assert (required (frame_props f) (js "type") expectString
          = Ok (match f with
                | RelayRpcRequestFrame _ _ _ _ _ => js "rpc.request"
                | RelayRpcResponseOk _ _ | RelayRpcResponseError _ _ => js "rpc.response"
                | RelayStreamOpenFrame _ _ _ _ => js "stream.open"
                | RelayStreamDataFrame _ _ _ => js "stream.data"
                | RelayStreamCloseFrame _ _ _ => js "stream.close"
                | RelayEventFrame _ _ _ _ => js "event"
                | RelayCancelFrame _ _ => js "cancel"
                | RelayErrorFrame _ _ => js "error"
                end)) as -> by by destruct f.
  rewrite bind_ok. assert (expectVersion (get (frame_props f) (js "version")) = Ok tt) as -> by by destruct f.
  rewrite bind_ok.
  destruct f; cbn [frame_ok] in Hf; to_prop; lookups;
    repeat match goal with o : option _ |- _ => destruct o end; cbn [from_option] in *; cbn [frame_props].
  all: complete_fields.
Qed.

(** C37: parsing is faithful: the well-formed frames are exactly those the parser gives
    back from the object they are, and what it makes of any accepted object, its
    unknown properties dropped, is such a frame. *)
Theorem parse_frame_exact f : frame_ok f = true <-> parseRelayFrame (frame_value f) = Ok f.
Proof. split; [apply parse_frame_value|]. apply parse_sound. Qed.

(** ** Text *)

Section text.
Context `{JsonHost}.

(** C36: a well-formed frame of strings and small integers that fits the limit survives
    the round trip through its text. *)
Theorem decode_encode_frame f s maxBytes :
  frame_ok f = true -> json_ok (frame_value f) = true -> encodeRelayFrame f = Some s ->
  (relayFrameByteLength s <= default RELAY_FRAME_BYTE_LIMIT maxBytes)%Z ->
  decodeRelayFrame s maxBytes = Ok f.
Proof.
  intros Hf Hj He Hs. unfold decodeRelayFrame, assertRelayFrameSize.
  rewrite (proj2 (Z.ltb_ge _ _)) by done. cbn [guard_err lift_error mbind result_bind].
  unfold encodeRelayFrame in He.
  rewrite (json_parse_stringify _ _ Hj He). by rewrite parse_frame_value.
Qed.

(** what [decodeRelayFrame] answers: a text over the limit is refused before it is
    parsed, a text that is no JSON is a syntax error, and everything else that comes
    back is a well-formed frame whose text decodes to it again. *)
Theorem decodeRelayFrame_outcomes data maxBytes :
  match decodeRelayFrame data maxBytes with
  | Ok f => frame_ok f = true /\ (relayFrameByteLength data <= default RELAY_FRAME_BYTE_LIMIT maxBytes)%Z
            /\ parseRelayFrame (frame_value f) = Ok f
  | Err SyntaxError =>
      (relayFrameByteLength data <= default RELAY_FRAME_BYTE_LIMIT maxBytes)%Z /\ json_parse data = None
  | Err (FrameError m) =>
      if (default RELAY_FRAME_BYTE_LIMIT maxBytes <? relayFrameByteLength data)%Z
      then m = js "Relay frame exceeds byte limit"
      else exists v, json_parse data = Some v /\ parseRelayFrame v = Err m
  end.
Proof.
  unfold decodeRelayFrame, assertRelayFrameSize.
  destruct (Z.ltb_spec (default RELAY_FRAME_BYTE_LIMIT maxBytes) (relayFrameByteLength data));
    cbn [guard_err lift_error mbind result_bind]; [done|].
  destruct (json_parse data) as [v|]; [|done]. destruct (parseRelayFrame v) as [f|m] eqn:Hp; cbn [lift_error].
  - pose proof (parse_sound _ _ Hp). auto using parse_frame_value.
  - by exists v.
Qed.
End text.

(** ** The base64 that is accepted *)

Lemma base64_pattern_split s :
  base64_pattern s = true -> exists l k, s = l ++ repeat pad k /\ Forall b64_unit l /\ k <= 2.
Proof.
  induction s as [|c s IH]; [exists [], 0; auto|]. cbn [base64_pattern]. case_bool_decide as Hc.
  - intros (l & k & -> & Hl & Hk)%IH. exists (c :: l), k. auto.
  - intros [H%jeqb_eq|H%jeqb_eq]%orb_true_iff; rewrite H; [exists [], 1|exists [], 2]; auto.
Qed.

(** a string that the parser takes for base64 decodes, so a consumer that calls
    [atob] on an accepted payload never sees it throw. *)
Theorem accepted_base64_decodes v field s : expectBase64 v field = Ok s -> v = VStr s /\ is_Some (base64ToBytes s).
Proof.
  unfold expectBase64. intros H. apply bind_ok_inv in H as (s' & Hs' & H). destruct v; try done.
  cbn [expectString] in Hs'. injection Hs' as ->. destruct (negb _ || negb _) eqn:E; [done|]. injection H as ->.
  split; [done|]. apply orb_false_iff in E as [Hlen%negb_false_iff Hpat%negb_false_iff].
  apply base64_pattern_split in Hpat as (l & k & -> & Hl & Hk). apply atob_padded; [done..|].
  apply Z.eqb_eq in Hlen. unfold jlen in Hlen. change 4%Z with (Z.of_nat 4) in Hlen.
  rewrite <- Nat2Z.inj_mod in Hlen. lia.
Qed.

(** * Examples *)

Definition example_frame : RelayFrame :=
  RelayRpcRequestFrame (js "r1") (js "read") (Some 500%Z) (Some (RelayJsonPayload (VArr [VNull; VStr (js "x")])))
    (Some [(js "user", VStr (js "u"))]).

Lemma decode_encode_frame_witness :
  let _ := Build_JsonHost (fun _ => js "null") (fun _ => None) in
  exists s, encodeRelayFrame example_frame = Some s /\ decodeRelayFrame s None = Ok example_frame.
Proof.
  intros host. exists (default [] (encodeRelayFrame example_frame)). split; [by vm_compute|].
  apply decode_encode_frame; by vm_compute.
Defined.

Lemma accepted_base64_decodes_witness : VStr (js "aGk=") = VStr (js "aGk=") /\ is_Some (base64ToBytes (js "aGk=")).
Proof. apply (accepted_base64_decodes (VStr (js "aGk=")) (js "payload.dataB64")). by vm_compute. Defined.
