(* ===== verification/HistoryData.v ===== *)
(** The data of [packages/vault-core/src/file-history.ts] and its pure functions: the
    contributors of an entry, the buckets, the message of a history commit and how it is
    read back, the scope of a commit, cursors and pages. *)
From S2P Require Import Prelude JsString Utf8 NodePath Json VaultPath IsoDate AuditLog.

(** * Data *)

Inductive FileHistoryOperation := HCreate | HUpdate | HMove | HRename.

#[export] Instance FileHistoryOperation_eq_dec : EqDecision FileHistoryOperation.
Proof. solve_decision. Defined.

Definition history_operation_text (op : FileHistoryOperation) : jstr :=
  match op with
  | HCreate => js "create" | HUpdate => js "update" | HMove => js "move" | HRename => js "rename"
  end.

Record FileHistoryEntry := {
  he_id : jstr;
  he_path : jstr;
  he_operation : FileHistoryOperation;
  he_actor : VaultActor;
  he_integrationId : option jstr;
  he_contributors : option (list VaultActor);
  he_pending : option bool;
  he_commitId : option jstr;
  he_createdAt : jstr;
  he_updatedAt : jstr;
  he_content : option jstr;
  he_size : number;
  he_contentHash : jstr
}.

Record RecordFileHistoryInput := {
  ri_path : jstr;
  ri_operation : FileHistoryOperation;
  ri_actor : option VaultActor;
  ri_content : jstr;
  ri_now : option Z;
  ri_coalesceWindowMs : option number
}.

Record PendingHistoryEntry := {
  pe_id : jstr;
  pe_path : jstr;
  pe_fromPath : option jstr;
  pe_operation : FileHistoryOperation;
  pe_bucketStart : jstr;
  pe_createdAt : jstr;
  pe_updatedAt : jstr;
  pe_content : jstr;
  pe_size : Z;
  pe_contentHash : jstr;
  pe_contentHashFormat : option jstr;
  pe_contributors : list VaultActor
}.

Record HistoryLogRecord := { lr_commitId : jstr; lr_committedAt : jstr; lr_body : jstr }.

(** [{ matches: false }], or what a matching commit says of the path before it. *)
Inductive HistoryCommitScope :=
| NoMatch
| Match (previousPath : option jstr) (stopsTraversal : bool).

Definition DEFAULT_HISTORY_BUCKET_WINDOW_MS : Z := 5 * 60 * 1000.
Definition DEFAULT_HISTORY_PAGE_LIMIT : Z := 50.
Definition MAX_HISTORY_PAGE_LIMIT : Z := 200.
Definition GIT_BLOB_CONTENT_HASH_FORMAT : jstr := js "git-blob-v1".
Definition LF : N := 10%N.
Definition CR : N := 13%N.
Definition COMMIT_SEPARATOR : N := 0x1e%N.
Definition FIELD_SEPARATOR : N := 0%N.

(** What [Date.parse] makes of a text ([None] is [NaN]), and [Number] of a text that is
    not the decimal notation of a small integer. *)
Class DateHost := { date_parse : jstr -> option Z; number_parse : jstr -> number }.

(** * Actors *)

(** [cloneActor] copies the four fields: on values, the identity. *)
Definition cloneActor (actor : VaultActor) : VaultActor :=
  {| a_kind := a_kind actor; a_id := a_id actor; a_name := a_name actor; a_client := a_client actor |}.

Definition or_null (o : option jstr) : value := match o with Some s => VStr s | None => VUndefined end.

Section actors.
Context `{JsonHost}.

(** [JSON.stringify] of an array, where [undefined] is written [null]. *)
Definition actorKey (actor : VaultActor) : option jstr :=
  stringify (VArr [VStr (actor_kind_text (a_kind actor)); or_null (a_id actor);
                   or_null (a_name actor); or_null (a_client actor)]).

Definition addContributor (contributors : list VaultActor) (actor : VaultActor) : list VaultActor :=
  let key := actorKey actor in
  if existsb (fun candidate => bool_decide (actorKey candidate = key)) contributors
  then map cloneActor contributors
  else map cloneActor contributors ++ [cloneActor actor].
End actors.

Definition actorForContributors (contributors : list VaultActor) : VaultActor :=
  match contributors with
  | [a] => cloneActor a
  | [] => bare_actor AcUnknown
  | _ => {| a_kind := AcSystem; a_id := None;
            a_name := Some (dec (Z.of_nat (length contributors)) ++ js " contributors"); a_client := None |}
  end.

(** Truthiness of an optional string. *)
Definition truthy (o : option jstr) : bool := match o with Some (_ :: _) => true | _ => false end.

Definition actorLabel (actor : VaultActor) : jstr :=
  let label := default (default (actor_kind_text (a_kind actor)) (a_id actor)) (a_name actor) in
  if truthy (a_client actor) then label ++ js " (" ++ default [] (a_client actor) ++ js ")" else label.

Definition actor_kind_of (v : value) : option ActorKind :=
  match v with
  | VStr s => if jeqb s (js "user") then Some AcUser else if jeqb s (js "mcp_client") then Some AcMcpClient
              else if jeqb s (js "integration") then Some AcIntegration else if jeqb s (js "system") then Some AcSystem
              else if jeqb s (js "unknown") then Some AcUnknown else None
  | _ => None
  end.

Definition string_prop (v : value) : option jstr := match v with VStr s => Some s | _ => None end.

Definition normalizeActor (p : list (jstr * value)) : option VaultActor :=
  kind ← actor_kind_of (get p (js "kind"));
  Some {| a_kind := kind; a_id := string_prop (get p (js "id")); a_name := string_prop (get p (js "name"));
          a_client := string_prop (get p (js "client")) |}.

Definition parseActorJson `{JsonHost} (text : jstr) : option VaultActor :=
  parsed ← json_parse text;
  match parsed with VObj _ p => normalizeActor p | _ => None end.

(** * Buckets and operations *)

Definition normalizeBucketWindowMs (v : option number) : number :=
  match v with
  | Some (Int z) => if (0 <=? z)%Z then Int z else Int DEFAULT_HISTORY_BUCKET_WINDOW_MS
  | Some (Frac m b) => if (0 <=? m)%Z then Frac m b else Int DEFAULT_HISTORY_BUCKET_WINDOW_MS
  | _ => Int DEFAULT_HISTORY_BUCKET_WINDOW_MS
  end.

(** [Math.floor(time / windowMs) * windowMs], in exact arithmetic; a [Date] truncates it. *)
Definition bucket_start (time : Z) (windowMs : number) : Z :=
  match windowMs with
  | Int w => (time / w * w)%Z
  | Frac m b => Z.quot (time * 2 ^ Zpos b / m * m) (2 ^ Zpos b)
  | _ => time
  end.

Definition bucketStartIso (now : Z) (bucketWindowMs : option number) : jstr :=
  match normalizeBucketWindowMs bucketWindowMs with
  | Int 0 => toISOString now
  | windowMs => toISOString (bucket_start now windowMs)
  end.

Definition moveOperationForPaths (fromPath toPath : jstr) : FileHistoryOperation :=
  if jeqb (dirname fromPath) (dirname toPath) then HRename else HMove.

Definition pendingKey (rel bucketStart : jstr) : jstr := rel ++ 0%N :: bucketStart.

Definition historyOperationFromAudit (op : AuditOperation) : option FileHistoryOperation :=
  match op with
  | OpCreate => Some HCreate
  | OpWrite | OpSplice | OpAppend | OpPrepend => Some HUpdate
  | OpMove => Some HMove
  | OpMkdir | OpDelete => None
  end.

Definition fileHistoryOperation (s : jstr) : option FileHistoryOperation :=
  if jeqb s (js "create") then Some HCreate else if jeqb s (js "update") then Some HUpdate
  else if jeqb s (js "move") then Some HMove else if jeqb s (js "rename") then Some HRename else None.

(** * The message of a commit *)

Definition hasLineBreak (v : jstr) : bool := existsb (fun c => (c =? CR)%N || (c =? LF)%N) v.
Definition commitPathDisplay (v : jstr) : jstr := if hasLineBreak v then json_quote v else v.

Section message.
Context `{JsonHost}.

Definition bucket_end (entry : PendingHistoryEntry) (now : option Z) : jstr :=
  default (pe_updatedAt entry) (toISOString <$> now).

(** The lines of the body that are there for a reader. *)
Definition message_head (entry : PendingHistoryEntry) (now : option Z) : list jstr :=
  [js "Path: " ++ commitPathDisplay (pe_path entry)] ++
  (if truthy (commitPathDisplay <$> pe_fromPath entry)
   then [js "From: " ++ default [] (commitPathDisplay <$> pe_fromPath entry)] else []) ++
  [js "Bucket: " ++ pe_bucketStart entry ++ js " - " ++ bucket_end entry now; []; js "Contributors:"] ++
  map (fun actor => js "- " ++ actorLabel actor) (pe_contributors entry) ++ [[]].

(** The lines that are read back. *)
Definition message_trailers (entry : PendingHistoryEntry) (now : option Z) : list jstr :=
  [js "KB1-Path-JSON: " ++ json_quote (pe_path entry)] ++
  (if negb (hasLineBreak (pe_path entry)) then [js "KB1-Path: " ++ pe_path entry] else []) ++
  match pe_fromPath entry with
  | None => []
  | Some from =>
      [js "KB1-From-Path-JSON: " ++ json_quote from] ++
      (if negb (hasLineBreak from) then [js "KB1-From-Path: " ++ from] else [])
  end ++
  [js "KB1-Operation: " ++ history_operation_text (pe_operation entry);
   js "KB1-History-ID: " ++ pe_id entry;
   js "KB1-Bucket-Start: " ++ pe_bucketStart entry;
   js "KB1-Bucket-End: " ++ bucket_end entry now;
   js "KB1-Size: " ++ dec (pe_size entry);
   js "KB1-Content-SHA256: " ++ pe_contentHash entry] ++
  match pe_contentHashFormat entry with
  | None => []
  | Some format => [js "KB1-Content-Hash-Format: " ++ format]
  end ++
  map (fun actor => js "KB1-Contributor: " ++ default [] (stringify (actor_value actor))) (pe_contributors entry).

Record CommitMessage := { cm_subject : jstr; cm_body : jstr }.

Definition commitMessage (entry : PendingHistoryEntry) (now : option Z) : CommitMessage :=
  {| cm_subject := js "KB-1 history: " ++ history_operation_text (pe_operation entry) ++ js " "
                   ++ commitPathDisplay (pe_path entry);
     cm_body := join [LF] (message_head entry now ++ message_trailers entry now) |}.
End message.

(** * Reading it back *)

Abbreviation CommitValues := (gmap jstr (list jstr)).
Definition values_getAll (values : CommitValues) (key : jstr) : list jstr := default [] (values !! key).
Definition values_get (values : CommitValues) (key : jstr) : option jstr := head (values_getAll values key).

Definition is_key_unit (c : N) : bool :=
  ((48 <=? c) && (c <=? 57) || (65 <=? c) && (c <=? 90) || (97 <=? c) && (c <=? 122) || (c =? 45))%N.
(** What [.] of a regular expression does not match. *)
Definition is_line_terminator (c : N) : bool := ((c =? 10) || (c =? 13) || (c =? 0x2028) || (c =? 0x2029))%N.

(** The key of letters, digits and hyphens after [KB1-] and before a colon, and the
    rest of the line without the white space it starts with. *)
Definition trailer_head (line : jstr) : option (jstr * jstr) :=
  if starts_with line (js "KB1-") then
    let '(name, rest) := span is_key_unit (drop 4 line) in
    match name, rest with
    | _ :: _, 58%N :: rest => Some (js "KB1-" ++ name, trim_start rest)
    | _, _ => None
    end
  else None.

(** The same up to the end of the line, as the value, which must not hold a line
    terminator. *)
Definition trailer (line : jstr) : option (jstr * jstr) :=
  '(key, v) ← trailer_head line;
  if existsb is_line_terminator v then None else Some (key, v).

Definition is_path_key (key : jstr) : bool := jeqb key (js "KB1-Path") || jeqb key (js "KB1-From-Path").

(** The lines up to the next trailer, joined to the value, and the lines left. *)
Fixpoint continue_value (v : jstr) (lines : list jstr) : jstr * list jstr :=
  match lines with
  | [] => (v, [])
  | line :: rest =>
      if bool_decide (trailer_head line = None) then continue_value (v ++ LF :: line) rest else (v, lines)
  end.

Definition push_value (values : CommitValues) (key v : jstr) : CommitValues :=
  <[key := values_getAll values key ++ [v]]> values.

(** The loop of [commitValues]; every turn takes a line, so their number is enough fuel. *)
Fixpoint read_lines (fuel : nat) (lines : list jstr) (values : CommitValues) : CommitValues :=
  match fuel, lines with
  | S fuel, line :: rest =>
      match trailer line with
      | None => read_lines fuel rest values
      | Some (key, v) =>
          let '(v, rest) := if is_path_key key then continue_value v rest else (v, rest) in
          read_lines fuel rest (push_value values key v)
      end
  | _, _ => values
  end.

Definition strip_cr (line : jstr) : jstr := if ends_with line [CR] then take (length line - 1) line else line.

Definition commitValues (body : jstr) : CommitValues :=
  let lines := map strip_cr (split_on LF body) in
  read_lines (length lines) lines ∅.

(** [string | null | undefined]. *)
Inductive path_value := PathUndefined | PathNull | PathIs (p : jstr).

Definition commitPathValue `{JsonHost} (values : CommitValues) (legacyKey : jstr) : path_value :=
  match values_get values (legacyKey ++ js "-JSON") with
  | None => match values_get values legacyKey with Some p => PathIs p | None => PathUndefined end
  | Some encoded => match json_parse encoded with Some (VStr p) => PathIs p | _ => PathNull end
  end.

Definition numberValue `{DateHost} (v : option jstr) : option number :=
  s ← v;
  let parsed := match read_int s with
                | Some z => if small_int z then Int z else number_parse s
                | None => number_parse s
                end in
  if is_finite parsed then Some parsed else None.

Definition entryFromCommitValues `{JsonHost, DateHost} (requestedPath commitId committedAt : jstr)
    (values : CommitValues) : option FileHistoryEntry :=
  operation ← fileHistoryOperation (default (js "update") (values_get values (js "KB1-Operation")));
  let contributors := omap parseActorJson (values_getAll values (js "KB1-Contributor")) in
  let actor := actorForContributors contributors in
  Some {|
    he_id := default commitId (values_get values (js "KB1-History-ID"));
    he_path := requestedPath;
    he_operation := operation;
    he_actor := actor;
    he_integrationId := a_client actor;
    he_contributors := match contributors with [] => None | _ => Some (map cloneActor contributors) end;
    he_pending := None;
    he_commitId := Some commitId;
    he_createdAt := default committedAt (values_get values (js "KB1-Bucket-Start"));
    he_updatedAt := default committedAt (values_get values (js "KB1-Bucket-End"));
    he_content := None;
    he_size := default (Int 0) (numberValue (values_get values (js "KB1-Size")));
    he_contentHash := default [] (values_get values (js "KB1-Content-SHA256"))
  |}.

Definition historyCommitScope (currentPath : jstr) (operation : FileHistoryOperation)
    (recordedPath fromPath : path_value) : HistoryCommitScope :=
  match recordedPath with
  | PathUndefined => Match None false
  | PathNull => NoMatch
  | PathIs recorded =>
      let suffix := if jeqb recorded currentPath then Some []
                    else if bool_decide (operation = HMove) then relativeDescendantPath recorded currentPath
                    else None in
      match suffix with
      | None => NoMatch
      | Some suffix =>
          if bool_decide (operation <> HMove) && bool_decide (operation <> HRename) then Match None false
          else match fromPath with
               | PathUndefined | PathNull => Match None true
               | PathIs from =>
                   let previousPath := match suffix with [] => from | _ => from ++ slash :: suffix end in
                   match validateVaultPath Posix previousPath PKFile with
                   | Ok p => Match (Some p) false
                   | Err _ => Match None true
                   end
               end
      end
  end.

(** The records of [git log], in the format the source asks for. *)
Definition parse_log_record (raw : jstr) : option HistoryLogRecord :=
  match split_on FIELD_SEPARATOR (trim raw) with
  | commitId :: committedAt :: bodyParts =>
      if bool_decide (trim raw = []) || bool_decide (commitId = []) || bool_decide (committedAt = []) then None
      else Some {| lr_commitId := commitId; lr_committedAt := committedAt; lr_body := join [FIELD_SEPARATOR] bodyParts |}
  | _ => None
  end.

Definition parse_log (stdout : jstr) : list HistoryLogRecord :=
  omap parse_log_record (split_on COMMIT_SEPARATOR stdout).
