(* ===== verification/HistoryMessage.v ===== *)
(** The message of a history commit is read back as the entry it was made from, whatever
    text precedes its trailers; and what happens to texts that are not escaped. *)
From S2P Require Import Prelude JsString Utf8 NodePath Json VaultPath IsoDate AuditLog HistoryData.

(** * Lines *)











(** ** Reading lines *)











(** * Texts without terminators *)





Section round_trip.
Context `{JsonHost, DateHost}.



(** ** The trailers of an entry *)










(** ** The lines before the trailers *)











End round_trip.

(** * What is not escaped *)

Definition note_entry (path : jstr) (contributors : list VaultActor) : PendingHistoryEntry := {|
  pe_id := js "pending-1"; pe_path := path; pe_fromPath := None; pe_operation := HUpdate;
  pe_bucketStart := js "2024-01-01T00:00:00.000Z"; pe_createdAt := js "2024-01-01T00:00:00.000Z";
  pe_updatedAt := js "2024-01-01T00:01:00.000Z"; pe_content := js "text"; pe_size := 4; pe_contentHash := js "ab12";
  pe_contentHashFormat := Some GIT_BLOB_CONTENT_HASH_FORMAT; pe_contributors := contributors |}.

Definition plain_json : JsonHost := {| print_number := fun _ => js "null"; read_number := fun _ => None |}.
Definition plain_dates : DateHost := {| date_parse := fun _ => None; number_parse := fun _ => NaN |}.

Definition ada : VaultActor :=
  {| a_kind := AcUser; a_id := Some (js "u1"); a_name := Some (js "Ada"); a_client := Some (js "web") |}.


(** The lines for the reader are not escaped as the paths are: a contributor whose name
    holds a line break writes trailers of its own, which come first and so win. *)
Definition forger : VaultActor :=
  {| a_kind := AcMcpClient; a_id := None;
     a_name := Some (js "x" ++ LF :: js "KB1-Operation: create" ++ LF :: js "KB1-Path-JSON: " ++ json_quote (js "other.md"));
     a_client := None |}.

(** a contributor's name can forge the trailers of the commit: an update of [a.md] is
    read back as the creation of [other.md]. *)
Theorem contributor_name_forges_trailers :
  let body := cm_body (commitMessage (H := plain_json) (note_entry (js "a.md") [forger]) None) in
  commitPathValue (H := plain_json) (commitValues body) (js "KB1-Path") = PathIs (js "other.md") /\
  he_operation <$> entryFromCommitValues (H := plain_json) (H0 := plain_dates) (js "a.md") (js "c0ffee") [] (commitValues body)
    = Some HCreate.
Proof. split; by vm_compute. Qed.

Definition separator_path : jstr := js "a" ++ 0x2028%N :: js "b.md".

(** [JSON.stringify] leaves U+2028 as it is and the pattern of a trailer does not
    match it, so the path of such a note is lost: the vault takes the path, but the
    commit is read back as one that records no path at all. *)
Theorem separator_path_not_recorded :
  validateVaultPath Posix separator_path PKFile = Ok separator_path /\
  commitPathValue (H := plain_json)
    (commitValues (cm_body (commitMessage (H := plain_json) (note_entry separator_path [ada]) None))) (js "KB1-Path")
    = PathUndefined.
Proof. split; by vm_compute. Qed.
