(* ===== verification/Sha256.v ===== *)
(** SHA-256, what [crypto.subtle.digest("SHA-256", bytes)] answers, on lists of bytes;
    and [hashContent], its lower-case hexadecimal notation, by which
    [packages/vault-core/src/file-history.ts] names and checks the text of a note. *)
From S2P Require Import Prelude JsString Utf8.
Local Open Scope N_scope.

(** * Words of 32 bits *)

Definition word (x : N) : N := x mod 2 ^ 32.
Definition add32 (x y : N) : N := word (x + y).
Definition rotate (n x : N) : N := N.lor (N.shiftr x n) (word (N.shiftl x (32 - n))).
Definition xor3 (x y z : N) : N := N.lxor x (N.lxor y z).

Definition choose (x y z : N) : N := N.lxor (N.land x y) (N.land (2 ^ 32 - 1 - x) z).
Definition majority (x y z : N) : N := xor3 (N.land x y) (N.land x z) (N.land y z).
Definition mix_a (x : N) : N := xor3 (rotate 2 x) (rotate 13 x) (rotate 22 x).
Definition mix_e (x : N) : N := xor3 (rotate 6 x) (rotate 11 x) (rotate 25 x).
Definition spread_0 (x : N) : N := xor3 (rotate 7 x) (rotate 18 x) (N.shiftr x 3).
Definition spread_1 (x : N) : N := xor3 (rotate 17 x) (rotate 19 x) (N.shiftr x 10).

(** * The constants, from the roots of the first primes *)

Definition is_prime (n : N) : bool :=
  (2 <=? n) && forallb (fun d => negb (n mod N.of_nat d =? 0)) (seq 2 (N.to_nat (N.sqrt n) - 1)).
Definition first_primes (k : nat) : list N :=
  take k (filter (fun n => is_prime n = true) (map N.of_nat (seq 0 320))).

(** The largest number of [bits] more bits whose cube is at most [n]. *)
Fixpoint cube_root (bits : nat) (acc n : N) : N :=
  match bits with
  | O => acc
  | S b => let next := acc + 2 ^ N.of_nat b in cube_root b (if next ^ 3 <=? n then next else acc) n
  end.

Definition round_constants : list N :=
  Eval vm_compute in map (fun p => word (cube_root 40 0 (p * 2 ^ 96))) (first_primes 64).
Definition initial_state : list N :=
  Eval vm_compute in map (fun p => word (N.sqrt (p * 2 ^ 64))) (first_primes 8).

(** * Blocks *)

Definition bytes_of_word (w : N) : list N := map (fun s => N.shiftr w s mod 256) [24; 16; 8; 0].
Definition word_of_bytes (bs : list N) : N := fold_left (fun acc b => acc * 256 + b) bs 0.

(** A one bit, zeros up to eight bytes below a multiple of 64, and the length in bits. *)
Definition padding (len : N) : list N :=
  128 :: repeat 0 (N.to_nat ((119 - len mod 64) mod 64))
  ++ bytes_of_word (word (N.shiftr (len * 8) 32)) ++ bytes_of_word (word (len * 8)).

Definition words_of (block : list N) : list N := map word_of_bytes (chunks_of 4 16 block).

(** The message schedule, newest word first. *)
Definition extend (sched : list N) : list N :=
  match sched !! 1%nat, sched !! 6%nat, sched !! 14%nat, sched !! 15%nat with
  | Some w2, Some w7, Some w15, Some w16 => add32 (add32 (spread_1 w2) w7) (add32 (spread_0 w15) w16) :: sched
  | _, _, _, _ => sched
  end.
Definition schedule (block : list N) : list N := rev (Nat.iter 48 extend (rev (words_of block))).

Definition round (st : list N) (kw : N * N) : list N :=
  match st with
  | [a; b; c; d; e; f; g; h] =>
      let t1 := add32 (add32 (add32 h (mix_e e)) (choose e f g)) (add32 kw.1 kw.2) in
      let t2 := add32 (mix_a a) (majority a b c) in
      [add32 t1 t2; a; b; c; add32 d t1; e; f; g]
  | _ => st
  end.

Definition compress (st block : list N) : list N :=
  zip_with add32 st (fold_left round (zip round_constants (schedule block)) st).

Definition sha256 (bytes : list N) : list N :=
  let padded := bytes ++ padding (N.of_nat (length bytes)) in
  flat_map bytes_of_word (fold_left compress (chunks_of 64 (length padded) padded) initial_state).

(** * [hashContent] *)

(** [byte.toString(16).padStart(2, "0")]. *)
Definition hex_lower (d : N) : N := if d <? 10 then 48 + d else 87 + d.
Definition hex_byte (b : N) : jstr := [hex_lower (b / 16); hex_lower (b mod 16)].

Definition hashContent (content : jstr) : jstr := flat_map hex_byte (sha256 (encode content)).

Example hash_empty :
  hashContent [] = js "e3b0c44298fc1c149afbf4c8996fb92427ae41e4649b934ca495991b7852b855".
Proof. by vm_compute. Qed.
Example hash_abc :
  hashContent (js "abc") = js "ba7816bf8f01cfea414140de5dae2223b00361a396177a9cb410ff61f20015ad".
Proof. by vm_compute. Qed.
(** Two blocks. *)
Example hash_two_blocks :
  hashContent (js "abcdbcdecdefdefgefghfghighijhijkijkljklmklmnlmnomnopnopq")
  = js "248d6a61d20638b8e5c026930c3e6039a33ce45964ff2167f6ecedd419db06c1".
Proof. by vm_compute. Qed.

(** * The shape of a hash *)

Lemma round_length st kw : length (round st kw) = length st.
Proof. unfold round. by repeat case_match. Qed.

Lemma rounds_length kws st : length (fold_left round kws st) = length st.
Proof. revert st. induction kws as [|kw kws IH]; intros st; simpl; [done|]. by rewrite IH, round_length. Qed.

Lemma compress_length st block : length (compress st block) = length st.
Proof. unfold compress. rewrite length_zip_with, rounds_length. lia. Qed.

Lemma state_length blocks st : length (fold_left compress blocks st) = length st.
Proof. revert st. induction blocks as [|b bs IH]; intros st; simpl; [done|]. by rewrite IH, compress_length. Qed.

Lemma sha256_length bytes : length (sha256 bytes) = 32%nat.
Proof.
  unfold sha256. set (st := fold_left _ _ _).
  assert (length st = 8%nat) as Hst by apply state_length. clearbody st.
  do 9 (destruct st as [|? st]; try done).
Qed.

Lemma sha256_bytes bytes : Forall (fun b => b < 256) (sha256 bytes).
Proof.
  unfold sha256. generalize (fold_left compress (chunks_of 64 (length (bytes ++ padding (N.of_nat (length bytes))))
    (bytes ++ padding (N.of_nat (length bytes)))) initial_state).
  intros st. induction st as [|w st IH]; [constructor|]. cbn [flat_map]. apply Forall_app. split; [|done].
  unfold bytes_of_word. repeat constructor; apply N.mod_lt; done.
Qed.

Definition is_hex_lower (c : N) : bool := (48 <=? c) && (c <=? 57) || (97 <=? c) && (c <=? 102).

Lemma hex_lower_ok d : d < 16 -> is_hex_lower (hex_lower d) = true.
Proof.
  intros Hd. unfold hex_lower, is_hex_lower. destruct (N.ltb_spec d 10).
  - by rewrite (proj2 (N.leb_le 48 _)), (proj2 (N.leb_le _ 57)) by lia.
  - by rewrite (proj2 (N.leb_le 97 _)), (proj2 (N.leb_le _ 102)), orb_true_r by lia.
Qed.

(** Sixty-four lower-case hexadecimal digits. *)
Lemma hashContent_hex content :
  length (hashContent content) = 64%nat /\ Forall (fun c => is_hex_lower c = true) (hashContent content).
Proof.
  unfold hashContent. pose proof (sha256_length (encode content)) as Hl. pose proof (sha256_bytes (encode content)) as Hb.
  split.
  - assert (forall l : list N, length (flat_map hex_byte l) = (2 * length l)%nat) as ->; [|lia].
    induction l; simpl; lia.
  - clear Hl. induction Hb as [|b bs Hb _ IH]; [constructor|]. cbn [flat_map hex_byte app].
    repeat constructor; [..|done]; apply hex_lower_ok.
    + apply N.Div0.div_lt_upper_bound. lia.
    + by apply N.mod_lt.
Qed.

#[global] Arguments sha256 : simpl never.
#[global] Arguments hashContent : simpl never.
