(* ===== verification/FileHistory.v ===== *)
(** The operations of [packages/vault-core/src/file-history.ts]: versions of notes are
    collected in memory, one per note and bucket of time, and flushed as commits of the
    git repository of the vault, from which a history is listed and read.

    The service runs these operations one at a time ([MutationQueue.v]), so each is one
    function on the state: the world of [FileSystem.v], the repository, and the two maps
    of the module.  The [git] program is a parameter: what it answers to a command line,
    and what it does to the files and the repository. *)
From S2P Require Import Prelude JsString Utf8 NodePath Json VaultPath FileSystem IsoDate AuditLog FolderMetadata HistoryData Sha256.

(** * The git program *)

(** How a child process ends; what it wrote, when it ends by itself. *)
Inductive child_exit := Exited (code : Z) (stdout : list N) | SpawnFailed (code : errno) | Killed.

(** The arguments, and what is added to the environment of the daemon. *)
Record git_call := { gc_args : list jstr; gc_env : list (jstr * jstr) }.

(** A process sees the machine and changes files; what it keeps in [.git] is [repo]. *)
Class GitTool := {
  repo : Type;
  git_process : git_call -> world -> repo -> child_exit * (tree * repo)
}.

(** The errors of [execFile]: the exit code, the code of a failed start, the output limit,
    the time limit. *)
Inductive git_error := GitExit (code : Z) | GitSpawn (code : errno) | GitMaxBuffer | GitKilled.

(** [HxFuel] is no exception of the code: the bound of the loop of the model ran out. *)
Inductive hexn := HxFs (e : exn) | HxGit (e : git_error) | HxBlobId | HxFuel.

#[export] Instance git_error_eq_dec : EqDecision git_error.
Proof. solve_decision. Defined.
#[export] Instance hexn_eq_dec : EqDecision hexn.
Proof. solve_decision. Defined.

(** * Data *)

(** A map from keys to pending entries, in the order of insertion. *)
Abbreviation PendingHistoryMap := (list (jstr * PendingHistoryEntry)).

Fixpoint pending_get (m : PendingHistoryMap) (key : jstr) : option PendingHistoryEntry :=
  match m with
  | [] => None
  | (k, e) :: m => if jeqb k key then Some e else pending_get m key
  end.
(** An existing key keeps its place. *)
Fixpoint pending_set (m : PendingHistoryMap) (key : jstr) (entry : PendingHistoryEntry) : PendingHistoryMap :=
  match m with
  | [] => [(key, entry)]
  | (k, e) :: m => if jeqb k key then (k, entry) :: m else (k, e) :: pending_set m key entry
  end.
Definition pending_delete (m : PendingHistoryMap) (key : jstr) : PendingHistoryMap :=
  filter (fun ke => ke.1 <> key) m.

Record ListFileHistoryInput := {
  lh_path : jstr; lh_before : option jstr; lh_beforeId : option jstr; lh_limit : option number }.
Record ReadFileHistoryVersionInput := { rv_path : jstr; rv_id : jstr }.
Record MoveFileHistoryInput := {
  mi_fromPath : jstr; mi_toPath : jstr; mi_actor : option VaultActor; mi_content : jstr; mi_now : option Z }.
Record MoveFolderHistoryInput := {
  mo_fromPath : jstr; mo_toPath : jstr; mo_actor : option VaultActor; mo_now : option Z }.
Record FlushFileHistoryInput := { fl_paths : option (list jstr); fl_now : option Z }.

Record FileHistoryPage := { hp_entries : list FileHistoryEntry; hp_hasMore : bool }.
Record FileHistoryVersion := { hv_entry : FileHistoryEntry; hv_available : bool; hv_content : option jstr }.
Record FlushFileHistoryValue := { fv_flushed : nat; fv_unavailable : bool }.
Record CommittedHistoryRecord := {
  cr_entry : FileHistoryEntry; cr_contentPath : jstr; cr_contentHashFormat : option jstr }.

Definition DAEMON_AUTHOR_NAME : jstr := js "KB-1 Daemon".
Definition DAEMON_AUTHOR_EMAIL : jstr := js "history@kb-1.ai".
Definition GITIGNORE_RELATIVE_PATH : jstr := js ".gitignore".
Definition HISTORY_INDEX_RELATIVE_PATH : jstr := js ".kb1/history-index".

(** * The state and the calls *)

Section state.
Context `{GitTool}.

(** [pendingHistoryByRoot], and in [hs_init] what the promises of [gitInitByRoot] hold. *)
Record history_state := {
  hs_world : world;
  hs_repo : repo;
  hs_pending : gmap jstr PendingHistoryMap;
  hs_init : gmap jstr bool
}.

Definition set_world (w : world) (s : history_state) : history_state :=
  {| hs_world := w; hs_repo := hs_repo s; hs_pending := hs_pending s; hs_init := hs_init s |}.
Definition set_tool (f : tree) (r : repo) (s : history_state) : history_state :=
  {| hs_world := set_fs f (hs_world s); hs_repo := r; hs_pending := hs_pending s; hs_init := hs_init s |}.
Definition set_pending (p : gmap jstr PendingHistoryMap) (s : history_state) : history_state :=
  {| hs_world := hs_world s; hs_repo := hs_repo s; hs_pending := p; hs_init := hs_init s |}.
Definition set_init (i : gmap jstr bool) (s : history_state) : history_state :=
  {| hs_world := hs_world s; hs_repo := hs_repo s; hs_pending := hs_pending s; hs_init := i |}.

Definition HM (A : Type) : Type := history_state -> result hexn A * history_state.

#[export] Instance HM_ret : MRet HM := fun A a s => (Ok a, s).
#[export] Instance HM_bind : MBind HM := fun A B f m s =>
  match m s with
  | (Ok a, s') => f a s'
  | (Err e, s') => (Err e, s')
  end.
#[export] Instance HM_fmap : FMap HM := fun A B f m s =>
  match m s with
  | (Ok a, s') => (Ok (f a), s')
  | (Err e, s') => (Err e, s')
  end.

Definition hthrow {A} (e : hexn) : HM A := fun s => (Err e, s).
Definition hasks {A} (f : history_state -> A) : HM A := fun s => (Ok (f s), s).
Definition hmodify (f : history_state -> history_state) : HM unit := fun s => (Ok tt, f s).

(** [try { return m } catch (error) { h }]. *)
Definition hcatch {A} (m : HM A) (h : hexn -> HM A) : HM A := fun s =>
  match m s with
  | (Ok a, s') => (Ok a, s')
  | (Err e, s') => h e s'
  end.

(** [try { m } finally { f }]: an exception of [f] wins. *)
Definition finally {A} (m : HM A) (f : HM unit) : HM A := fun s =>
  let '(r, s1) := m s in
  match f s1 with
  | (Ok _, s2) => (r, s2)
  | (Err e, s2) => (Err e, s2)
  end.

(** A call of [node:fs] or of the host. *)
Definition call {A} (m : M A) : HM A := fun s =>
  match m (hs_world s) with
  | (Ok a, w) => (Ok a, set_world w s)
  | (Err e, w) => (Err (HxFs e), set_world w s)
  end.

Definition throw_path {A} (r : result InvalidPathError A) : HM A :=
  match r with Ok a => mret a | Err e => hthrow (HxFs (ExPath e)) end.

(** [execFile("git", args, { encoding: "utf8", maxBuffer })]: an exit code other than
    zero and an output over the limit are errors. *)
Definition execFileAsync (c : git_call) (maxBuffer : option Z) : HM jstr := fun s =>
  let '(exit, (f, r)) := git_process c (hs_world s) (hs_repo s) in
  let s := set_tool f r s in
  match exit with
  | SpawnFailed code => (Err (HxGit (GitSpawn code)), s)
  | Killed => (Err (HxGit GitKilled), s)
  | Exited code out =>
      if from_option (fun m => m <? Z.of_nat (length out))%Z false maxBuffer then (Err (HxGit GitMaxBuffer), s)
      else if (code =? 0)%Z then (Ok (decode out), s) else (Err (HxGit (GitExit code)), s)
  end.

Definition git_args (root : jstr) (args : list jstr) : list jstr := js "-C" :: root :: args.

(** [runGit] and [runGitContent] answer the standard output. *)
Definition runGit (root : jstr) (args : list jstr) (env : list (jstr * jstr)) : HM jstr :=
  execFileAsync {| gc_args := git_args root args; gc_env := env |} (Some (10 * 1024 * 1024)%Z).
Definition runGitContent (root : jstr) (args : list jstr) (env : list (jstr * jstr)) : HM jstr :=
  execFileAsync {| gc_args := git_args root args; gc_env := env |} None.

Definition isGitUnavailable (e : hexn) : bool :=
  match e with HxFs (ExNode ENOENT) | HxGit (GitSpawn ENOENT) => true | _ => false end.
Definition isGitExitCode (e : hexn) (code : Z) : bool :=
  match e with HxGit (GitExit c) => (c =? code)%Z | _ => false end.

End state.

#[global] Arguments history_state {_}.
#[global] Arguments HM {_} A.

(** * Operations *)

Section operations.
Context `{Host, JsonHost, DateHost, NodeHost, GitTool}.

(** [rm(path, { force: true })]. *)
Definition rm_force (abs : jstr) : HM unit :=
  call (try_catch (fs_rm abs false)
    (fun e => if bool_decide (isNodeError e = Some ENOENT) then mret tt else throw e)).

Definition now_or (now : option Z) : HM Z :=
  match now with Some t => mret t | None => hasks (fun s => w_now (hs_world s)) end.

Definition or_unknown (actor : option VaultActor) : VaultActor := cloneActor (default (bare_actor AcUnknown) actor).

(** The map of a root, made when it is missing. *)
Definition root_key (root : jstr) : jstr := resolve cwd [root].
Definition pendingForRoot (root : jstr) : HM PendingHistoryMap := fun s =>
  match hs_pending s !! root_key root with
  | Some pending => (Ok pending, s)
  | None => (Ok [], set_pending (<[root_key root := []]> (hs_pending s)) s)
  end.
Definition put_pending (root : jstr) (pending : PendingHistoryMap) : HM unit :=
  hmodify (fun s => set_pending (<[root_key root := pending]> (hs_pending s)) s).

Definition pendingEntryToHistoryEntry (entry : PendingHistoryEntry) : FileHistoryEntry :=
  let actor := actorForContributors (pe_contributors entry) in
  {| he_id := pe_id entry; he_path := pe_path entry; he_operation := pe_operation entry; he_actor := actor;
     he_integrationId := a_client actor; he_contributors := Some (map cloneActor (pe_contributors entry));
     he_pending := Some true; he_commitId := None; he_createdAt := pe_createdAt entry;
     he_updatedAt := pe_updatedAt entry; he_content := None; he_size := Int (pe_size entry);
     he_contentHash := pe_contentHash entry |}.

Definition cloneFileHistoryEntry (entry : FileHistoryEntry) : FileHistoryEntry :=
  {| he_id := he_id entry; he_path := he_path entry; he_operation := he_operation entry;
     he_actor := cloneActor (he_actor entry); he_integrationId := he_integrationId entry;
     he_contributors := map cloneActor <$> he_contributors entry; he_pending := he_pending entry;
     he_commitId := he_commitId entry; he_createdAt := he_createdAt entry; he_updatedAt := he_updatedAt entry;
     he_content := he_content entry; he_size := he_size entry; he_contentHash := he_contentHash entry |}.

(** [catch]: a path that is not valid is an answer. *)
Definition with_path {T} (r : result InvalidPathError jstr) (k : jstr -> HM (VaultResult T)) : HM (VaultResult T) :=
  match r with
  | Ok rel => k rel
  | Err e => mret (VFail invalid_path (ipe_message e))
  end.

(** ** Recording *)

(** The entry after a version: of a new one, or of the one of the bucket. *)
Definition new_entry (id rel : jstr) (input : RecordFileHistoryInput) (now : Z) : PendingHistoryEntry :=
  let bucketStart := bucketStartIso now (ri_coalesceWindowMs input) in
  {| pe_id := id; pe_path := rel; pe_fromPath := None; pe_operation := ri_operation input;
     pe_bucketStart := bucketStart; pe_createdAt := bucketStart; pe_updatedAt := toISOString now;
     pe_content := ri_content input; pe_size := Z.of_nat (length (encode (ri_content input)));
     pe_contentHash := hashContent (ri_content input); pe_contentHashFormat := None;
     pe_contributors := [or_unknown (ri_actor input)] |}.
Definition coalesce (existing : PendingHistoryEntry) (input : RecordFileHistoryInput) (now : Z) : PendingHistoryEntry :=
  {| pe_id := pe_id existing; pe_path := pe_path existing; pe_fromPath := pe_fromPath existing;
     pe_operation := if bool_decide (pe_operation existing = HCreate) then HCreate else ri_operation input;
     pe_bucketStart := pe_bucketStart existing; pe_createdAt := pe_createdAt existing;
     pe_updatedAt := toISOString now; pe_content := ri_content input;
     pe_size := Z.of_nat (length (encode (ri_content input))); pe_contentHash := hashContent (ri_content input);
     pe_contentHashFormat := pe_contentHashFormat existing;
     pe_contributors := addContributor (pe_contributors existing) (or_unknown (ri_actor input)) |}.

Definition recordFileHistory (root : jstr) (input : RecordFileHistoryInput) : HM (VaultResult FileHistoryEntry) :=
  with_path (validateVaultPath Posix (ri_path input) PKFile) (fun rel =>
    now ← now_or (ri_now input);
    pending ← pendingForRoot root;
    let key := pendingKey rel (bucketStartIso now (ri_coalesceWindowMs input)) in
    entry ← (match pending_get pending key with
             | Some existing => mret (coalesce existing input now)
             | None => uuid ← call randomUUID; mret (new_entry (js "pending-" ++ uuid) rel input now)
             end);
    put_pending root (pending_set pending key entry);;
    mret (VOk (pendingEntryToHistoryEntry entry))).

(** ** Listing *)

Definition applyHistoryCursor (entries : list FileHistoryEntry) (before beforeId : option jstr)
  : list FileHistoryEntry :=
  if truthy before then
    match date_parse (default [] before) with
    | None => entries
    | Some beforeTime =>
        let tie entry := match beforeId with
                         | None => false
                         | Some id => bool_decide (lex_compare (he_id entry) id = Lt)
                         end in
        List.filter (fun entry =>
          match date_parse (he_createdAt entry) with
          | Some entryTime =>
              if (entryTime <? beforeTime)%Z then true else if (beforeTime <? entryTime)%Z then false else tie entry
          | None => tie entry
          end) entries
    end
  else entries.

Definition compareHistoryEntriesDesc (left right : FileHistoryEntry) : comparison :=
  match date_parse (he_createdAt right), date_parse (he_createdAt left) with
  | Some tr, Some tl =>
      match (tr ?= tl)%Z with Eq => locale_compare (he_id right) (he_id left) | o => o end
  | _, _ => locale_compare (he_id right) (he_id left)
  end.

Definition normalizePageLimit (v : option number) : Z :=
  match v with
  | Some (Int z) => if (z <? 1)%Z then DEFAULT_HISTORY_PAGE_LIMIT else Z.min z MAX_HISTORY_PAGE_LIMIT
  | _ => DEFAULT_HISTORY_PAGE_LIMIT
  end.

Definition pendingEntriesForPath (root rel : jstr) : HM (list FileHistoryEntry) :=
  pending ← pendingForRoot root;
  mret (map pendingEntryToHistoryEntry (List.filter (fun e => jeqb (pe_path e) rel) (map snd pending))).

Definition hasGitRepository (root : jstr) : HM bool :=
  hcatch (call (fs_stat (path_join [root; js ".git"]));; mret true) (fun _ => mret false).

Definition historyMarkerPath (notePath : jstr) : jstr := HISTORY_INDEX_RELATIVE_PATH ++ slash :: hashContent notePath.

(** [--format=%H%x00%cI%x00%B%x1e]. *)
Definition log_format : jstr := js "--format=%H%x00%cI%x00%B%x1e".

Definition log_args (currentPath : jstr) (revision : option jstr) : list jstr :=
  [js "log"; js "--no-follow"; log_format] ++ option_list revision
  ++ [js "--"; currentPath; historyMarkerPath currentPath].

Definition readHistoryLogSegment (root currentPath : jstr) (revision : option jstr) : HM (list HistoryLogRecord) :=
  stdout ← runGit root (log_args currentPath revision) [];
  mret (parse_log stdout).

(** The entries found and the commits seen. *)
Record history_scan := { sc_entries : list CommittedHistoryRecord; sc_seen : gset jstr }.
(** How the loop over the records of a segment ends. *)
Inductive scan_end := ScanReturn | ScanPrevious (path revision : jstr) | ScanDone.

Definition push_record (acc : history_scan) (commitId : jstr) (record : CommittedHistoryRecord) : history_scan :=
  if bool_decide (commitId ∈ sc_seen acc) then acc
  else {| sc_entries := sc_entries acc ++ [record]; sc_seen := sc_seen acc ∪ {[ commitId ]} |}.

Fixpoint scan_records (rel currentPath : jstr) (records : list HistoryLogRecord) (acc : history_scan)
  : history_scan * scan_end :=
  match records with
  | [] => (acc, ScanDone)
  | r :: records =>
      let values := commitValues (lr_body r) in
      match entryFromCommitValues rel (lr_commitId r) (lr_committedAt r) values with
      | None => scan_records rel currentPath records acc
      | Some parsed =>
          match historyCommitScope currentPath (he_operation parsed) (commitPathValue values (js "KB1-Path"))
                  (commitPathValue values (js "KB1-From-Path")) with
          | NoMatch => scan_records rel currentPath records acc
          | Match previousPath stopsTraversal =>
              let acc := push_record acc (lr_commitId r)
                           {| cr_entry := parsed; cr_contentPath := currentPath;
                              cr_contentHashFormat := values_get values (js "KB1-Content-Hash-Format") |} in
              if bool_decide (he_operation parsed = HCreate) || stopsTraversal then (acc, ScanReturn)
              else if truthy previousPath
                   then (acc, ScanPrevious (default [] previousPath) (lr_commitId r ++ js "^"))
                   else scan_records rel currentPath records acc
          end
      end
  end.

(** [while (true)]: one turn per path the note had; [fuel] bounds their number. *)
Fixpoint read_segments (fuel : nat) (root rel currentPath : jstr) (revision : option jstr) (acc : history_scan)
  : HM (list CommittedHistoryRecord) :=
  match fuel with
  | O => hthrow HxFuel
  | S fuel =>
      records ← hcatch (Some <$> readHistoryLogSegment root currentPath revision) (fun _ => mret None);
      match records with
      | None => mret (sc_entries acc)
      | Some records =>
          match scan_records rel currentPath records acc with
          | (acc, ScanPrevious p rev) => read_segments fuel root rel p (Some rev) acc
          | (acc, _) => mret (sc_entries acc)
          end
      end
  end.

Definition readCommittedHistory (fuel : nat) (root rel : jstr) : HM (list CommittedHistoryRecord) :=
  has ← hasGitRepository root;
  if negb has then mret []
  else read_segments fuel root rel rel None {| sc_entries := []; sc_seen := ∅ |}.

(** The page of the entries after the cursor, newest first. *)
Definition history_page (found : list FileHistoryEntry) (input : ListFileHistoryInput) : FileHistoryPage :=
  let newestFirst := sort_by compareHistoryEntriesDesc found in
  let limited := applyHistoryCursor newestFirst (lh_before input) (lh_beforeId input) in
  let entries := take (Z.to_nat (normalizePageLimit (lh_limit input))) limited in
  {| hp_entries := map cloneFileHistoryEntry entries;
     hp_hasMore := bool_decide (length entries < length limited) |}.

Definition history_entries (fuel : nat) (root rel : jstr) : HM (list FileHistoryEntry) :=
  pendingEntries ← pendingEntriesForPath root rel;
  committed ← readCommittedHistory fuel root rel;
  mret (pendingEntries ++ map cr_entry committed).

Definition listFileHistory (fuel : nat) (root : jstr) (input : ListFileHistoryInput) : HM (VaultResult FileHistoryPage) :=
  with_path (validateVaultPath Posix (lh_path input) PKFile) (fun rel =>
    found ← history_entries fuel root rel; mret (VOk (history_page found input))).

(** ** Reading a version *)

Definition version_not_found : VaultResult FileHistoryVersion := VFail not_found (js "history version not found").

(** The checks of the text git gave back. *)
Definition verified_snapshot (record : CommittedHistoryRecord) (content : jstr) : bool :=
  match cr_contentHashFormat record with
  | None => true
  | Some format =>
      jeqb format GIT_BLOB_CONTENT_HASH_FORMAT && bool_decide (he_contentHash (cr_entry record) <> [])
      && jeqb (hashContent content) (he_contentHash (cr_entry record))
  end.

Definition readFileHistoryVersion (fuel : nat) (root : jstr) (input : ReadFileHistoryVersionInput)
  : HM (VaultResult FileHistoryVersion) :=
  with_path (validateVaultPath Posix (rv_path input) PKFile) (fun rel =>
    if bool_decide (rv_id input = []) then mret version_not_found else
    pending ← pendingForRoot root;
    match find (fun e => jeqb (pe_path e) rel && jeqb (pe_id e) (rv_id input)) (map snd pending) with
    | Some e => mret (VOk {| hv_entry := pendingEntryToHistoryEntry e; hv_available := true;
                             hv_content := Some (pe_content e) |})
    | None =>
        committed ← readCommittedHistory fuel root rel;
        match find (fun r => jeqb (he_id (cr_entry r)) (rv_id input)) committed with
        | None => mret version_not_found
        | Some record =>
            let unavailable := VOk {| hv_entry := cloneFileHistoryEntry (cr_entry record); hv_available := false;
                                      hv_content := None |} in
            content ← hcatch (Some <$> runGitContent root
                [js "show"; js "--no-textconv";
                 default (js "undefined") (he_commitId (cr_entry record)) ++ js ":" ++ cr_contentPath record] [])
              (fun _ => mret None);
            match content with
            | None => mret unavailable
            | Some content =>
                if negb (verified_snapshot record content) then mret unavailable
                else mret (VOk {| hv_entry := cloneFileHistoryEntry (cr_entry record); hv_available := true;
                                  hv_content := Some content |})
            end
        end
    end).

(** ** The repository *)

Definition default_gitignore : jstr :=
  join [LF] [js "# Managed by KB-1 daemon history."; js ".kb1/cache/"; js ".kb1/runtime/"; js ".kb1/tmp/"; []].

Definition writeDefaultGitignore (root : jstr) : HM unit :=
  let gitignorePath := path_join [root; GITIGNORE_RELATIVE_PATH] in
  hcatch (call (fs_stat gitignorePath);; mret tt)
    (fun _ => call (fs_writeFile gitignorePath (encode default_gitignore))).

(** [console.warn]. *)
Definition warn : HM unit :=
  hmodify (fun s => let w := hs_world s in set_world (set_audit (w_handlers w) (w_delivered w) (S (w_warnings w)) w) s).

Definition init_repository (root : jstr) : HM bool :=
  hcatch
    (call (fs_mkdir root);;
     has ← hasGitRepository root;
     (if negb has then runGit root [js "init"] [];; mret tt else mret tt);;
     writeDefaultGitignore root;;
     runGit root [js "config"; js "user.name"; DAEMON_AUTHOR_NAME] [];;
     runGit root [js "config"; js "user.email"; DAEMON_AUTHOR_EMAIL] [];;
     runGit root [js "config"; js "commit.gpgsign"; js "false"] [];;
     mret true)
    (fun e => if isGitUnavailable e then mret false else (warn;; mret false)).

Definition ensureGitRepository (root : jstr) : HM bool :=
  existing ← hasks (fun s => hs_init s !! root_key root);
  match existing with
  | Some ready => mret ready
  | None =>
      ready ← init_repository root;
      hmodify (fun s => set_init (<[root_key root := ready]> (hs_init s)) s);;
      (if negb ready then hmodify (fun s => set_init (delete (root_key root) (hs_init s)) s) else mret tt);;
      mret ready
  end.

Definition hasStagedChanges (root : jstr) (paths : list jstr) : HM bool :=
  hcatch (runGit root ([js "diff"; js "--cached"; js "--quiet"; js "--"] ++ paths) [];; mret false)
    (fun e => if isGitExitCode e 1 then mret true else hthrow e).

Definition author_env : list (jstr * jstr) :=
  [(js "GIT_AUTHOR_NAME", DAEMON_AUTHOR_NAME); (js "GIT_AUTHOR_EMAIL", DAEMON_AUTHOR_EMAIL);
   (js "GIT_COMMITTER_NAME", DAEMON_AUTHOR_NAME); (js "GIT_COMMITTER_EMAIL", DAEMON_AUTHOR_EMAIL)].

Definition commit_args (entry : PendingHistoryEntry) (now : option Z) : list jstr :=
  let message := commitMessage entry now in
  [js "commit"; js "-m"; cm_subject message; js "-m"; cm_body message].

Definition commitHistoryEntry (root : jstr) (entry : PendingHistoryEntry) (now : option Z) : HM unit :=
  runGit root (commit_args entry now) author_env;; mret tt.

(** ** Flushing *)

(** [/^[0-9a-f]{40,64}$/u]. *)
Definition is_blob_id (s : jstr) : bool :=
  forallb is_hex_lower s && bool_decide (40 <= length s <= 64).

Definition unstage_previous (root from : jstr) : HM unit :=
  let previousMarkerPath := historyMarkerPath from in
  rm_force (path_join [root; previousMarkerPath]);;
  runGit root [js "rm"; js "--cached"; js "--ignore-unmatch"; js "--"; from; previousMarkerPath] [];;
  mret tt.

Definition stage_body (root : jstr) (entry : PendingHistoryEntry) (tempPath : jstr) : HM unit :=
  call (fs_writeFile tempPath (encode (pe_content entry)));;
  stdout ← runGit root [js "hash-object"; js "-w"; js "--path=" ++ pe_path entry; tempPath] [];
  let blobId := trim stdout in
  if negb (is_blob_id blobId) then hthrow HxBlobId else
  (match pe_fromPath entry with Some from => unstage_previous root from | None => mret tt end);;
  runGit root [js "update-index"; js "--add"; js "--cacheinfo"; js "100644"; blobId; pe_path entry] [];;
  let markerPath := historyMarkerPath (pe_path entry) in
  call (fs_mkdir (dirname (path_join [root; markerPath])));;
  call (fs_writeFile (path_join [root; markerPath]) (encode (pe_id entry ++ [LF])));;
  runGit root [js "add"; js "--force"; js "--"; markerPath] [];;
  mret tt.

Definition stagePendingEntry (root : jstr) (entry : PendingHistoryEntry) : HM unit :=
  let tempDir := path_join [root; js ".kb1"; js "tmp"; js "file-history"] in
  uuid ← call randomUUID;
  let tempPath := path_join [tempDir; uuid] in
  call (fs_mkdir tempDir);;
  finally (stage_body root entry tempPath) (rm_force tempPath).

(** The entry with the size and the hash of what git has staged. *)
Definition staged_entry (entry : PendingHistoryEntry) (staged : jstr) : PendingHistoryEntry :=
  {| pe_id := pe_id entry; pe_path := pe_path entry; pe_fromPath := pe_fromPath entry;
     pe_operation := pe_operation entry; pe_bucketStart := pe_bucketStart entry; pe_createdAt := pe_createdAt entry;
     pe_updatedAt := pe_updatedAt entry; pe_content := pe_content entry;
     pe_size := Z.of_nat (length (encode staged)); pe_contentHash := hashContent staged;
     pe_contentHashFormat := Some GIT_BLOB_CONTENT_HASH_FORMAT; pe_contributors := pe_contributors entry |}.

Definition commitPendingEntry (root : jstr) (entry : PendingHistoryEntry) (now : option Z) : HM unit :=
  stagePendingEntry root entry;;
  runGit root [js "add"; js "--"; GITIGNORE_RELATIVE_PATH] [];;
  staged ← runGitContent root [js "show"; js "--no-textconv"; js ":0:" ++ pe_path entry] [];
  commitHistoryEntry root (staged_entry entry staged) now.

Fixpoint validate_all (paths : list jstr) : result InvalidPathError (list jstr) :=
  match paths with
  | [] => Ok []
  | p :: paths => q ← validateVaultPath Posix p PKFile; qs ← validate_all paths; Ok (q :: qs)
  end.

Definition selectPendingEntries (pending : PendingHistoryMap) (paths : option (list jstr))
  : result InvalidPathError PendingHistoryMap :=
  selectedPaths ← (match paths with None => Ok None | Some paths => Some <$> validate_all paths end);
  Ok (sort_by (fun l r => locale_compare (pe_updatedAt l.2) (pe_updatedAt r.2))
        (List.filter (fun ke => from_option (fun ps => bool_decide (pe_path ke.2 ∈ ps)) true selectedPaths) pending)).

(** The loop of [flushFileHistory], with the number flushed so far. *)
Fixpoint flush_entries (root : jstr) (selected : PendingHistoryMap) (now : option Z) (flushed : nat) : HM nat :=
  match selected with
  | [] => mret flushed
  | (key, entry) :: selected =>
      commitPendingEntry root entry now;;
      pending ← pendingForRoot root;
      put_pending root (pending_delete pending key);;
      flush_entries root selected now (S flushed)
  end.

Definition flushFileHistory (root : jstr) (input : FlushFileHistoryInput) : HM (VaultResult FlushFileHistoryValue) :=
  pending ← pendingForRoot root;
  selected ← throw_path (selectPendingEntries pending (fl_paths input));
  match selected with
  | [] => mret (VOk {| fv_flushed := 0; fv_unavailable := false |})
  | _ =>
      gitReady ← ensureGitRepository root;
      if negb gitReady then mret (VOk {| fv_flushed := 0; fv_unavailable := true |})
      else
        flushed ← flush_entries root selected (fl_now input) 0;
        mret (VOk {| fv_flushed := flushed; fv_unavailable := false |})
  end.

(** ** Moves *)

Definition with_fromPath (entry : PendingHistoryEntry) (from : jstr) : PendingHistoryEntry :=
  {| pe_id := pe_id entry; pe_path := pe_path entry; pe_fromPath := Some from; pe_operation := pe_operation entry;
     pe_bucketStart := pe_bucketStart entry; pe_createdAt := pe_createdAt entry; pe_updatedAt := pe_updatedAt entry;
     pe_content := pe_content entry; pe_size := pe_size entry; pe_contentHash := pe_contentHash entry;
     pe_contentHashFormat := pe_contentHashFormat entry; pe_contributors := pe_contributors entry |}.

(** The first entry of the note with the id gets the path it came from. *)
Definition mark_moved (pending : PendingHistoryMap) (to id from : jstr) : PendingHistoryMap :=
  match find (fun ke => jeqb (pe_path ke.2) to && jeqb (pe_id ke.2) id) pending with
  | Some (key, entry) => pending_set pending key (with_fromPath entry from)
  | None => pending
  end.

Definition moveFileHistory (root : jstr) (input : MoveFileHistoryInput) : HM (VaultResult FileHistoryEntry) :=
  with_path (validateVaultPath Posix (mi_fromPath input) PKFile) (fun from =>
  with_path (validateVaultPath Posix (mi_toPath input) PKFile) (fun to =>
    recorded ← recordFileHistory root
      {| ri_path := to; ri_operation := moveOperationForPaths from to; ri_actor := mi_actor input;
         ri_content := mi_content input; ri_now := mi_now input; ri_coalesceWindowMs := Some (Int 0) |};
    match recorded with
    | VFail _ _ => mret recorded
    | VOk value =>
        pending ← pendingForRoot root;
        put_pending root (mark_moved pending to (he_id value) from);;
        flushFileHistory root {| fl_paths := Some [to]; fl_now := mi_now input |};;
        mret recorded
    end)).

Definition folder_move_entry (id from to : jstr) (actor : option VaultActor) (now : Z) : PendingHistoryEntry :=
  {| pe_id := id; pe_path := to; pe_fromPath := Some from; pe_operation := HMove;
     pe_bucketStart := toISOString now; pe_createdAt := toISOString now; pe_updatedAt := toISOString now;
     pe_content := []; pe_size := 0; pe_contentHash := []; pe_contentHashFormat := None;
     pe_contributors := [or_unknown actor] |}.

Definition moveFolderHistory (root : jstr) (input : MoveFolderHistoryInput) : HM (VaultResult FlushFileHistoryValue) :=
  with_path (validateVaultPath Posix (mo_fromPath input) PKFolder) (fun from =>
  with_path (validateVaultPath Posix (mo_toPath input) PKFolder) (fun to =>
    gitReady ← ensureGitRepository root;
    if negb gitReady then mret (VOk {| fv_flushed := 0; fv_unavailable := true |})
    else
      runGit root [js "rm"; js "-r"; js "--cached"; js "--ignore-unmatch"; js "--"; from] [];;
      runGit root [js "add"; js "-A"; js "--"; to] [];;
      changed ← hasStagedChanges root [from; to];
      if negb changed then mret (VOk {| fv_flushed := 0; fv_unavailable := false |})
      else
        runGit root [js "add"; js "--"; GITIGNORE_RELATIVE_PATH] [];;
        now ← now_or (mo_now input);
        uuid ← call randomUUID;
        commitHistoryEntry root (folder_move_entry (js "folder-move-" ++ uuid) from to (mo_actor input) now) (Some now);;
        mret (VOk {| fv_flushed := 1; fv_unavailable := false |}))).

End operations.
