(* ===== verification/HistoryPending.v ===== *)
(** The versions that wait to be flushed: the invariant of the pending maps of
    [FileHistory.v] and how versions of one bucket become one entry. *)
From S2P Require Import Prelude JsString Utf8 NodePath Json VaultPath FileSystem IsoDate AuditLog FolderMetadata HistoryData Sha256 FileHistory.

(** * Reasoning about calls *)

(** Whatever [m] answers, it takes the state along [R]. *)
Definition within `{GitTool} (R : relation history_state) {A} (m : HM A) : Prop := forall s, R s (m s).2.

Create HintDb within.

Section within.
Context `{GitTool} (R : relation history_state) `{!PreOrder R}.

Lemma within_ret {A} (a : A) : within R (mret a).
Proof. intros s. cbn. reflexivity. Qed.
Lemma within_throw {A} e : within R (hthrow (A := A) e).
Proof. intros s. cbn. reflexivity. Qed.
Lemma within_asks {A} (f : history_state -> A) : within R (hasks f).
Proof. intros s. cbn. reflexivity. Qed.

Lemma within_bind {A B} (m : HM A) (k : A -> HM B) :
  within R m -> (forall a, within R (k a)) -> within R (m ≫= k).
Proof.
  intros Hm Hk s. unfold mbind, HM_bind. specialize (Hm s). destruct (m s) as [[a|e] s1]; [|done].
  etransitivity; [exact Hm|apply Hk].
Qed.

Lemma within_fmap {A B} (g : A -> B) (m : HM A) : within R m -> within R (g <$> m).
Proof. intros Hm s. unfold fmap, HM_fmap. specialize (Hm s). by destruct (m s) as [[a|e] s1]. Qed.

Lemma within_catch {A} (m : HM A) (k : hexn -> HM A) :
  within R m -> (forall e, within R (k e)) -> within R (hcatch m k).
Proof.
  intros Hm Hk s. unfold hcatch. specialize (Hm s). destruct (m s) as [[a|e] s1]; [done|].
  etransitivity; [exact Hm|apply Hk].
Qed.

Lemma within_finally {A} (m : HM A) (f : HM unit) : within R m -> within R f -> within R (finally m f).
Proof.
  intros Hm Hf s. unfold finally. specialize (Hm s). destruct (m s) as [r s1]. specialize (Hf s1).
  destruct (f s1) as [[u|e] s2]; etransitivity; eauto.
Qed.

Lemma within_with_path {T} r (k : jstr -> HM (VaultResult T)) :
  (forall rel, within R (k rel)) -> within R (with_path r k).
Proof. intros Hk. destruct r; [apply Hk|apply within_ret]. Qed.

Lemma within_throw_path {A} (r : result InvalidPathError A) : within R (throw_path r).
Proof. destruct r; [apply within_ret|apply within_throw]. Qed.
End within.

#[export] Hint Resolve within_ret within_throw within_asks within_bind within_fmap within_catch within_finally
  within_with_path within_throw_path : within.

(** Sequences of calls, by the lemmas on each. *)
Ltac within :=
  repeat first
    [ progress intros
    | solve [eauto 2 with within typeclass_instances]
    | apply within_bind; [typeclasses eauto|..]
    | apply within_catch; [typeclasses eauto|..]
    | apply within_finally; [typeclasses eauto|..]
    | apply within_fmap; [typeclasses eauto|..]
    | apply within_with_path; [typeclasses eauto|..]
    | case_match ].

(** ** Calls that leave the pending versions alone *)

(** The supply of identifiers only advances. *)
Definition calm {A} (m : M A) : Prop := forall w, (w_next_uuid w <= w_next_uuid (m w).2)%N.

Section calm.
Context `{NodeHost}.

Lemma calm_bind {A B} (m : M A) (k : A -> M B) : calm m -> (forall a, calm (k a)) -> calm (m ≫= k).
Proof.
  intros Hm Hk w. unfold mbind, M_bind. specialize (Hm w). destruct (m w) as [[a|e] w1]; [|done].
  specialize (Hk a w1). cbn in *. lia.
Qed.
Lemma calm_catch {A} (m : M A) k : calm m -> (forall e, calm (k e)) -> calm (try_catch m k).
Proof.
  intros Hm Hk w. unfold try_catch. specialize (Hm w). destruct (m w) as [[a|e] w1]; [done|].
  specialize (Hk e w1). cbn in *. lia.
Qed.
Lemma calm_throw {A} e : calm (throw (A := A) e). Proof. intros w. cbn. lia. Qed.
Lemma calm_asks {A} (f : world -> A) : calm (asks f). Proof. intros w. cbn. lia. Qed.
Lemma calm_ret {A} (a : A) : calm (mret a). Proof. intros w. cbn. lia. Qed.
Lemma calm_modify g : calm (modify_fs g). Proof. intros w. cbn. lia. Qed.
Lemma calm_stat p : calm (fs_stat p).
Proof. intros w. unfold fs_stat. destruct (lookup_path _ _); cbn; lia. Qed.
Lemma calm_uuid : calm randomUUID. Proof. intros w. cbn. lia. Qed.
Lemma calm_ino : calm fresh_ino. Proof. intros w. cbn. lia. Qed.
Lemma calm_mkdir p : calm (fs_mkdir p).
Proof. intros w. unfold fs_mkdir. destruct (make_dirs _ _ _ _); cbn; lia. Qed.

Lemma calm_writeFile p b : calm (fs_writeFile p b).
Proof.
  unfold fs_writeFile, fs_update. apply calm_bind; [apply calm_asks|]. intros f.
  apply calm_bind; [apply calm_asks|]. intros now.
  destruct (walk_error _ _ _); [apply calm_throw|]. destruct (node_at _ _) as [[]|];
    [apply calm_modify|apply calm_throw|]. apply calm_bind; [apply calm_ino|]. intros. apply calm_modify.
Qed.

Lemma calm_rm p r : calm (fs_rm p r).
Proof.
  unfold fs_rm. apply calm_bind; [apply calm_stat|]. intros n.
  destruct (_ && _); [apply calm_throw|apply calm_modify].
Qed.
End calm.

(** The pending maps are the same, and the identifiers used stay used. *)
Definition quiet `{GitTool} (s s' : history_state) : Prop :=
  hs_pending s' = hs_pending s /\ (w_next_uuid (hs_world s) <= w_next_uuid (hs_world s'))%N.

#[export] Instance quiet_preorder `{GitTool} : PreOrder quiet.
Proof.
  split; [intros s; split; [done|lia]|]. intros s1 s2 s3 [E1 L1] [E2 L2]. split; [congruence|lia].
Qed.

Section quiet.
Context `{Host, JsonHost, DateHost, NodeHost, GitTool}.

Lemma quiet_call {A} (m : M A) : calm m -> within quiet (call m).
Proof. intros Hm s. unfold call. specialize (Hm (hs_world s)). by destruct (m _) as [[a|e] w]. Qed.

Lemma quiet_exec c b : within quiet (execFileAsync c b).
Proof.
  intros s. unfold execFileAsync. destruct (git_process _ _ _) as [exit [f r]].
  assert (quiet s (set_tool f r s)) as Hq by (split; cbn; [done|lia]).
  destruct exit; cbn; repeat case_match; done.
Qed.

Lemma quiet_git root args env : within quiet (runGit root args env).
Proof. apply quiet_exec. Qed.
Lemma quiet_git_content root args env : within quiet (runGitContent root args env).
Proof. apply quiet_exec. Qed.
Lemma quiet_stat p : within quiet (call (fs_stat p)). Proof. apply quiet_call, calm_stat. Qed.
Lemma quiet_mkdir p : within quiet (call (fs_mkdir p)). Proof. apply quiet_call, calm_mkdir. Qed.
Lemma quiet_writeFile p b : within quiet (call (fs_writeFile p b)). Proof. apply quiet_call, calm_writeFile. Qed.
Lemma quiet_uuid : within quiet (call randomUUID). Proof. apply quiet_call, calm_uuid. Qed.
Lemma quiet_rm p : within quiet (rm_force p).
Proof.
  apply quiet_call, calm_catch; [apply calm_rm|]. intros e. case_bool_decide; [apply calm_ret|apply calm_throw].
Qed.
Lemma quiet_init f : within quiet (hmodify (fun s => set_init (f s) s)).
Proof. intros s. split; cbn; [done|lia]. Qed.
Lemma quiet_warn : within quiet warn.
Proof. intros s. split; cbn; [done|lia]. Qed.
Lemma quiet_now o : within quiet (now_or o).
Proof. destruct o; cbn; [apply within_ret|apply within_asks]; typeclasses eauto. Qed.

#[local] Hint Resolve quiet_git quiet_git_content quiet_stat quiet_mkdir quiet_writeFile quiet_uuid quiet_rm
  quiet_init quiet_warn quiet_now : within.

Lemma quiet_hasGit root : within quiet (hasGitRepository root).
Proof. unfold hasGitRepository. within. Qed.
#[local] Hint Resolve quiet_hasGit : within.
Lemma quiet_ensure root : within quiet (ensureGitRepository root).
Proof. unfold ensureGitRepository, init_repository, writeDefaultGitignore. within. Qed.
Lemma quiet_staged root paths : within quiet (hasStagedChanges root paths).
Proof. unfold hasStagedChanges. within. Qed.
Lemma quiet_commit root entry now : within quiet (commitHistoryEntry root entry now).
Proof. unfold commitHistoryEntry. within. Qed.
#[local] Hint Resolve quiet_ensure quiet_staged quiet_commit : within.
Lemma quiet_commitPending root entry now : within quiet (commitPendingEntry root entry now).
Proof. unfold commitPendingEntry, stagePendingEntry, stage_body, unstage_previous. within. Qed.

Lemma quiet_segments fuel root rel p rev acc : within quiet (read_segments fuel root rel p rev acc).
Proof.
  revert p rev acc. induction fuel as [|fuel IH]; intros; cbn [read_segments]; unfold readHistoryLogSegment; within.
Qed.
#[local] Hint Resolve quiet_segments : within.
Lemma quiet_committed fuel root rel : within quiet (readCommittedHistory fuel root rel).
Proof. unfold readCommittedHistory. within. Qed.
End quiet.

#[export] Hint Resolve quiet_git quiet_git_content quiet_stat quiet_mkdir quiet_writeFile quiet_uuid quiet_rm
  quiet_init quiet_warn quiet_now quiet_hasGit quiet_ensure quiet_staged quiet_commit quiet_commitPending
  quiet_segments quiet_committed : within.

(** * Pending maps *)

Lemma pending_get_set m key e k :
  pending_get (pending_set m key e) k = if jeqb key k then Some e else pending_get m k.
Proof.
  induction m as [|[k' e'] m IH]; cbn; [done|]. destruct (jeqb k' key) eqn:E; cbn.
  - apply jeqb_eq in E as ->. by destruct (jeqb key k).
  - destruct (jeqb k' k) eqn:E'; [|done]. apply jeqb_eq in E' as ->.
    destruct (jeqb key k) eqn:E''; [|done]. apply jeqb_eq in E'' as ->. unfold jeqb in E. by rewrite bool_decide_true in E.
Qed.

Lemma pending_get_Some m key e : pending_get m key = Some e -> (key, e) ∈ m.
Proof.
  induction m as [|[k' e'] m IH]; cbn; [done|]. destruct (jeqb k' key) eqn:E; intros Hg.
  - apply jeqb_eq in E as ->. injection Hg as ->. left.
  - right. auto.
Qed.

Lemma pending_get_None m key : pending_get m key = None <-> key ∉ m.*1.
Proof.
  induction m as [|[k e] m IH]; cbn; [split; [intros _; apply not_elem_of_nil|done]|].
  rewrite not_elem_of_cons. destruct (jeqb k key) eqn:E.
  - apply jeqb_eq in E as ->. naive_solver.
  - rewrite IH. split; [|naive_solver]. intros ?. split; [|done]. intros ->. unfold jeqb in E. by rewrite bool_decide_true in E.
Qed.

Lemma pending_get_elem m key e : NoDup m.*1 -> (key, e) ∈ m -> pending_get m key = Some e.
Proof.
  intros Hnd Hin. destruct (pending_get m key) as [e'|] eqn:E.
  - apply pending_get_Some in E. f_equal. revert Hnd Hin E. clear. induction m as [|[k x] m IH]; [by intros _ ?%elem_of_nil|].
    cbn. rewrite NoDup_cons, !elem_of_cons. intros [Hk Hnd] [[= <- <-]|Hin] [[= ?]|Hin']; [done|..| by auto].
    + exfalso. apply Hk. apply (list_elem_of_fmap_2 fst) in Hin'. done.
    + subst. exfalso. apply Hk. apply (list_elem_of_fmap_2 fst) in Hin. done.
  - apply pending_get_None in E. apply (list_elem_of_fmap_2 fst) in Hin. done.
Qed.

(** Setting a key that is there changes its entry in place, a new one comes last. *)
Lemma pending_set_new m key e : pending_get m key = None -> pending_set m key e = m ++ [(key, e)].
Proof. induction m as [|[k x] m IH]; cbn; [done|]. destruct (jeqb k key); [done|]. intros ?. by rewrite IH. Qed.

Lemma pending_set_old m key e x :
  pending_get m key = Some x -> exists m1 m2, m = m1 ++ (key, x) :: m2 /\ pending_set m key e = m1 ++ (key, e) :: m2.
Proof.
  induction m as [|[k y] m IH]; cbn; [done|]. destruct (jeqb k key) eqn:E; intros Hg.
  - apply jeqb_eq in E as ->. injection Hg as ->. by exists [], m.
  - destruct (IH Hg) as (m1 & m2 & -> & ->). by exists ((k, y) :: m1), m2.
Qed.

(** ** The invariant *)

Section invariant.
Context `{Host, JsonHost, DateHost, NodeHost, GitTool}.

(** An entry under its key: its note is a valid path, its bucket starts at a moment, size
    and hash are those of its content, and its contributors are distinct and some. *)
Record entry_ok (key : jstr) (entry : PendingHistoryEntry) : Prop := {
  eo_key : key = pendingKey (pe_path entry) (pe_bucketStart entry);
  eo_path : validateVaultPath Posix (pe_path entry) PKFile = Ok (pe_path entry);
  eo_from : forall from, pe_fromPath entry = Some from -> validateVaultPath Posix from PKFile = Ok from;
  eo_bucket : exists t, pe_bucketStart entry = toISOString t;
  eo_created : pe_createdAt entry = pe_bucketStart entry;
  eo_size : pe_size entry = Z.of_nat (length (encode (pe_content entry)));
  eo_hash : pe_contentHash entry = hashContent (pe_content entry);
  eo_format : pe_contentHashFormat entry = None;
  eo_some : pe_contributors entry <> [];
  eo_distinct : NoDup (map actorKey (pe_contributors entry))
}.

Definition pending_id (n : N) : jstr := js "pending-" ++ uuid_text n.

(** The map of a root: one entry per key, and identifiers used up. *)
Record pending_ok (next_uuid : N) (m : PendingHistoryMap) : Prop := {
  po_keys : NoDup m.*1;
  po_entries : Forall (fun ke => entry_ok ke.1 ke.2) m;
  po_ids : Forall (fun ke => exists n, (n < next_uuid)%N /\ pe_id ke.2 = pending_id n) m;
  po_distinct : NoDup (map (fun ke => pe_id ke.2) m)
}.

Definition history_ok (s : history_state) : Prop :=
  map_Forall (fun _ m => pending_ok (w_next_uuid (hs_world s)) m) (hs_pending s).

Definition keeps_ok (s s' : history_state) : Prop := history_ok s -> history_ok s'.

#[export] Instance keeps_ok_preorder : PreOrder keeps_ok.
Proof. split; [intros s Hs; exact Hs|]. intros s1 s2 s3 H12 H23 Hs. apply H23, H12, Hs. Qed.

Lemma pending_ok_later n n' m : (n <= n')%N -> pending_ok n m -> pending_ok n' m.
Proof.
  intros Hn [? ? Hids ?]. split; [done..| |done]. eapply Forall_impl; [exact Hids|].
  intros ke (i & Hi & ?). exists i. split; [lia|done].
Qed.

Lemma pending_ok_nil n : pending_ok n [].
Proof. split; constructor. Qed.

Lemma quiet_keeps_ok s s' : quiet s s' -> keeps_ok s s'.
Proof.
  intros [Hp Hn] Hs. unfold history_ok. rewrite Hp. eapply map_Forall_impl; [exact Hs|].
  intros r m Hm. by eapply pending_ok_later.
Qed.

Lemma quiet_within {A} (m : HM A) : within quiet m -> within keeps_ok m.
Proof. intros Hm s. apply quiet_keeps_ok, Hm. Qed.

Lemma history_ok_put s root m :
  history_ok s -> pending_ok (w_next_uuid (hs_world s)) m ->
  history_ok (set_pending (<[root := m]> (hs_pending s)) s).
Proof. intros Hs Hm. by apply map_Forall_insert_2. Qed.

Definition root_pending (s : history_state) (root : jstr) : PendingHistoryMap :=
  default [] (hs_pending s !! root_key root).

Lemma root_pending_ok s root : history_ok s -> pending_ok (w_next_uuid (hs_world s)) (root_pending s root).
Proof.
  intros Hs. unfold root_pending. destruct (hs_pending s !! root_key root) as [m|] eqn:E; [|apply pending_ok_nil].
  exact (Hs _ _ E).
Qed.

(** [pendingForRoot] answers the map of the root and changes no map. *)
Lemma pendingForRoot_run root s :
  exists s', pendingForRoot root s = (Ok (root_pending s root), s') /\ hs_world s' = hs_world s /\
    hs_repo s' = hs_repo s /\ hs_init s' = hs_init s /\
    hs_pending s' = <[root_key root := root_pending s root]> (hs_pending s).
Proof.
  unfold pendingForRoot, root_pending. destruct (hs_pending s !! root_key root) as [m|] eqn:E; cbn.
  - exists s. split_and!; try done. by rewrite insert_id.
  - eexists. split_and!; reflexivity.
Qed.

Lemma keeps_pendingForRoot root : within keeps_ok (pendingForRoot root).
Proof.
  intros s Hs. unfold pendingForRoot. destruct (hs_pending s !! root_key root); [done|].
  apply history_ok_put; [done|apply pending_ok_nil].
Qed.

(** ** Contributors *)

Lemma cloneActor_id a : cloneActor a = a.
Proof. by destruct a. Qed.
Lemma map_cloneActor l : map cloneActor l = l.
Proof. induction l as [|a l IH]; cbn; [done|]. by rewrite cloneActor_id, IH. Qed.

Lemma addContributor_spec cs a :
  addContributor cs a = if existsb (fun c => bool_decide (actorKey c = actorKey a)) cs then cs else cs ++ [a].
Proof. unfold addContributor. by rewrite !map_cloneActor, cloneActor_id. Qed.

Lemma addContributor_cases cs a :
  addContributor cs a = cs /\ actorKey a ∈ map actorKey cs \/
  addContributor cs a = cs ++ [a] /\ actorKey a ∉ map actorKey cs.
Proof.
  rewrite addContributor_spec. destruct (existsb _ cs) eqn:E; [left|right]; (split; [done|]).
  - apply existsb_exists in E as (c & Hc%list_elem_of_In & Hk). to_prop. rewrite <- Hk. by apply (list_elem_of_fmap_2 actorKey).
  - apply existsb_false_Forall in E. rewrite Forall_forall in E. intros (c & Hc & Hin)%list_elem_of_fmap.
    specialize (E _ Hin). cbn in E. by case_bool_decide.
Qed.

Lemma addContributor_distinct cs a :
  NoDup (map actorKey cs) -> NoDup (map actorKey (addContributor cs a)).
Proof.
  intros Hnd. destruct (addContributor_cases cs a) as [[-> _]|[-> Ha]]; [done|]. rewrite map_app. apply NoDup_app.
  split_and!; [done| |apply NoDup_singleton]. by intros x Hx ->%list_elem_of_singleton.
Qed.

Lemma addContributor_some cs a : addContributor cs a <> [].
Proof.
  destruct (addContributor_cases cs a) as [[-> Ha]|[-> _]]; [|by destruct cs]. intros ->. by apply elem_of_nil in Ha.
Qed.

(** ** Recording keeps it *)

Lemma pending_set_ok n m key e :
  pending_ok n m -> entry_ok key e ->
  (forall x, pending_get m key = Some x -> pe_id e = pe_id x) ->
  (pending_get m key = None -> exists i, (i < n)%N /\ pe_id e = pending_id i /\ pe_id e ∉ map (fun ke => pe_id ke.2) m) ->
  pending_ok n (pending_set m key e).
Proof.
  intros [Hk He Hi Hd] Hok Hold Hnew. destruct (pending_get m key) as [x|] eqn:E.
  - destruct (pending_set_old m key e x E) as (m1 & m2 & -> & ->). specialize (Hold _ eq_refl).
    rewrite fmap_app in Hk. rewrite map_app in Hd. apply Forall_app in He as [He1 He2], Hi as [Hi1 Hi2].
    apply Forall_cons in He2 as [_ He2], Hi2 as [Hid Hi2]. cbn [map fst snd] in *. rewrite <- Hold in Hd, Hid.
    split; [by rewrite fmap_app| | |by rewrite map_app]; apply Forall_app; auto.
  - destruct (Hnew eq_refl) as (i & Hlt & Hid & Hfresh). rewrite pending_set_new by done.
    apply pending_get_None in E. split.
    + rewrite fmap_app. apply NoDup_app. split_and!; [done| |apply NoDup_singleton].
      intros k Hin ->%list_elem_of_singleton. done.
    + apply Forall_app. split; [done|by constructor].
    + apply Forall_app. split; [done|]. constructor; [|constructor]. cbn. eauto.
    + rewrite map_app. apply NoDup_app. split_and!; [done| |apply NoDup_singleton].
      intros k Hin ->%list_elem_of_singleton. done.
Qed.

Lemma bucketStartIso_iso now w : exists t, bucketStartIso now w = toISOString t.
Proof. unfold bucketStartIso. repeat case_match; eauto. Qed.

Lemma new_entry_ok id rel input now :
  validateVaultPath Posix rel PKFile = Ok rel ->
  entry_ok (pendingKey rel (bucketStartIso now (ri_coalesceWindowMs input))) (new_entry id rel input now).
Proof.
  intros Hrel. split; cbn; try done; [apply bucketStartIso_iso|]. apply NoDup_singleton.
Qed.

Lemma coalesce_ok key e input now : entry_ok key e -> entry_ok key (coalesce e input now).
Proof.
  intros []. split; cbn; try done; [apply addContributor_some|by apply addContributor_distinct].
Qed.

(** What a version does to the pending map of its root. *)
Definition record_entry (s : history_state) (root rel : jstr) (input : RecordFileHistoryInput) : PendingHistoryEntry :=
  let now := default (w_now (hs_world s)) (ri_now input) in
  match pending_get (root_pending s root) (pendingKey rel (bucketStartIso now (ri_coalesceWindowMs input))) with
  | Some e => coalesce e input now
  | None => new_entry (pending_id (w_next_uuid (hs_world s))) rel input now
  end.
Definition record_key (s : history_state) (rel : jstr) (input : RecordFileHistoryInput) : jstr :=
  pendingKey rel (bucketStartIso (default (w_now (hs_world s)) (ri_now input)) (ri_coalesceWindowMs input)).

Lemma recordFileHistory_run root input rel s :
  validateVaultPath Posix (ri_path input) PKFile = Ok rel ->
  exists s', recordFileHistory root input s = (Ok (VOk (pendingEntryToHistoryEntry (record_entry s root rel input))), s') /\
    hs_pending s' = <[root_key root := pending_set (root_pending s root) (record_key s rel input)
                                         (record_entry s root rel input)]> (hs_pending s) /\
    hs_repo s' = hs_repo s /\ hs_init s' = hs_init s /\ w_fs (hs_world s') = w_fs (hs_world s) /\
    w_now (hs_world s') = w_now (hs_world s) /\
    w_next_uuid (hs_world s') = match pending_get (root_pending s root) (record_key s rel input) with
                                | Some _ => w_next_uuid (hs_world s)
                                | None => (w_next_uuid (hs_world s) + 1)%N
                                end.
Proof.
  intros Hrel. unfold recordFileHistory, record_entry, record_key. rewrite Hrel. cbn [with_path].
  set (now := default _ (ri_now input)).
  assert (now_or (ri_now input) s = (Ok now, s)) as Hnow by (unfold now, now_or; by destruct (ri_now input)).
  unfold mbind, HM_bind. rewrite Hnow. destruct (pendingForRoot_run root s) as (s1 & -> & Hw & Hr & Hi & Hp).
  destruct (pending_get (root_pending s root) _) as [e|] eqn:E; cbn.
  - eexists. split_and!; try done; cbn; try congruence. by rewrite Hp, insert_insert_eq.
  - unfold put_pending, hmodify. cbn. rewrite Hw. eexists.
    split_and!; try done; cbn; try congruence. by rewrite Hp, insert_insert_eq.
Qed.

(** Random identifiers do not repeat. *)
Definition uuid_fresh : Prop := forall i j, uuid_text i = uuid_text j -> i = j.
Context (Huuid : uuid_fresh).

Lemma record_entry_ok s root rel input :
  history_ok s -> validateVaultPath Posix rel PKFile = Ok rel ->
  entry_ok (record_key s rel input) (record_entry s root rel input).
Proof.
  intros Hs Hrel. unfold record_entry, record_key. destruct (pending_get _ _) as [e|] eqn:E; [|by apply new_entry_ok].
  apply coalesce_ok. pose proof (po_entries _ _ (root_pending_ok s root Hs)) as He.
  rewrite Forall_forall in He. exact (He _ (pending_get_Some _ _ _ E)).
Qed.

Lemma fresh_id n m : pending_ok n m -> pending_id n ∉ map (fun ke => pe_id ke.2) m.
Proof.
  intros [_ _ Hi _] ((k & e) & Hid & Hin)%list_elem_of_fmap. rewrite Forall_forall in Hi.
  destruct (Hi _ Hin) as (j & Hj & Hid'). cbn [fst snd] in Hid, Hid'. rewrite Hid' in Hid. unfold pending_id in Hid.
  apply app_inv_head in Hid. apply Huuid in Hid. lia.
Qed.

Lemma keeps_record root input : within keeps_ok (recordFileHistory root input).
Proof.
  intros s Hs. destruct (validateVaultPath Posix (ri_path input) PKFile) as [rel|e] eqn:Hrel.
  2:{ unfold recordFileHistory. rewrite Hrel. exact Hs. }
  destruct (recordFileHistory_run root input rel s Hrel) as (s' & -> & Hp & _ & _ & _ & _ & Hu). cbn [snd].
  assert (validateVaultPath Posix rel PKFile = Ok rel) as Hrel'.
  { apply validate_ok in Hrel as [-> Hv]. by apply validate_ok. }
  pose proof (root_pending_ok s root Hs) as Hm. unfold history_ok. rewrite Hp.
  assert (w_next_uuid (hs_world s) <= w_next_uuid (hs_world s'))%N as Hle by (rewrite Hu; case_match; lia).
  apply map_Forall_insert_2; [|eapply map_Forall_impl; [exact Hs|]; intros; by eapply pending_ok_later].
  apply pending_set_ok; [by eapply pending_ok_later|by apply record_entry_ok|..].
  - unfold record_entry, record_key. by intros x ->.
  - intros E. rewrite E in Hu. exists (w_next_uuid (hs_world s)). rewrite Hu. unfold record_entry, record_key in *.
    rewrite E. cbn [pe_id new_entry]. split_and!; [lia|done|by apply fresh_id].
Qed.
End invariant.
