(* ===== verification/HistoryFlush.v ===== *)
(** The pending maps after every operation of [FileHistory.v], and how the loop of a flush goes
    through the selected versions. *)
From S2P Require Import Prelude JsString Utf8 NodePath Json VaultPath FileSystem IsoDate AuditLog FolderMetadata HistoryData Sha256 FileHistory HistoryPending.

(** * Deleting keys *)

Definition drop_keys (ks : list jstr) (m : PendingHistoryMap) : PendingHistoryMap := filter (fun ke => ke.1 ∉ ks) m.

Lemma drop_keys_nil m : drop_keys [] m = m.
Proof.
  unfold drop_keys. induction m as [|ke m IH]; [done|]. rewrite filter_cons_True; [by rewrite IH|]. by intros ?%elem_of_nil.
Qed.

Lemma drop_keys_delete k ks m : drop_keys ks (pending_delete m k) = drop_keys (k :: ks) m.
Proof.
  unfold drop_keys, pending_delete. rewrite list_filter_filter. apply list_filter_iff.
  intros ke. cbn. rewrite not_elem_of_cons. tauto.
Qed.

Lemma sublist_map {A B} (f : A -> B) (l k : list A) : l `sublist_of` k -> map f l `sublist_of` map f k.
Proof. induction 1; cbn; by constructor. Qed.

Lemma Forall_sublist {A} (P : A -> Prop) (l k : list A) : l `sublist_of` k -> Forall P k -> Forall P l.
Proof. induction 1; rewrite ?Forall_cons; naive_solver. Qed.

Lemma sublist_ok `{NodeHost, JsonHost} n m m' : m' `sublist_of` m -> pending_ok n m -> pending_ok n m'.
Proof.
  intros Hs [Hk He Hi Hd]. split; [|by eapply Forall_sublist..|].
  - eapply sublist_NoDup; [exact Hk|]. by apply sublist_map.
  - eapply sublist_NoDup; [exact Hd|]. by apply sublist_map.
Qed.

Section flush.
Context `{Host, JsonHost, DateHost, NodeHost, GitTool}.

(** * The loop *)

Lemma root_pending_put s root m : root_pending (set_pending (<[root_key root := m]> (hs_pending s)) s) root = m.
Proof. unfold root_pending. cbn. by rewrite lookup_insert_eq. Qed.

(** Only the map of [root] differs. *)
Definition only_root (root : jstr) (s s' : history_state) : Prop :=
  forall r, r <> root_key root -> hs_pending s' !! r = hs_pending s !! r.

#[export] Instance only_root_preorder root : PreOrder (only_root root).
Proof. split; [by intros s r|]. intros s1 s2 s3 H12 H23 r Hr. rewrite H23, H12; done. Qed.

Lemma pending_delete_step root key s :
  exists s', (pending ← pendingForRoot root; put_pending root (pending_delete pending key)) s = (Ok tt, s') /\
    root_pending s' root = pending_delete (root_pending s root) key /\ only_root root s s' /\
    hs_world s' = hs_world s /\ hs_repo s' = hs_repo s.
Proof.
  destruct (pendingForRoot_run root s) as (s1 & Hrun & Hw & Hr & Hi & Hp). unfold mbind, HM_bind. rewrite Hrun.
  eexists. split; [reflexivity|]. rewrite root_pending_put. split_and!; [done|..]; cbn; [|done..].
  intros r Hne. cbn. rewrite lookup_insert_ne by done. rewrite Hp. by rewrite lookup_insert_ne.
Qed.

Lemma flush_entries_all root now sel flushed s n s' :
  flush_entries root sel now flushed s = (Ok n, s') ->
  n = flushed + length sel /\ root_pending s' root = drop_keys sel.*1 (root_pending s root) /\ only_root root s s'.
Proof.
  revert flushed s. induction sel as [|[key e] sel IH]; intros flushed s; cbn [flush_entries].
  { intros [= <- <-]. cbn. rewrite drop_keys_nil. split_and!; [lia|done|reflexivity]. }
  unfold mbind at 1, HM_bind at 1. pose proof (quiet_commitPending root e now s) as [Hq _].
  destruct (commitPendingEntry root e now s) as [[[]|x] s1]; cbn [snd] in Hq; [|done].
  destruct (pending_delete_step root key s1) as (s2 & Hrun & Hroot & Honly & _).
  unfold mbind, HM_bind in *. destruct (pendingForRoot root s1) as [[p|] s'']; [|done]. rewrite Hrun.
  intros (-> & Hp & Ho)%IH. split_and!; [cbn; lia| |].
  - rewrite Hp, Hroot. cbn [fmap list_fmap fst]. rewrite drop_keys_delete. f_equal. unfold root_pending. by rewrite Hq.
  - intros r' Hr'. rewrite Ho, Honly, Hq; done.
Qed.

(** The loop goes through the versions before the first whose commit fails, and stops in
    the state that commit leaves. *)
Lemma flush_entries_split root now sel flushed s :
  exists k s1, k <= length sel /\ flush_entries root (take k sel) now flushed s = (Ok (flushed + k), s1) /\
    (k = length sel /\ flush_entries root sel now flushed s = (Ok (flushed + k), s1) \/
     exists ke x s', sel !! k = Some ke /\ commitPendingEntry root ke.2 now s1 = (Err x, s') /\
       flush_entries root sel now flushed s = (Err x, s')).
Proof.
  revert flushed s. induction sel as [|[key e] sel IH]; intros flushed s.
  { exists 0, s. cbn. rewrite Nat.add_0_r. split_and!; [done..|by left]. }
  cbn [flush_entries]. unfold mbind at 1, HM_bind at 1. destruct (commitPendingEntry root e now s) as [[[]|x] s1] eqn:Ec.
  - destruct (pending_delete_step root key s1) as (s2 & Hrun & _).
    destruct (IH (S flushed) s2) as (k & s3 & Hk & Htake & Hres). exists (S k), s3.
    replace (S flushed + k) with (flushed + S k) in * by lia. unfold mbind, HM_bind in *.
    split_and!; [cbn; lia| |].
    + cbn [take flush_entries]. unfold mbind, HM_bind. rewrite Ec. destruct (pendingForRoot root s1) as [[p|] s']; [|done]. by rewrite Hrun.
    + rewrite Ec. destruct (pendingForRoot root s1) as [[p|] s']; [|done]. rewrite Hrun.
      destruct Hres as [[-> Hr]|(ke & x & s4 & Hl & Hc & Hr)]; [by left|]. right. by exists ke, x, s4.
  - exists 0, s. cbn [take flush_entries]. rewrite Nat.add_0_r. split_and!; [lia|done|]. right. exists (key, e), x, s1. split_and!; [done|exact Ec|unfold mbind, HM_bind; by rewrite Ec].
Qed.

Lemma init_repository_ok root s : exists b s', init_repository root s = (Ok b, s').
Proof.
  unfold init_repository. set (m := call _ ≫= _). unfold hcatch. destruct (m s) as [[b|e] s1]; [eauto|].
  destruct (isGitUnavailable e); cbn; eauto.
Qed.

(** A repository that cannot be made is no exception. *)
Lemma ensureGitRepository_ok root s : exists b s', ensureGitRepository root s = (Ok b, s').
Proof.
  unfold ensureGitRepository, mbind, HM_bind, hasks. destruct (hs_init s !! root_key root) as [b|]; [cbn; eauto|].
  destruct (init_repository_ok root s) as (b & s1 & ->). destruct b; cbn; eauto.
Qed.

(** The pending versions of the vault that a flush selects from are read without a change. *)
Lemma pendingForRoot_same root s : exists s1,
  pendingForRoot root s = (Ok (root_pending s root), s1) /\ root_pending s1 root = root_pending s root /\ only_root root s s1.
Proof.
  destruct (pendingForRoot_run root s) as (s1 & Hrun & _ & _ & _ & Hp). exists s1. split_and!; [done|..].
  - unfold root_pending at 1. by rewrite Hp, lookup_insert_eq.
  - intros r Hr. by rewrite Hp, lookup_insert_ne.
Qed.

(** * Every operation keeps the pending maps well-formed *)

Lemma keeps_put root (g : PendingHistoryMap -> PendingHistoryMap) :
  (forall n m, pending_ok n m -> pending_ok n (g m)) ->
  within keeps_ok (pending ← pendingForRoot root; put_pending root (g pending)).
Proof.
  intros Hg s Hs. destruct (pendingForRoot_run root s) as (s1 & Hrun & Hw & _ & _ & Hp).
  unfold mbind, HM_bind. rewrite Hrun. cbn. unfold history_ok. cbn. rewrite Hp, Hw, insert_insert_eq.
  apply map_Forall_insert_2; [|exact Hs]. by apply Hg, root_pending_ok.
Qed.

Lemma bind_assoc_run {A B C} (m : HM A) (f : A -> HM B) (g : B -> HM C) s :
  (m ≫= fun a => f a ≫= g) s = ((m ≫= f) ≫= g) s.
Proof. unfold mbind, HM_bind. by destruct (m s) as [[a|e] s1]. Qed.

Lemma keeps_put_then {A} root g (k : HM A) :
  (forall n m, pending_ok n m -> pending_ok n (g m)) -> within keeps_ok k ->
  within keeps_ok (pending ← pendingForRoot root; put_pending root (g pending);; k).
Proof.
  intros Hg Hk s. rewrite bind_assoc_run. apply within_bind; [typeclasses eauto|by apply keeps_put|done].
Qed.

Lemma keeps_flush_entries root sel now n : within keeps_ok (flush_entries root sel now n).
Proof.
  revert n. induction sel as [|[key e] sel IH]; intros n; cbn [flush_entries].
  - apply within_ret. typeclasses eauto.
  - apply within_bind; [typeclasses eauto|apply quiet_within, quiet_commitPending|]. intros _.
    apply (keeps_put_then root (fun m => pending_delete m key)); [|apply IH].
    intros i m. apply sublist_ok, sublist_filter.
Qed.

Lemma keeps_flush root input : within keeps_ok (flushFileHistory root input).
Proof.
  unfold flushFileHistory. apply within_bind; [typeclasses eauto|apply keeps_pendingForRoot|]. intros pending.
  apply within_bind; [typeclasses eauto|apply within_throw_path; typeclasses eauto|]. intros [|ke sel].
  - apply within_ret. typeclasses eauto.
  - apply within_bind; [typeclasses eauto|apply quiet_within, quiet_ensure|]. intros [|]; cbn [negb].
    + apply within_bind; [typeclasses eauto|apply keeps_flush_entries|]. intros. apply within_ret. typeclasses eauto.
    + apply within_ret. typeclasses eauto.
Qed.

Lemma find_mark (m : PendingHistoryMap) to id ke :
  find (fun ke => jeqb (pe_path ke.2) to && jeqb (pe_id ke.2) id) m = Some ke -> ke ∈ m.
Proof. intros [Hin%list_elem_of_In _]%find_some. done. Qed.

Lemma mark_moved_ok n m to id from :
  validateVaultPath Posix from PKFile = Ok from -> pending_ok n m -> pending_ok n (mark_moved m to id from).
Proof.
  intros Hfrom Hm. unfold mark_moved. destruct (find _ m) as [[key e]|] eqn:E; [|done]. apply find_mark in E.
  pose proof (pending_get_elem _ _ _ (po_keys _ _ Hm) E) as Hg. apply pending_set_ok; [done|..|congruence].
  - pose proof (po_entries _ _ Hm) as He. rewrite Forall_forall in He. destruct (He _ E). split; cbn in *; try done.
    by intros ? [= <-].
  - intros x. rewrite Hg. by intros [= <-].
Qed.

Lemma valid_fixed p q : validateVaultPath Posix p PKFile = Ok q -> validateVaultPath Posix q PKFile = Ok q.
Proof. intros [-> Hv]%validate_ok. by apply validate_ok. Qed.

Context (Huuid : uuid_fresh).

Lemma keeps_moveFile root input : within keeps_ok (moveFileHistory root input).
Proof.
  unfold moveFileHistory. destruct (validateVaultPath Posix (mi_fromPath input) PKFile) as [from|] eqn:Efrom; cbn [with_path];
    [|apply within_ret; typeclasses eauto].
  apply within_with_path; [typeclasses eauto|]. intros to.
  apply within_bind; [typeclasses eauto|by apply keeps_record|]. intros [v|]; [|apply within_ret; typeclasses eauto].
  apply (keeps_put_then root (fun m => mark_moved m to (he_id v) from)).
  - intros n m. by apply mark_moved_ok, (valid_fixed (mi_fromPath input)).
  - apply within_bind; [typeclasses eauto|apply keeps_flush|]. intros. apply within_ret. typeclasses eauto.
Qed.

Lemma quiet_moveFolder root input : within quiet (moveFolderHistory root input).
Proof. unfold moveFolderHistory. within. Qed.

Lemma keeps_pendingFor root rel : within keeps_ok (pendingEntriesForPath root rel).
Proof.
  unfold pendingEntriesForPath. apply within_bind; [typeclasses eauto|apply keeps_pendingForRoot|].
  intros. apply within_ret. typeclasses eauto.
Qed.

Lemma keeps_list fuel root input : within keeps_ok (listFileHistory fuel root input).
Proof.
  unfold listFileHistory, history_entries. apply within_with_path; [typeclasses eauto|]. intros rel.
  apply within_bind; [typeclasses eauto| |intros; apply within_ret; typeclasses eauto].
  apply within_bind; [typeclasses eauto|apply keeps_pendingFor|]. intros p.
  apply within_bind; [typeclasses eauto|apply quiet_within, quiet_committed|]. intros. apply within_ret. typeclasses eauto.
Qed.

Lemma keeps_readVersion fuel root input : within keeps_ok (readFileHistoryVersion fuel root input).
Proof.
  unfold readFileHistoryVersion. apply within_with_path; [typeclasses eauto|]. intros rel.
  case_bool_decide; [apply within_ret; typeclasses eauto|].
  apply within_bind; [typeclasses eauto|apply keeps_pendingForRoot|]. intros p. case_match; [apply within_ret; typeclasses eauto|].
  apply quiet_within. within.
Qed.

(** ** Sequences of operations *)

Inductive history_op :=
| RecordOp (root : jstr) (input : RecordFileHistoryInput)
| ListOp (fuel : nat) (root : jstr) (input : ListFileHistoryInput)
| ReadVersionOp (fuel : nat) (root : jstr) (input : ReadFileHistoryVersionInput)
| MoveFileOp (root : jstr) (input : MoveFileHistoryInput)
| MoveFolderOp (root : jstr) (input : MoveFolderHistoryInput)
| FlushOp (root : jstr) (input : FlushFileHistoryInput).

(** The state an operation leaves, whether it answers or throws. *)
Definition run_history_op (s : history_state) (op : history_op) : history_state :=
  match op with
  | RecordOp root input => (recordFileHistory root input s).2
  | ListOp fuel root input => (listFileHistory fuel root input s).2
  | ReadVersionOp fuel root input => (readFileHistoryVersion fuel root input s).2
  | MoveFileOp root input => (moveFileHistory root input s).2
  | MoveFolderOp root input => (moveFolderHistory root input s).2
  | FlushOp root input => (flushFileHistory root input s).2
  end.

Definition empty_history (w : world) (r : repo) : history_state :=
  {| hs_world := w; hs_repo := r; hs_pending := ∅; hs_init := ∅ |}.

(** C22: whatever sequence of operations runs, and whatever git and the file system answer,
    every pending version lies under the key of its note and bucket, one per key, with a
    valid path, the size and hash of its text, distinct contributors and an identifier no
    other pending version of the vault has. *)
Theorem history_ops_keep_pending w r ops : history_ok (fold_left run_history_op ops (empty_history w r)).
Proof.
  assert (history_ok (empty_history w r)) as Hs by apply map_Forall_empty.
  revert Hs. generalize (empty_history w r). induction ops as [|op ops IH]; intros s Hs; [done|]. cbn [fold_left].
  apply IH. destruct op; cbn [run_history_op]; revert s Hs.
  - by apply keeps_record.
  - apply keeps_list.
  - apply keeps_readVersion.
  - apply keeps_moveFile.
  - apply quiet_within, quiet_moveFolder.
  - apply keeps_flush.
Qed.
End flush.
