(* ===== verification/HistoryCommits.v ===== *)
(** The commits a flush makes, as a journal of the git processes shows them, the versions it
    removes from the pending ones, and the one entry that versions of a note in the same
    bucket become. *)
From Stdlib Require Import Sorting.Sorted.
From S2P Require Import Prelude JsString Utf8 NodePath Json VaultPath FileSystem IsoDate AuditLog FolderMetadata HistoryData Sha256 FileHistory HistoryPending HistoryFlush.

(** * Commits *)

(** [git -C root commit ...]. *)
Definition is_commit (c : git_call) : bool := from_option (fun a => jeqb a (js "commit")) false (gc_args c !! 2).

Section journal.
Context `{Host, JsonHost, DateHost, NodeHost, GitTool}.

(** An observer that writes down the [git commit] processes with some exits. *)
Context (journal : repo -> list git_call).
Definition journals_of (seen : child_exit -> bool) : Prop := forall c w r,
  journal (git_process c w r).2.2 = journal r ++ if is_commit c && seen (git_process c w r).1 then [c] else [].

(** One that writes down every [git commit] that was run. *)
Definition journals : Prop := forall c w r,
  journal (git_process c w r).2.2 = journal r ++ if is_commit c then [c] else [].

(** One that writes down those that git has answered: exit code zero, and an output that
    [execFile] takes. *)
Definition answered (exit : child_exit) : bool :=
  match exit with Exited code out => (code =? 0)%Z && (Z.of_nat (length out) <=? 10 * 1024 * 1024)%Z | _ => false end.
Definition journals_answered : Prop := journals_of answered.

Lemma journals_all : journals -> journals_of (fun _ => true).
Proof. intros Hj c w r. by rewrite Hj, andb_true_r. Qed.

Section seen.
Context (seen : child_exit -> bool) (Hjournal : journals_of seen).

Definition commits (s : history_state) : list git_call := journal (hs_repo s).
Definition no_commit (s s' : history_state) : Prop := commits s' = commits s.

#[export] Instance no_commit_preorder : PreOrder no_commit.
Proof. split; [done|]. intros s1 s2 s3 H12 H23. unfold no_commit in *. congruence. Qed.

(** What the journal holds after a process, by what [execFile] makes of it. *)
Lemma no_commit_exec c b : is_commit c = false -> within no_commit (execFileAsync c b).
Proof.
  intros Hc s. unfold no_commit, commits, execFileAsync. pose proof (Hjournal c (hs_world s) (hs_repo s)) as Hj.
  rewrite Hc, app_nil_r in Hj. destruct (git_process _ _ _) as [exit [f r]]. destruct exit; cbn; repeat case_match; done.
Qed.

Lemma commits_git root args env s :
  is_commit {| gc_args := git_args root args; gc_env := env |} = true ->
  match runGit root args env s with
  | (Ok _, s') => (forall exit, answered exit = true -> seen exit = true) ->
      commits s' = commits s ++ [{| gc_args := git_args root args; gc_env := env |}]
  | (Err _, s') => (forall exit, seen exit = true -> answered exit = true) -> commits s' = commits s
  end.
Proof.
  intros Hc. unfold runGit, execFileAsync, commits. set (c := {| gc_args := _ |}) in *.
  pose proof (Hjournal c (hs_world s) (hs_repo s)) as Hj. rewrite Hc in Hj. cbn [andb] in Hj.
  destruct (git_process _ _ _) as [exit [f r]]. cbn [fst snd] in Hj.
  assert (seen exit = false -> journal r = journal (hs_repo s)) as Hno by (intros E; by rewrite Hj, E, app_nil_r).
  assert (forall (P : (child_exit -> Prop)), answered exit = false -> (forall exit, seen exit = true -> answered exit = true) ->
    journal r = journal (hs_repo s)) as Hbad.
  { intros _ Ha Hs. apply Hno. destruct (seen exit) eqn:E; [|done]. apply Hs in E. congruence. }
  destruct exit as [code out|e|]; cbn [from_option]; [|by apply (Hbad (fun _ => True))..].
  destruct (_ <? _)%Z eqn:El; [apply (Hbad (fun _ => True)); cbn; apply andb_false_iff; right; lia|].
  destruct (code =? 0)%Z eqn:Ecode; [|by apply (Hbad (fun _ => True)); cbn; rewrite Ecode].
  intros Hs. cbn. rewrite Hj, Hs; [done|]. cbn. rewrite Ecode. cbn. lia.
Qed.

Lemma no_commit_call {A} (m : M A) : within no_commit (call m).
Proof. intros s. unfold call. by destruct (m _) as [[a|e] w]. Qed.

Lemma no_commit_world f : (forall s, hs_repo (f s) = hs_repo s) -> within no_commit (hmodify f).
Proof. intros Hf s. unfold no_commit, commits. cbn. by rewrite Hf. Qed.

Lemma no_commit_pending root : within no_commit (pendingForRoot root).
Proof. intros s. unfold pendingForRoot. by case_match. Qed.

Ltac no_commit :=
  repeat first
    [ progress intros
    | apply no_commit_call | apply no_commit_exec; reflexivity | apply no_commit_world; reflexivity
    | apply no_commit_pending
    | apply within_ret; typeclasses eauto | apply within_throw; typeclasses eauto
    | apply within_asks; typeclasses eauto
    | apply within_bind; [typeclasses eauto|..]
    | apply within_catch; [typeclasses eauto|..]
    | apply within_finally; [typeclasses eauto|..]
    | progress cbv zeta
    | case_match ].

Lemma no_commit_stage root entry : within no_commit (stagePendingEntry root entry).
Proof. unfold stagePendingEntry, stage_body, unstage_previous, rm_force, runGit. no_commit. Qed.

Lemma no_commit_ensure root : within no_commit (ensureGitRepository root).
Proof.
  unfold ensureGitRepository, init_repository, writeDefaultGitignore, hasGitRepository, warn, runGit. no_commit.
Qed.

Lemma no_commit_put root p : within no_commit (put_pending root p).
Proof. by apply no_commit_world. Qed.

Definition commit_call (root : jstr) (now : option Z) (entry : PendingHistoryEntry) (staged : jstr) : git_call :=
  {| gc_args := git_args root (commit_args (staged_entry entry staged) now); gc_env := author_env |}.

(** A commit that is answered is one call, and one that fails is none, for an observer who
    sees the answered ones. *)
Lemma commitPendingEntry_commits root entry now s :
  match commitPendingEntry root entry now s with
  | (Ok _, s') => (forall exit, answered exit = true -> seen exit = true) ->
      exists staged, commits s' = commits s ++ [commit_call root now entry staged]
  | (Err _, s') => (forall exit, seen exit = true -> answered exit = true) -> commits s' = commits s
  end.
Proof.
  unfold commitPendingEntry, mbind, HM_bind. pose proof (no_commit_stage root entry s) as H1s.
  unfold no_commit in *. destruct (stagePendingEntry root entry s) as [[[]|e] s1]; cbn [snd] in *; [|done].
  unfold runGitContent. unfold runGit at 1. match goal with |- context [execFileAsync ?c ?b s1] =>
    pose proof (no_commit_exec c b eq_refl s1) as H2s; unfold no_commit in *;
    destruct (execFileAsync c b s1) as [[o|e] s2]; cbn [snd] in *; [|congruence] end.
  match goal with |- context [execFileAsync ?c ?b s2] =>
    pose proof (no_commit_exec c b eq_refl s2) as H3s; unfold no_commit in *;
    destruct (execFileAsync c b s2) as [[staged|e] s3]; cbn [snd] in *; [|congruence] end.
  unfold commitHistoryEntry, mbind, HM_bind.
  match goal with |- context [runGit root ?a ?env s3] => pose proof (commits_git root a env s3 eq_refl) as H4s;
    destruct (runGit root a env s3) as [[o4|e] s4] end.
  - intros Hs. exists staged. unfold mret, HM_ret. rewrite H4s by done. unfold commit_call. congruence.
  - intros Hs. rewrite H4s by done. congruence.
Qed.

Lemma flush_entries_commits root now sel flushed s n s' :
  (forall exit, answered exit = true -> seen exit = true) -> flush_entries root sel now flushed s = (Ok n, s') ->
  exists staged, length staged = length sel /\
    commits s' = commits s ++ zip_with (fun ke t => commit_call root now ke.2 t) sel staged.
Proof.
  intros Hseen. revert flushed s. induction sel as [|[key e] sel IH]; intros flushed s; cbn [flush_entries].
  { intros [= _ <-]. exists []. by rewrite app_nil_r. }
  unfold mbind at 1, HM_bind at 1. pose proof (commitPendingEntry_commits root e now s) as Ht.
  destruct (commitPendingEntry root e now s) as [[u|x] s1]; [|done]. destruct (Ht Hseen) as [t Ht']. unfold mbind, HM_bind.
  pose proof (no_commit_pending root s1) as Hp. destruct (pendingForRoot root s1) as [[p|] s2]; [|done].
  pose proof (no_commit_put root (pending_delete p key) s2) as Hq. destruct (put_pending _ _ s2) as [[v|] s3]; [|done].
  intros (staged & Hl & Hc)%IH. exists (t :: staged). split; [cbn; lia|]. cbn [snd zip_with] in *.
  unfold no_commit in *. rewrite Hc, Hq, Hp, Ht'. by rewrite <- app_assoc.
Qed.
End seen.

(** The versions of the given paths, or all of them. *)
Definition of_paths (paths : option (list jstr)) (m : PendingHistoryMap) : PendingHistoryMap :=
  List.filter (fun ke => from_option (fun ps => bool_decide (pe_path ke.2 ∈ ps)) true paths) m.
Definition oldest_first (sel : PendingHistoryMap) : Prop :=
  Sorted (fun l r => locale_compare (pe_updatedAt l.2) (pe_updatedAt r.2) <> Gt) sel.

Lemma selectPendingEntries_spec m paths sel :
  (forall a b, locale_compare a b = Gt -> locale_compare b a <> Gt) ->
  selectPendingEntries m paths = Ok sel -> sel ≡ₚ of_paths paths m /\ oldest_first sel.
Proof.
  intros Hanti Hsel.
  assert (sel = sort_by (fun l r => locale_compare (pe_updatedAt l.2) (pe_updatedAt r.2)) (of_paths paths m)) as ->.
  { unfold selectPendingEntries in Hsel. destruct paths as [ps|]; cbn in Hsel; [|by injection Hsel as <-].
    destruct (validate_all ps) as [qs|e] eqn:E; [|done]. cbn in Hsel. injection Hsel as <-.
    assert (qs = ps) as ->; [|done]. clear -E. revert qs E.
    induction ps as [|p ps IH]; cbn; intros qs E; [by injection E|]. inv_result.
    apply validate_ok in H as [-> _]. f_equal. by apply IH. }
  split; [apply sort_by_perm|].
  apply (sort_by_sorted (fun l r => locale_compare (pe_updatedAt l.2) (pe_updatedAt r.2))). intros y z. apply Hanti.
Qed.

(** C23: a flush removes from the pending versions exactly those whose commit git has
    answered: it commits a prefix of the selection, one call for each in order, and these
    are gone afterwards while all others are still pending. The prefix is the whole
    selection when it answers, nothing when there is no git, and it ends before a selected
    version when it throws. *)
Theorem flush_removes_committed root input s sel :
  journals_answered -> selectPendingEntries (root_pending s root) (fl_paths input) = Ok sel ->
  exists r s' k staged, flushFileHistory root input s = (r, s') /\ k <= length sel /\ length staged = k /\
    commits s' = commits s ++ zip_with (fun ke t => commit_call root (fl_now input) ke.2 t) (take k sel) staged /\
    root_pending s' root = drop_keys (take k sel.*1) (root_pending s root) /\ only_root root s s' /\
    match r with
    | Ok (VOk v) => fv_flushed v = k /\ k = if fv_unavailable v then 0 else length sel
    | Ok (VFail _ _) => False
    | Err _ => k < length sel
    end.
Proof.
  intros Hj Hsel. destruct (pendingForRoot_same root s) as (s1 & Hrun & Hroot1 & Ho1).
  pose proof (no_commit_pending root s) as Hc1. rewrite Hrun in Hc1. cbn [snd] in Hc1.
  unfold flushFileHistory. unfold mbind at 1, HM_bind at 1. rewrite Hrun, Hsel.
  unfold throw_path. unfold mbind at 1, HM_bind at 1, mret at 1, HM_ret at 1.
  destruct sel as [|ke sel'] eqn:Esel.
  { eexists _, s1, 0, []. split_and!; [reflexivity|done..| | |done|done]; [by rewrite app_nil_r|by rewrite drop_keys_nil]. }
  rewrite <- Esel in *. clear Esel ke sel'. unfold mbind at 1, HM_bind at 1.
  destruct (ensureGitRepository_ok root s1) as (ready & s2 & Hens).
  pose proof (quiet_ensure root s1) as [Hq _]. pose proof (no_commit_ensure answered Hj root s1) as Hc2. rewrite Hens in *. cbn [snd] in *.
  assert (root_pending s2 root = root_pending s root) as Hroot2 by (rewrite <- Hroot1; unfold root_pending; by rewrite Hq).
  assert (only_root root s s2) as Ho2 by (intros r Hr; rewrite Hq; by apply Ho1).
  assert (commits s2 = commits s) as Hcs by (unfold no_commit in *; congruence).
  destruct ready; cbn [negb].
  2:{ eexists _, s2, 0, []. split_and!; [reflexivity|lia|done| | |done|done]; [by rewrite app_nil_r|]. cbn [take]. by rewrite drop_keys_nil. }
  destruct (flush_entries_split root (fl_now input) sel 0 s2) as (k & s3 & Hk & Htake & Hres).
  pose proof (flush_entries_all _ _ _ _ _ _ _ Htake) as (_ & Hp & Ho).
  destruct (flush_entries_commits answered Hj _ _ _ _ _ _ _ ltac:(done) Htake) as (staged & Hl & Hc).
  rewrite length_take in Hl. unfold mbind, HM_bind. destruct Hres as [[-> ->]|(ke & x & s4 & Hke & Hfail & ->)].
  - eexists _, s3, (length sel), staged. split_and!; [reflexivity|done|lia|by rewrite Hc, Hcs| | |done].
    + by rewrite Hp, Hroot2, fmap_take.
    + by transitivity s2.
  - pose proof (commitPendingEntry_commits answered Hj root ke.2 (fl_now input) s3) as Hnc. pose proof (quiet_commitPending root ke.2 (fl_now input) s3) as [Hq4 _].
    rewrite Hfail in *. cbn [snd] in *. eexists _, s4, k, staged. split_and!; [reflexivity|done|lia| | | |].
    + by rewrite Hnc, Hc, Hcs.
    + transitivity (root_pending s3 root); [unfold root_pending; by rewrite Hq4|]. by rewrite Hp, Hroot2, fmap_take.
    + transitivity s2; [done|]. transitivity s3; [done|]. intros r Hr. by rewrite Hq4.
    + by eapply lookup_lt_Some.
Qed.

Section every.
Context (Hjournal : journals).

(** C24: a flush that answers commits every selected version once, in the order of their
    last update, each under the message made of the entry with the size and the hash of
    what git had staged for it. *)
Theorem flushFileHistory_commits root input s v s' :
  (forall a b, locale_compare a b = Gt -> locale_compare b a <> Gt) ->
  flushFileHistory root input s = (Ok (VOk v), s') -> fv_unavailable v = false ->
  exists sel staged,
    sel ≡ₚ of_paths (fl_paths input) (root_pending s root) /\ oldest_first sel /\
    length staged = length sel /\ fv_flushed v = length sel /\
    commits s' = commits s ++ zip_with (fun ke t => commit_call root (fl_now input) ke.2 t) sel staged.
Proof.
  intros Hanti. unfold flushFileHistory. pose proof (no_commit_pending root s) as Hp.
  destruct (pendingForRoot_run root s) as (s1 & Hrun & _). unfold mbind at 1, HM_bind at 1. rewrite Hrun in *. cbn [snd] in Hp.
  destruct (selectPendingEntries _ _) as [sel|e] eqn:Esel; [|done].
  apply selectPendingEntries_spec in Esel as [Hsel Hsorted]; [|done].
  unfold throw_path. unfold mbind at 1, HM_bind at 1, mret at 1, HM_ret at 1. intros Hflush Hav.
  exists sel. destruct sel as [|ke sel'] eqn:E.
  { injection Hflush as <- <-. exists []. cbn. by rewrite app_nil_r. }
  rewrite <- E in *. pose proof (no_commit_ensure _ (journals_all Hjournal) root s1) as He. unfold mbind at 1, HM_bind at 1 in Hflush.
  destruct (ensureGitRepository root s1) as [[ready|] s2]; [|done].
  destruct ready; cbn [negb] in Hflush; [|by injection Hflush as <- <-].
  unfold mbind, HM_bind in Hflush. destruct (flush_entries root sel _ 0 s2) as [[n|] s3] eqn:Ef; [|done].
  injection Hflush as <- <-. pose proof (flush_entries_all _ _ _ _ _ _ _ Ef) as (Hn & _).
  destruct (flush_entries_commits _ (journals_all Hjournal) _ _ _ _ _ _ _ ltac:(done) Ef) as (staged & Hl & Hc). exists staged.
  split_and!; [done..|cbn; lia|]. cbn [snd] in *. unfold no_commit in *. by rewrite Hc, He, Hp.
Qed.
End every.
End journal.

(** * Versions of one bucket *)

Section coalescing.
Context `{Host, JsonHost, DateHost, NodeHost, GitTool}.

Fixpoint record_all (root : jstr) (inputs : list RecordFileHistoryInput) : HM unit :=
  match inputs with
  | [] => mret tt
  | input :: inputs => recordFileHistory root input;; record_all root inputs
  end.

(** A version of the note [rel], made in the bucket that starts at [b]. *)
Definition in_bucket (rel b : jstr) (input : RecordFileHistoryInput) : Prop :=
  validateVaultPath Posix (ri_path input) PKFile = Ok rel /\
  exists t, ri_now input = Some t /\ bucketStartIso t (ri_coalesceWindowMs input) = b.

Definition version_actor (input : RecordFileHistoryInput) : VaultActor := or_unknown (ri_actor input).

(** The one entry the versions make: the last text, a creation when one of them was, and
    every contributor once, in the order of their first version. *)
Record entry_of (id rel b : jstr) (inputs : list RecordFileHistoryInput) (final : RecordFileHistoryInput)
    (e : PendingHistoryEntry) : Prop := {
  eof_last : last inputs = Some final;
  eof_id : pe_id e = id;
  eof_path : pe_path e = rel;
  eof_created : pe_createdAt e = b;
  eof_content : pe_content e = ri_content final;
  eof_hash : pe_contentHash e = hashContent (ri_content final);
  eof_size : pe_size e = Z.of_nat (length (encode (ri_content final)));
  eof_updated : pe_updatedAt e = toISOString (default 0%Z (ri_now final));
  eof_operation : pe_operation e = if existsb (fun i => bool_decide (ri_operation i = HCreate)) inputs
                                   then HCreate else ri_operation final;
  eof_sublist : pe_contributors e `sublist_of` map version_actor inputs;
  eof_distinct : NoDup (map actorKey (pe_contributors e));
  eof_all : forall i, i ∈ inputs -> actorKey (version_actor i) ∈ map actorKey (pe_contributors e)
}.

Lemma entry_of_new id rel b input t :
  in_bucket rel b input -> ri_now input = Some t -> entry_of id rel b [input] input (new_entry id rel input t).
Proof.
  intros (_ & t' & Ht & Hb) Ht'. rewrite Ht in Ht'. injection Ht' as ->. split; cbn; try done.
  - by rewrite Ht.
  - by case_bool_decide.
  - apply NoDup_singleton.
  - intros i ->%list_elem_of_singleton. left.
Qed.

Lemma entry_of_more id rel b inputs final e input t :
  entry_of id rel b inputs final e -> ri_now input = Some t ->
  entry_of id rel b (inputs ++ [input]) input (coalesce e input t).
Proof.
  intros [] Ht. split; cbn; try done.
  - by rewrite last_snoc.
  - by rewrite Ht.
  - rewrite existsb_app. cbn. rewrite orb_false_r, eof_operation0.
    destruct (existsb _ inputs) eqn:E; cbn; [by rewrite bool_decide_true|].
    apply existsb_false_Forall in E. rewrite Forall_forall in E. apply last_Some_elem_of in eof_last0.
    specialize (E _ eof_last0). cbn in E. rewrite E.
    destruct (bool_decide (ri_operation input = HCreate)) eqn:Eop; [|done]. by to_prop.
  - fold (version_actor input). rewrite map_app. destruct (addContributor_cases (pe_contributors e) (version_actor input)) as [[-> _]|[-> _]].
    + by apply sublist_inserts_r.
    + apply sublist_app; [done|]. by repeat constructor.
  - by apply addContributor_distinct.
  - intros i Hi. fold (version_actor input).
    destruct (addContributor_cases (pe_contributors e) (version_actor input)) as [[-> Ha]|[-> _]];
      apply elem_of_app in Hi as [Hi| ->%list_elem_of_singleton].
    + by apply eof_all0.
    + done.
    + rewrite map_app. apply elem_of_app. left. by apply eof_all0.
    + rewrite map_app. apply elem_of_app. right. left.
Qed.

Lemma record_all_app root l k s :
  record_all root (l ++ k) s = (record_all root l;; record_all root k) s.
Proof.
  revert s. induction l as [|i l IH]; intros s; [done|]. cbn [app record_all]. unfold mbind, HM_bind in *.
  destruct (recordFileHistory root i s) as [[v|e] s1]; [|done]. apply IH.
Qed.

(** versions of a note made in one bucket, of which none was waiting, become one entry
    at the end of the pending ones, under one new identifier. *)
Theorem versions_coalesce root rel b inputs final s :
  Forall (in_bucket rel b) inputs -> last inputs = Some final ->
  pending_get (root_pending s root) (pendingKey rel b) = None ->
  exists s' e, record_all root inputs s = (Ok tt, s') /\
    root_pending s' root = root_pending s root ++ [(pendingKey rel b, e)] /\
    entry_of (pending_id (w_next_uuid (hs_world s))) rel b inputs final e /\
    w_next_uuid (hs_world s') = (w_next_uuid (hs_world s) + 1)%N /\ w_fs (hs_world s') = w_fs (hs_world s).
Proof.
  intros Hall Hlast Hnone. revert final Hlast. induction inputs as [|input inputs IH] using rev_ind; [done|].
  intros final. rewrite last_snoc. intros [= <-]. apply Forall_app in Hall as [Hall [Hin _]%Forall_cons].
  pose proof Hin as (Hrel & t & Ht & Hb). setoid_rewrite record_all_app.
  destruct inputs as [|i0 rest] eqn:E.
  - destruct (recordFileHistory_run root input rel s Hrel) as (s' & Hrun & Hp & _ & _ & Hf & _ & Hu).
    assert (record_key s rel input = pendingKey rel b) as Hkey by (unfold record_key; by rewrite Ht, <- Hb).
    exists s', (record_entry s root rel input). split_and!.
    + cbn [record_all]. unfold mbind, HM_bind, mret, HM_ret. by rewrite Hrun.
    + unfold root_pending at 1. rewrite Hp, lookup_insert_eq. cbn. rewrite Hkey. by apply pending_set_new.
    + unfold record_entry. rewrite Ht. cbn [default from_option id]. rewrite Hb, Hnone. by apply entry_of_new.
    + by rewrite Hu, Hkey, Hnone.
    + done.
  - rewrite <- E in *. destruct (last inputs) as [final|] eqn:El; [|apply last_None in El; congruence].
    destruct (IH Hall final eq_refl) as (s1 & e & Hrun & Hroot & Hof & Hu & Hf).
    destruct (recordFileHistory_run root input rel s1 Hrel) as (s' & Hrun' & Hp & _ & _ & Hf' & _ & Hu').
    assert (record_key s1 rel input = pendingKey rel b) as Hkey by (unfold record_key; by rewrite Ht, <- Hb).
    assert (pending_get (root_pending s1 root) (pendingKey rel b) = Some e /\
      forall e', pending_set (root_pending s1 root) (pendingKey rel b) e' = root_pending s root ++ [(pendingKey rel b, e')])
      as [Hget Hset].
    { rewrite Hroot. clear -Hnone. induction (root_pending s root) as [|[k x] m IHm]; cbn.
      - unfold jeqb. by rewrite bool_decide_true.
      - cbn in Hnone. destruct (jeqb k _); [done|]. destruct (IHm Hnone) as [? Hs]. split; [done|]. intros e'. by rewrite Hs. }
    exists s', (coalesce e input t). split_and!.
    + cbn [record_all]. unfold mbind, HM_bind, mret, HM_ret. by rewrite Hrun, Hrun'.
    + unfold root_pending at 1. rewrite Hp, lookup_insert_eq. cbn. rewrite Hkey, Hset.
      unfold record_entry. rewrite Ht. cbn [default from_option id]. by rewrite Hb, Hget.
    + by apply entry_of_more with final.
    + by rewrite Hu', Hkey, Hget.
    + by rewrite Hf'.
Qed.
End coalescing.
