(* ===== verification/HistoryRead.v ===== *)
(** Reading histories: the pages of a listing enumerate the history, the walk along the
    commits of a note ends and answers every commit once, and a version is answered only
    with the text its commit recorded. *)
From Stdlib Require Import Sorting.Sorted.
From S2P Require Import Prelude JsString Utf8 NodePath Json VaultPath FileSystem IsoDate AuditLog FolderMetadata HistoryData Sha256 FileHistory HistoryPending.

(** * The order of strings *)

Lemma lex_compare_eq s t : lex_compare s t = Eq -> s = t.
Proof.
  revert t. induction s as [|c s IH]; intros [|d t]; cbn; try done. destruct (N.compare_spec c d); [|done..].
  intros. f_equal; auto.
Qed.

Lemma lex_compare_opp s t : lex_compare t s = CompOpp (lex_compare s t).
Proof.
  revert t. induction s as [|c s IH]; intros [|d t]; cbn; try done. rewrite N.compare_antisym.
  destruct (c ?= d)%N; cbn; auto.
Qed.

Lemma lex_compare_trans s t u : lex_compare s t = Lt -> lex_compare t u = Lt -> lex_compare s u = Lt.
Proof.
  revert t u. induction s as [|c s IH]; intros [|d t] [|x u]; cbn; try done.
  destruct (N.compare_spec c d) as [->|Hcd|]; [| |done].
  - destruct (d ?= x)%N eqn:E; try done. apply IH.
  - destruct (N.compare_spec d x) as [->|Hdx|]; [| |done]; intros _ _.
    + by rewrite (proj2 (N.compare_lt_iff _ _)).
    + rewrite (proj2 (N.compare_lt_iff c x)); [done|lia].
Qed.

Section reading.
Context `{Host, JsonHost, DateHost, NodeHost, GitTool}.

(** * Pages *)

Definition entry_time (e : FileHistoryEntry) : option Z := date_parse (he_createdAt e).

(** Entries with a time, told apart by time and identifier, whose identifiers the
    locale orders as [<] does, as it orders digits, lower-case letters and hyphens. *)
Record orderly (l : list FileHistoryEntry) : Prop := {
  ord_times : Forall (fun e => is_Some (entry_time e)) l;
  ord_locale : forall e e', e ∈ l -> e' ∈ l -> locale_compare (he_id e) (he_id e') = lex_compare (he_id e) (he_id e');
  ord_distinct : NoDup (map (fun e => (entry_time e, he_id e)) l)
}.

(** What follows a later entry. *)
Definition follows (e x : FileHistoryEntry) : Prop :=
  exists te tx, entry_time e = Some te /\ entry_time x = Some tx /\
    ((tx < te)%Z \/ tx = te /\ lex_compare (he_id x) (he_id e) = Lt).

Lemma follows_trans a b c : follows a b -> follows b c -> follows a c.
Proof.
  intros (ta & tb & Ha & Hb & Hab) (tb' & tc & Hb' & Hc & Hbc). rewrite Hb in Hb'. injection Hb' as <-.
  exists ta, tc. split_and!; [done..|]. destruct Hab as [?|[-> ?]], Hbc as [?|[-> ?]]; [left; lia..|].
  right. split; [done|]. by eapply lex_compare_trans.
Qed.

Lemma compare_follows l e x :
  orderly l -> e ∈ l -> x ∈ l -> (entry_time e, he_id e) <> (entry_time x, he_id x) ->
  compareHistoryEntriesDesc e x <> Gt -> follows e x.
Proof.
  intros [Ht Hl _] He Hx Hne. rewrite Forall_forall in Ht. destruct (Ht _ He) as [te Hte], (Ht _ Hx) as [tx Htx].
  unfold compareHistoryEntriesDesc. unfold entry_time in *. rewrite Hte, Htx in *. intros Hc. exists te, tx.
  split_and!; [done..|]. destruct (Z.compare_spec tx te) as [->|?|?]; [|by left|done]. right. split; [done|].
  rewrite Hl in Hc by done. destruct (lex_compare (he_id x) (he_id e)) eqn:E; [|done..].
  apply lex_compare_eq in E. congruence.
Qed.

Lemma compare_anti l e x :
  orderly l -> e ∈ l -> x ∈ l -> compareHistoryEntriesDesc e x = Gt -> compareHistoryEntriesDesc x e <> Gt.
Proof.
  intros [Ht Hl _] He Hx. rewrite Forall_forall in Ht. destruct (Ht _ He) as [te Hte], (Ht _ Hx) as [tx Htx].
  unfold compareHistoryEntriesDesc, entry_time in *. rewrite Hte, Htx, !Hl by done.
  rewrite (Z.compare_antisym tx te), (lex_compare_opp (he_id x) (he_id e)).
  destruct (tx ?= te)%Z; cbn; [|done..]. by destruct (lex_compare _ _).
Qed.

(** Insertion keeps a list in the order, when the comparison is one on its elements. *)
Lemma insert_ordered l x k :
  orderly l -> x ∈ l -> (forall y, y ∈ k -> y ∈ l) -> (entry_time x, he_id x) ∉ map (fun e => (entry_time e, he_id e)) k ->
  StronglySorted follows k -> StronglySorted follows (insert_by compareHistoryEntriesDesc x k).
Proof.
  intros Hl Hx Hk Hne Hs. induction Hs as [|y k Hs IH Hy]; cbn; [by repeat constructor|].
  cbn in Hne. rewrite not_elem_of_cons in Hne. destruct Hne as [Hney Hne].
  assert (y ∈ l) as Hyl by (apply Hk; left).
  assert (compareHistoryEntriesDesc x y <> Gt -> StronglySorted follows (x :: y :: k)) as Hfirst.
  { intros Hc. assert (follows x y) as Hxy by by eapply compare_follows. constructor; [by constructor|].
    constructor; [done|]. eapply Forall_impl; [exact Hy|]. intros z. by apply follows_trans. }
  destruct (compareHistoryEntriesDesc x y) eqn:E; [by apply Hfirst..|].
  constructor; [apply IH; [|done]; intros z Hz; apply Hk; by right|].
  rewrite (insert_by_perm compareHistoryEntriesDesc x k). constructor; [|done].
  eapply compare_follows; [exact Hl|done..|congruence|]. by eapply compare_anti.
Qed.

Lemma sort_ordered l : orderly l -> StronglySorted follows (sort_by compareHistoryEntriesDesc l).
Proof.
  intros Hl. assert (forall y, y ∈ l -> y ∈ l) as Hsub by done. revert Hsub. pose proof (ord_distinct _ Hl) as Hnd.
  revert Hnd. generalize l at 1 2 4. intros k. induction k as [|x k IH]; cbn [map]; intros Hnd Hsub; [constructor|].
  change (sort_by ?c (x :: k)) with (insert_by c x (sort_by c k)).
  apply NoDup_cons in Hnd as [Hx Hnd]. apply (insert_ordered l); [done|apply Hsub; left|..].
  - intros y. rewrite (sort_by_perm compareHistoryEntriesDesc k). intros. apply Hsub. by right.
  - by rewrite (sort_by_perm compareHistoryEntriesDesc k).
  - apply IH; [done|]. intros y Hy. apply Hsub. by right.
Qed.

Lemma List_filter_all {A} (f : A -> bool) l : Forall (fun x => f x = true) l -> List.filter f l = l.
Proof. induction 1 as [|x l Hx _ IH]; cbn; [done|]. by rewrite Hx, IH. Qed.
Lemma List_filter_none {A} (f : A -> bool) l : Forall (fun x => f x = false) l -> List.filter f l = [].
Proof. induction 1 as [|x l Hx _ IH]; cbn; [done|]. by rewrite Hx, IH. Qed.

(** The cursor of an entry leaves what comes after it. *)
Lemma cursor_continues a e b :
  date_parse [] = None -> StronglySorted follows (a ++ e :: b) -> is_Some (entry_time e) ->
  applyHistoryCursor (a ++ e :: b) (Some (he_createdAt e)) (Some (he_id e)) = b.
Proof.
  intros Hnil Hs [te Hte]. unfold applyHistoryCursor. unfold entry_time in Hte.
  assert (truthy (Some (he_createdAt e)) = true) as -> by (destruct (he_createdAt e); [congruence|done]).
  cbn [default from_option id]. rewrite Hte, List.filter_app. cbn [List.filter]. rewrite Hte, !Z.ltb_irrefl, lex_compare_refl.
  rewrite bool_decide_false by done. rewrite List_filter_none, List_filter_all; [done|..].
  - assert (StronglySorted follows (e :: b)) as Heb by (clear -Hs; induction a; cbn in *; [done|]; inversion Hs; auto).
    inversion Heb as [|? ? _ Hb]. eapply Forall_impl; [exact Hb|]. intros x (te' & tx & Hte' & Htx & Hor).
    unfold entry_time in *. rewrite Hte in Hte'. injection Hte' as <-. rewrite Htx. destruct Hor as [Hlt|[-> Hlt]].
    + by rewrite (proj2 (Z.ltb_lt _ _)).
    + by rewrite !Z.ltb_irrefl, Hlt.
  - assert (Forall (fun x => follows x e) a) as Ha.
    { clear -Hs. induction a as [|x a IH]; [constructor|]. cbn in Hs. inversion Hs as [|? ? Hs' Hx]; subst.
      constructor; [|by apply IH]. rewrite Forall_app, Forall_cons in Hx. tauto. }
    eapply Forall_impl; [exact Ha|]. intros x (tx & te' & Htx & Hte' & Hor).
    unfold entry_time in *. rewrite Hte in Hte'. injection Hte' as <-. rewrite Htx. destruct Hor as [Hlt|[-> Hlt]].
    + rewrite (proj2 (Z.ltb_ge _ _)) by lia. by rewrite (proj2 (Z.ltb_lt _ _)).
    + rewrite !Z.ltb_irrefl, lex_compare_opp, Hlt. done.
Qed.

Lemma cloneFileHistoryEntry_id e : cloneFileHistoryEntry e = e.
Proof.
  unfold cloneFileHistoryEntry. rewrite cloneActor_id. destruct e as [? ? ? ? ? cs ? ? ? ? ? ? ?]. cbn. f_equal.
  destruct cs; cbn; [|done]. by rewrite map_cloneActor.
Qed.

Lemma map_clone_id l : map cloneFileHistoryEntry l = l.
Proof. induction l as [|e l IH]; cbn; [done|]. by rewrite cloneFileHistoryEntry_id, IH. Qed.

Lemma normalizePageLimit_bounds v : (1 <= normalizePageLimit v <= MAX_HISTORY_PAGE_LIMIT)%Z.
Proof.
  unfold normalizePageLimit, DEFAULT_HISTORY_PAGE_LIMIT, MAX_HISTORY_PAGE_LIMIT. repeat case_match; to_prop; lia.
Qed.

(** A client that asks for the page after the last entry it has, until there is no more;
    [turns] bounds the number of pages. *)
Fixpoint list_pages (turns fuel : nat) (root rel : jstr) (limit : option number) (before beforeId : option jstr)
  : HM (list FileHistoryEntry) :=
  match turns with
  | O => mret []
  | S turns =>
      answer ← listFileHistory fuel root
        {| lh_path := rel; lh_before := before; lh_beforeId := beforeId; lh_limit := limit |};
      match answer with
      | VFail _ _ => mret []
      | VOk page =>
          match hp_hasMore page, last (hp_entries page) with
          | true, Some e =>
              rest ← list_pages turns fuel root rel limit (Some (he_createdAt e)) (Some (he_id e));
              mret (hp_entries page ++ rest)
          | _, _ => mret (hp_entries page)
          end
      end
  end.

Lemma list_pages_from turns fuel root rel limit before beforeId found s pre rest :
  validateVaultPath Posix rel PKFile = Ok rel -> history_entries fuel root rel s = (Ok found, s) ->
  orderly found -> date_parse [] = None ->
  sort_by compareHistoryEntriesDesc found = pre ++ rest ->
  applyHistoryCursor (pre ++ rest) before beforeId = rest -> length rest < turns ->
  list_pages turns fuel root rel limit before beforeId s = (Ok rest, s).
Proof.
  intros Hrel Hfound Hord Hnil. revert before beforeId pre rest. induction turns as [|turns IH]; [lia|].
  intros before beforeId pre rest Hsort Hcur Hlen. cbn [list_pages]. unfold mbind at 1, HM_bind at 1, listFileHistory.
  cbn [lh_path]. rewrite Hrel. cbn [with_path]. unfold mbind at 1, HM_bind at 1. rewrite Hfound. unfold mret at 1, HM_ret at 1.
  unfold history_page. cbn [lh_before lh_beforeId lh_limit]. rewrite Hsort, Hcur. cbn [hp_hasMore hp_entries].
  rewrite map_clone_id. set (n := Z.to_nat (normalizePageLimit limit)).
  assert (1 <= n) as Hn by (pose proof (normalizePageLimit_bounds limit); lia).
  rewrite length_take. case_bool_decide as Hmore.
  2:{ rewrite take_ge by lia. by destruct (last rest). }
  destruct (last (take n rest)) as [e|] eqn:El.
  2:{ apply last_None in El. apply (f_equal length) in El. rewrite length_take in El. cbn in El. lia. }
  apply last_Some in El as [page El]. pose proof (take_drop n rest) as Hrest. rewrite El in *.
  assert (pre ++ rest = (pre ++ page) ++ e :: drop n rest) as Heq by (rewrite <- Hrest at 1; by rewrite <- !app_assoc).
  unfold mbind, HM_bind. rewrite (IH _ _ (pre ++ page ++ [e]) (drop n rest)).
  - cbn. by rewrite <- Hrest at 2.
  - rewrite Hsort, Heq. by rewrite <- !app_assoc.
  - rewrite <- app_assoc. replace (pre ++ (page ++ [e]) ++ drop n rest) with ((pre ++ page) ++ e :: drop n rest)
      by by rewrite <- !app_assoc.
    apply cursor_continues; [done|rewrite <- Heq, <- Hsort; by apply sort_ordered|].
    pose proof (ord_times _ Hord) as Ht. rewrite Forall_forall in Ht. apply Ht.
    rewrite <- (sort_by_perm compareHistoryEntriesDesc found), Hsort, Heq. apply elem_of_app. right. left.
  - rewrite length_drop. lia.
Qed.

(** C27: following the cursor from page to page answers every entry of a history once,
    newest first, whatever the size of the pages. *)
Theorem list_pages_enumerate turns fuel root rel limit found s :
  validateVaultPath Posix rel PKFile = Ok rel -> history_entries fuel root rel s = (Ok found, s) ->
  orderly found -> date_parse [] = None -> length found < turns ->
  exists l, list_pages turns fuel root rel limit None None s = (Ok l, s) /\ l ≡ₚ found /\ StronglySorted follows l.
Proof.
  intros Hrel Hfound Hord Hnil Hlen. exists (sort_by compareHistoryEntriesDesc found).
  split_and!; [|apply sort_by_perm|by apply sort_ordered].
  apply (list_pages_from turns fuel root rel limit None None found s []); try done.
  by rewrite (sort_by_perm compareHistoryEntriesDesc found).
Qed.

(** * The commits of a note *)

(** The state of the walk: every commit seen has one record. *)
Record scan_ok (rel : jstr) (acc : history_scan) : Prop := {
  sk_seen : map (fun r => he_commitId (cr_entry r)) (sc_entries acc) ⊆ Some <$> elements (sc_seen acc);
  sk_commits : NoDup (map (fun r => he_commitId (cr_entry r)) (sc_entries acc));
  sk_path : Forall (fun r => he_path (cr_entry r) = rel /\ he_pending (cr_entry r) = None) (sc_entries acc);
  sk_content : Forall (fun r => validateVaultPath Posix (cr_contentPath r) PKFile = Ok (cr_contentPath r)) (sc_entries acc)
}.

Lemma entryFromCommitValues_fields rel c at_ values e :
  entryFromCommitValues rel c at_ values = Some e -> he_path e = rel /\ he_commitId e = Some c /\ he_pending e = None.
Proof. unfold entryFromCommitValues. intros (op & _ & [= <-])%bind_Some. done. Qed.

Lemma push_record_ok rel acc c r :
  scan_ok rel acc -> he_commitId (cr_entry r) = Some c -> he_path (cr_entry r) = rel -> he_pending (cr_entry r) = None ->
  validateVaultPath Posix (cr_contentPath r) PKFile = Ok (cr_contentPath r) -> scan_ok rel (push_record acc c r).
Proof.
  intros [Hs Hc Hp Hv] Hid Hr Hnp Hpath. unfold push_record. case_bool_decide as Hin; [done|]. split; cbn.
  - rewrite map_app. cbn. rewrite Hid. intros x [Hx| ->%list_elem_of_singleton]%elem_of_app; apply list_elem_of_fmap.
    + apply Hs, list_elem_of_fmap in Hx as (y & -> & Hy%elem_of_elements). exists y. split; [done|]. set_solver.
    + exists c. split; [done|]. set_solver.
  - rewrite map_app. cbn. rewrite Hid. apply NoDup_app. split_and!; [done| |apply NoDup_singleton].
    intros x Hx ->%list_elem_of_singleton. apply Hs, list_elem_of_fmap in Hx as (y & [= <-] & Hy%elem_of_elements). done.
  - apply Forall_app. split; [done|]. by repeat constructor.
  - apply Forall_app. split; [done|]. by repeat constructor.
Qed.

Lemma historyCommitScope_path current op recorded from p stops :
  historyCommitScope current op recorded from = Match (Some p) stops -> validateVaultPath Posix p PKFile = Ok p.
Proof.
  unfold historyCommitScope. intros Hs. repeat case_match; simplify_eq;
  match goal with Hv : validateVaultPath _ _ _ = Ok _ |- _ => apply validate_ok in Hv as [-> Hv]; by apply validate_ok end.
Qed.

Lemma scan_records_ok rel current records acc acc' fin :
  validateVaultPath Posix current PKFile = Ok current -> scan_ok rel acc ->
  scan_records rel current records acc = (acc', fin) ->
  scan_ok rel acc' /\
  match fin with
  | ScanPrevious p rev => validateVaultPath Posix p PKFile = Ok p /\
                          exists r, r ∈ records /\ rev = lr_commitId r ++ js "^"
  | _ => True
  end.
Proof.
  intros Hcur. revert acc. induction records as [|r records IH]; intros acc Hacc; cbn [scan_records].
  { by intros [= <- <-]. }
  assert (forall acc, scan_ok rel acc -> scan_records rel current records acc = (acc', fin) -> scan_ok rel acc' /\
    match fin with
    | ScanPrevious p rev => validateVaultPath Posix p PKFile = Ok p /\ exists r', r' ∈ r :: records /\ rev = lr_commitId r' ++ js "^"
    | _ => True
    end) as Hrest.
  { intros acc1 Hacc1 Hscan. destruct (IH _ Hacc1 Hscan) as [? Hf]. split; [done|]. destruct fin; try done.
    destruct Hf as (? & r' & ? & ?). split; [done|]. exists r'. split; [by right|done]. }
  destruct (entryFromCommitValues _ _ _ _) as [parsed|] eqn:Ep; [|by apply Hrest].
  apply entryFromCommitValues_fields in Ep as (Hp & Hid & Hnp).
  destruct (historyCommitScope _ _ _ _) as [|previous stops] eqn:Es; [by apply Hrest|].
  set (acc1 := push_record _ _ _). assert (scan_ok rel acc1) as Hacc1 by by apply push_record_ok.
  destruct (_ || _); [by intros [= <- <-]|]. destruct previous as [[|c p]|]; cbn [truthy]; [by apply Hrest| |by apply Hrest].
  intros [= <- <-]. split; [done|]. apply historyCommitScope_path in Es. split; [done|]. exists r. split; [left|done].
Qed.

Lemma read_segments_ok fuel root rel current rev acc s l s' :
  validateVaultPath Posix current PKFile = Ok current -> scan_ok rel acc ->
  read_segments fuel root rel current rev acc s = (Ok l, s') -> exists acc', scan_ok rel acc' /\ l = sc_entries acc'.
Proof.
  revert current rev acc s. induction fuel as [|fuel IH]; intros current rev acc s Hcur Hacc; cbn [read_segments]; [done|].
  unfold mbind at 1, HM_bind at 1. destruct (hcatch _ _ s) as [[[records|]|e] s1]; [|intros [= <- <-]; eauto|done].
  destruct (scan_records _ _ _ _) as [acc1 fin] eqn:Es. apply scan_records_ok in Es as [Hacc1 Hfin]; [|done..].
  destruct fin as [|p r|]; [intros [= <- <-]; eauto| |intros [= <- <-]; eauto].
  destruct Hfin as [Hp _]. by apply IH.
Qed.

(** What is read of a history: one record per commit, for the note that was asked, each
    with a valid path at which the commit holds the text. *)
Lemma readCommittedHistory_ok fuel root rel s l s' :
  validateVaultPath Posix rel PKFile = Ok rel -> readCommittedHistory fuel root rel s = (Ok l, s') ->
  exists acc, scan_ok rel acc /\ l = sc_entries acc.
Proof.
  intros Hrel. unfold readCommittedHistory, mbind, HM_bind.
  assert (scan_ok rel {| sc_entries := []; sc_seen := ∅ |}) as Hnil by (split; cbn; try constructor; set_solver).
  destruct (hasGitRepository root s) as [[[|]|e] s1]; cbn [negb]; [|intros [= <- <-]; eauto|done].
  by apply read_segments_ok.
Qed.

(** what is read of the committed history of a note holds every commit at most once,
    under the path that was asked, and names for each a valid path of its text. *)
Theorem readCommittedHistory_chain fuel root rel s l s' :
  validateVaultPath Posix rel PKFile = Ok rel -> readCommittedHistory fuel root rel s = (Ok l, s') ->
  NoDup (map (fun r => he_commitId (cr_entry r)) l) /\
  Forall (fun r => he_path (cr_entry r) = rel /\ is_Some (he_commitId (cr_entry r)) /\
                   validateVaultPath Posix (cr_contentPath r) PKFile = Ok (cr_contentPath r)) l.
Proof.
  intros Hrel (acc & [Hseen Hnd Hp Hv] & ->)%readCommittedHistory_ok; [|done]. split; [done|].
  rewrite Forall_forall in *. intros r Hr. split_and!; [by apply Hp| |by apply Hv].
  assert (he_commitId (cr_entry r) ∈ Some <$> elements (sc_seen acc)) as (c & -> & _)%list_elem_of_fmap; [|eauto].
  apply Hseen. by apply (list_elem_of_fmap_2 (fun r => he_commitId (cr_entry r))).
Qed.

(** * The walk ends *)

(** The command lines of [git log] that the walk makes. *)
Definition log_call (root current : jstr) (rev : option jstr) : git_call :=
  {| gc_args := git_args root (log_args current rev); gc_env := [] |}.

(** [git log] reads: it leaves the repository alone, and [git log c^] answers commits
    before [c] only, so that [age], the number of commits before one, gets smaller. *)
Definition log_descends (age : repo -> jstr -> nat) : Prop :=
  forall root current rev w r,
    let '(exit, (f, r')) := git_process (log_call root current rev) w r in
    r' = r /\
    forall c out, rev = Some (c ++ js "^") -> exit = Exited 0 out ->
      Forall (fun record => age r (lr_commitId record) < age r c) (parse_log (decode out)).

Section walk.
Context (age : repo -> jstr -> nat) (Hage : log_descends age).

Lemma segment_run root current rev s :
  exists records s', hcatch (Some <$> readHistoryLogSegment root current rev) (fun _ => mret None) s = (Ok records, s') /\
    hs_repo s' = hs_repo s /\
    forall c, rev = Some (c ++ js "^") ->
      Forall (fun record => age (hs_repo s) (lr_commitId record) < age (hs_repo s) c) (default [] records).
Proof.
  unfold readHistoryLogSegment, runGit. change {| gc_args := _; gc_env := [] |} with (log_call root current rev).
  pose proof (Hage root current rev (hs_world s) (hs_repo s)) as Hlaw.
  unfold hcatch, fmap, HM_fmap, mbind, HM_bind, execFileAsync.
  destruct (git_process _ _ _) as [exit [f r]]. destruct Hlaw as [-> Hlaw].
  destruct exit as [code out|code|]; cbn; [|by eexists None, _; split_and!..].
  destruct (_ <? _)%Z; [by eexists None, _; split_and!|]. destruct (Z.eqb_spec code 0) as [->|]; [|by eexists None, _; split_and!].
  eexists (Some _), _. split_and!; [done|done|]. intros c Hc. by apply Hlaw.
Qed.

(** More fuel than the age of the commit the walk has come to is enough. *)
Lemma read_segments_ends n root rel current c acc s :
  age (hs_repo s) c < n -> exists l s', forall fuel, n <= fuel ->
    read_segments fuel root rel current (Some (c ++ js "^")) acc s = (Ok l, s').
Proof.
  revert current c acc s. induction n as [|n IH]; intros current c acc s Hn; [lia|].
  destruct (segment_run root current (Some (c ++ js "^")) s) as (records & s1 & Hrun & Hrepo & Hlt).
  specialize (Hlt c eq_refl).
  destruct records as [records|].
  2:{ exists (sc_entries acc), s1. intros [|fuel] Hf; [lia|]. cbn [read_segments]. unfold mbind, HM_bind. by rewrite Hrun. }
  destruct (scan_records rel current records acc) as [acc1 fin] eqn:Es.
  destruct fin as [|p rev|].
  - exists (sc_entries acc1), s1. intros [|fuel] Hf; [lia|]. cbn [read_segments]. unfold mbind, HM_bind. by rewrite Hrun, Es.
  - assert (exists c', rev = c' ++ js "^" /\ age (hs_repo s) c' < age (hs_repo s) c) as (c' & -> & Hc').
    { clear -Es Hlt. cbn in Hlt. revert acc Es. induction records as [|r records IH]; intros acc; cbn [scan_records]; [done|].
      apply Forall_cons in Hlt as [Hr Hrest]. specialize (IH Hrest). repeat case_match; try (by apply IH); try done.
      intros [= _ _ <-]. eauto. }
    destruct (IH p c' acc1 s1) as (l & s' & Hl); [rewrite Hrepo; lia|].
    exists l, s'. intros [|fuel] Hf; [lia|]. cbn [read_segments]. unfold mbind at 1, HM_bind at 1. rewrite Hrun, Es.
    apply Hl. lia.
  - exists (sc_entries acc1), s1. intros [|fuel] Hf; [lia|]. cbn [read_segments]. unfold mbind, HM_bind. by rewrite Hrun, Es.
Qed.

Lemma hasGitRepository_run root s : exists b s', hasGitRepository root s = (Ok b, s') /\ hs_repo s' = hs_repo s.
Proof.
  unfold hasGitRepository, hcatch, mbind, HM_bind, call. destruct (fs_stat _ _) as [[n|e] w]; cbn; eauto.
Qed.

(** C28: the walk along the history of a note ends, in a repository whose commits have no
    cycle, and never throws. *)
Theorem readCommittedHistory_terminates root rel s :
  exists n l s', forall fuel, n <= fuel -> readCommittedHistory fuel root rel s = (Ok l, s').
Proof.
  unfold readCommittedHistory. destruct (hasGitRepository_run root s) as (b & s1 & Hhas & _).
  assert (forall fuel, (has ← hasGitRepository root; if negb has then mret [] else
    read_segments fuel root rel rel None {| sc_entries := []; sc_seen := ∅ |}) s =
    (if negb b then mret [] else read_segments fuel root rel rel None {| sc_entries := []; sc_seen := ∅ |}) s1) as Heq.
  { intros fuel. unfold mbind, HM_bind. by rewrite Hhas. }
  setoid_rewrite Heq. clear Heq. destruct b; cbn [negb]; [|by exists 0, [], s1].
  destruct (segment_run root rel None s1) as (records & s2 & Hrun & _ & _).
  destruct records as [records|].
  2:{ exists 1, [], s2. intros [|fuel] Hf; [lia|]. cbn [read_segments]. unfold mbind, HM_bind. by rewrite Hrun. }
  destruct (scan_records rel rel records {| sc_entries := []; sc_seen := ∅ |}) as [acc1 fin] eqn:Es.
  destruct fin as [|p rev|].
  - exists 1, (sc_entries acc1), s2. intros [|fuel] Hf; [lia|]. cbn [read_segments]. unfold mbind, HM_bind. by rewrite Hrun, Es.
  - assert (exists c', rev = c' ++ js "^") as (c' & ->).
    { clear -Es. revert Es. generalize {| sc_entries := []; sc_seen := ∅ |}. induction records as [|r records IH]; intros acc;
        cbn [scan_records]; [done|]. repeat case_match; try (by apply IH); try done. intros [= _ _ <-]. eauto. }
    destruct (read_segments_ends (S (age (hs_repo s2) c')) root rel p c' acc1 s2) as (l & s' & Hl); [lia|].
    exists (S (S (age (hs_repo s2) c'))), l, s'. intros [|fuel] Hf; [lia|]. cbn [read_segments].
    unfold mbind at 1, HM_bind at 1. rewrite Hrun, Es. apply Hl. lia.
  - exists 1, (sc_entries acc1), s2. intros [|fuel] Hf; [lia|]. cbn [read_segments]. unfold mbind, HM_bind. by rewrite Hrun, Es.
Qed.
End walk.

(** * Reading a version *)

Definition waiting (m : PendingHistoryMap) (rel id : jstr) (e : PendingHistoryEntry) : Prop :=
  e ∈ map snd m /\ pe_path e = rel /\ pe_id e = id.

(** C29: a version is answered only from the history of its note: a waiting version with its
    text, or a version a commit records; when that commit recorded the format of its hash, a
    text is given only under the format of the code and with the hash that was recorded, while
    the text of a record without a format, which an older release has made, is given without
    a check; a version that neither waits nor is recorded is not found. *)
Theorem readFileHistoryVersion_outcomes fuel root input rel s a s' :
  validateVaultPath Posix (rv_path input) PKFile = Ok rel ->
  readFileHistoryVersion fuel root input s = (Ok a, s') ->
  match a with
  | VOk v =>
      he_id (hv_entry v) = rv_id input /\ he_path (hv_entry v) = rel /\ rv_id input <> [] /\
      (hv_available v = false -> hv_content v = None) /\
      ((exists e, waiting (root_pending s root) rel (rv_id input) e /\ hv_available v = true /\
                  hv_entry v = pendingEntryToHistoryEntry e /\ hv_content v = Some (pe_content e)) \/
       (exists committed record s1 s2, readCommittedHistory fuel root rel s1 = (Ok committed, s2) /\
          record ∈ committed /\ hv_entry v = cr_entry record /\
          (hv_available v = true -> exists content, hv_content v = Some content /\
             forall format, cr_contentHashFormat record = Some format ->
               format = GIT_BLOB_CONTENT_HASH_FORMAT /\ hashContent content = he_contentHash (hv_entry v))))
  | VFail e _ =>
      e = not_found /\
      (rv_id input = [] \/
       (forall p, ~ waiting (root_pending s root) rel (rv_id input) p) /\
       exists committed s1 s2, readCommittedHistory fuel root rel s1 = (Ok committed, s2) /\
         Forall (fun r => he_id (cr_entry r) <> rv_id input) committed)
  end.
Proof.
  intros Hrel. unfold readFileHistoryVersion. rewrite Hrel. cbn [with_path].
  assert (validateVaultPath Posix rel PKFile = Ok rel) as Hrel'.
  { apply validate_ok in Hrel as [-> Hv]. by apply validate_ok. }
  case_bool_decide as Hid; [intros [= <- <-]; split; [done|by left]|].
  destruct (pendingForRoot_run root s) as (s1 & Hrun & _). unfold mbind at 1, HM_bind at 1. rewrite Hrun.
  destruct (find _ (map snd _)) as [e|] eqn:Ef.
  { apply find_some in Ef as [Hin Hb]. apply list_elem_of_In in Hin. apply andb_true_iff in Hb as [Hp%jeqb_eq Hi%jeqb_eq].
    intros [= <- <-]. cbn. split_and!; [done..|]. left. exists e. by split_and!. }
  assert (forall p, ~ waiting (root_pending s root) rel (rv_id input) p) as Hno.
  { intros p (Hin & Hp & Hi). apply list_elem_of_In in Hin. eapply find_none in Ef; [|exact Hin]. cbn in Ef.
    by rewrite Hp, Hi, !(proj2 (jeqb_eq _ _)) in Ef. }
  unfold mbind at 1, HM_bind at 1. destruct (readCommittedHistory fuel root rel s1) as [[committed|e] s2] eqn:Ec; [|done].
  pose proof (readCommittedHistory_ok _ _ _ _ _ _ Hrel' Ec) as (acc & [_ _ Hpaths _] & ->).
  destruct (find _ (sc_entries acc)) as [record|] eqn:Er.
  2:{ intros [= <- <-]. split; [done|]. right. split; [done|]. exists (sc_entries acc), s1, s2. split; [done|].
      apply Forall_forall. intros r Hr Hi. apply list_elem_of_In in Hr. eapply find_none in Er; [|exact Hr].
      cbn in Er. by rewrite Hi, (proj2 (jeqb_eq _ _)) in Er. }
  apply find_some in Er as [Hin Hi%jeqb_eq]. apply list_elem_of_In in Hin. rewrite Forall_forall in Hpaths.
  destruct (Hpaths _ Hin) as [Hpath _]. rewrite cloneFileHistoryEntry_id. unfold mbind, HM_bind.
  destruct (hcatch _ _ s2) as [[[content|]|e] s3]; [| |done].
  - destruct (negb (verified_snapshot record content)) eqn:Ev; intros [= <- <-]; cbn; split_and!; try done; right;
      exists (sc_entries acc), record, s1, s2; split_and!; try done.
    intros _. exists content. split; [done|]. intros format Hformat. unfold verified_snapshot in Ev. rewrite Hformat in Ev.
    to_prop. by repeat match goal with Hj : jeqb _ _ = true |- _ => apply jeqb_eq in Hj end.
  - intros [= <- <-]. cbn. split_and!; try done. right. exists (sc_entries acc), record, s1, s2. by split_and!.
Qed.
End reading.
