(* ===== verification/SessionProtocol.v ===== *)
(** [packages/doc-session/src/protocol.ts]: the events of a document session, who an
    update of a document is attributed to, and the binary messages of both.  The primitive
    encodings are those of the lib0 library. *)
From S2P Require Import Prelude JsString Utf8 Json.

(** * Messages *)

Definition MESSAGE_SYNC : N := 0.
Definition MESSAGE_SESSION_EVENT : N := 1.
Definition MESSAGE_SYNCED : N := 2.
Definition MESSAGE_ACKED_SYNC_UPDATE : N := 3.
Definition MESSAGE_SYNC_UPDATE_ACK : N := 4.
Definition MESSAGE_ATTRIBUTED_SYNC_UPDATE : N := 5.

(** * Attributions *)

(** A value that [isJsonObject] accepts. *)
Abbreviation DocumentUpdateAttribution := value (only parsing).

Fixpoint isJsonValue (v : value) : bool :=
  match v with
  | VNull | VStr _ | VBool _ => true
  | VNum n => is_finite n
  | VArr items => forallb isJsonValue items
  | VObj _ props => forallb (fun kv => isJsonValue kv.2) props
  | VUndefined | VOther => false
  end.

Definition isJsonObject (v : value) : bool :=
  match v with VObj _ props => forallb (fun kv => isJsonValue kv.2) props | _ => false end.

Definition plain (props : list (jstr * value)) : value := VObj true props.

Definition LOCAL_USER_DOCUMENT_UPDATE_ATTRIBUTION : DocumentUpdateAttribution :=
  plain [(js "actor", plain [(js "kind", VStr (js "user")); (js "id", VStr (js "local user")); (js "name", VStr (js "local user"))])].
Definition LOCAL_AGENT_DOCUMENT_UPDATE_ATTRIBUTION : DocumentUpdateAttribution :=
  plain [(js "actor", plain [(js "kind", VStr (js "mcp_client")); (js "id", VStr (js "local agent"));
                             (js "name", VStr (js "local agent")); (js "client", VStr (js "local agent"))])].
Definition UNKNOWN_DOCUMENT_UPDATE_ATTRIBUTION : DocumentUpdateAttribution :=
  plain [(js "actor", plain [(js "kind", VStr (js "unknown"))])].

(** The origin of a transaction: the symbol of external changes, an object with the symbol
    of attributions, or another value.  The socket an update came from is known by a
    number. *)
Inductive origin :=
| ExternalChangeOrigin
| AttributionOrigin (attribution : value) (source : option nat)
| OtherOrigin (source : option nat).

Definition createDocumentUpdateAttributionOrigin (attribution : DocumentUpdateAttribution) (source : option nat) : origin :=
  AttributionOrigin attribution source.

Definition documentUpdateAttributionFromOrigin (o : origin) : option DocumentUpdateAttribution :=
  match o with
  | AttributionOrigin attribution _ => if isJsonObject attribution then Some attribution else None
  | _ => None
  end.

Definition documentUpdateAttributionSourceFromOrigin (o : origin) : option nat :=
  match o with AttributionOrigin _ source => source | _ => None end.

(** * Events *)

Inductive DocumentSessionEventKind :=
| ContentPersisted | ExternalMerge | ExternalChange | PersistFailure | PersistRecovered | DocMoved | DocDeleted.

#[export] Instance event_kind_eq_dec : EqDecision DocumentSessionEventKind.
Proof. solve_decision. Defined.

Definition kind_text (k : DocumentSessionEventKind) : jstr :=
  match k with
  | ContentPersisted => js "content-persisted"
  | ExternalMerge => js "external-merge"
  | ExternalChange => js "external-change"
  | PersistFailure => js "persist-failure"
  | PersistRecovered => js "persist-recovered"
  | DocMoved => js "doc-moved"
  | DocDeleted => js "doc-deleted"
  end.

Definition all_event_kinds : list DocumentSessionEventKind :=
  [ContentPersisted; ExternalMerge; ExternalChange; PersistFailure; PersistRecovered; DocMoved; DocDeleted].

(** [isSessionEventKind], with the kind it recognizes. *)
Definition isSessionEventKind (v : value) : option DocumentSessionEventKind :=
  match v with VStr s => List.find (fun k => jeqb s (kind_text k)) all_event_kinds | _ => None end.

Record DocumentSessionEvent := {
  ev_kind : DocumentSessionEventKind;
  ev_path : jstr;
  ev_ts : number;
  ev_fromPath : option jstr;
  ev_toPath : option jstr;
  ev_attribution : option DocumentUpdateAttribution;
  ev_persistedContent : option jstr
}.

Record AckedSyncUpdate := { au_ackId : jstr; au_update : list N }.
Record SyncUpdateAck := { sa_ackId : jstr; sa_ts : number }.
Record AttributedSyncUpdate := { at_attribution : DocumentUpdateAttribution; at_update : list N }.

(** * The lib0 library *)

(** What its encoder appends for a number, a string and a byte array, and what its decoder
    takes off, with the bytes that remain; [None] when it throws. *)
Class Lib0 := {
  writeVarUint : N -> list N;
  writeVarString : jstr -> list N;
  writeVarUint8Array : list N -> list N;
  readVarUint : list N -> option (N * list N);
  readVarString : list N -> option (jstr * list N);
  readVarUint8Array : list N -> option (list N * list N)
}.

(** The decoder reads back what the encoder writes: numbers that JavaScript represents,
    strings without lone surrogates, and bytes. *)
Class Lib0Laws `{Lib0} := {
  read_var_uint n rest : (n < 2 ^ 53)%N -> readVarUint (writeVarUint n ++ rest) = Some (n, rest);
  read_var_string s rest : is_jstr s = true -> well_formed s = true -> readVarString (writeVarString s ++ rest) = Some (s, rest);
  read_var_bytes b rest : Forall (fun x => x < 256)%N b -> readVarUint8Array (writeVarUint8Array b ++ rest) = Some (b, rest)
}.

(** The exceptions of the decoders: the message is too short, its text is no JSON, or the
    JSON is [null] and has no properties. *)
Inductive decode_error := EndOfMessage | BadJson | NoProperties.

Definition or_end {A} (r : option A) : result decode_error A := match r with Some a => Ok a | None => Err EndOfMessage end.

(** [parsed.key]. *)
Definition prop (v : value) (key : jstr) : result decode_error value :=
  match v with
  | VNull | VUndefined => Err NoProperties
  | VObj _ props => Ok (get props key)
  | _ => Ok VUndefined
  end.

Definition is_string (v : value) : option jstr := match v with VStr s => Some s | _ => None end.
Definition is_number (v : value) : option number := match v with VNum n => Some n | _ => None end.
(** A field that may be missing: [undefined] or a string. *)
Definition optional_string (v : value) : option (option jstr) :=
  match v with VUndefined => Some None | VStr s => Some (Some s) | _ => None end.

(** A property that is there only when it is defined. *)
Definition if_present (key : jstr) (v : option value) : list (jstr * value) := from_option (fun v => [(key, v)]) [] v.

Section messages.
Context `{JsonHost, Lib0}.

Definition json_text (v : value) : jstr := default [] (stringify v).

Definition readJson (message : list N) : result decode_error (value * list N) :=
  '(text, rest) ← or_end (readVarString message);
  match json_parse text with Some v => Ok (v, rest) | None => Err BadJson end.

Definition wireEvent (event : DocumentSessionEvent) : value :=
  plain ([(js "kind", VStr (kind_text (ev_kind event))); (js "path", VStr (ev_path event)); (js "ts", VNum (ev_ts event))]
         ++ if_present (js "fromPath") (VStr <$> ev_fromPath event)
         ++ if_present (js "toPath") (VStr <$> ev_toPath event)
         ++ if_present (js "attribution") (ev_attribution event)).

Definition encodeSessionEvent (event : DocumentSessionEvent) : list N :=
  writeVarUint MESSAGE_SESSION_EVENT ++ writeVarString (json_text (wireEvent event)).

Definition encodeSyncedMessage : list N := writeVarUint MESSAGE_SYNCED.

Definition encodeAckedSyncUpdate (update : AckedSyncUpdate) : list N :=
  writeVarUint MESSAGE_ACKED_SYNC_UPDATE ++ writeVarString (au_ackId update) ++ writeVarUint8Array (au_update update).

Definition decodeAckedSyncUpdate (decoder : list N) : result decode_error (option AckedSyncUpdate) :=
  '(ackId, rest) ← or_end (readVarString decoder);
  '(update, _) ← or_end (readVarUint8Array rest);
  if (jlen ackId =? 0)%Z then Ok None else Ok (Some {| au_ackId := ackId; au_update := update |}).

Definition encodeSyncUpdateAck (ack : SyncUpdateAck) : list N :=
  writeVarUint MESSAGE_SYNC_UPDATE_ACK
  ++ writeVarString (json_text (plain [(js "ackId", VStr (sa_ackId ack)); (js "ts", VNum (sa_ts ack))])).

Definition decodeSyncUpdateAck (decoder : list N) : result decode_error (option SyncUpdateAck) :=
  '(parsed, _) ← readJson decoder;
  ackId ← prop parsed (js "ackId");
  ts ← prop parsed (js "ts");
  match is_string ackId, is_number ts with
  | Some ackId, Some ts => if (jlen ackId =? 0)%Z then Ok None else Ok (Some {| sa_ackId := ackId; sa_ts := ts |})
  | _, _ => Ok None
  end.

Definition encodeAttributedSyncUpdate (update : AttributedSyncUpdate) : list N :=
  writeVarUint MESSAGE_ATTRIBUTED_SYNC_UPDATE
  ++ writeVarString (json_text (plain [(js "attribution", at_attribution update)])) ++ writeVarUint8Array (at_update update).

Definition decodeAttributedSyncUpdate (decoder : list N) : result decode_error (option AttributedSyncUpdate) :=
  '(parsed, rest) ← readJson decoder;
  '(update, _) ← or_end (readVarUint8Array rest);
  attribution ← prop parsed (js "attribution");
  if isJsonObject attribution then Ok (Some {| at_attribution := attribution; at_update := update |}) else Ok None.

Definition decodeSessionEvent (decoder : list N) : result decode_error (option DocumentSessionEvent) :=
  '(parsed, _) ← readJson decoder;
  kind ← prop parsed (js "kind"); path ← prop parsed (js "path"); ts ← prop parsed (js "ts");
  fromPath ← prop parsed (js "fromPath"); toPath ← prop parsed (js "toPath");
  match isSessionEventKind kind, is_string path, is_number ts, optional_string fromPath, optional_string toPath with
  | Some kind, Some path, Some ts, Some fromPath, Some toPath =>
      Ok (Some {| ev_kind := kind; ev_path := path; ev_ts := ts; ev_fromPath := fromPath; ev_toPath := toPath;
                  ev_attribution := None; ev_persistedContent := None |})
  | _, _, _, _, _ => Ok None
  end.
End messages.
