(* ===== verification/SessionMessages.v ===== *)
(** The binary messages of a document session ([SessionProtocol.v]) are decoded as they
    were encoded, whatever follows them. *)
From S2P Require Import Prelude JsString Utf8 Json SessionProtocol.

(** * JSON texts have no lone surrogates *)

Lemma hex_digit_unit d : (d < 16)%N -> is_ascii (hex_digit d) = true.
Proof. intros Hd. unfold hex_digit, is_ascii. destruct (N.ltb_spec d 10); apply N.ltb_lt; lia. Qed.

Lemma proper_escape c : is_unit c = true -> proper (unicode_escape c) = true.
Proof.
  intros Hc%N.ltb_lt. apply proper_ascii. unfold unicode_escape, hex4. cbn [forallb].
  rewrite !hex_digit_unit; try (apply N.mod_lt; lia); [done|]. apply N.Div0.div_lt_upper_bound. lia.
Qed.

Lemma proper_quote_unit c : is_unit c = true -> is_high c = false -> is_low c = false -> proper (quote_unit c) = true.
Proof.
  intros Hu Hh Hl. unfold quote_unit. repeat (destruct (_ =? _)%N; [done|]). destruct (c <? 32)%N eqn:E.
  - by apply proper_escape.
  - by apply proper_cons.
Qed.

Lemma quote_body_proper s : is_jstr s = true -> proper (quote_body s) = true.
Proof.
  induction s as [|h l t H1 H2 IH|h t Hu IH] using char_ind; [done|..]; unfold is_jstr; cbn [forallb quote_body]; intros Hs; to_prop.
  - rewrite H1, H2. assert (proper (quote_body t) = true) as Ht by by apply IH.
    unfold proper, is_jstr in *. cbn [forallb well_formed]. rewrite H1, H2. to_prop. rewrite !andb_true_iff. by split_and!.
  - destruct (is_high h) eqn:E.
    + assert (proper (unicode_escape h) = true) as He by by apply proper_escape.
      destruct t as [|l t]; [done|]. rewrite (Hu eq_refl l t eq_refl). apply proper_app; [done|]. by apply IH.
    + destruct (is_low h) eqn:El; (apply proper_app; [|by apply IH]).
      * by apply proper_escape.
      * by apply proper_quote_unit.
Qed.

Lemma json_quote_proper s : is_jstr s = true -> proper (json_quote s) = true.
Proof. intros Hs. unfold json_quote. apply proper_cons; [done..|]. apply proper_app; [by apply quote_body_proper|done]. Qed.

Lemma join_proper sep parts : proper sep = true -> Forall (fun p => proper p = true) parts -> proper (join sep parts) = true.
Proof. intros Hs. induction 1 as [|p [|q ps] Hp Hf IH]; [done|by rewrite ?app_nil_r|]. apply proper_app; [done|]. by apply proper_app. Qed.

Lemma dec_ascii z : forallb is_ascii (dec z) = true.
Proof.
  destruct (dec_units z) as (_ & _ & _ & _ & Hf). apply forallb_Forall. eapply Forall_impl; [exact Hf|].
  intros c. cbv beta. unfold is_number_unit, is_digit, is_ascii. by n_tests.
Qed.

Section json_texts.
Context `{JsonHost}.

Lemma text_proper v : json_ok v = true -> proper (text v) = true.
Proof.
  induction v as [| | |[]|n|s|items IH|b props IH] using value_rect'; intros Hok; try done.
  - destruct n as [| |z|]; try done. cbn [json_ok] in Hok. unfold text. cbn [stringify number_text]. rewrite Hok.
    apply proper_ascii, dec_ascii.
  - by apply json_quote_proper.
  - cbn [json_ok] in Hok. apply forallb_Forall in Hok. rewrite stringify_arr by done.
    apply proper_cons; [done..|]. apply proper_app; [|done]. apply join_proper; [done|]. apply Forall_fmap.
    eapply Forall_impl; [exact (proj2 (Forall_and _ _) (conj Hok IH))|]. intros x [Hx Hi]. by apply Hi.
  - cbn [json_ok] in Hok. to_prop. apply forallb_Forall in H1. rewrite stringify_obj by done.
    apply proper_cons; [done..|]. apply proper_app; [|done]. apply join_proper; [done|]. apply Forall_fmap.
    eapply Forall_impl; [exact (proj2 (Forall_and _ _) (conj H1 IH))|]. intros [k x] [Hx Hi]. cbn [fst snd] in *. to_prop.
    apply proper_app; [by apply json_quote_proper|]. apply proper_cons; [done..|]. by apply Hi.
Qed.
End json_texts.

(** * Round trips *)

#[local] Opaque json_parse text stringify.

Section messages.
Context `{JsonHost, Lib0Laws}.

Lemma readJson_text v rest : json_ok v = true -> readJson (writeVarString (json_text v) ++ rest) = Ok (v, rest).
Proof.
  intros Hv. pose proof (text_proper v Hv) as Hp. unfold proper in Hp. to_prop.
  assert (json_text v = text v) as -> by (unfold json_text; by rewrite (json_ok_text v Hv)).
  unfold readJson. rewrite read_var_string by done. cbn.
  by rewrite (json_parse_stringify v (text v) Hv (json_ok_text v Hv)).
Qed.

Lemma json_ok_plain props :
  bool_decide (NoDup props.*1) = true -> forallb (fun kv => is_jstr kv.1 && json_ok kv.2) props = true -> json_ok (plain props) = true.
Proof. unfold plain. cbn [json_ok]. by intros -> ->. Qed.

(** An encoded message begins with its number, the rest is its body. *)
Definition has_body (message : list N) (number : N) (body : list N) : Prop := readVarUint message = Some (number, body).

Lemma tagged n body : (n < 2 ^ 53)%N -> has_body (writeVarUint n ++ body) n body.
Proof. apply read_var_uint. Qed.

Definition bytes (b : list N) : Prop := Forall (fun x => x < 256)%N b.

(** an update with the id of its acknowledgement, an acknowledgement, and an update with
    its attribution are decoded as they were encoded, whatever bytes follow. *)
Theorem decode_encode_updates ackId ts attribution update rest :
  proper ackId = true -> ackId <> [] -> json_ok (VNum ts) = true ->
  json_ok attribution = true -> isJsonObject attribution = true -> bytes update ->
  (exists body, has_body (encodeAckedSyncUpdate {| au_ackId := ackId; au_update := update |} ++ rest) MESSAGE_ACKED_SYNC_UPDATE body /\
     decodeAckedSyncUpdate body = Ok (Some {| au_ackId := ackId; au_update := update |})) /\
  (exists body, has_body (encodeSyncUpdateAck {| sa_ackId := ackId; sa_ts := ts |} ++ rest) MESSAGE_SYNC_UPDATE_ACK body /\
     decodeSyncUpdateAck body = Ok (Some {| sa_ackId := ackId; sa_ts := ts |})) /\
  (exists body, has_body (encodeAttributedSyncUpdate {| at_attribution := attribution; at_update := update |} ++ rest)
       MESSAGE_ATTRIBUTED_SYNC_UPDATE body /\
     decodeAttributedSyncUpdate body = Ok (Some {| at_attribution := attribution; at_update := update |})).
Proof.
  intros Hid Hne Hts Ha Ho Hu. unfold proper in Hid. to_prop.
  assert ((jlen ackId =? 0)%Z = false) as Hlen by (unfold jlen; destruct ackId; [done|apply Z.eqb_neq; cbn; lia]).
  split_and!; eexists; (split; [unfold encodeAckedSyncUpdate, encodeSyncUpdateAck, encodeAttributedSyncUpdate; rewrite <- !app_assoc; by apply tagged|]).
  - unfold decodeAckedSyncUpdate. cbn [au_ackId au_update]. rewrite read_var_string by done. cbn. rewrite read_var_bytes by done. cbn -[jlen Z.eqb]. by rewrite Hlen.
  - unfold decodeSyncUpdateAck. cbn [sa_ackId sa_ts]. rewrite readJson_text by (apply json_ok_plain; [done|]; cbn -[json_ok]; rewrite Hts; by rewrite ?andb_true_r).
    transitivity (if (jlen ackId =? 0)%Z then @Ok decode_error _ None else Ok (Some {| sa_ackId := ackId; sa_ts := ts |})); [reflexivity|].
    by rewrite Hlen.
  - unfold decodeAttributedSyncUpdate. cbn [at_attribution at_update]. rewrite readJson_text by (apply json_ok_plain; [done|]; cbn -[json_ok]; by rewrite Ha). cbn.
    cbn -[isJsonObject prop]. rewrite read_var_bytes by done.
    transitivity (if isJsonObject attribution then @Ok decode_error _ (Some {| at_attribution := attribution; at_update := update |}) else Ok None); [reflexivity|].
    by rewrite Ho.
Qed.

Definition event_ok (event : DocumentSessionEvent) : bool :=
  is_jstr (ev_path event) && json_ok (VNum (ev_ts event)) && from_option is_jstr true (ev_fromPath event) &&
  from_option is_jstr true (ev_toPath event) && from_option json_ok true (ev_attribution event).

(** an event is decoded with its kind, its paths and its time; the attribution, which is
    sent, and the persisted text, which is not, are left out. *)
Theorem decode_encode_event event rest :
  event_ok event = true ->
  exists body, has_body (encodeSessionEvent event ++ rest) MESSAGE_SESSION_EVENT body /\
    decodeSessionEvent body = Ok (Some {| ev_kind := ev_kind event; ev_path := ev_path event; ev_ts := ev_ts event;
      ev_fromPath := ev_fromPath event; ev_toPath := ev_toPath event; ev_attribution := None; ev_persistedContent := None |}).
Proof.
  destruct event as [kind path ts from to attribution content]. unfold event_ok. cbn [ev_kind ev_path ev_ts ev_fromPath ev_toPath ev_attribution].
  intros Hok. to_prop. eexists. split; [unfold encodeSessionEvent; rewrite <- app_assoc; by apply tagged|].
  unfold decodeSessionEvent. rewrite readJson_text.
  - destruct kind, from, to, attribution; reflexivity.
  - unfold wireEvent. cbn [ev_kind ev_path ev_ts ev_fromPath ev_toPath ev_attribution].
    apply json_ok_plain; [by destruct from, to, attribution|].
    assert (json_ok (VStr (kind_text kind)) = true) as Hkind by (by destruct kind).
    revert Hkind. generalize (VStr (kind_text kind)). intros v Hv.
    destruct from, to, attribution; cbn -[json_ok] in *; rewrite ?andb_true_iff; by split_and?.
Qed.
End messages.
