(* ===== verification/DocSession.v ===== *)
(** [OneFileDocumentSession] of [packages/doc-session/src/session.ts]: a Yjs document that
    is opened from a file, materialized to it after every update, and reconciled with what
    others write to the file.

    The asynchronous functions of the session (opening, the persist loop, the check of the
    file) run interleaved.  Each is a state machine whose states are its [await]s; a step
    of the session is one of them going on, a file being read or renamed under it, a call
    of a client, or another program writing the file.  [atomicWriteFile] writes a temporary
    file and renames it: the rename is a step of its own.  Moving and deleting the file,
    the barriers of [reserveStableOpenState] and the timing events are left out. *)
From S2P Require Import Prelude JsString Utf8 Splice Base64 Json Sha256 SessionProtocol.

(** * Deltas *)

Inductive YTextDeltaOperation := DRetain (n : nat) | DInsert (s : jstr) | DDelete (n : nat).

(** The operations of the fast-diff library. *)
Inductive diff_operation := DiffEqual | DiffInsert | DiffDelete.
Class FastDiff := { fast_diff : jstr -> jstr -> list (diff_operation * jstr) }.

Definition delta_of (op : diff_operation * jstr) : YTextDeltaOperation :=
  match op.1 with
  | DiffEqual => DRetain (length op.2)
  | DiffInsert => DInsert op.2
  | DiffDelete => DDelete (length op.2)
  end.

Definition createFastDiffYTextDelta `{FastDiff} (current next : jstr) : list YTextDeltaOperation :=
  map delta_of (fast_diff current next).

(** * The Yjs document *)

Inductive text_operation :=
| TextInsert (index : nat) (content : jstr)
| TextDelete (index len : nat)
| TextDelta (delta : list YTextDeltaOperation).

(** A document with its text ["markdown"].  A transaction and an update answer the document
    and whether it emitted ["update"]; [y_applyUpdate] also whether it threw. *)
Class Yjs := {
  ydoc : Type;
  y_new : ydoc;
  y_text : ydoc -> jstr;
  y_transact : ydoc -> list text_operation -> ydoc * bool;
  y_applyUpdate : ydoc -> list N -> ydoc * bool * bool;
  y_encodeStateVector : ydoc -> list N;
  y_encodeStateAsUpdate : ydoc -> list N
}.

(** * Texts within a limit of bytes *)

(** The characters of [for (const char of value)]. *)
Fixpoint characters (s : jstr) : list jstr :=
  match s with
  | [] => []
  | h :: t =>
      match t with
      | l :: t' => if is_high h && is_low l then [h; l] :: characters t' else [h] :: characters t
      | [] => [[h]]
      end
  end.

Fixpoint truncate_loop (chars : list jstr) (output : jstr) (bytes limitBytes : Z) : jstr :=
  match chars with
  | [] => output
  | char :: chars =>
      let next := utf8ByteLength char in
      if (limitBytes <? bytes + next)%Z then output else truncate_loop chars (output ++ char) (bytes + next) limitBytes
  end.

Definition truncateUtf8 (value : jstr) (limitBytes : Z) : jstr := truncate_loop (characters value) [] 0 limitBytes.

(** * State *)

(** What a read of an optional file came to: an exception, no file, or its text. *)
Inductive read_result := ReadThrew | ReadMissing | ReadText (content : jstr).

#[export] Instance read_result_eq_dec : EqDecision read_result.
Proof. solve_decision. Defined.

(** A call of [atomicWriteFile] under way, and whether the rename has happened. *)
Record write := { wr_path : jstr; wr_text : jstr; wr_renamed : bool }.

(** The awaits of [materialize]; [AtReturn] once its promise has settled. *)
Inductive persist_at :=
| AtRead (content : jstr) (attribution : option value)
| AtReadDone (content : jstr) (attribution : option value) (disk : read_result)
| AtWrite (content : jstr) (attribution : option value) (w : write)
| AtSnapshot (content : jstr) (attribution : option value) (w : option write)
| AtReconcile (kind : option DocumentSessionEventKind) (w : option write)
| AtReturn (threw : bool).

(** [persistPromise]: none, the loop with its [failure] and its await, or the promise of a
    loop that has ended, whose [finally] has not run. *)
Inductive persist_state :=
| PersistNone
| PersistRunning (failure : bool) (at_ : persist_at)
| PersistExiting (rejects : bool).

(** [externalCheckPromise]. *)
Inductive check_state :=
| CheckNone
| CheckRead
| CheckReadDone (disk : read_result)
| CheckReconcile (kind : option DocumentSessionEventKind) (w : option write)
| CheckExiting.

(** [openPromise] and the awaits of [loadFromFile]. *)
Inductive open_state :=
| OpenNone
| OpenRead (create : bool)
| OpenReadDone (create : bool) (disk : read_result)
| OpenCreate (w : write)
| OpenState (content statePath : jstr)
| OpenStateDone (content : jstr) (raw : read_result)
| OpenSnapshot (content : jstr) (w : option write)
| OpenExiting.

(** A call of [flush]: it waits for the promise of a persist loop, the first time or for
    the retry, or has settled. *)
Inductive flush_state := FlushWaiting (run : nat) (retry : bool) | FlushDone (ok : bool).

Section session.
Context `{Yjs, FastDiff, JsonHost}.

Record session := {
  ss_filePath : jstr;
  ss_eventPath : jstr;
  ss_stateFilePath : option jstr;
  ss_defaultContent : jstr;
  ss_doc : ydoc;
  ss_listening : bool;                             (* [doc.on("update", handleDocumentUpdate)] *)
  ss_opened : bool;
  ss_open : open_state;
  ss_lastWrittenHash : option jstr;
  ss_lastWrittenContent : option jstr;
  ss_nonEmpty : bool;                              (* [nonEmptyMaterializedContent] *)
  ss_pendingWriteHash : option jstr;
  ss_attribution : option value;                   (* [pendingPersistAttribution] *)
  ss_persistRequested : bool;
  ss_persist : persist_state;
  ss_runs : list bool;                             (* the persist promises that have settled; true: rejected *)
  ss_persistFailed : bool;
  ss_failureError : bool;                          (* [persistFailureError !== undefined] *)
  ss_activeFailure : option DocumentSessionEvent;  (* [activePersistFailureEvent] *)
  ss_watching : bool;                              (* the watcher and the timer of polls *)
  ss_debounce : bool;                              (* [watchDebounceTimer] *)
  ss_check : check_state;
  ss_deleted : bool;
  ss_events : list DocumentSessionEvent;           (* emitted so far *)
  ss_now : Z                                       (* [Date.now()] *)
}.

#[export] Instance session_rebuild : Rebuild session := fun s =>
  {| ss_filePath := ss_filePath s; ss_eventPath := ss_eventPath s; ss_stateFilePath := ss_stateFilePath s;
     ss_defaultContent := ss_defaultContent s; ss_doc := ss_doc s; ss_listening := ss_listening s; ss_opened := ss_opened s;
     ss_open := ss_open s; ss_lastWrittenHash := ss_lastWrittenHash s; ss_lastWrittenContent := ss_lastWrittenContent s;
     ss_nonEmpty := ss_nonEmpty s; ss_pendingWriteHash := ss_pendingWriteHash s; ss_attribution := ss_attribution s;
     ss_persistRequested := ss_persistRequested s; ss_persist := ss_persist s; ss_runs := ss_runs s;
     ss_persistFailed := ss_persistFailed s; ss_failureError := ss_failureError s; ss_activeFailure := ss_activeFailure s;
     ss_watching := ss_watching s; ss_debounce := ss_debounce s; ss_check := ss_check s; ss_deleted := ss_deleted s;
     ss_events := ss_events s; ss_now := ss_now s |}.

Implicit Type s : session.

(** * Pieces of the session that run without an await *)

Definition currentContent s : jstr := y_text (ss_doc s).
Definition currentBaseline s : jstr := encodeBase64Bytes (y_encodeStateVector (ss_doc s)).
Definition isOpened s : bool := ss_opened s && negb (ss_deleted s).
Definition hasNonEmptyMaterializedContent s : bool := negb (ss_deleted s) && ss_nonEmpty s.
Definition hasUnsettledPersist s : bool :=
  ss_persistRequested s || match ss_persist s with PersistNone => false | _ => true end || ss_failureError s.
Definition hasActivePersistFailure s : bool := ss_persistFailed s.

Definition emitEvent s (event : DocumentSessionEvent) : session := s <| ss_events := ss_events s ++ [event] |>.

Definition createEvent s (kind : DocumentSessionEventKind) : DocumentSessionEvent :=
  {| ev_kind := kind; ev_path := ss_eventPath s; ev_ts := Int (ss_now s); ev_fromPath := None; ev_toPath := None;
     ev_attribution := None; ev_persistedContent := None |}.

Definition startWatching s : session := s <| ss_watching := true |>.
Definition stopWatching s : session := s <| ss_watching := false |> <| ss_debounce := false |>.

Definition markDeleted s : session :=
  if ss_deleted s then s
  else let s := stopWatching (s <| ss_deleted := true |>) <| ss_activeFailure := None |> in
       emitEvent s (createEvent s DocDeleted).

Definition markPersistFailed s : session :=
  let event := createEvent s PersistFailure in
  emitEvent (s <| ss_persistFailed := true |> <| ss_failureError := true |> <| ss_activeFailure := Some event |>) event.

Definition markPersistRecovered s : session :=
  if negb (ss_persistFailed s) then s
  else let s := s <| ss_persistFailed := false |> <| ss_failureError := false |> <| ss_activeFailure := None |> in
       emitEvent s (createEvent s PersistRecovered).

(** [materialize] up to its first await. *)
Definition materialize s : session * persist_at :=
  if ss_deleted s then (s, AtReturn false)
  else (s <| ss_attribution := None |>, AtRead (currentContent s) (ss_attribution s)).

(** The condition of the loop, and what follows it. *)
Definition persistLoop s (failure : bool) : session :=
  if ss_persistRequested s then
    let '(s, at_) := materialize (s <| ss_persistRequested := false |>) in s <| ss_persist := PersistRunning failure at_ |>
  else s <| ss_persist := PersistExiting failure |>.

Definition requestPersist s : session :=
  let s := s <| ss_persistRequested := true |> in
  match ss_persist s with PersistNone => persistLoop s false | _ => s end.

Definition handleDocumentUpdate s (o : origin) : session :=
  match o with
  | ExternalChangeOrigin => s
  | _ => if ss_deleted s then s
         else requestPersist (s <| ss_attribution := documentUpdateAttributionFromOrigin o |>)
  end.

(** The document after a change, which the session hears of when it listens. *)
Definition changed s (doc : ydoc) (emitted : bool) (o : origin) : session :=
  let s := s <| ss_doc := doc |> in
  if emitted && ss_listening s then handleDocumentUpdate s o else s.

Definition transact s (ops : list text_operation) (o : origin) : session :=
  let '(doc, emitted) := y_transact (ss_doc s) ops in changed s doc emitted o.

(** ** Snapshots of the Yjs state *)

Definition DOCUMENT_SESSION_STATE_VERSION : Z := 1.

Definition snapshot_value s (contentHash : jstr) : value :=
  plain [(js "version", VNum (Int DOCUMENT_SESSION_STATE_VERSION)); (js "contentHash", VStr contentHash);
         (js "updateBase64", VStr (encodeBase64Bytes (y_encodeStateAsUpdate (ss_doc s))))].

Definition new_write (path text : jstr) : write := {| wr_path := path; wr_text := text; wr_renamed := false |}.

(** The write of [writeStateSnapshot], when there is a file for it. *)
Definition writeStateSnapshot s (contentHash : jstr) : option write :=
  path ← ss_stateFilePath s;
  Some (new_write path (json_text (snapshot_value s contentHash) ++ [LF])).

Inductive restore_outcome := RestoreDisabled | RestoreMissing | RestoreValid | RestoreStale | RestoreInvalid | RestoreRepaired.

(** The update of a snapshot of the content, or why it is not used. *)
Definition snapshot_update (version hash updateBase64 : value) (contentHash : jstr) : result restore_outcome jstr :=
  match version, hash, updateBase64 with
  | VNum (Int 1), VStr hash, VStr updateBase64 => if jeqb hash contentHash then Ok updateBase64 else Err RestoreStale
  | _, _, _ => Err RestoreStale
  end.

Definition readSnapshot (contentHash raw : jstr) : result restore_outcome jstr :=
  match json_parse raw with
  | None | Some VNull => Err RestoreInvalid
  | Some parsed =>
      let field k := match parsed with VObj _ props => get props k | _ => VUndefined end in
      snapshot_update (field (js "version")) (field (js "contentHash")) (field (js "updateBase64")) contentHash
  end.

(** [tryRestoreStateSnapshot] once the file has been read. *)
Definition restoreSnapshot s (content contentHash raw : jstr) : session * restore_outcome :=
  match readSnapshot contentHash raw with
  | Err outcome => (s, outcome)
  | Ok updateBase64 =>
      let '(doc, _, threw) := y_applyUpdate (ss_doc s) (decodeBase64Bytes updateBase64) in
      let s := s <| ss_doc := doc |> in
      if (threw : bool) then (s, RestoreInvalid)
      else if jeqb (y_text doc) content then (s, RestoreValid)
      else (s <| ss_doc := (y_transact doc [TextDelete 0 (length (y_text doc)); TextInsert 0 content]).1 |>, RestoreRepaired)
  end.

(** ** Reconciling with the file *)

(** [reconcileExternalContent] up to its await: nothing more to do, or the write of the
    snapshot and the event that follows it. *)
Definition reconcileExternalContent s (content contentHash : jstr) (missingFromDisk : bool)
  : session * option (option DocumentSessionEventKind * option write) :=
  if missingFromDisk then (markDeleted s, None)
  else
    let current := currentContent s in
    let known s := s <| ss_lastWrittenHash := Some contentHash |> <| ss_lastWrittenContent := Some content |>
                     <| ss_nonEmpty := bool_decide (content <> []) |> in
    if jeqb current content then
      let s := known s in (s, Some (None, writeStateSnapshot s contentHash))
    else
      let truncatedToEmpty := bool_decide (current <> []) && bool_decide (content = []) in
      let eventKind := if negb truncatedToEmpty && bool_decide (ss_lastWrittenContent s = Some current)
                       then ExternalMerge else ExternalChange in
      let s := known (transact s [TextDelta (createFastDiffYTextDelta current content)] ExternalChangeOrigin) in
      (s, Some (Some eventKind, writeStateSnapshot s contentHash)).

(** What follows the await of [reconcileExternalContent]. *)
Definition reconciled s (kind : option DocumentSessionEventKind) : session :=
  match kind with None => s | Some kind => emitEvent s (createEvent s kind) end.

Definition read_hash (disk : read_result) : option jstr :=
  match disk with ReadText content => Some (hashContent content) | _ => None end.
Definition read_content (disk : read_result) : jstr := match disk with ReadText content => content | _ => [] end.

(** [materialize] after the read: the session, and its next await. *)
Definition materialize_read s (content : jstr) (attribution : option value) (disk : read_result) : session * persist_at :=
  match disk with
  | ReadThrew => (s, AtReturn true)
  | _ =>
      let diskHash := read_hash disk in
      if bool_decide (ss_lastWrittenHash s <> None) && bool_decide (diskHash <> ss_lastWrittenHash s) then
        match reconcileExternalContent s (read_content disk) (default (hashContent []) diskHash)
                (bool_decide (disk = ReadMissing)) with
        | (s, None) => (s, AtReturn false)
        | (s, Some (kind, w)) => (s, AtReconcile kind w)
        end
      else (s <| ss_pendingWriteHash := Some (hashContent content) |>, AtWrite content attribution (new_write (ss_filePath s) content))
  end.

(** The [finally] of [materialize]. *)
Definition clear_pending s (contentHash : jstr) : session :=
  if bool_decide (ss_pendingWriteHash s = Some contentHash) then s <| ss_pendingWriteHash := None |> else s.

(** [materialize] after both writes. *)
Definition materialize_written s (content : jstr) (attribution : option value) : session :=
  let contentHash := hashContent content in
  let s := s <| ss_lastWrittenHash := Some contentHash |> <| ss_lastWrittenContent := Some content |>
             <| ss_nonEmpty := bool_decide (content <> []) |> in
  let s := markPersistRecovered s in
  let s := emitEvent s {| ev_kind := ContentPersisted; ev_path := ss_eventPath s; ev_ts := Int (ss_now s); ev_fromPath := None;
                          ev_toPath := None; ev_attribution := attribution; ev_persistedContent := Some content |} in
  clear_pending s contentHash.

(** * The machine *)

(** The session, the files, the calls of [flush]; and, for the proofs, the texts the
    document has had since it was opened. *)
Record world := {
  w_session : session;
  w_disk : gmap jstr (list N);
  w_flushes : list (flush_state * nat);   (* with the number of the text at the call *)
  w_texts : list jstr
}.

#[export] Instance world_rebuild : Rebuild world := fun w =>
  {| w_session := w_session w; w_disk := w_disk w; w_flushes := w_flushes w; w_texts := w_texts w |}.

(** How an await of a thread goes on: a read takes place, a rename takes place, the
    promise resolves, or it rejects. *)
Inductive io := IoRead | IoRename | IoOk | IoError.

Definition read_disk (w : world) (path : jstr) : read_result :=
  match w_disk w !! path with Some bytes => ReadText (decode bytes) | None => ReadMissing end.

Definition renamed (wr : write) : write := {| wr_path := wr_path wr; wr_text := wr_text wr; wr_renamed := true |}.
Definition rename_disk (w : world) (wr : write) : world := w <| w_disk := <[wr_path wr := encode (wr_text wr)]> (w_disk w) |>.

(** A write goes on: the world and the write after the rename, or its outcome. *)
Inductive write_step := WriteMore (w : world) (wr : write) | WriteEnds (ok : bool) | WriteStuck.

Definition step_write (w : world) (wr : write) (e : io) : write_step :=
  match e with
  | IoRename => if wr_renamed wr then WriteStuck else WriteMore (rename_disk w wr) (renamed wr)
  | IoOk => if wr_renamed wr then WriteEnds true else WriteStuck
  | IoError => WriteEnds false
  | IoRead => WriteStuck
  end.

(** The same for a write there may be no file for. *)
Definition step_snapshot (w : world) (wr : option write) (e : io) : world * option write * option bool + unit :=
  match wr with
  | None => match e with IoOk => inl (w, None, Some true) | _ => inr () end
  | Some wr => match step_write w wr e with
               | WriteMore w wr => inl (w, Some wr, None)
               | WriteEnds ok => inl (w, Some wr, Some ok)
               | WriteStuck => inr ()
               end
  end.

Definition set_session (w : world) (s : session) : world := w <| w_session := s |>.
Definition set_persist s (failure : bool) (at_ : persist_at) : session := s <| ss_persist := PersistRunning failure at_ |>.

(** The persist loop goes on. *)
Definition step_persist (w : world) (e : io) : option world :=
  let s := w_session w in
  match ss_persist s with
  | PersistNone => None
  | PersistExiting rejects =>
      match e with
      | IoOk => Some (set_session w (s <| ss_persist := PersistNone |> <| ss_runs := ss_runs s ++ [rejects] |>))
      | _ => None
      end
  | PersistRunning failure at_ =>
      let goto w s at_ := Some (set_session w (set_persist s failure at_)) in
      match at_, e with
      | AtRead content attribution, IoRead => goto w s (AtReadDone content attribution (read_disk w (ss_filePath s)))
      | AtRead content attribution, IoError => goto w s (AtReadDone content attribution ReadThrew)
      | AtReadDone content attribution disk, IoOk =>
          let '(s, at_) := materialize_read s content attribution disk in goto w s at_
      | AtWrite content attribution wr, e =>
          match step_write w wr e with
          | WriteMore w wr => goto w s (AtWrite content attribution wr)
          | WriteEnds true => goto w s (AtSnapshot content attribution (writeStateSnapshot s (hashContent content)))
          | WriteEnds false => goto w (clear_pending s (hashContent content)) (AtReturn true)
          | WriteStuck => None
          end
      | AtSnapshot content attribution wr, e =>
          match step_snapshot w wr e with
          | inl (w, wr, None) => goto w s (AtSnapshot content attribution wr)
          | inl (w, wr, Some true) => goto w (materialize_written s content attribution) (AtReturn false)
          | inl (w, wr, Some false) => goto w (clear_pending s (hashContent content)) (AtReturn true)
          | inr _ => None
          end
      | AtReconcile kind wr, e =>
          match step_snapshot w wr e with
          | inl (w, wr, None) => goto w s (AtReconcile kind wr)
          | inl (w, wr, Some true) => goto w (reconciled s kind) (AtReturn false)
          | inl (w, wr, Some false) => goto w s (AtReturn true)
          | inr _ => None
          end
      | AtReturn threw, IoOk =>
          Some (set_session w (persistLoop (if threw then markPersistFailed s else s) (failure || threw)))
      | _, _ => None
      end
  end.

(** [checkForExternalChange], and [runExternalChangeCheck] up to its read. *)
Definition checkForExternalChange s : session :=
  match ss_check s with
  | CheckNone => s <| ss_check := if ss_opened s && bool_decide (ss_lastWrittenHash s <> None) then CheckRead else CheckExiting |>
  | _ => s
  end.

(** [runExternalChangeCheck] after the read. *)
Definition check_read s (disk : read_result) : session :=
  match disk with
  | ReadThrew => s <| ss_check := CheckExiting |>
  | ReadMissing => markDeleted s <| ss_check := CheckExiting |>
  | ReadText content =>
      let diskHash := Some (hashContent content) in
      if bool_decide (diskHash = ss_lastWrittenHash s) || bool_decide (diskHash = ss_pendingWriteHash s)
      then s <| ss_check := CheckExiting |>
      else match reconcileExternalContent s content (hashContent content) false with
           | (s, None) => s <| ss_check := CheckExiting |>
           | (s, Some (kind, w)) => s <| ss_check := CheckReconcile kind w |>
           end
  end.

(** The check goes on. *)
Definition step_check (w : world) (e : io) : option world :=
  let s := w_session w in
  let goto w s at_ := Some (set_session w (s <| ss_check := at_ |>)) in
  match ss_check s, e with
  | CheckRead, IoRead => goto w s (CheckReadDone (read_disk w (ss_filePath s)))
  | CheckRead, IoError => goto w s (CheckReadDone ReadThrew)
  | CheckReadDone disk, IoOk => Some (set_session w (check_read s disk))
  | CheckReconcile kind wr, e =>
      match step_snapshot w wr e with
      | inl (w, wr, None) => goto w s (CheckReconcile kind wr)
      | inl (w, wr, Some true) => goto w (reconciled s kind) CheckExiting
      | inl (w, wr, Some false) => goto w s CheckExiting
      | inr _ => None
      end
  | CheckExiting, IoOk => goto w s CheckNone
  | _, _ => None
  end.

(** ** Opening *)

Definition start_open s (create : bool) : session :=
  if ss_deleted s || ss_opened s then s
  else match ss_open s with OpenNone => s <| ss_open := OpenRead create |> | _ => s end.

(** The end of [loadFromFile]. *)
Definition finish_open s : session :=
  startWatching (s <| ss_listening := true |> <| ss_opened := true |>) <| ss_open := OpenExiting |>.

(** [loadFromFile] after the snapshot has been tried. *)
Definition restored s (content : jstr) (outcome : restore_outcome) : session :=
  let s := match outcome with
           | RestoreValid | RestoreRepaired => s
           | _ => s <| ss_doc := (y_transact (ss_doc s) [TextInsert 0 content]).1 |>
           end in
  let s := s <| ss_nonEmpty := bool_decide (content <> []) |> <| ss_lastWrittenHash := Some (hashContent content) |>
             <| ss_lastWrittenContent := Some content |> in
  match outcome with
  | RestoreValid => finish_open s
  | _ => s <| ss_open := OpenSnapshot content (writeStateSnapshot s (hashContent content)) |>
  end.

(** [loadFromFile] once it has the text of the file. *)
Definition loaded s (content : jstr) : session :=
  match ss_stateFilePath s with
  | None => restored s content RestoreDisabled
  | Some path => s <| ss_open := OpenState content path |>
  end.

Definition step_open (w : world) (e : io) : option world :=
  let s := w_session w in
  let goto w at_ := Some (set_session w (s <| ss_open := at_ |>)) in
  match ss_open s, e with
  | OpenRead create, IoRead => goto w (OpenReadDone create (read_disk w (ss_filePath s)))
  | OpenRead create, IoError => goto w (OpenReadDone create ReadThrew)
  | OpenReadDone create disk, IoOk =>
      match disk with
      | ReadThrew => goto w OpenExiting
      | ReadMissing => if create then goto w (OpenCreate (new_write (ss_filePath s) (ss_defaultContent s))) else goto w OpenExiting
      | ReadText content => Some (set_session w (loaded s content))
      end
  | OpenCreate wr, e =>
      match step_write w wr e with
      | WriteMore w wr => goto w (OpenCreate wr)
      | WriteEnds true => Some (set_session w (loaded s (ss_defaultContent s)))
      | WriteEnds false => goto w OpenExiting
      | WriteStuck => None
      end
  | OpenState content path, IoRead => goto w (OpenStateDone content (read_disk w path))
  | OpenState content path, IoError => goto w (OpenStateDone content ReadThrew)
  | OpenStateDone content raw, IoOk =>
      match raw with
      | ReadThrew => goto w OpenExiting
      | ReadMissing => Some (set_session w (restored s content RestoreMissing))
      | ReadText raw => let '(s, outcome) := restoreSnapshot s content (hashContent content) raw in
                        Some (set_session w (restored s content outcome))
      end
  | OpenSnapshot content wr, e =>
      match step_snapshot w wr e with
      | inl (w, wr, None) => goto w (OpenSnapshot content wr)
      | inl (w, wr, Some true) => Some (set_session w (finish_open s))
      | inl (w, wr, Some false) => goto w OpenExiting
      | inr _ => None
      end
  | OpenExiting, IoOk => goto w OpenNone
  | _, _ => None
  end.

(** ** Flushing *)

(** The promise of the loop under way is number [length ss_runs]. *)
Definition flush_retry s : session * flush_state :=
  if ss_failureError s then let s := requestPersist s in (s, FlushWaiting (length (ss_runs s)) true) else (s, FlushDone true).

Definition flush s : session * flush_state :=
  match ss_persist s with PersistNone => flush_retry s | _ => (s, FlushWaiting (length (ss_runs s)) false) end.

(** A call of [flush] goes on when the promise it awaits has settled. *)
Definition step_flush s (f : flush_state) : option (session * flush_state) :=
  match f with
  | FlushDone _ => None
  | FlushWaiting run retry =>
      match ss_runs s !! run with
      | None => None
      | Some true => Some (s, FlushDone false)
      | Some false => Some (if (retry : bool) then (s, FlushDone true) else flush_retry s)
      end
  end.

Definition call_flush (w : world) : world :=
  let '(s, f) := flush (w_session w) in
  set_session w s <| w_flushes := w_flushes w ++ [(f, pred (length (w_texts w)))] |>.

(** ** The calls of clients *)

(** What the calls do after [await this.open()]; [None] when they throw. *)
Definition assertNotDeleted s : bool := negb (ss_deleted s).

Definition updateOriginForOptions (attribution : option value) (fallback : value) : origin :=
  createDocumentUpdateAttributionOrigin (default fallback attribution) None.

(** The document becomes [content]. *)
Definition replace_content s (content : jstr) (o : origin) : session :=
  let current := currentContent s in
  if negb (jeqb current content) then transact s [TextDelta (createFastDiffYTextDelta current content)] o else s.

Definition reset s (content : option jstr) : option session :=
  if negb (assertNotDeleted s) then None
  else Some (transact s [TextDelete 0 (length (currentContent s)); TextInsert 0 (default (ss_defaultContent s) content)]
               (updateOriginForOptions None LOCAL_USER_DOCUMENT_UPDATE_ATTRIBUTION)).

Definition applyContent s (content : jstr) (attribution : option value) : option session :=
  if negb (assertNotDeleted s) then None
  else Some (replace_content s content (updateOriginForOptions attribution LOCAL_USER_DOCUMENT_UPDATE_ATTRIBUTION)).

(** The answers of an edit: the new content, or its rejection. *)
Inductive SessionContentEditReject :=
| EditNotFound
| EditAmbiguous (match_count : Z)
| EditTooLargeSplice (limit_bytes : Z)
| EditTooLargeDocument (current_bytes limit_bytes : Z).
Definition SessionContentEditResult : Type := jstr + SessionContentEditReject.

Inductive SessionSpliceReject :=
| StaleDoc (current_content baseline : jstr) (truncated : bool)
| EditRejected (reject : SessionContentEditReject).

Definition staleDocResult s (currentBaseline : jstr) : SessionSpliceReject :=
  let content := currentContent s in
  if (utf8ByteLength content <=? DOCUMENT_BYTES_LIMIT)%Z then StaleDoc content currentBaseline false
  else StaleDoc (truncateUtf8 content DOCUMENT_BYTES_LIMIT) currentBaseline true.

(** The session after an accepted edit, or why it was not. *)
Definition applyBaselineEdit s (baseline : jstr) (edit : jstr -> SessionContentEditResult) (attribution : option value)
  : option (session + SessionSpliceReject) :=
  if negb (assertNotDeleted s) then None
  else
    let currentBaseline := currentBaseline s in
    if negb (jeqb baseline currentBaseline) then Some (inr (staleDocResult s currentBaseline))
    else match edit (currentContent s) with
         | inr reject => Some (inr (EditRejected reject))
         | inl content =>
             Some (inl (replace_content s content (updateOriginForOptions attribution LOCAL_AGENT_DOCUMENT_UPDATE_ATTRIBUTION)))
         end.

(** What [applyPositionedContent] does after its own await of [open]. *)
Definition applyPositionedContent s (content : jstr) (attribution : option value) : option session :=
  if negb (assertNotDeleted s) then None
  else Some (replace_content s content (updateOriginForOptions attribution LOCAL_AGENT_DOCUMENT_UPDATE_ATTRIBUTION)).

(** [applyContentEdit]: the edit has seen the text the document had at the first await, the
    content is put in place of the one it has after the second. *)
Definition applyContentEdit s (seen : jstr) (edit : jstr -> jstr) (attribution : option value) : option session :=
  applyPositionedContent s (edit seen) attribution.

(** [Y.applyUpdate] on the document, by a socket. *)
Definition apply_update s (update : list N) (o : origin) : session :=
  let '(doc, emitted, _) := y_applyUpdate (ss_doc s) update in changed s doc emitted o.

Definition resumeAfterCloseFailure s : session :=
  if negb (ss_opened s) || ss_deleted s then s else startWatching (s <| ss_listening := true |>).

(** The end of [close], after its flush. *)
Definition closed s : session := stopWatching (s <| ss_listening := false |>).

(** ** Steps *)

Inductive event :=
| EvOpen (create : bool)
| EvOpenGo (e : io)
| EvPersistGo (e : io)
| EvCheckGo (e : io)
| EvFlush
| EvFlushGo (i : nat)
| EvUpdate (update : list N) (attribution : value) (socket : nat) (acked : bool)
| EvReset (content : option jstr)
| EvApplyContent (content : jstr) (attribution : option value)
| EvBaselineEdit (baseline : jstr) (edit : jstr -> SessionContentEditResult) (attribution : option value)
| EvContentEdit (seen : jstr) (edit : jstr -> jstr) (attribution : option value)   (* [seen]: a text the document has had *)
| EvFileEvent                     (* the watcher reports the file *)
| EvDebounce                      (* the debounce timer fires *)
| EvPoll                          (* the poll timer fires *)
| EvClosed
| EvResume
| EvClock (now : Z)
| EvExternal (path : jstr) (bytes : option (list N)).   (* another program writes or removes a file *)

(** The texts grow when the document has a new one. *)
Definition track (w : world) : world :=
  if bool_decide (last (w_texts w) = Some (currentContent (w_session w))) then w
  else w <| w_texts := w_texts w ++ [currentContent (w_session w)] |>.

(** A client's change and the flush it waits for. *)
Definition edit_and_flush (w : world) (s : session) : world := call_flush (track (set_session w s)).

Definition when_opened (w : world) (r : option world) : option world := if ss_opened (w_session w) then r else None.

Definition machine_step (w : world) (e : event) : option world :=
  let s := w_session w in
  match e with
  | EvOpen create => Some (set_session w (start_open s create))
  | EvOpenGo e => step_open w e
  | EvPersistGo e => step_persist w e
  | EvCheckGo e => step_check w e
  | EvFlush => Some (call_flush w)
  | EvFlushGo i =>
      '(f, since) ← w_flushes w !! i;
      '(s, f) ← step_flush s f;
      Some (set_session w s <| w_flushes := <[i := (f, since)]> (w_flushes w) |>)
  | EvUpdate update attribution socket acked =>
      when_opened w (if negb (isOpened s) then None
                     else let s := apply_update s update (createDocumentUpdateAttributionOrigin attribution (Some socket)) in
                          Some (if (acked : bool) then edit_and_flush w s else set_session w s))
  | EvReset content => when_opened w (edit_and_flush w <$> reset s content)
  | EvApplyContent content attribution => when_opened w (edit_and_flush w <$> applyContent s content attribution)
  | EvBaselineEdit baseline edit attribution =>
      when_opened w (r ← applyBaselineEdit s baseline edit attribution;
                     Some (match r with inl s => edit_and_flush w s | inr _ => w end))
  | EvContentEdit seen edit attribution =>
      when_opened w (if bool_decide (seen ∈ w_texts w) then edit_and_flush w <$> applyContentEdit s seen edit attribution else None)
  | EvFileEvent => if ss_watching s then Some (set_session w (s <| ss_debounce := true |>)) else None
  | EvDebounce => if ss_debounce s then Some (set_session w (checkForExternalChange (s <| ss_debounce := false |>))) else None
  | EvPoll => if ss_watching s then Some (set_session w (checkForExternalChange s)) else None
  | EvClosed => Some (set_session w (closed s))
  | EvResume => Some (set_session w (resumeAfterCloseFailure s))
  | EvClock now => Some (set_session w (s <| ss_now := now |>))
  | EvExternal path bytes =>
      Some (w <| w_disk := match bytes with Some bytes => <[path := bytes]> (w_disk w) | None => delete path (w_disk w) end |>)
  end.

Definition session_step (w : world) (e : event) : option world := track <$> machine_step w e.

Definition new_session (filePath eventPath : jstr) (stateFilePath : option jstr) (defaultContent : jstr) : session :=
  {| ss_filePath := filePath; ss_eventPath := eventPath; ss_stateFilePath := stateFilePath; ss_defaultContent := defaultContent;
     ss_doc := y_new; ss_listening := false; ss_opened := false; ss_open := OpenNone; ss_lastWrittenHash := None;
     ss_lastWrittenContent := None; ss_nonEmpty := false; ss_pendingWriteHash := None; ss_attribution := None;
     ss_persistRequested := false; ss_persist := PersistNone; ss_runs := []; ss_persistFailed := false;
     ss_failureError := false; ss_activeFailure := None; ss_watching := false; ss_debounce := false; ss_check := CheckNone;
     ss_deleted := false; ss_events := []; ss_now := 0 |}.

Definition new_world (s : session) (disk : gmap jstr (list N)) : world :=
  {| w_session := s; w_disk := disk; w_flushes := []; w_texts := [currentContent s] |}.
End session.
