(* ===== verification/DocSessionProps.v ===== *)
(** What a document session of [DocSession.v] guarantees: as long as nobody else writes
    its file and no write fails half-way, what clients do to the document ends up in the
    file, whatever the interleaving, and a flush that answers has saved it. *)
From S2P Require Import Prelude JsString Utf8 Splice Base64 Json Sha256 SessionProtocol DocSession.

(** * What is assumed of Yjs *)

(** The text is a string; a document begins empty; a change that emits no update leaves the
    text; inserting into an empty text, and replacing the whole text, do what they say. *)
Class YjsLaws `{Yjs} := {
  y_text_jstr d : is_jstr (y_text d) = true;
  y_text_new : y_text y_new = [];
  y_transact_quiet d ops d' : y_transact d ops = (d', false) -> y_text d' = y_text d;
  y_applyUpdate_quiet d u d' threw : y_applyUpdate d u = (d', false, threw) -> y_text d' = y_text d;
  y_insert d c : y_text d = [] -> is_jstr c = true -> y_text (y_transact d [TextInsert 0 c]).1 = c;
  y_replace d c : is_jstr c = true ->
    y_text (y_transact d [TextDelete 0 (length (y_text d)); TextInsert 0 c]).1 = c
}.

Lemma hash_encode t c : encode t = encode c -> hashContent t = hashContent c.
Proof. unfold hashContent. by intros ->. Qed.

#[local] Opaque hashContent json_text snapshot_value.

Section props.
Context `{YjsLaws, FastDiff, JsonHost}.
Implicit Types (s : session) (w : world).

(** * Runs *)

(** A request to persist that comes when a loop has ended but its promise has not been
    cleared. *)
Definition in_the_gap s : Prop :=
  ss_persistRequested s = true /\ match ss_persist s with PersistExiting _ => True | _ => False end.

(** Calm leaves out what others do to the file, late failures, and two interleavings of the
    session itself.  Nobody else writes the file; a check goes on with what is in the file; a
    write that fails fails before the rename of the file; no request falls into the gap; the
    session is flushed only when it is open, is not closed, and a snapshot that cannot be
    restored has not changed the text. *)
Definition calm w (e : event) w' : Prop :=
  ~ in_the_gap (w_session w') /\
  match e with
  | EvExternal path _ => path <> ss_filePath (w_session w)
  | EvCheckGo IoOk => forall disk, ss_check (w_session w) = CheckReadDone disk -> disk = ReadThrew \/ disk = read_disk w (ss_filePath (w_session w))
  | EvPersistGo IoError =>
      match ss_persist (w_session w) with
      | PersistRunning _ (AtWrite _ _ wr) => wr_renamed wr = false
      | PersistRunning _ (AtSnapshot _ _ _) => False
      | _ => True
      end
  | EvOpenGo IoError => match ss_open (w_session w) with OpenSnapshot _ _ => False | _ => True end
  | EvOpenGo IoOk =>
      match ss_open (w_session w) with
      | OpenStateDone _ _ => forall u d b, y_applyUpdate (ss_doc (w_session w)) u = (d, b, true) -> y_text d = y_text (ss_doc (w_session w))
      | _ => True
      end
  | EvFlush => ss_opened (w_session w) = true
  | EvClosed => False
  | _ => True
  end.

Inductive calm_runs w0 : world -> Prop :=
| calm_start : calm_runs w0 w0
| calm_more w e w' : calm_runs w0 w -> session_step w e = Some w' -> calm w e w' -> calm_runs w0 w'.

(** A new session for a file, which is not its own snapshot. *)
Definition fresh w : Prop :=
  exists filePath eventPath stateFilePath defaultContent disk,
    w = new_world (new_session filePath eventPath stateFilePath defaultContent) disk /\
    stateFilePath <> Some filePath /\ is_jstr defaultContent = true.

(** * The invariant *)

(** The file holds a text, up to lone surrogates. *)
Definition file_holds (disk : gmap jstr (list N)) (path t : jstr) : Prop :=
  exists bytes, disk !! path = Some bytes /\ encode (decode bytes) = encode t.

(** A text that the document had at text number [k] or later. *)
Definition since (texts : list jstr) (k : nat) (t : jstr) : Prop := exists j, k <= j /\ texts !! j = Some t.

(** The text the persist loop is writing. *)
Definition captured s : option jstr :=
  match ss_persist s with
  | PersistRunning _ (AtRead c _ | AtReadDone c _ _ | AtWrite c _ _ | AtSnapshot c _ _) => Some c
  | _ => None
  end.

(** Text [k] or a later one has been saved, and what is being written is not older. *)
Definition saved s (texts : list jstr) (k : nat) : Prop :=
  (exists c, ss_lastWrittenContent s = Some c /\ since texts k c) /\ forall c, captured s = Some c -> since texts k c.

(** It will be saved, or the failure to do so is on record; a request to persist counts
    only when [requests] does. *)
Definition pending (requests : bool) s (texts : list jstr) (k : nat) : Prop :=
  match ss_persist s with
  | PersistNone => ss_failureError s = true
  | PersistExiting rejects => rejects = true /\ ss_failureError s = true
  | PersistRunning _ at_ =>
      requests = true /\ ss_persistRequested s = true \/ at_ = AtReturn true \/ exists c, captured s = Some c /\ since texts k c
  end.

Definition safe (requests : bool) s (texts : list jstr) (k : nat) : Prop := saved s texts k \/ pending requests s texts k.

(** A call of [flush]: once the loop it waits for has ended, what it is about does not
    depend on a request any more. *)
Definition flush_ok s (texts : list jstr) (f : flush_state * nat) : Prop :=
  f.2 < length texts /\
  match f.1 with
  | FlushWaiting run _ =>
      safe true s texts f.2 /\ (run < length (ss_runs s) -> safe false s texts f.2) /\ (run < length (ss_runs s) \/ run = length (ss_runs s) /\ ss_persist s <> PersistNone) /\
      (ss_runs s !! run = Some false -> saved s texts f.2)
  | FlushDone ok => safe false s texts f.2 /\ (ok = true -> saved s texts f.2)
  end.

(** What each await of the persist loop knows of the file. *)
Definition persist_ok s (disk : gmap jstr (list N)) (c0 : jstr) : Prop :=
  let holds := file_holds disk (ss_filePath s) in
  match ss_persist s with
  | PersistRunning _ (AtReadDone _ _ d) => holds c0 /\ (d = ReadThrew \/ exists t, d = ReadText t /\ encode t = encode c0)
  | PersistRunning _ (AtWrite c _ wr) =>
      wr_path wr = ss_filePath s /\ wr_text wr = c /\ ss_pendingWriteHash s = Some (hashContent c) /\ is_jstr c = true /\
      holds (if wr_renamed wr then c else c0)
  | PersistRunning _ (AtSnapshot c _ wr) =>
      ss_pendingWriteHash s = Some (hashContent c) /\ holds c /\ (forall x, wr = Some x -> wr_path x <> ss_filePath s)
  | PersistRunning _ (AtReconcile _ _) => False
  | _ => holds c0
  end.

Record open_ok s (disk : gmap jstr (list N)) (texts : list jstr) (flushes : list (flush_state * nat)) : Prop := {
  oo_listening : ss_listening s = true;
  oo_deleted : ss_deleted s = false;
  oo_open : ss_open s = OpenNone \/ ss_open s = OpenExiting;
  oo_check : match ss_check s with CheckReconcile _ _ => False | _ => True end;
  oo_idle : ss_persistRequested s = true -> match ss_persist s with PersistRunning _ _ => True | _ => False end;
  oo_captured : forall c, captured s = Some c -> is_jstr c = true;
  oo_file : exists c0, ss_lastWrittenContent s = Some c0 /\ ss_lastWrittenHash s = Some (hashContent c0) /\ persist_ok s disk c0;
  oo_now : safe true s texts (pred (length texts));
  oo_flushes : Forall (flush_ok s texts) flushes
}.

(** Before it is open. *)
Record closed_ok s (disk : gmap jstr (list N)) (flushes : list (flush_state * nat)) : Prop := {
  co_listening : ss_listening s = false;
  co_deleted : ss_deleted s = false;
  co_check : ss_check s = CheckNone \/ ss_check s = CheckExiting;
  co_persist : ss_persist s = PersistNone;
  co_requested : ss_persistRequested s = false;
  co_runs : ss_runs s = [];
  co_flushes : flushes = [];
  co_open :
    let holds := file_holds disk (ss_filePath s) in
    match ss_open s with
    | OpenReadDone _ (ReadText c) | OpenState c _ | OpenStateDone c _ => currentContent s = [] /\ is_jstr c = true /\ holds c
    | OpenCreate wr => currentContent s = [] /\ wr_path wr = ss_filePath s /\ wr_text wr = ss_defaultContent s /\
                       (wr_renamed wr = true -> holds (ss_defaultContent s))
    | OpenSnapshot c wr =>
        currentContent s = c /\ ss_lastWrittenContent s = Some c /\ ss_lastWrittenHash s = Some (hashContent c) /\ holds c /\
        (forall x, wr = Some x -> wr_path x <> ss_filePath s)
    | _ => currentContent s = []
    end
}.

Record calm_ok w : Prop := {
  ca_last : last (w_texts w) = Some (currentContent (w_session w));
  ca_state : ss_stateFilePath (w_session w) <> Some (ss_filePath (w_session w));
  ca_default : is_jstr (ss_defaultContent (w_session w)) = true;
  ca_phase : if ss_opened (w_session w) then open_ok (w_session w) (w_disk w) (w_texts w) (w_flushes w)
             else closed_ok (w_session w) (w_disk w) (w_flushes w)
}.

(** ** Its pieces *)

Lemma since_mono texts k j t : since texts j t -> k <= j -> since texts k t.
Proof. intros (i & Hi & Ht) Hk. exists i. split; [lia|done]. Qed.

Lemma since_app texts l k t : since texts k t -> since (texts ++ l) k t.
Proof. intros (i & Hi & Ht). exists i. split; [done|by apply lookup_app_l_Some]. Qed.

Lemma since_last texts k t : last texts = Some t -> k < length texts -> since texts k t.
Proof. intros Hl Hk. exists (pred (length texts)). split; [lia|by rewrite <- last_lookup]. Qed.

Lemma saved_app s texts l k : saved s texts k -> saved s (texts ++ l) k.
Proof. intros [(c & Hc & Hs) Hcap]. split; [exists c; split; [done|by apply since_app]|]. intros x Hx. by apply since_app, Hcap. Qed.

Lemma safe_app b s texts l k : safe b s texts k -> safe b s (texts ++ l) k.
Proof.
  intros [Hs|Hp]; [left; by apply saved_app|right]. unfold pending in *. destruct (ss_persist s); [done| |done].
  destruct Hp as [?|[?|(c & Hc & Hs)]]; [by left|by right; left|right; right; exists c; split; [done|by apply since_app]].
Qed.

Lemma flush_ok_app s texts l f : flush_ok s texts f -> flush_ok s (texts ++ l) f.
Proof.
  intros [Hlt Hf]. split; [rewrite length_app; lia|]. destruct (f.1) as [run retry|ok].
  - destruct Hf as (Hs & Hn & Hr & Hsv). split_and!; [by apply safe_app|intros Hx; by apply safe_app, Hn|done|]. intros Hrun. by apply saved_app, Hsv.
  - destruct Hf as [Hs Hsv]. split; [by apply safe_app|]. intros Hok. by apply saved_app, Hsv.
Qed.

(** From one state to the next what was saved stays saved, what was safe stays safe. *)
Record keeps s s' (texts : list jstr) : Prop := {
  kp_saved k : k < length texts -> saved s texts k -> saved s' texts k;
  kp_safe b k : k < length texts -> safe b s texts k -> safe b s' texts k
}.

Lemma flushes_keep s s' texts flushes :
  keeps s s' texts -> ss_runs s' = ss_runs s -> (ss_persist s <> PersistNone -> ss_persist s' <> PersistNone) ->
  Forall (flush_ok s texts) flushes -> Forall (flush_ok s' texts) flushes.
Proof.
  intros [Hsv Hsf] Hr Hp Hf. eapply Forall_impl; [exact Hf|]. intros f [Hlt Hf']. split; [done|].
  rewrite Hr. destruct (f.1) as [run retry|ok].
  - destruct Hf' as (Hs & Hn & Hrun & Hd). split_and!; [by apply Hsf|intros Hx; by apply Hsf, Hn|naive_solver|]. intros Hx. by apply Hsv, Hd.
  - destruct Hf' as [Hs Hd]. split; [by apply Hsf|]. intros Hok. by apply Hsv, Hd.
Qed.

(** The fields the invariant reads. *)
Definition core s :=
  (ss_listening s, ss_deleted s, ss_persistRequested s, ss_persist s, ss_runs s, ss_lastWrittenContent s,
   ss_lastWrittenHash s, ss_pendingWriteHash s, ss_failureError s, ss_filePath s).

Lemma open_ok_frame s s' disk texts flushes :
  core s' = core s -> ss_open s' = OpenNone \/ ss_open s' = OpenExiting ->
  match ss_check s' with CheckReconcile _ _ => False | _ => True end ->
  open_ok s disk texts flushes -> open_ok s' disk texts flushes.
Proof.
  destruct s, s'. unfold core. cbn. intros Hc Ho Hk []. simplify_eq. by split.
Qed.

(** What the file holds is known to the session. *)
Lemma file_known s disk c0 :
  ss_lastWrittenHash s = Some (hashContent c0) -> persist_ok s disk c0 ->
  exists bytes, disk !! ss_filePath s = Some bytes /\
    (Some (hashContent (decode bytes)) = ss_lastWrittenHash s \/ Some (hashContent (decode bytes)) = ss_pendingWriteHash s).
Proof.
  intros Hl. unfold persist_ok, file_holds. intros Hp.
  assert (forall t, (exists bytes, disk !! ss_filePath s = Some bytes /\ encode (decode bytes) = encode t) ->
            Some (hashContent t) = ss_lastWrittenHash s \/ Some (hashContent t) = ss_pendingWriteHash s ->
            exists bytes, disk !! ss_filePath s = Some bytes /\
    (Some (hashContent (decode bytes)) = ss_lastWrittenHash s \/ Some (hashContent (decode bytes)) = ss_pendingWriteHash s)) as Hx.
  { intros t (b & Hb & He) Ht. exists b. split; [done|]. by rewrite (hash_encode _ _ He). }
  destruct (ss_persist s) as [|fl []|]; try done; destruct_and?; try (apply (Hx c0); [done|by left]).
  - destruct (wr_renamed w); [apply (Hx content); [done|by right]|apply (Hx c0); [done|by left]].
  - apply (Hx content); [done|by right].
Qed.

Lemma file_holds_written disk path c : is_jstr c = true -> file_holds (<[path := encode c]> disk) path c.
Proof. intros Hc. exists (encode c). split; [by rewrite lookup_insert_eq|by apply encode_decode_encode]. Qed.

Lemma file_holds_other disk path path' bytes t :
  path' <> path -> file_holds disk path t -> file_holds (<[path' := bytes]> disk) path t.
Proof. intros Hne (b & Hb & He). exists b. split; [by rewrite lookup_insert_ne|done]. Qed.

(** A step of the session that keeps what was saved. *)
Lemma move_ok s s' disk disk' texts flushes :
  open_ok s disk texts flushes -> 0 < length texts -> keeps s s' texts ->
  (ss_listening s', ss_deleted s', ss_open s', ss_check s', ss_runs s') = (ss_listening s, ss_deleted s, ss_open s, ss_check s, ss_runs s) ->
  (ss_persist s <> PersistNone -> ss_persist s' <> PersistNone) ->
  (ss_persistRequested s' = true -> match ss_persist s' with PersistRunning _ _ => True | _ => False end) ->
  (forall c, captured s' = Some c -> is_jstr c = true) ->
  (exists c0, ss_lastWrittenContent s' = Some c0 /\ ss_lastWrittenHash s' = Some (hashContent c0) /\ persist_ok s' disk' c0) ->
  open_ok s' disk' texts flushes.
Proof.
  intros Hok Hlen Hk Heq Hp Hidle Hcap Hfile. injection Heq as Hl Hd Ho Hc Hr. split; try done.
  - by rewrite Hl, (oo_listening _ _ _ _ Hok).
  - by rewrite Hd, (oo_deleted _ _ _ _ Hok).
  - rewrite Ho. apply (oo_open _ _ _ _ Hok).
  - rewrite Hc. apply (oo_check _ _ _ _ Hok).
  - apply (kp_safe _ _ _ Hk); [lia|]. apply (oo_now _ _ _ _ Hok).
  - eapply flushes_keep; [exact Hk|done|done|]. apply (oo_flushes _ _ _ _ Hok).
Qed.

(** The same await, or another one with the same text in hand. *)
Lemma keeps_captured s s' texts :
  captured s' = captured s -> ss_lastWrittenContent s' = ss_lastWrittenContent s ->
  ss_persistRequested s' = ss_persistRequested s -> is_Some (captured s) -> keeps s s' texts.
Proof.
  intros Hc Hl Hr [c Hs]. assert (forall k, saved s texts k -> saved s' texts k) as Hsv.
  { intros k [Hs1 Hs2]. split; [by rewrite Hl|by rewrite Hc]. }
  split; [intros k Hk; apply Hsv|]. intros b k Hk [Hx|Hx]; [left; by apply Hsv|right]. unfold pending in *.
  assert (exists fl at_, ss_persist s = PersistRunning fl at_ /\ at_ <> AtReturn true) as (fl & at_ & E & Hne).
  { unfold captured in Hs. destruct (ss_persist s) as [|fl at_|]; try done. exists fl, at_. split; [done|]. by intros ->. }
  assert (exists fl at_, ss_persist s' = PersistRunning fl at_) as (fl' & at_' & E').
  { unfold captured in Hs, Hc. rewrite Hs in Hc. destruct (ss_persist s'); try done. eauto. }
  rewrite E in Hx. rewrite E', Hr, Hc. destruct Hx as [?|[?|?]]; [by left|done|by right; right].
Qed.

(** A failure: what was not saved will be recorded as such. *)
Lemma keeps_threw s s' texts fl :
  ss_persist s' = PersistRunning fl (AtReturn true) -> ss_lastWrittenContent s' = ss_lastWrittenContent s -> keeps s s' texts.
Proof.
  intros Hp Hl. assert (forall b k, pending b s' texts k) as Hpend by (intros b k; unfold pending; rewrite Hp; by right; left).
  split; [intros k Hk|by right]. intros [Hs _]. split; [by rewrite Hl|]. unfold captured. by rewrite Hp.
Qed.

(** The loop turns: the text of now is taken, or the loop ends. *)
Lemma keeps_loop s texts fl threw :
  ss_persist s = PersistRunning fl (AtReturn threw) -> ss_deleted s = false -> last texts = Some (currentContent s) ->
  keeps s (persistLoop (if threw then markPersistFailed s else s) (fl || threw)) texts.
Proof.
  intros Hp Hd Hlast. set (s1 := if threw then markPersistFailed s else s).
  assert (ss_deleted s1 = false /\ ss_persistRequested s1 = ss_persistRequested s /\ currentContent s1 = currentContent s /\
          ss_lastWrittenContent s1 = ss_lastWrittenContent s /\ (threw = true -> ss_failureError s1 = true)) as (Hd1 & Hr1 & Ht1 & Hl1 & Hf1)
    by (unfold s1; destruct threw; by split_and!).
  unfold persistLoop, materialize. rewrite Hr1. cbn [ss_deleted update]. cbn. rewrite Hd1.
  assert (forall k, k < length texts -> since texts k (currentContent s)) as Hnow by (intros k Hk; by apply since_last).
  destruct (ss_persistRequested s) eqn:Er; cbn; split; [intros k Hk|intros b k Hk|intros k Hk|intros b k Hk].
  - intros [Hs _]. split; [cbn; by rewrite Hl1|]. cbn. intros c [= <-]. change (currentContent _) with (currentContent s1). rewrite Ht1. by apply Hnow.
  - intros _. right. right. right. exists (currentContent s). cbn. split; [by rewrite <- Ht1|by apply Hnow].
  - intros [Hs _]. split; [cbn; by rewrite Hl1|done].
  - intros [[Hs _]|Hx]; [left; split; [cbn; by rewrite Hl1|done]|].
    unfold pending, captured in Hx. rewrite Hp, Er in Hx. destruct Hx as [[_ ?]|[[= ->]|(c & ? & _)]]; [done| |done].
    right. cbn. split; [by rewrite orb_true_r|by apply Hf1].
Qed.

(** Nothing of the document, the paths and the calls changes. *)
Definition steady w w' : Prop :=
  (ss_doc (w_session w'), ss_opened (w_session w'), ss_filePath (w_session w'), ss_stateFilePath (w_session w'),
   ss_defaultContent (w_session w'), w_texts w', w_flushes w') =
  (ss_doc (w_session w), ss_opened (w_session w), ss_filePath (w_session w), ss_stateFilePath (w_session w),
   ss_defaultContent (w_session w), w_texts w, w_flushes w).

Lemma steady_ok w w' :
  calm_ok w -> ss_opened (w_session w) = true -> steady w w' ->
  open_ok (w_session w') (w_disk w') (w_texts w) (w_flushes w) -> calm_ok w'.
Proof.
  intros [Hlast Hst Hdef _] Hop Heq Hok. injection Heq as Hdoc Ho Hf Hs Hd Ht Hfl.
  split; [unfold currentContent in *; by rewrite Ht, Hdoc|by rewrite Hf, Hs|by rewrite Hd|]. by rewrite Ho, Hop, Ht, Hfl.
Qed.

Lemma track_same w : last (w_texts w) = Some (currentContent (w_session w)) -> track w = w.
Proof. unfold track. by case_bool_decide. Qed.

(** An await of the persist loop goes on in the same iteration. *)
Lemma goto_ok s disk disk' texts flushes fl at0 at1 s1 :
  open_ok s disk texts flushes -> 0 < length texts -> ss_persist s = PersistRunning fl at0 ->
  (s1 = s \/ exists h, s1 = s <| ss_pendingWriteHash := h |>) ->
  (at1 = AtReturn true \/ is_Some (captured s) /\ captured (set_persist s fl at1) = captured s) ->
  (forall c0, ss_lastWrittenContent s = Some c0 -> ss_lastWrittenHash s = Some (hashContent c0) -> persist_ok s disk c0 ->
     persist_ok (set_persist s1 fl at1) disk' c0) ->
  open_ok (set_persist s1 fl at1) disk' texts flushes.
Proof.
  intros Hok Hlen Hp Hs1 Hcap Hfile.
  assert ((ss_listening s1, ss_deleted s1, ss_open s1, ss_check s1, ss_runs s1, ss_lastWrittenContent s1, ss_lastWrittenHash s1,
           ss_persistRequested s1) =
          (ss_listening s, ss_deleted s, ss_open s, ss_check s, ss_runs s, ss_lastWrittenContent s, ss_lastWrittenHash s,
           ss_persistRequested s)) as Heq by (by destruct Hs1 as [->|[h ->]]).
  injection Heq as E1 E2 E3 E4 E5 E6 E7 E8.
  eapply move_ok; [exact Hok|done| | |done|done| |].
  - destruct Hcap as [->|[Hsome Hcap]]; [by eapply keeps_threw|by apply keeps_captured].
  - cbn. by rewrite E1, E2, E3, E4, E5.
  - destruct Hcap as [->|[_ Hcap]]; [done|]. intros c Hc. apply (oo_captured _ _ _ _ Hok). by rewrite <- Hcap.
  - destruct (oo_file _ _ _ _ Hok) as (c0 & Hl & Hh & Hf). exists c0. cbn. rewrite E6, E7. split_and!; [done|done|by apply Hfile].
Qed.

Lemma pending_cleared s h : clear_pending s h = s \/ exists h', clear_pending s h = s <| ss_pendingWriteHash := h' |>.
Proof. unfold clear_pending. case_bool_decide; [right; by eexists|by left]. Qed.

Lemma persist_ok_core s s' disk c0 : core s' = core s -> persist_ok s disk c0 -> persist_ok s' disk c0.
Proof. destruct s, s'. unfold core. cbn. intros Hc. by simplify_eq. Qed.

Lemma step_write_cases w wr e :
  match step_write w wr e with
  | WriteMore w' wr' => e = IoRename /\ wr_renamed wr = false /\ w' = rename_disk w wr /\ wr' = renamed wr
  | WriteEnds true => wr_renamed wr = true
  | WriteEnds false => e = IoError
  | WriteStuck => True
  end.
Proof. unfold step_write. destruct e; [done|destruct (wr_renamed wr) eqn:E; by split_and?|destruct (wr_renamed wr) eqn:E; done|done]. Qed.

Lemma step_snapshot_cases w wr e :
  match step_snapshot w wr e with
  | inl (w', wr', None) => exists x, wr = Some x /\ w' = rename_disk w x /\ wr' = Some (renamed x)
  | inl (w', _, Some ok) => w' = w /\ (ok = false -> e = IoError)
  | inr _ => True
  end.
Proof.
  unfold step_snapshot. destruct wr as [x|]; [|by destruct e].
  pose proof (step_write_cases w x e) as Hc. destruct (step_write w x e) as [w' x'|[|]|]; [|done|done|done].
  destruct Hc as (_ & _ & -> & ->). by exists x.
Qed.


Section persist_go.
Context (w : world).
Let s : session := w_session w.
Let holds : jstr -> Prop := file_holds (w_disk w) (ss_filePath s).
Context (Hok : open_ok s (w_disk w) (w_texts w) (w_flushes w)) (Hlast : last (w_texts w) = Some (currentContent s)).
Context (Hst : ss_stateFilePath s <> Some (ss_filePath s)).

Let kept (w' : world) : Prop := steady w w' /\ open_ok (w_session w') (w_disk w') (w_texts w) (w_flushes w).

Lemma texts_some : 0 < length (w_texts w).
Proof. destruct (w_texts w); [done|cbn; lia]. Qed.

Lemma go_read fl content a d :
  ss_persist s = PersistRunning fl (AtRead content a) -> d = ReadThrew \/ d = read_disk w (ss_filePath s) ->
  kept (set_session w (set_persist s fl (AtReadDone content a d))).
Proof.
  intros Hp Hd. split; [done|]. eapply goto_ok; [exact Hok|apply texts_some|exact Hp|by left|right; unfold captured; cbn; rewrite Hp; by split|].
  intros c0 _ _. unfold persist_ok. rewrite Hp. cbn. intros (b & Hb & He). split; [by exists b|].
  destruct Hd as [-> | ->]; [by left|right]. exists (decode b). unfold read_disk. by rewrite Hb.
Qed.

Lemma go_read_done fl content a d s1 at1 :
  ss_persist s = PersistRunning fl (AtReadDone content a d) -> materialize_read s content a d = (s1, at1) ->
  kept (set_session w (set_persist s1 fl at1)).
Proof.
  intros Hp Hm. destruct (oo_file _ _ _ _ Hok) as (c0 & Hl & Hh & Hf). unfold persist_ok in Hf. rewrite Hp in Hf. destruct Hf as [Hf Hd].
  destruct Hd as [->|(t & -> & He)].
  - injection Hm as <- <-. split; [done|]. eapply goto_ok; [exact Hok|apply texts_some|exact Hp|by left|by left|].
    intros c1 Hl1 _ _. unfold persist_ok. cbn. by assert (c1 = c0) as -> by congruence.
  - unfold materialize_read in Hm. cbn [read_hash] in Hm. rewrite Hh, (hash_encode _ _ He) in Hm.
    rewrite (bool_decide_false (Some (hashContent c0) <> Some (hashContent c0))) in Hm by (intros Hx; by apply Hx).
    rewrite andb_false_r in Hm. injection Hm as <- <-. split; [done|].
    eapply goto_ok; [exact Hok|apply texts_some|exact Hp|right; by eexists|right; unfold captured; cbn; rewrite Hp; by split|].
    intros c1 Hl1 _ _. unfold persist_ok. cbn. split_and!; try done.
    + apply (oo_captured _ _ _ _ Hok). unfold captured. by rewrite Hp.
    + by assert (c1 = c0) as -> by congruence.
Qed.

Lemma go_write fl content a wr e :
  ss_persist s = PersistRunning fl (AtWrite content a wr) -> (e = IoError -> wr_renamed wr = false) ->
  match step_write w wr e with
  | WriteMore w1 wr1 => kept (set_session w1 (set_persist s fl (AtWrite content a wr1)))
  | WriteEnds true => kept (set_session w (set_persist s fl (AtSnapshot content a (writeStateSnapshot s (hashContent content)))))
  | WriteEnds false => kept (set_session w (set_persist (clear_pending s (hashContent content)) fl (AtReturn true)))
  | WriteStuck => True
  end.
Proof.
  intros Hp Hcalm. assert (captured s = Some content) as Hcap by (unfold captured; by rewrite Hp).
  assert (forall c0, persist_ok s (w_disk w) c0 ->
    wr_path wr = ss_filePath s /\ wr_text wr = content /\ ss_pendingWriteHash s = Some (hashContent content) /\ is_jstr content = true /\
    holds (if wr_renamed wr then content else c0)) as Hf by (intros c0; unfold persist_ok; by rewrite Hp).
  pose proof (step_write_cases w wr e) as Hc. destruct (step_write w wr e) as [w1 wr1|[|]|]; [| | |done].
  - destruct Hc as (_ & Hr & -> & ->). split; [done|].
    eapply goto_ok; [exact Hok|apply texts_some|exact Hp|by left|right; by rewrite Hcap|].
    intros c0 _ _ (Hpath & Htext & Hpend & Hj & _)%Hf. unfold persist_ok. cbn. rewrite Hpath, Htext. split_and!; try done.
    by apply file_holds_written.
  - split; [done|]. eapply goto_ok; [exact Hok|apply texts_some|exact Hp|by left|right; by rewrite Hcap|].
    intros c0 _ _ (Hpath & Htext & Hpend & Hj & Hh)%Hf. rewrite Hc in Hh. unfold persist_ok. cbn. split_and!; try done.
    intros x Hx. unfold writeStateSnapshot in Hx. destruct (ss_stateFilePath s) as [p|]; [|done]. injection Hx as <-. cbn. congruence.
  - split; [by destruct (pending_cleared s (hashContent content)) as [->|[h ->]]|].
    eapply goto_ok; [exact Hok|apply texts_some|exact Hp|apply pending_cleared|by left|].
    intros c0 _ _ (_ & _ & _ & _ & Hh)%Hf. rewrite (Hcalm Hc) in Hh. unfold persist_ok. cbn.
    by destruct (pending_cleared s (hashContent content)) as [->|[h ->]].
Qed.

Lemma written_fields content a :
  let s' := materialize_written s content a in
  (ss_listening s', ss_deleted s', ss_open s', ss_check s', ss_runs s', ss_persistRequested s', ss_lastWrittenContent s',
   ss_lastWrittenHash s', ss_filePath s', ss_doc s', ss_opened s', ss_stateFilePath s', ss_defaultContent s') =
  (ss_listening s, ss_deleted s, ss_open s, ss_check s, ss_runs s, ss_persistRequested s, Some content,
   Some (hashContent content), ss_filePath s, ss_doc s, ss_opened s, ss_stateFilePath s, ss_defaultContent s).
Proof.
  unfold materialize_written, markPersistRecovered. cbn zeta.
  destruct (negb _); match goal with |- context [clear_pending ?x ?h] => destruct (pending_cleared x h) as [->|[? ->]] end; done.
Qed.

Lemma go_snapshot fl content a wr e :
  ss_persist s = PersistRunning fl (AtSnapshot content a wr) -> e <> IoError ->
  match step_snapshot w wr e with
  | inl (w1, wr1, None) => kept (set_session w1 (set_persist s fl (AtSnapshot content a wr1)))
  | inl (w1, _, Some true) => kept (set_session w1 (set_persist (materialize_written s content a) fl (AtReturn false)))
  | inl (_, _, Some false) => False
  | inr _ => True
  end.
Proof.
  intros Hp He. assert (captured s = Some content) as Hcap by (unfold captured; by rewrite Hp).
  assert (forall c0, persist_ok s (w_disk w) c0 -> ss_pendingWriteHash s = Some (hashContent content) /\ holds content /\
            (forall x, wr = Some x -> wr_path x <> ss_filePath s)) as Hf by (intros c0; unfold persist_ok; by rewrite Hp).
  pose proof (step_snapshot_cases w wr e) as Hc. destruct (step_snapshot w wr e) as [[[w1 wr1] [[|]|]]|]; [|naive_solver| |done].
  - destruct Hc as [-> _]. pose proof (written_fields content a) as Heq. cbn zeta in Heq. set (s1 := materialize_written s content a) in *.
    injection Heq as E1 E2 E3 E4 E5 E6 E7 E8 E9 E10 E11 E12 E13. split; [unfold steady; cbn; fold s; congruence|].
    eapply move_ok; [exact Hok|apply texts_some| |cbn; congruence|done|done|done|].
    + split; [intros k Hk|intros b k Hk].
      * intros [_ Hs]. split; [exists content; split; [done|by apply Hs]|done].
      * intros [[_ Hs]|Hx]; [left; split; [exists content; split; [done|by apply Hs]|done]|].
        unfold pending in Hx. rewrite Hp in Hx. destruct Hx as [Hr|[?|(c & Hc' & Hs)]]; [|done|].
        -- right. unfold pending. cbn. left. split; [by destruct Hr|]. destruct Hr. congruence.
        -- rewrite Hcap in Hc'. injection Hc' as <-. left. split; [exists content; by split|done].
    + destruct (oo_file _ _ _ _ Hok) as (c0 & _ & _ & (_ & Hh & _)%Hf). exists content. split_and!; [done|done|].
      unfold persist_ok. cbn. by rewrite E9.
  - destruct Hc as (x & -> & -> & ->). split; [done|].
    eapply goto_ok; [exact Hok|apply texts_some|exact Hp|by left|right; by rewrite Hcap|].
    intros c0 _ _ (Hpend & Hh & Hx)%Hf. unfold persist_ok. cbn. split_and!; [done| |].
    + apply file_holds_other; [by apply Hx|done].
    + intros y [= <-]. cbn. by apply Hx.
Qed.

Lemma persistLoop_fields s0 fl :
  let s' := persistLoop s0 fl in
  (ss_listening s', ss_deleted s', ss_open s', ss_check s', ss_runs s', ss_lastWrittenContent s', ss_lastWrittenHash s',
   ss_filePath s', ss_doc s', ss_opened s', ss_stateFilePath s', ss_defaultContent s', ss_failureError s') =
  (ss_listening s0, ss_deleted s0, ss_open s0, ss_check s0, ss_runs s0, ss_lastWrittenContent s0, ss_lastWrittenHash s0,
   ss_filePath s0, ss_doc s0, ss_opened s0, ss_stateFilePath s0, ss_defaultContent s0, ss_failureError s0).
Proof.
  unfold persistLoop, materialize. destruct (ss_persistRequested s0); [|done]. cbn. destruct (ss_deleted s0) eqn:E; cbn; by rewrite ?E.
Qed.

(** What the loop does next: the text of now is read, or it ends. *)
Lemma persistLoop_at s0 fl : ss_deleted s0 = false ->
  ss_persist (persistLoop s0 fl) =
    (if ss_persistRequested s0 then PersistRunning fl (AtRead (currentContent s0) (ss_attribution s0)) else PersistExiting fl) /\
  (ss_persistRequested (persistLoop s0 fl) = false).
Proof.
  intros Hd. unfold persistLoop, materialize. cbn. rewrite Hd. by destruct (ss_persistRequested s0) eqn:E.
Qed.

Lemma go_return fl threw :
  ss_persist s = PersistRunning fl (AtReturn threw) ->
  kept (set_session w (persistLoop (if threw then markPersistFailed s else s) (fl || threw))).
Proof.
  intros Hp. set (s1 := if threw then markPersistFailed s else s).
  assert (core s1 = core s \/ core s1 = core (s <| ss_failureError := true |>)) as Hcore
    by (unfold s1; destruct threw; [right|left]; done).
  assert ((ss_open s1, ss_check s1, ss_doc s1, ss_opened s1, ss_stateFilePath s1, ss_defaultContent s1) =
          (ss_open s, ss_check s, ss_doc s, ss_opened s, ss_stateFilePath s, ss_defaultContent s)) as Heq by (unfold s1; by destruct threw).
  pose proof (persistLoop_fields s1 (fl || threw)) as Hl. cbn zeta in Hl. set (s2 := persistLoop s1 (fl || threw)) in *.
  assert (ss_deleted s1 = false) as Hd1.
  { transitivity (ss_deleted s); [|apply (oo_deleted _ _ _ _ Hok)]. unfold s1. by destruct threw. }
  destruct (persistLoop_at s1 (fl || threw) Hd1) as [Hp2 Hr2]. fold s2 in Hp2, Hr2.
  assert (core s1 = core s1) as Hc1 by done. unfold core in Hcore.
  injection Heq as E1 E2 E3 E4 E5 E6. injection Hl as F1 F2 F3 F4 F5 F6 F7 F8 F9 F10 F11 F12 F13.
  assert (ss_listening s1 = ss_listening s /\ ss_runs s1 = ss_runs s /\ ss_lastWrittenContent s1 = ss_lastWrittenContent s /\
          ss_lastWrittenHash s1 = ss_lastWrittenHash s /\ ss_filePath s1 = ss_filePath s /\ ss_deleted s1 = ss_deleted s) as (G1 & G2 & G3 & G4 & G5 & G6)
    by (unfold s1; destruct threw; by split_and!).
  split; [unfold steady; cbn; fold s; congruence|].
  eapply move_ok; [exact Hok|apply texts_some| |cbn; congruence| | | |].
  - apply (keeps_loop s (w_texts w) fl threw Hp); [apply (oo_deleted _ _ _ _ Hok)|done].
  - intros _. cbn. rewrite Hp2. by destruct (ss_persistRequested s1).
  - cbn. by rewrite Hr2.
  - cbn. unfold captured. rewrite Hp2. destruct (ss_persistRequested s1); [|done]. intros c [= <-]. apply y_text_jstr.
  - destruct (oo_file _ _ _ _ Hok) as (c0 & Hc & Hh & Hf). exists c0. cbn. split_and!; [congruence|congruence|].
    unfold persist_ok in *. cbn. rewrite Hp in Hf. rewrite Hp2, F8, G5. by destruct (ss_persistRequested s1).
Qed.

Lemma go_exit rejects :
  ss_persist s = PersistExiting rejects ->
  kept (set_session w (s <| ss_persist := PersistNone |> <| ss_runs := ss_runs s ++ [rejects] |>)).
Proof.
  intros Hp. split; [done|]. set (s' := s <| ss_persist := PersistNone |> <| ss_runs := ss_runs s ++ [rejects] |>).
  assert (forall k, saved s (w_texts w) k -> saved s' (w_texts w) k) as Hsv by (intros k [Hs _]; by split).
  assert (forall b b' k, safe b s (w_texts w) k -> safe b' s' (w_texts w) k) as Hsf.
  { intros b b' k [Hs|Hx]; [left; by apply Hsv|right]. unfold pending in *. rewrite Hp in Hx. by destruct Hx. }
  destruct Hok as [O1 O2 O3 O4 O5 O6 O7 O8 O9]. split; cbn; try done.
  - intros Hr. specialize (O5 Hr). by rewrite Hp in O5.
  - destruct O7 as (c0 & Hc & Hh & Hf). exists c0. split_and!; [done|done|]. unfold persist_ok in *. cbn. by rewrite Hp in Hf.
  - by apply (Hsf true).
  - eapply Forall_impl; [exact O9|]. intros f [Hlt Hf]. split; [done|]. destruct (f.1) as [run retry|ok].
    + destruct Hf as (Hs & Hn & Hr & Hsaved). split_and!; [by apply (Hsf true)|intros _; by apply (Hsf true)| |].
      * cbn. rewrite length_app. cbn. left. lia.
      * cbn. intros [Hx|[Hge Hx]]%lookup_app_Some; [by apply Hsv, Hsaved|].
        destruct (run - length (ss_runs s)); [|done]. injection Hx as ->. destruct Hs as [Hs|Hx]; [by apply Hsv|].
        unfold pending in Hx. rewrite Hp in Hx. by destruct Hx.
    + destruct Hf as [Hs Hsaved]. split; [by apply (Hsf false)|]. intros Hk. by apply Hsv, Hsaved.
Qed.
End persist_go.

Lemma persist_go_ok w e w' :
  calm_ok w -> ss_opened (w_session w) = true -> calm w (EvPersistGo e) w' -> step_persist w e = Some w' ->
  steady w w' /\ open_ok (w_session w') (w_disk w') (w_texts w) (w_flushes w).
Proof.
  intros [Hlast Hst Hdef Hok] Hop [_ Hcalm]. rewrite Hop in Hok.
  unfold step_persist. destruct (ss_persist (w_session w)) as [|fl at_|rejects] eqn:Ep; [done| |].
  - destruct at_ as [content a|content a d|content a wr|content a wr|kind wr|threw].
    + destruct e; try done; intros [= <-]; eapply (go_read w); eauto.
    + destruct e; try done. destruct (materialize_read _ _ _ _) as [s1 at1] eqn:E. intros [= <-]. by eapply (go_read_done w).
    + pose proof (go_write w Hok Hlast Hst _ _ _ _ e Ep) as Hg. destruct (step_write w wr e) as [w1 wr1|[|]|]; try done;
        intros [= <-]; apply Hg; intros ->; done.
    + pose proof (go_snapshot w Hok Hlast _ _ _ _ e Ep) as Hg. destruct (step_snapshot w wr e) as [[[w1 wr1] [[|]|]]|] eqn:Es; try done.
      * pose proof (step_snapshot_cases w wr e) as Hc. rewrite Es in Hc. destruct Hc as [-> _]. intros [= <-]. apply Hg. by intros ->.
      * exfalso. apply Hg. by intros ->.
      * intros [= <-]. apply Hg. by intros ->.
    + destruct (oo_file _ _ _ _ Hok) as (c0 & _ & _ & Hf). unfold persist_ok in Hf. by rewrite Ep in Hf.
    + destruct e; try done. intros [= <-]. by apply (go_return w).
  - destruct e; try done. intros [= <-]. by apply (go_exit w).
Qed.

(** ** The check of the file *)

(** A check finds the file as the session left it, or fails. *)
Lemma check_go_shape w e w' :
  calm_ok w -> ss_opened (w_session w) = true -> calm w (EvCheckGo e) w' -> step_check w e = Some w' ->
  exists c, w' = set_session w (w_session w <| ss_check := c |>) /\ match c with CheckReconcile _ _ => False | _ => True end.
Proof.
  intros [Hlast Hst Hdef Hok] Hop [_ Hcalm]. rewrite Hop in Hok.
  unfold step_check. pose proof (oo_check _ _ _ _ Hok) as Hnot. destruct (ss_check (w_session w)) as [| |d|kind wr|] eqn:Ec; try done.
  - destruct e; try done; intros [= <-]; by eexists.
  - destruct e; try done. intros [= <-]. destruct (oo_file _ _ _ _ Hok) as (c0 & Hl & Hh & Hf).
    destruct (file_known _ _ _ Hh Hf) as (b & Hb & Hknown). destruct (Hcalm d eq_refl) as [-> | ->]; [by eexists|].
    unfold read_disk. rewrite Hb. unfold check_read. rewrite (proj2 (orb_true_iff _ _)); [by eexists|].
    by rewrite !bool_decide_eq_true.
  - destruct e; try done. intros [= <-]. by eexists.
Qed.

Lemma check_go_ok w e w' :
  calm_ok w -> ss_opened (w_session w) = true -> calm w (EvCheckGo e) w' -> step_check w e = Some w' ->
  steady w w' /\ open_ok (w_session w') (w_disk w') (w_texts w) (w_flushes w).
Proof.
  intros Hw Hop Hcalm Hstep. destruct (check_go_shape _ _ _ Hw Hop Hcalm Hstep) as (c & -> & Hc). split; [done|].
  pose proof (ca_phase _ Hw) as Hok. rewrite Hop in Hok. by apply (open_ok_frame (w_session w)); [|apply (oo_open _ _ _ _ Hok)|..].
Qed.

(** ** Requests to persist *)

(** What a request leaves as it was. *)
Definition request_keeps s s' (doc : ydoc) : Prop :=
  (ss_listening s', ss_deleted s', ss_open s', ss_check s', ss_runs s', ss_lastWrittenContent s', ss_lastWrittenHash s',
   ss_filePath s', ss_doc s', ss_opened s', ss_stateFilePath s', ss_defaultContent s') =
  (ss_listening s, ss_deleted s, ss_open s, ss_check s, ss_runs s, ss_lastWrittenContent s, ss_lastWrittenHash s,
   ss_filePath s, doc, ss_opened s, ss_stateFilePath s, ss_defaultContent s).

(** When the text is that of [doc] and the session is asked to persist it, everything is
    safe from then on. *)
Lemma request_safe s doc a disk texts :
  ss_deleted s = false -> last texts = Some (y_text doc) -> (forall c, captured s = Some c -> is_jstr c = true) ->
  let s' := requestPersist (s <| ss_doc := doc |> <| ss_attribution := a |>) in
  ~ in_the_gap s' ->
  (forall k, k < length texts -> saved s texts k -> saved s' texts k) /\
  (forall k, k < length texts -> safe true s' texts k) /\
  (forall k, k < length texts -> safe false s texts k -> safe false s' texts k) /\
  (exists fl at_, ss_persist s' = PersistRunning fl at_) /\ request_keeps s s' doc /\
  (forall c, captured s' = Some c -> is_jstr c = true) /\ (forall c0, persist_ok s disk c0 -> persist_ok s' disk c0).
Proof.
  intros Hd Hlast Hcap. cbn zeta.
  assert (forall k, k < length texts -> since texts k (y_text doc)) as Hnow by (intros k; by apply since_last).
  unfold requestPersist. cbn [ss_persist update]. cbn. destruct (ss_persist s) as [|fl at_|rejects] eqn:Ep.
  - unfold persistLoop, materialize. cbn. rewrite Hd. cbn. intros _. split_and!; try done.
    + intros k Hk [Hs _]. split; [exact Hs|]. intros c [= <-]. by apply Hnow.
    + intros k Hk. right. right. right. exists (y_text doc). split; [done|by apply Hnow].
    + intros k Hk _. right. right. right. exists (y_text doc). split; [done|by apply Hnow].
    + by do 2 eexists.
    + intros c [= <-]. apply y_text_jstr.
    + intros c0. unfold persist_ok. by rewrite Ep.
  - intros _. unfold saved, safe, pending, captured, request_keeps, persist_ok in *. cbn. rewrite Ep in *. split_and!; try done.
    + intros k Hk. right. by left.
    + intros k Hk [Hx|[[? _]|Hx]]; [by left|done|right; by right].
    + by do 2 eexists.
  - intros Hgap. exfalso. apply Hgap. unfold in_the_gap. cbn. by rewrite Ep.
Qed.

(** The same as a step: the texts may have grown. *)
Lemma request_ok s doc a disk texts l flushes :
  open_ok s disk texts flushes -> last (texts ++ l) = Some (y_text doc) ->
  let s' := requestPersist (s <| ss_doc := doc |> <| ss_attribution := a |>) in
  ~ in_the_gap s' ->
  open_ok s' disk (texts ++ l) flushes /\ request_keeps s s' doc /\ ss_persist s' <> PersistNone /\
  (forall k, k < length (texts ++ l) -> saved s (texts ++ l) k -> saved s' (texts ++ l) k) /\
  (forall k, k < length (texts ++ l) -> safe true s' (texts ++ l) k) /\
  (forall k, k < length (texts ++ l) -> safe false s (texts ++ l) k -> safe false s' (texts ++ l) k).
Proof.
  intros [O1 O2 O3 O4 O5 O6 O7 O8 O9] Hlast s' Hgap.
  destruct (request_safe s doc a disk (texts ++ l) O2 Hlast O6 Hgap) as (Hsv & Hsf & Hsn & (fl & at_ & Hp) & Hk & Hcap & Hfile).
  fold s' in Hsv, Hsf, Hsn, Hp, Hk, Hcap, Hfile. split_and!; [|done|by rewrite Hp|done|done|done].
  assert (0 < length (texts ++ l)) as Hlen by (destruct (texts ++ l); [done|cbn; lia]).
  injection Hk as E1 E2 E3 E4 E5 E6 E7 E8 E9 E10 E11 E12. split;
    [congruence|congruence|by rewrite E3|by rewrite E4|intros _; by rewrite Hp|done| | |].
  - destruct O7 as (c0 & Hc & Hh & Hf). exists c0. rewrite E6, E7. split_and!; [done|done|by apply Hfile].
  - apply Hsf. lia.
  - eapply Forall_impl; [exact O9|]. intros f Hf%(flush_ok_app _ _ l). destruct Hf as [Hlt Hf]. split; [done|].
    rewrite E5, Hp. destruct (f.1) as [run retry|ok].
    + destruct Hf as (_ & Hn & Hr & Hd). split_and!; [by apply Hsf|intros Hx; by apply Hsn, Hn|naive_solver|]. intros Hx. by apply Hsv, Hd.
    + destruct Hf as [Hs Hd]. split; [by apply Hsn|]. intros Hx. by apply Hsv, Hd.
Qed.

(** ** Flushes *)

Lemma saved_now s disk texts flushes :
  open_ok s disk texts flushes -> ss_persist s = PersistNone -> ss_failureError s = false -> saved s texts (pred (length texts)).
Proof.
  intros Hok Hp Hf. destruct (oo_now _ _ _ _ Hok) as [Hs|Hs]; [done|]. unfold pending in Hs. rewrite Hp in Hs. congruence.
Qed.

(** Asked again with the text it has. *)
Lemma request_again s disk texts flushes :
  open_ok s disk texts flushes -> last texts = Some (currentContent s) -> ~ in_the_gap (requestPersist s) ->
  open_ok (requestPersist s) disk texts flushes /\ request_keeps s (requestPersist s) (ss_doc s) /\
  ss_persist (requestPersist s) <> PersistNone /\
  (forall k, k < length texts -> saved s texts k -> saved (requestPersist s) texts k) /\
  (forall k, k < length texts -> safe true (requestPersist s) texts k) /\
  (forall k, k < length texts -> safe false s texts k -> safe false (requestPersist s) texts k).
Proof.
  intros Hok Hlast Hgap. assert (s <| ss_doc := ss_doc s |> <| ss_attribution := ss_attribution s |> = s) as Hs by (by destruct s).
  pose proof (request_ok s (ss_doc s) (ss_attribution s) disk texts [] flushes Hok) as Hr. cbn zeta in Hr. rewrite Hs, app_nil_r in Hr.
  by apply Hr.
Qed.

Lemma flush_retry_ok s s' disk texts flushes f :
  open_ok s disk texts flushes -> last texts = Some (currentContent s) -> flush_retry s = (s', f) -> ~ in_the_gap s' ->
  open_ok s' disk texts flushes /\ request_keeps s s' (ss_doc s) /\
  (forall k, k < length texts -> saved s texts k -> saved s' texts k) /\
  (forall b k, k < length texts -> safe b s texts k -> safe b s' texts k) /\
  match f with
  | FlushWaiting run _ => run = length (ss_runs s') /\ ss_persist s' <> PersistNone
  | FlushDone ok => s' = s /\ ss_failureError s = false /\ ok = true
  end.
Proof.
  intros Hok Hlast Hf Hgap. unfold flush_retry in Hf. destruct (ss_failureError s) eqn:E; injection Hf as <- <-; [|by split_and!].
  destruct (request_again s disk texts flushes Hok Hlast Hgap) as (Hok' & Hk & Hp & Hsv & Hsf & Hsn). split_and!; try done. intros [] k Hlt; [by eauto|by apply Hsn].
Qed.

Lemma call_flush_ok s s' disk texts flushes f :
  open_ok s disk texts flushes -> last texts = Some (currentContent s) -> flush s = (s', f) -> ~ in_the_gap s' ->
  open_ok s' disk texts (flushes ++ [(f, pred (length texts))]) /\ request_keeps s s' (ss_doc s).
Proof.
  intros Hok Hlast Hf Hgap. assert (0 < length texts) as Hlen by (destruct texts; [done|cbn; lia]).
  assert (forall s1, open_ok s1 disk texts flushes -> flush_ok s1 texts (f, pred (length texts)) ->
            open_ok s1 disk texts (flushes ++ [(f, pred (length texts))])) as Hadd.
  { intros s1 [O1 O2 O3 O4 O5 O6 O7 O8 O9] Hfl. split; try done. apply Forall_app. split; [done|by constructor]. }
  assert (forall s1 run retry, open_ok s1 disk texts flushes -> f = FlushWaiting run retry -> run = length (ss_runs s1) ->
            ss_persist s1 <> PersistNone -> flush_ok s1 texts (f, pred (length texts))) as Hwait.
  { intros s1 run retry Hs1 -> -> Hne. split; [cbn; lia|]. cbn. split_and!; [apply (oo_now _ _ _ _ Hs1)|lia|by right|].
    by rewrite (lookup_ge_None_2 _ _ (le_n _)). }
  unfold flush in Hf. destruct (ss_persist s) as [|fl at_|rejects] eqn:Ep.
  2,3: injection Hf as <- <-; split; [apply Hadd; [done|]; eapply Hwait; eauto; by rewrite Ep|done].
  destruct (flush_retry_ok s s' disk texts flushes f Hok Hlast Hf Hgap) as (Hok' & Hk & _ & _ & Hans).
  split; [|done]. apply Hadd; [done|]. destruct f as [run retry|ok].
  - destruct Hans as [-> Hne]. by eapply Hwait.
  - destruct Hans as (-> & Hfe & ->). pose proof (saved_now _ _ _ _ Hok Ep Hfe). split; [cbn; lia|]. split; [by left|done].
Qed.

Lemma step_flush_ok s s' disk texts flushes i f f' k :
  open_ok s disk texts flushes -> last texts = Some (currentContent s) -> flushes !! i = Some (f, k) ->
  step_flush s f = Some (s', f') -> ~ in_the_gap s' ->
  open_ok s' disk texts (<[i := (f', k)]> flushes) /\ request_keeps s s' (ss_doc s).
Proof.
  intros Hok Hlast Hi Hf Hgap.
  assert (forall s1, open_ok s1 disk texts flushes -> flush_ok s1 texts (f', k) -> open_ok s1 disk texts (<[i := (f', k)]> flushes)) as Hput.
  { intros s1 [O1 O2 O3 O4 O5 O6 O7 O8 O9] Hfl. split; try done. by apply Forall_insert. }
  pose proof (Forall_lookup_1 _ _ _ _ (oo_flushes _ _ _ _ Hok) Hi) as [Hlt Hfl]. cbn in Hlt, Hfl.
  destruct f as [run retry|]; [|done]. cbn in Hf. destruct Hfl as (Hs & Hn & Hr & Hd).
  destruct (ss_runs s !! run) as [[|]|] eqn:Erun; [| |done].
  - injection Hf as <- <-. split; [|done]. apply Hput; [done|]. split; [done|]. split; [apply Hn; by eapply lookup_lt_Some|done].
  - specialize (Hd eq_refl). destruct retry.
    + injection Hf as <- <-. split; [|done]. apply Hput; [done|]. split; [done|]. split; [by left|done].
    + injection Hf as Hf. destruct (flush_retry_ok s s' disk texts flushes f' Hok Hlast Hf Hgap) as (Hok' & Hk & Hsv & Hsf & Hans).
      split; [|done]. apply Hput; [done|]. split; [done|]. cbn. destruct f' as [run' retry'|ok].
      * destruct Hans as [-> Hne]. split_and!; [by apply Hsf|lia|by right|]. by rewrite (lookup_ge_None_2 _ _ (le_n _)).
      * split; [left|intros _]; by apply Hsv.
Qed.

(** ** The changes of clients *)

(** What a client does to the session: nothing, or a change of the document in its name. *)
Definition client_change s s' : Prop :=
  s' = s \/
  exists doc emitted attribution source,
    s' = changed s doc emitted (AttributionOrigin attribution source) /\ (emitted = false -> y_text doc = currentContent s).

Lemma client_transact s ops attribution source : client_change s (transact s ops (AttributionOrigin attribution source)).
Proof.
  right. unfold transact. destruct (y_transact (ss_doc s) ops) as [doc em] eqn:E. exists doc, em, attribution, source.
  split; [done|]. intros ->. by apply (y_transact_quiet _ _ _ E).
Qed.

Lemma client_replace s content attribution source : client_change s (replace_content s content (AttributionOrigin attribution source)).
Proof. unfold replace_content. destruct (negb _); [apply client_transact|by left]. Qed.

Lemma client_update s update attribution source : client_change s (apply_update s update (AttributionOrigin attribution source)).
Proof.
  right. unfold apply_update. destruct (y_applyUpdate (ss_doc s) update) as [[doc em] threw] eqn:E. exists doc, em, attribution, source.
  split; [done|]. intros ->. by apply (y_applyUpdate_quiet _ _ _ _ E).
Qed.

Lemma client_reset s content s' : reset s content = Some s' -> client_change s s'.
Proof. unfold reset. destruct (negb _); [done|]. intros [= <-]. apply client_transact. Qed.

Lemma client_applyContent s content attribution s' : applyContent s content attribution = Some s' -> client_change s s'.
Proof. unfold applyContent. destruct (negb _); [done|]. intros [= <-]. apply client_replace. Qed.

Lemma client_baseline s baseline edit attribution s' :
  applyBaselineEdit s baseline edit attribution = Some (inl s') -> client_change s s'.
Proof.
  unfold applyBaselineEdit. destruct (negb _); [done|]. destruct (negb _); [done|]. destruct (edit _); [|done].
  intros [= <-]. apply client_replace.
Qed.

Lemma client_edit s seen edit attribution s' : applyContentEdit s seen edit attribution = Some s' -> client_change s s'.
Proof. unfold applyContentEdit, applyPositionedContent. destruct (negb _); [done|]. intros [= <-]. apply client_replace. Qed.

Lemma track_last w : last (w_texts (track w)) = Some (currentContent (w_session w)).
Proof. unfold track. case_bool_decide; [done|]. cbn. by rewrite last_snoc. Qed.

Lemma track_texts w : exists l, w_texts (track w) = w_texts w ++ l /\ (last (w_texts w) = Some (currentContent (w_session w)) -> l = []).
Proof.
  unfold track. case_bool_decide; [exists []; by rewrite app_nil_r|]. cbn. eexists. split; [done|]. done.
Qed.

Lemma track_same_session w : (w_session (track w), w_disk (track w), w_flushes (track w)) = (w_session w, w_disk w, w_flushes w).
Proof. unfold track. by case_bool_decide. Qed.

Lemma open_ok_doc s doc disk texts flushes : open_ok s disk texts flushes -> open_ok (s <| ss_doc := doc |>) disk texts flushes.
Proof. intros Hok. by apply (open_ok_frame s); [|apply (oo_open _ _ _ _ Hok)|apply (oo_check _ _ _ _ Hok)|]. Qed.

Lemma client_ok w s' :
  calm_ok w -> ss_opened (w_session w) = true -> client_change (w_session w) s' -> ~ in_the_gap s' ->
  calm_ok (track (set_session w s')) /\ ss_opened s' = true /\ ss_filePath s' = ss_filePath (w_session w).
Proof.
  intros Hw Hop Hch Hgap. pose proof Hw as [Hlast Hst Hdef Hok]. rewrite Hop in Hok. set (s := w_session w) in *.
  pose proof (track_last (set_session w s')) as Hl. destruct (track_texts (set_session w s')) as (l & Ht & Hnil).
  pose proof (track_same_session (set_session w s')) as Hsame. injection Hsame as Hs Hd Hf. cbn in Hl, Ht, Hnil, Hs, Hd, Hf.
  assert (open_ok s' (w_disk w) (w_texts w ++ l) (w_flushes w) /\ request_keeps s s' (ss_doc s')) as [Hok' Hk].
  { destruct Hch as [->|(doc & em & a & src & -> & Hq)].
    - rewrite (Hnil Hlast), app_nil_r. by split.
    - assert (ss_deleted s = false /\ ss_listening s = true) as [Hdel Hlis] by (split; apply Hok).
      unfold changed in *. cbn in *. rewrite Hlis in *. destruct em; cbn in *.
      + rewrite Hdel in *. set (s' := requestPersist _) in *.
        assert (ss_doc s' = doc) as Hdoc.
        { destruct (request_safe s doc (documentUpdateAttributionFromOrigin (AttributionOrigin a src)) (w_disk w) [y_text doc]
            Hdel eq_refl (oo_captured _ _ _ _ Hok) Hgap) as (_ & _ & _ & _ & Hk & _). injection Hk as _ _ _ _ _ _ _ _ Hx _ _ _. exact Hx. }
        rewrite Hdoc. rewrite Ht in Hl. unfold currentContent in Hl. rewrite Hdoc in Hl.
        destruct (request_ok s doc _ (w_disk w) (w_texts w) l (w_flushes w) Hok Hl Hgap) as (Hok' & Hk & _). by split.
      + rewrite Hnil, app_nil_r; [|rewrite Hlast; unfold currentContent; cbn; by rewrite Hq].
        split; [by apply open_ok_doc|done]. }
  unfold request_keeps in Hk. injection Hk as E1 E2 E3 E4 E5 E6 E7 E8 E10 E11 E12.
  split; [|by rewrite E10, E8]. split; rewrite ?Hs.
  - done.
  - by rewrite E8, E11.
  - by rewrite E12.
  - rewrite E10, Hop, Ht, Hd, Hf. done.
Qed.

Lemma call_flush_calm w :
  calm_ok w -> ss_opened (w_session w) = true -> ~ in_the_gap (w_session (call_flush w)) -> calm_ok (call_flush w).
Proof.
  intros [Hlast Hst Hdef Hok] Hop. rewrite Hop in Hok. unfold call_flush. destruct (flush (w_session w)) as [s' f] eqn:Ef. intros Hgap.
  destruct (call_flush_ok _ _ _ _ _ _ Hok Hlast Ef Hgap) as [Hok' Hk].
  injection Hk as E1 E2 E3 E4 E5 E6 E7 E8 E9 E10 E11 E12. split; cbn.
  - unfold currentContent. by rewrite E9.
  - by rewrite E8, E11.
  - by rewrite E12.
  - by rewrite E10, Hop.
Qed.

(** A flush does not take a request out of the gap. *)
Lemma gap_flush w : in_the_gap (w_session w) -> in_the_gap (w_session (call_flush w)).
Proof.
  intros Hg. pose proof Hg as [Hr Hp]. unfold call_flush, flush. destruct (ss_persist (w_session w)); try done.
Qed.

Lemma edit_and_flush_calm w s' :
  calm_ok w -> ss_opened (w_session w) = true -> client_change (w_session w) s' ->
  ~ in_the_gap (w_session (edit_and_flush w s')) -> calm_ok (edit_and_flush w s').
Proof.
  intros Hw Hop Hch Hgap. unfold edit_and_flush in *. pose proof (track_same_session (set_session w s')) as Hsame. injection Hsame as Hs _ _.
  assert (~ in_the_gap s') as Hg' by (intros Hg; apply Hgap, gap_flush; by rewrite Hs).
  destruct (client_ok w s' Hw Hop Hch Hg') as (Hw' & Hop' & _). apply call_flush_calm; [done|by rewrite Hs|done].
Qed.

Lemma flush_go_calm w i w' :
  calm_ok w -> ss_opened (w_session w) = true -> machine_step w (EvFlushGo i) = Some w' -> ~ in_the_gap (w_session w') -> calm_ok w'.
Proof.
  intros [Hlast Hst Hdef Hok] Hop Hstep Hgap. rewrite Hop in Hok. cbn in Hstep.
  destruct (w_flushes w !! i) as [[f k]|] eqn:Ei; [|done]. cbn in Hstep.
  destruct (step_flush (w_session w) f) as [[s' f']|] eqn:Ef; [|done]. injection Hstep as <-. cbn in Hgap.
  destruct (step_flush_ok _ _ _ _ _ _ _ _ _ Hok Hlast Ei Ef Hgap) as [Hok' Hk].
  injection Hk as E1 E2 E3 E4 E5 E6 E7 E8 E9 E10 E11 E12. split; cbn.
  - unfold currentContent. by rewrite E9.
  - by rewrite E8, E11.
  - by rewrite E12.
  - by rewrite E10, Hop.
Qed.

(** ** Opening *)

Lemma readSnapshot_err hash raw outcome : readSnapshot hash raw = Err outcome -> outcome = RestoreInvalid \/ outcome = RestoreStale.
Proof.
  unfold readSnapshot. assert (forall a b c, snapshot_update a b c hash = Err outcome -> outcome = RestoreStale) as Hs.
  { intros a b c. unfold snapshot_update. destruct a as [| | |[| |z|]| | | |]; try by intros [= <-].
    destruct z as [|[]|]; try by intros [= <-]. destruct b; try by intros [= <-]. destruct c; try by intros [= <-].
    destruct (jeqb _ _); [done|by intros [= <-]]. }
  destruct (json_parse raw) as [parsed|]; [|intros [= <-]; by left].
  intros Hx. destruct parsed; try (right; by eapply Hs). injection Hx as <-. by left.
Qed.

Lemma restore_text s content hash raw s' outcome :
  currentContent s = [] -> is_jstr content = true ->
  (forall u d b, y_applyUpdate (ss_doc s) u = (d, b, true) -> y_text d = y_text (ss_doc s)) ->
  restoreSnapshot s content hash raw = (s', outcome) ->
  exists doc, s' = s <| ss_doc := doc |> /\
    y_text doc = match outcome with RestoreValid | RestoreRepaired => content | _ => [] end.
Proof.
  intros Hnil Hj Hthrow. unfold restoreSnapshot. destruct (readSnapshot hash raw) as [u|o] eqn:Er.
  - destruct (y_applyUpdate (ss_doc s) (decodeBase64Bytes u)) as [[doc em] [|]] eqn:Eu.
    + intros [= <- <-]. exists doc. split; [done|]. by rewrite (Hthrow _ _ _ Eu).
    + destruct (jeqb (y_text doc) content) eqn:Ej; intros [= <- <-]; eexists; (split; [reflexivity|]).
      * by apply jeqb_eq.
      * by apply y_replace.
  - intros [= <- <-]. exists (ss_doc s). split; [by destruct s|]. by destruct (readSnapshot_err _ _ _ Er) as [-> | ->].
Qed.

(** A session that becomes open. *)
Lemma finish_ok s disk texts :
  closed_ok s disk [] -> currentContent s = default [] (ss_lastWrittenContent s) -> is_Some (ss_lastWrittenContent s) ->
  ss_lastWrittenHash s = hashContent <$> ss_lastWrittenContent s -> file_holds disk (ss_filePath s) (currentContent s) ->
  last texts = Some (currentContent s) -> open_ok (finish_open s) disk texts [].
Proof.
  intros [C1 C2 C3 C4 C5 C6 C7 C8] Ht [c Hc] Hh Hf Hlast. rewrite Hc in *. cbn in Ht, Hh. rewrite Ht in *.
  assert (0 < length texts) as Hlen by (destruct texts; [done|cbn; lia]).
  unfold finish_open, startWatching. split; cbn; try done.
  - by right.
  - by destruct C3 as [-> | ->].
  - congruence.
  - unfold captured. cbn. by rewrite C4.
  - exists c. split_and!; [done|done|]. unfold persist_ok. cbn. by rewrite C4.
  - left. split; [exists c; split; [done|]; apply since_last; [done|lia]|]. unfold captured. cbn. by rewrite C4.
Qed.

(** The session once the text of the file has been loaded: open, or writing its snapshot. *)
Lemma restored_ok s doc content outcome disk texts :
  closed_ok s disk [] -> is_jstr content = true -> file_holds disk (ss_filePath s) content -> ss_opened s = false ->
  ss_stateFilePath s <> Some (ss_filePath s) ->
  y_text doc = match outcome with RestoreValid | RestoreRepaired => content | _ => [] end ->
  last texts = Some content ->
  let s' := restored (s <| ss_doc := doc |>) content outcome in
  currentContent s' = content /\
  (ss_filePath s', ss_stateFilePath s', ss_defaultContent s') = (ss_filePath s, ss_stateFilePath s, ss_defaultContent s) /\
  if ss_opened s' then open_ok s' disk texts [] else closed_ok s' disk [].
Proof.
  intros Hc Hj Hfile Hop Hst Htext Hlast. cbn zeta.
  set (doc' := match outcome with RestoreValid | RestoreRepaired => doc | _ => (y_transact doc [TextInsert 0 content]).1 end).
  assert (y_text doc' = content) as Hdoc by (unfold doc'; destruct outcome; try done; by apply y_insert).
  set (s1 := s <| ss_doc := doc' |> <| ss_nonEmpty := bool_decide (content <> []) |> <| ss_lastWrittenHash := Some (hashContent content) |>
               <| ss_lastWrittenContent := Some content |>).
  assert (restored (s <| ss_doc := doc |>) content outcome =
          match outcome with RestoreValid => finish_open s1
          | _ => s1 <| ss_open := OpenSnapshot content (writeStateSnapshot s1 (hashContent content)) |> end) as ->
    by (unfold s1, doc'; by destruct outcome).
  assert (forall o, closed_ok (s1 <| ss_open := o |>) disk [] <->
    let holds := file_holds disk (ss_filePath s) in
    match o with
    | OpenReadDone _ (ReadText c) | OpenState c _ | OpenStateDone c _ => content = [] /\ is_jstr c = true /\ holds c
    | OpenCreate wr => content = [] /\ wr_path wr = ss_filePath s /\ wr_text wr = ss_defaultContent s /\
                       (wr_renamed wr = true -> holds (ss_defaultContent s))
    | OpenSnapshot c wr =>
        content = c /\ Some content = Some c /\ Some (hashContent content) = Some (hashContent c) /\ holds c /\
        (forall x, wr = Some x -> wr_path x <> ss_filePath s)
    | _ => content = []
    end) as Hclosed.
  { intros o. destruct Hc as [C1 C2 C3 C4 C5 C6 C7 C8]. split.
    - intros [_ _ _ _ _ _ _ D8]. cbn in D8. unfold currentContent in D8. cbn in D8. by rewrite Hdoc in D8.
    - intros Ho. split; try done. cbn. unfold currentContent. cbn. by rewrite Hdoc. }
  assert (forall x, writeStateSnapshot s1 (hashContent content) = Some x -> wr_path x <> ss_filePath s) as Hpath.
  { intros x. unfold writeStateSnapshot. cbn. destruct (ss_stateFilePath s) as [p|]; [|done]. intros [= <-]. cbn. congruence. }
  assert (closed_ok (s1 <| ss_open := OpenSnapshot content (writeStateSnapshot s1 (hashContent content)) |>) disk []) as Hsnap
    by (apply Hclosed; by split_and!).
  destruct outcome; (split; [exact Hdoc|]); (split; [done|]); cbn [ss_opened]; try (cbn; rewrite Hop; exact Hsnap).
  cbn. assert (finish_open s1 = finish_open (s1 <| ss_open := OpenSnapshot content (writeStateSnapshot s1 (hashContent content)) |>)) as -> by done.
  apply finish_ok; [done|done|by eexists|done| |].
  - by rewrite Hdoc || (unfold currentContent; cbn; rewrite Hdoc).
  - unfold currentContent. cbn. by rewrite Hdoc.
Qed.

Lemma track_calm w :
  ss_stateFilePath (w_session w) <> Some (ss_filePath (w_session w)) -> is_jstr (ss_defaultContent (w_session w)) = true ->
  (forall texts, last texts = Some (currentContent (w_session w)) -> (last (w_texts w) = Some (currentContent (w_session w)) -> texts = w_texts w) ->
     if ss_opened (w_session w) then open_ok (w_session w) (w_disk w) texts (w_flushes w)
     else closed_ok (w_session w) (w_disk w) (w_flushes w)) ->
  calm_ok (track w).
Proof.
  intros Hst Hdef Hphase. pose proof (track_same_session w) as Hs. injection Hs as Hs Hd Hf.
  split; rewrite ?Hs, ?Hd, ?Hf; [apply track_last|done|done|].
  apply Hphase; [apply track_last|]. intros Hl. by rewrite (track_same w Hl).
Qed.

(** Before the session is open, an await of [loadFromFile] goes on. *)
Lemma open_go_closed w e w' :
  calm_ok w -> ss_opened (w_session w) = false -> calm w (EvOpenGo e) w' -> step_open w e = Some w' -> calm_ok (track w').
Proof.
  intros [Hlast Hst Hdef Hok] Hop [_ Hcalm] Hstep. rewrite Hop in Hok. pose proof Hok as [C1 C2 C3 C4 C5 C6 C7 C8]. cbn zeta in C8.
  set (s := w_session w) in *.
  (* the same document, another await *)
  assert (forall w1 at_, (w_session w1, w_texts w1, w_flushes w1) = (s, w_texts w, w_flushes w) ->
    closed_ok (s <| ss_open := at_ |>) (w_disk w1) [] -> calm_ok (track (set_session w1 (s <| ss_open := at_ |>)))) as Hgo.
  { intros w1 at_ Heq Hc. injection Heq as E1 E2 E3. apply track_calm; [done|done|].
    intros texts _ _. cbn. by rewrite Hop, E3, C7. }
  assert (forall at_ disk, (let holds := file_holds disk (ss_filePath s) in
    match at_ with
    | OpenReadDone _ (ReadText c) | OpenState c _ | OpenStateDone c _ => currentContent s = [] /\ is_jstr c = true /\ holds c
    | OpenCreate wr => currentContent s = [] /\ wr_path wr = ss_filePath s /\ wr_text wr = ss_defaultContent s /\
                       (wr_renamed wr = true -> holds (ss_defaultContent s))
    | OpenSnapshot c wr =>
        currentContent s = c /\ ss_lastWrittenContent s = Some c /\ ss_lastWrittenHash s = Some (hashContent c) /\ holds c /\
        (forall x, wr = Some x -> wr_path x <> ss_filePath s)
    | _ => currentContent s = []
    end) -> closed_ok (s <| ss_open := at_ |>) disk []) as Hcl by (by intros at_ disk Ha; split).
  assert (forall doc content outcome, is_jstr content = true -> file_holds (w_disk w) (ss_filePath s) content ->
    y_text doc = match outcome with RestoreValid | RestoreRepaired => content | _ => [] end ->
    calm_ok (track (set_session w (restored (s <| ss_doc := doc |>) content outcome)))) as Hrest.
  { intros doc content outcome Hj Hf Htext.
    assert (closed_ok s (w_disk w) []) as Hok' by (by rewrite <- C7).
    pose proof (fun texts => restored_ok s doc content outcome (w_disk w) texts Hok' Hj Hf Hop Hst Htext) as Hres. cbn zeta in Hres.
    generalize dependent (restored (s <| ss_doc := doc |>) content outcome). intros s' Hres.
    destruct (Hres [content] eq_refl) as (Ht & Hfields & _). injection Hfields as F1 F2 F3.
    apply track_calm; cbn; [by rewrite F1, F2|by rewrite F3|].
    intros texts Hl _. rewrite Ht in Hl. rewrite C7. by apply (Hres texts). }
  assert (s <| ss_doc := ss_doc s |> = s) as Hs by (by destruct s).
  assert (forall content outcome, currentContent s = [] -> is_jstr content = true -> file_holds (w_disk w) (ss_filePath s) content ->
    match outcome with RestoreValid | RestoreRepaired => False | _ => True end ->
    calm_ok (track (set_session w (restored s content outcome)))) as Hrest'.
  { intros content outcome Hnil Hj Hf Hout. rewrite <- Hs. apply Hrest; [done|done|]. unfold currentContent in Hnil. by destruct outcome. }
  assert (forall content, currentContent s = [] -> is_jstr content = true -> file_holds (w_disk w) (ss_filePath s) content ->
    calm_ok (track (set_session w (loaded s content)))) as Hloaded.
  { intros content Hnil Hj Hf. unfold loaded. destruct (ss_stateFilePath s) as [p|] eqn:Ep; [by apply Hgo, Hcl|by apply Hrest']. }
  unfold step_open in Hstep. fold s in Hstep.
  destruct (ss_open s) as [|create|create d|wr|content p|content raw|content wr|] eqn:Eo; try done.
  - destruct e; try done; injection Hstep as <-; [|by apply Hgo, Hcl]. apply Hgo; [done|]. apply Hcl.
    unfold read_disk. destruct (w_disk w !! ss_filePath s) as [b|] eqn:Eb; [|done].
    split_and!; [done|apply decode_jstr|]. by exists b.
  - destruct e; try done. destruct d as [| |content]; [| |injection Hstep as <-; destruct_and?; by apply Hloaded].
    + injection Hstep as <-. by apply Hgo, Hcl.
    + destruct create; injection Hstep as <-; apply Hgo; try done; by apply Hcl.
  - destruct C8 as (Hnil & Hpath & Htext & Hren). pose proof (step_write_cases w wr e) as Hc.
    destruct (step_write w wr e) as [w1 wr1|[|]|]; [| | |done].
    + destruct Hc as (_ & _ & -> & ->). injection Hstep as <-. apply Hgo; [done|]. apply Hcl. cbn.
      rewrite Htext, Hpath. split_and!; try done. intros _. by apply file_holds_written.
    + injection Hstep as <-. by apply Hloaded, Hren.
    + injection Hstep as <-. by apply Hgo, Hcl.
  - destruct e; try done; injection Hstep as <-; by apply Hgo, Hcl.
  - destruct e; try done. destruct C8 as (Hnil & Hj & Hf). destruct raw as [| |raw].
    + injection Hstep as <-. by apply Hgo, Hcl.
    + injection Hstep as <-. by apply (Hrest' content RestoreMissing).
    + destruct (restoreSnapshot s content (hashContent content) raw) as [s' outcome] eqn:Er. injection Hstep as <-.
      destruct (restore_text _ _ _ _ _ _ Hnil Hj Hcalm Er) as (doc & -> & Htext). by apply Hrest.
  - destruct C8 as (Ht & Hl & Hh & Hf & Hx). pose proof (step_snapshot_cases w wr e) as Hc.
    destruct (step_snapshot w wr e) as [[[w1 wr1] [[|]|]]|]; [| | |done].
    + destruct Hc as [-> _]. injection Hstep as <-. apply track_calm; [done|done|]. intros texts Hlt _. cbn. rewrite C7.
      apply finish_ok; [by rewrite <- C7|by rewrite Hl|by rewrite Hl|by rewrite Hl|by rewrite Ht|done].
    + destruct Hc as [_ He]. exfalso. rewrite He in Hcalm by done. done.
    + destruct Hc as (x & -> & -> & ->). injection Hstep as <-. apply Hgo; [done|]. apply Hcl. cbn. split_and!; try done.
      * apply file_holds_other; [by apply Hx|done].
      * intros y [= <-]. cbn. by apply Hx.
  - destruct e; try done. injection Hstep as <-. by apply Hgo, Hcl.
Qed.

(** ** Every calm step keeps the invariant *)

Lemma closed_frame s s' disk flushes :
  (ss_listening s', ss_deleted s', ss_open s', ss_persist s', ss_persistRequested s', ss_runs s', ss_filePath s', ss_doc s',
   ss_defaultContent s', ss_lastWrittenContent s', ss_lastWrittenHash s') =
  (ss_listening s, ss_deleted s, ss_open s, ss_persist s, ss_persistRequested s, ss_runs s, ss_filePath s, ss_doc s,
   ss_defaultContent s, ss_lastWrittenContent s, ss_lastWrittenHash s) ->
  ss_check s' = CheckNone \/ ss_check s' = CheckExiting -> closed_ok s disk flushes -> closed_ok s' disk flushes.
Proof.
  destruct s, s'. cbn. intros Heq Hc [C1 C2 C3 C4 C5 C6 C7 C8]. cbn in *. simplify_eq. split; try done.
Qed.

Lemma closed_disk s disk disk' flushes :
  (forall t, file_holds disk (ss_filePath s) t -> file_holds disk' (ss_filePath s) t) -> closed_ok s disk flushes -> closed_ok s disk' flushes.
Proof.
  intros Hd [C1 C2 C3 C4 C5 C6 C7 C8]. split; try done. cbn zeta in *.
  destruct (ss_open s) as [|?|? []|?|? ?|? ?|? ?|]; try done; destruct_and?; split_and!; naive_solver.
Qed.

Lemma open_disk s disk disk' texts flushes :
  (forall t, file_holds disk (ss_filePath s) t -> file_holds disk' (ss_filePath s) t) ->
  open_ok s disk texts flushes -> open_ok s disk' texts flushes.
Proof.
  intros Hd [O1 O2 O3 O4 O5 O6 (c0 & Hl & Hh & Hf) O8 O9]. split; try done. exists c0. split_and!; [done|done|].
  unfold persist_ok in *. destruct (ss_persist s) as [|fl []|]; try done; destruct_and?; split_and?; naive_solver.
Qed.

(** A change of the session that the invariant does not read, apart from the check. *)
Lemma quiet_change w s' :
  calm_ok w -> core s' = core (w_session w) ->
  (ss_open s', ss_doc s', ss_opened s', ss_stateFilePath s', ss_defaultContent s') =
  (ss_open (w_session w), ss_doc (w_session w), ss_opened (w_session w), ss_stateFilePath (w_session w), ss_defaultContent (w_session w)) ->
  match ss_check s' with
  | CheckReconcile _ _ => False
  | CheckNone | CheckExiting => True
  | _ => ss_opened (w_session w) = true
  end -> calm_ok (track (set_session w s')).
Proof.
  intros [Hlast Hst Hdef Hok] Hcore Heq Hck. injection Heq as E1 E2 E3 E4 E5.
  assert (ss_filePath s' = ss_filePath (w_session w)) as E6 by (unfold core in Hcore; congruence).
  apply track_calm; cbn; [by rewrite E4, E6|by rewrite E5|]. intros texts _ Ht. rewrite E3.
  assert (texts = w_texts w) as -> by (apply Ht; unfold currentContent in *; by rewrite E2).
  destruct (ss_opened (w_session w)) eqn:Eop.
  - apply (open_ok_frame (w_session w)); [done|rewrite E1; apply (oo_open _ _ _ _ Hok)| |done]. by destruct (ss_check s').
  - apply (closed_frame (w_session w)); [unfold core in Hcore; congruence| |done]. destruct (ss_check s'); try done; by (left + right).
Qed.

Lemma check_phase w : calm_ok w ->
  match ss_check (w_session w) with
  | CheckReconcile _ _ => False
  | CheckNone | CheckExiting => True
  | _ => ss_opened (w_session w) = true
  end.
Proof.
  intros [_ _ _ Hok]. destruct (ss_opened (w_session w)).
  - pose proof (oo_check _ _ _ _ Hok) as Hc. by destruct (ss_check _).
  - by destruct (co_check _ _ _ Hok) as [-> | ->].
Qed.

Lemma poll_calm w b : calm_ok w ->
  calm_ok (track (set_session w (checkForExternalChange (w_session w <| ss_debounce := b |>)))).
Proof.
  intros Hw. pose proof (check_phase w Hw) as Hc. unfold checkForExternalChange. cbn.
  destruct (ss_check (w_session w)) eqn:E; (apply quiet_change; [done|done|done|]); cbn; rewrite ?E; try done.
  destruct (ss_opened (w_session w)) eqn:Eo; cbn; [|done]. by case_bool_decide.
Qed.

Lemma set_same w : set_session w (w_session w) = w.
Proof. by destruct w. Qed.

Lemma no_change w : calm_ok w -> calm_ok (track w).
Proof. intros Hw. by rewrite track_same by apply (ca_last _ Hw). Qed.

Lemma calm_step w e w' : calm_ok w -> session_step w e = Some w' -> calm w e w' -> calm_ok w'.
Proof.
  intros Hw Hstep Hcalm. unfold session_step in Hstep. destruct (machine_step w e) as [w1|] eqn:Em; [|done]. injection Hstep as <-.
  pose proof Hw as [Hlast Hst Hdef Hok]. pose proof (track_same_session w1) as Hs1. injection Hs1 as Hs1 _ _.
  assert (~ in_the_gap (w_session w1)) as Hgap by (destruct Hcalm as [Hg _]; by rewrite Hs1 in Hg).
  assert (forall w2, calm w e w2 -> ss_opened (w_session w) = true -> w1 = w2 ->
            steady w w2 /\ open_ok (w_session w2) (w_disk w2) (w_texts w) (w_flushes w) -> calm_ok (track w1)) as Hsteady.
  { intros w2 _ Hop -> [Hst2 Hok2]. apply no_change. by eapply steady_ok. }
  assert (calm w e w1) as Hcalm1 by (split; [done|apply Hcalm]).
  destruct e as [create|e|e|e| |i|u a src acked|c|c a|b ed a|t ed a| | | | | |now|path bytes]; cbn in Em.
  - injection Em as <-. unfold start_open in *. destruct (ss_deleted (w_session w) || ss_opened (w_session w)) eqn:E; [rewrite set_same; by apply no_change|].
    destruct (ss_open (w_session w)) eqn:Eo; try (rewrite set_same; by apply no_change). apply orb_false_iff in E as [_ Eop].
    rewrite Eop in Hok. apply track_calm; cbn; [done|done|]. intros texts _ _. rewrite Eop.
    destruct Hok as [C1 C2 C3 C4 C5 C6 C7 C8]. rewrite Eo in C8. by split.
  - destruct (ss_opened (w_session w)) eqn:Eop; [|by eapply open_go_closed].
    unfold step_open in Em. destruct (oo_open _ _ _ _ Hok) as [Eo|Eo]; rewrite Eo in Em; [done|]. destruct e; try done. injection Em as <-.
    apply track_calm; cbn; [done|done|]. intros texts _ Ht. rewrite (Ht Hlast), Eop.
    apply (open_ok_frame (w_session w)); [done|by left|apply (oo_check _ _ _ _ Hok)|done].
  - destruct (ss_opened (w_session w)) eqn:Eop; [by eapply Hsteady, persist_go_ok|].
    unfold step_persist in Em. by rewrite (co_persist _ _ _ Hok) in Em.
  - destruct (ss_opened (w_session w)) eqn:Eop; [by eapply Hsteady, check_go_ok|].
    unfold step_check in Em. destruct (co_check _ _ _ Hok) as [Ec|Ec]; rewrite Ec in Em; [done|]. destruct e; try done. injection Em as <-.
    by apply quiet_change.
  - injection Em as <-. apply no_change, call_flush_calm; [done|apply Hcalm1|done].
  - destruct (ss_opened (w_session w)) eqn:Eop; [by eapply no_change, flush_go_calm|].
    rewrite (co_flushes _ _ _ Hok) in Em. done.
  - unfold when_opened in Em. destruct (ss_opened (w_session w)) eqn:Eop; [|done]. destruct (negb _); [done|]. injection Em as <-.
    destruct acked.
    + apply no_change, edit_and_flush_calm; try done. apply client_update.
    + apply client_ok; try done. apply client_update.
  - unfold when_opened in Em. destruct (ss_opened (w_session w)) eqn:Eop; [|done].
    destruct (reset _ _) eqn:Er; [|done]. injection Em as <-. apply no_change, edit_and_flush_calm; try done. by eapply client_reset.
  - unfold when_opened in Em. destruct (ss_opened (w_session w)) eqn:Eop; [|done].
    destruct (applyContent _ _ _) eqn:Er; [|done]. injection Em as <-. apply no_change, edit_and_flush_calm; try done. by eapply client_applyContent.
  - unfold when_opened in Em. destruct (ss_opened (w_session w)) eqn:Eop; [|done].
    destruct (applyBaselineEdit _ _ _ _) as [[s'|rej]|] eqn:Er; [| |done]; injection Em as <-; [|by apply no_change].
    apply no_change, edit_and_flush_calm; try done. by eapply client_baseline.
  - unfold when_opened in Em. destruct (ss_opened (w_session w)) eqn:Eop; [|done].
    destruct (bool_decide _); [|done]. destruct (applyContentEdit _ _ _ _) eqn:Er; [|done]. injection Em as <-. apply no_change, edit_and_flush_calm; try done. by eapply client_edit.
  - destruct (ss_watching _); [|done]. injection Em as <-. apply quiet_change; [done|done|done|]. by apply check_phase.
  - destruct (ss_debounce _); [|done]. injection Em as <-. by apply poll_calm.
  - destruct (ss_watching _); [|done]. injection Em as <-.
    pose proof (poll_calm w (ss_debounce (w_session w)) Hw) as Hp. by destruct (w_session w) eqn:E.
  - by destruct Hcalm as [_ []].
  - injection Em as <-. unfold resumeAfterCloseFailure. destruct (ss_opened (w_session w)) eqn:Eop; [|rewrite set_same; by apply no_change].
    cbn. destruct (ss_deleted _) eqn:Ed; [rewrite set_same; by apply no_change|].
    apply quiet_change; [done| |done|by apply check_phase].
    unfold core. cbn. by rewrite (oo_listening _ _ _ _ Hok), Ed.
  - injection Em as <-. apply quiet_change; [done|done|done|]. by apply check_phase.
  - injection Em as <-. destruct Hcalm as [_ Hpath]. apply track_calm; cbn; [done|done|]. intros texts _ Ht. rewrite (Ht Hlast).
    assert (forall t, file_holds (w_disk w) (ss_filePath (w_session w)) t ->
      file_holds (match bytes with Some bytes => <[path := bytes]> (w_disk w) | None => delete path (w_disk w) end) (ss_filePath (w_session w)) t) as Hd.
    { intros t (b & Hb & He). exists b. split; [|done]. destruct bytes; [by rewrite lookup_insert_ne|by rewrite lookup_delete_ne]. }
    destruct (ss_opened (w_session w)); [by eapply open_disk|by eapply closed_disk].
Qed.

Lemma fresh_ok w : fresh w -> calm_ok w.
Proof.
  intros (fp & ep & sp & dc & disk & -> & Hst & Hj). split; [done|done|done|]. cbn. split; try done; [by left|]. cbn. apply y_text_new.
Qed.

Lemma calm_runs_ok w0 w : calm_ok w0 -> calm_runs w0 w -> calm_ok w.
Proof. induction 2 as [|w e w' _ IH Hstep Hcalm]; [done|by eapply calm_step]. Qed.

Lemma calm_runs_trans w0 w1 w2 : calm_runs w0 w1 -> calm_runs w1 w2 -> calm_runs w0 w2.
Proof. induction 2 as [|w e w' _ IH Hstep Hcalm]; [done|by eapply calm_more]. Qed.


(** * What is guaranteed *)





(** The events by which clients change the document. *)
Definition client_event (e : event) : bool :=
  match e with
  | EvUpdate _ _ _ _ | EvReset _ | EvApplyContent _ _ | EvBaselineEdit _ _ _ | EvContentEdit _ _ _ => true
  | _ => false
  end.

(** nothing else touches the text of an open session: not the persist loop, the checks
    of the file, failures, or what others do to other files. *)
Theorem text_changes_by_clients w0 w e w' :
  fresh w0 -> calm_runs w0 w -> ss_opened (w_session w) = true -> session_step w e = Some w' -> calm w e w' ->
  client_event e = false -> currentContent (w_session w') = currentContent (w_session w).
Proof.
  intros Hf Hr Hop Hstep Hcalm He. pose proof (calm_runs_ok _ _ (fresh_ok _ Hf) Hr) as Hw. pose proof Hw as [Hlast _ _ Hok]. rewrite Hop in Hok.
  unfold session_step in Hstep. destruct (machine_step w e) as [w1|] eqn:Em; [|done]. injection Hstep as <-.
  pose proof (track_same_session w1) as Hs1. injection Hs1 as Hs1 _ _. rewrite Hs1.
  assert (calm w e w1) as Hcalm1 by (destruct Hcalm as [Hg Hc]; rewrite Hs1 in Hg; by split).
  assert (steady w w1 -> currentContent (w_session w1) = currentContent (w_session w)) as Hst
    by (intros Hx; unfold currentContent; injection Hx as -> _ _ _ _ _ _; done).
  destruct e; try done; cbn in Em; try (injection Em as <-; done).
  - injection Em as <-. unfold start_open. by rewrite Hop, orb_true_r.
  - unfold step_open in Em. destruct (oo_open _ _ _ _ Hok) as [Eo|Eo]; rewrite Eo in Em; [done|]. destruct e; try done. by injection Em as <-.
  - by eapply Hst, persist_go_ok.
  - by eapply Hst, check_go_ok.
  - injection Em as <-. unfold call_flush in *. destruct (flush (w_session w)) as [s' f] eqn:Ef.
    destruct (call_flush_ok _ _ _ _ _ _ Hok Hlast Ef (proj1 Hcalm1)) as [_ Hk]. unfold currentContent. cbn. by injection Hk as _ _ _ _ _ _ _ _ -> _ _ _.
  - destruct (w_flushes w !! i) as [[f k]|] eqn:Ei; [|done]. cbn in Em. destruct (step_flush _ f) as [[s' f']|] eqn:Ef; [|done].
    injection Em as <-. destruct (step_flush_ok _ _ _ _ _ _ _ _ _ Hok Hlast Ei Ef (proj1 Hcalm1)) as [_ Hk].
    unfold currentContent. cbn. by injection Hk as _ _ _ _ _ _ _ _ -> _ _ _.
  - destruct (ss_watching _); [|done]. by injection Em as <-.
  - destruct (ss_debounce _); [|done]. injection Em as <-. unfold checkForExternalChange. by destruct (ss_check _).
  - destruct (ss_watching _); [|done]. injection Em as <-. unfold checkForExternalChange. by destruct (ss_check _).
  - injection Em as <-. unfold resumeAfterCloseFailure. by destruct (_ || _).
Qed.
End props.
