(* ===== verification/DocSessionReconcile.v ===== *)
(** Reconciling a document session with its file: the delta of the two texts turns one into
    the other, and the document takes the text of the file, whatever clients had typed. *)
From S2P Require Import Prelude JsString Utf8 Splice Base64 Json Sha256 SessionProtocol DocSession.

#[local] Opaque hashContent json_text snapshot_value.

(** * Deltas *)

(** What a delta does to a text. *)
Fixpoint apply_delta (delta : list YTextDeltaOperation) (t : jstr) : jstr :=
  match delta with
  | [] => t
  | DRetain n :: delta => take n t ++ apply_delta delta (drop n t)
  | DInsert s :: delta => s ++ apply_delta delta t
  | DDelete n :: delta => apply_delta delta (drop n t)
  end.

(** It moves within the text, does not cut a surrogate pair, and inserts strings. *)
Fixpoint delta_fits (delta : list YTextDeltaOperation) (t : jstr) : Prop :=
  match delta with
  | [] => True
  | DInsert s :: delta => proper s = true /\ delta_fits delta t
  | (DRetain n | DDelete n) :: delta => n <= length t /\ proper (take n t) = true /\ delta_fits delta (drop n t)
  end.

(** The library answers a list of pieces: those not inserted make up the first text, those
    not deleted the second, and no piece of well-formed texts has a lone surrogate. *)
Definition pieces (without : diff_operation) (d : list (diff_operation * jstr)) : jstr :=
  flat_map (fun p => match p.1, without with DiffInsert, DiffInsert | DiffDelete, DiffDelete => [] | _, _ => p.2 end) d.

Class FastDiffLaws `{FastDiff} := {
  diff_old a b : pieces DiffInsert (fast_diff a b) = a;
  diff_new a b : pieces DiffDelete (fast_diff a b) = b;
  diff_well_formed a b : proper a = true -> proper b = true -> Forall (fun p => proper p.2 = true) (fast_diff a b)
}.

(** Yjs applies a delta that fits. *)
Class YjsDeltaLaw `{Yjs} := {
  y_applyDelta d delta : delta_fits delta (y_text d) -> y_text (y_transact d [TextDelta delta]).1 = apply_delta delta (y_text d)
}.

Lemma pieces_cons without op s d :
  pieces without ((op, s) :: d) =
  match op, without with DiffInsert, DiffInsert | DiffDelete, DiffDelete => pieces without d | _, _ => s ++ pieces without d end.
Proof. by destruct op, without. Qed.

Lemma delta_applies_pieces d :
  Forall (fun p => proper p.2 = true) d ->
  delta_fits (map delta_of d) (pieces DiffInsert d) /\ apply_delta (map delta_of d) (pieces DiffInsert d) = pieces DiffDelete d.
Proof.
  induction 1 as [|[op s] d Hs _ [IHf IHa]]; [done|]. cbn in Hs. rewrite !pieces_cons.
  destruct op; cbn [map delta_of fst snd apply_delta delta_fits]; rewrite ?take_app_length, ?drop_app_length, ?length_app, ?IHa;
    split_and?; (done || lia).
Qed.

(** the delta computed for a new text fits the old one and turns it into the new one. *)
Theorem createFastDiffYTextDelta_applies `{FastDiffLaws} current next :
  proper current = true -> proper next = true ->
  delta_fits (createFastDiffYTextDelta current next) current /\
  apply_delta (createFastDiffYTextDelta current next) current = next.
Proof.
  intros Hc Hn. destruct (delta_applies_pieces (fast_diff current next) (diff_well_formed _ _ Hc Hn)) as [Hf Ha].
  by rewrite diff_old, diff_new in *.
Qed.

(** * Reconciling *)

Section reconcile.
Context `{YjsDeltaLaw, FastDiffLaws, JsonHost}.
Implicit Type s : session.

Lemma external_transact s ops :
  transact s ops ExternalChangeOrigin = s <| ss_doc := (y_transact (ss_doc s) ops).1 |>.
Proof. unfold transact, changed. destruct (y_transact (ss_doc s) ops) as [doc em]. by destruct (em && _). Qed.

(** C31: a document that is reconciled takes the text of the file; what it had that was not
    saved is dropped.  The session then counts as saved, nothing is asked to be persisted,
    and the event that will follow says what became of the text: none when the two agree;
    [external-merge] when the old text had been saved and is not emptied by the file;
    [external-change] otherwise. *)
Theorem reconcile_takes_file s content hash :
  proper (currentContent s) = true -> proper content = true ->
  exists s' kind,
    reconcileExternalContent s content hash false = (s', Some (kind, writeStateSnapshot s' hash)) /\
    currentContent s' = content /\ ss_lastWrittenContent s' = Some content /\ ss_lastWrittenHash s' = Some hash /\
    ss_nonEmpty s' = bool_decide (content <> []) /\
    ss_persist s' = ss_persist s /\ ss_persistRequested s' = ss_persistRequested s /\ ss_events s' = ss_events s /\
    (kind = None <-> currentContent s = content) /\
    (kind = Some ExternalMerge <->
       currentContent s <> content /\ ss_lastWrittenContent s = Some (currentContent s) /\ content <> []).
Proof.
  intros Hc Hn. unfold reconcileExternalContent. destruct (jeqb (currentContent s) content) eqn:E.
  - apply jeqb_eq in E. do 2 eexists. split; [reflexivity|]. split_and!; try done; naive_solver.
  - assert (currentContent s <> content) as Hne by (intros Heq; apply jeqb_eq in Heq; congruence).
    rewrite external_transact.
    destruct (createFastDiffYTextDelta_applies (currentContent s) content Hc Hn) as [Hfit Happ].
    do 2 eexists. split; [reflexivity|]. split_and!; try done.
    { unfold currentContent. cbn. by rewrite y_applyDelta. }
    repeat case_bool_decide; cbn; split; intros Hx; destruct_and?; subst; split_and?; first [done | congruence | (intros ->; naive_solver)].
Qed.
End reconcile.
