(* ===== verification/DocSessionAcks.v ===== *)
(** What a step of a calm session ([DocSessionProps.v]) keeps: a text that was saved stays
    saved, a flush that has settled stays as it was, and an event [content-persisted] means
    that everything flushed and refused until then has been saved. *)
From S2P Require Import Prelude JsString Utf8 Splice Base64 Json Sha256 SessionProtocol DocSession DocSessionProps.

#[local] Opaque hashContent json_text snapshot_value.

Section acks.
Context `{YjsLaws, FastDiff, JsonHost}.
Implicit Types (s : session) (w : world).

(** * Calls of flush the session does not know of *)

(** A step does the same when there is one more call of [flush], and leaves it alone. *)
Definition with_call w (c : flush_state * nat) : world := w <| w_flushes := w_flushes w ++ [c] |>.

Lemma persist_with_call w c e : step_persist (with_call w c) e = (fun w => with_call w c) <$> step_persist w e.
Proof.
  unfold step_persist. change (w_session (with_call w c)) with (w_session w).
  destruct (ss_persist (w_session w)) as [|fl at_|rejects]; [done| |by destruct e].
  destruct at_ as [content a|content a d|content a wr|content a wr|kind wr|threw].
  - by destruct e.
  - destruct e; try done. by destruct (materialize_read _ _ _ _).
  - destruct e; cbn; try done; by destruct (wr_renamed wr).
  - destruct wr as [wr|], e; cbn; try done; by destruct (wr_renamed wr).
  - destruct wr as [wr|], e; cbn; try done; by destruct (wr_renamed wr).
  - by destruct e.
Qed.

Lemma check_with_call w c e : step_check (with_call w c) e = (fun w => with_call w c) <$> step_check w e.
Proof.
  unfold step_check. change (w_session (with_call w c)) with (w_session w).
  destruct (ss_check (w_session w)) as [| |d|kind wr|]; try (by destruct e).
  destruct wr as [wr|], e; cbn; try done; by destruct (wr_renamed wr).
Qed.

Lemma open_with_call w c e : step_open (with_call w c) e = (fun w => with_call w c) <$> step_open w e.
Proof.
  unfold step_open. change (w_session (with_call w c)) with (w_session w).
  destruct (ss_open (w_session w)) as [| create|create d|wr|content path|content raw|content wr|]; try (by destruct e).
  - destruct e; try done. destruct d, create; done.
  - destruct e; cbn; try done; by destruct (wr_renamed wr).
  - destruct e; try done. destruct raw; try done. by destruct (restoreSnapshot _ _ _ _).
  - destruct wr as [wr|], e; cbn; try done; by destruct (wr_renamed wr).
Qed.

Definition agrees w w2 : Prop :=
  w_session w2 = w_session w /\ w_disk w2 = w_disk w /\ w_texts w2 = w_texts w.

Lemma agrees_track w w2 : agrees w w2 -> agrees (track w) (track w2) /\ w_flushes (track w2) = w_flushes w2.
Proof. intros (Hs & Hd & Ht). unfold agrees, track. rewrite Hs, Ht. by case_bool_decide. Qed.

Lemma agrees_call w w2 : agrees w w2 -> agrees (call_flush w) (call_flush w2) /\ forall c, c ∈ w_flushes w2 -> c ∈ w_flushes (call_flush w2).
Proof.
  intros (Hs & Hd & Ht). unfold call_flush. rewrite Hs. destruct (flush (w_session w)) as [s f]. cbn. split; [by split_and!|].
  intros c Hc. rewrite elem_of_app. by left.
Qed.

Lemma edit_with_call w c s : agrees (edit_and_flush w s) (edit_and_flush (with_call w c) s) /\ c ∈ w_flushes (edit_and_flush (with_call w c) s).
Proof.
  assert (agrees (set_session w s) (set_session (with_call w c) s)) as [Ha Hf]%agrees_track by done.
  apply agrees_call in Ha as [Ha Hc]. split; [done|]. apply Hc. rewrite Hf. cbn. rewrite elem_of_app. right. by apply list_elem_of_singleton.
Qed.

Lemma machine_with_call w c e w' :
  machine_step w e = Some w' -> exists w2, machine_step (with_call w c) e = Some w2 /\ agrees w' w2 /\ c ∈ w_flushes w2.
Proof.
  assert (c ∈ w_flushes w ++ [c]) as Hc by (rewrite elem_of_app; right; by apply list_elem_of_singleton).
  assert (forall w1, (exists w0, w_flushes w0 = w_flushes w /\ w1 = with_call w0 c) -> c ∈ w_flushes w1) as Hc' by (intros w1 (w0 & Hf & ->); cbn; by rewrite Hf).
  intros Hs. destruct e; cbn [machine_step] in *; unfold when_opened in *; change (w_session (with_call w c)) with (w_session w).
  - injection Hs as <-. by eexists.
  - rewrite open_with_call, Hs. cbn. eexists. split; [done|]. split; [done|]. cbn. rewrite elem_of_app. right. by apply list_elem_of_singleton.
  - rewrite persist_with_call, Hs. cbn. eexists. split; [done|]. split; [done|]. cbn. rewrite elem_of_app. right. by apply list_elem_of_singleton.
  - rewrite check_with_call, Hs. cbn. eexists. split; [done|]. split; [done|]. cbn. rewrite elem_of_app. right. by apply list_elem_of_singleton.
  - injection Hs as <-. eexists. split; [done|]. split; [by apply agrees_call|by apply (agrees_call w)].
  - destruct (w_flushes w !! i) as [[f k]|] eqn:Ei; [|done]. cbn in *. rewrite (lookup_app_l_Some _ _ _ _ Ei). cbn.
    destruct (step_flush _ f) as [[s f']|]; [|done]. injection Hs as <-. cbn. eexists. split; [done|]. split; [done|]. cbn.
    rewrite insert_app_l by by eapply lookup_lt_Some. rewrite elem_of_app. right. by apply list_elem_of_singleton.
  - destruct (ss_opened _); [|done]. destruct (negb _); [done|]. injection Hs as <-.
    destruct acked; (eexists; split; [done|]); [apply edit_with_call|by split].
  - destruct (ss_opened _); [|done]. destruct (reset _ _); [|done]. injection Hs as <-. eexists. split; [done|]. apply edit_with_call.
  - destruct (ss_opened _); [|done]. destruct (applyContent _ _ _); [|done]. injection Hs as <-. eexists. split; [done|]. apply edit_with_call.
  - destruct (ss_opened _); [|done]. destruct (applyBaselineEdit _ _ _ _) as [[s1|r]|]; [| |done]; injection Hs as <-; (eexists; split; [done|]); [apply edit_with_call|by split].
  - destruct (ss_opened _); [|done]. destruct (bool_decide _); [|done]. destruct (applyContentEdit _ _ _ _); [|done]. injection Hs as <-. eexists. split; [done|]. apply edit_with_call.
  - destruct (ss_watching _); [|done]. injection Hs as <-. by eexists.
  - destruct (ss_debounce _); [|done]. injection Hs as <-. by eexists.
  - destruct (ss_watching _); [|done]. injection Hs as <-. by eexists.
  - injection Hs as <-. by eexists.
  - injection Hs as <-. by eexists.
  - injection Hs as <-. by eexists.
  - injection Hs as <-. by eexists.
Qed.

(** * What stays *)

Lemma saved_step w e w' k :
  calm_ok w -> ss_opened (w_session w) = true -> session_step w e = Some w' -> calm w e w' ->
  k < length (w_texts w) -> saved (w_session w) (w_texts w) k -> ss_opened (w_session w') = true ->
  saved (w_session w') (w_texts w') k.
Proof.
  intros [Hl Hst Hd Hok] Hop Hstep [Hgap Hcalm] Hk Hs Hop'. rewrite Hop in Hok. unfold session_step in Hstep.
  destruct (machine_step w e) as [w1|] eqn:Em; [|done]. injection Hstep as <-.
  destruct (machine_with_call w (FlushDone true, k) e w1 Em) as (w2 & Hm2 & Ha & Hc).
  assert (calm_ok (with_call w (FlushDone true, k))) as Hw.
  { split; [done..|]. change (w_session (with_call _ _)) with (w_session w). rewrite Hop. destruct Hok as [O1 O2 O3 O4 O5 O6 O7 O8 O9]. split; try done.
    apply Forall_app. split; [done|]. constructor; [|constructor]. split; [exact Hk|]. split; [by left|done]. }
  apply agrees_track in Ha as [Ha Hf]. destruct Ha as (Hs2 & Hd2 & Ht2).
  assert (calm_ok (track w2)) as Hw2.
  { apply (calm_step _ e _ Hw); [unfold session_step; by rewrite Hm2|]. split; [by rewrite Hs2|exact Hcalm]. }
  pose proof (ca_phase _ Hw2) as Hp. rewrite Hs2, Hop' in Hp. apply (oo_flushes _ _ _ _) in Hp. rewrite Hf in Hp.
  rewrite Forall_forall in Hp. destruct (Hp _ Hc) as [_ [_ Hx]]. rewrite <- Ht2. by apply Hx.
Qed.

(** * The events of a step *)

(** What a step adds to the events, when it adds any. *)
Definition log s : bool * list DocumentSessionEvent := (ss_opened s, ss_events s).

Lemma log_persistLoop s fl : log (persistLoop s fl) = log s.
Proof. unfold persistLoop, materialize. destruct (ss_persistRequested s); [|done]. cbn. by destruct (ss_deleted s). Qed.

Lemma log_request s : log (requestPersist s) = log s.
Proof. unfold requestPersist. destruct (ss_persist _); [exact (log_persistLoop _ _)|done|done]. Qed.

Lemma log_changed s doc em o : log (changed s doc em o) = log s.
Proof.
  unfold changed. destruct (em && _); [|done]. unfold handleDocumentUpdate. destruct o; [done|..];
    cbn; (destruct (ss_deleted s); [done|]); by rewrite log_request.
Qed.

Lemma log_client s s' : client_change s s' -> log s' = log s.
Proof. intros [->|(doc & em & a & src & -> & _)]; [done|apply log_changed]. Qed.

Lemma log_flush s : log (flush s).1 = log s.
Proof. unfold flush, flush_retry. destruct (ss_persist s); [|done|done]. destruct (ss_failureError s); [apply log_request|done]. Qed.

Lemma log_edit w s : log (w_session (edit_and_flush w s)) = log s.
Proof.
  unfold edit_and_flush, call_flush. pose proof (track_same_session (set_session w s)) as Hs. injection Hs as Hs _ _. rewrite Hs.
  pose proof (log_flush s) as Hf. cbn. by destruct (flush s).
Qed.

Lemma log_pending s h : log (clear_pending s h) = log s.
Proof. unfold clear_pending. by case_bool_decide. Qed.

Lemma log_restore s content raw : log (restoreSnapshot s content (hashContent content) raw).1 = log s.
Proof.
  unfold restoreSnapshot. destruct (readSnapshot _ _); [|done]. destruct (y_applyUpdate _ _) as [[doc em] [|]]; [done|]. by destruct (jeqb _ _).
Qed.

Lemma events_restored s content o : ss_events (restored s content o) = ss_events s.
Proof. by destruct o. Qed.

Lemma events_step_open w e w' : step_open w e = Some w' -> ss_events (w_session w') = ss_events (w_session w).
Proof.
  assert (forall content, ss_events (loaded (w_session w) content) = ss_events (w_session w)) as Hl
    by (intros content; unfold loaded; destruct (ss_stateFilePath _); [done|apply events_restored]).
  unfold step_open. destruct (ss_open (w_session w)) as [|create|create d|wr|content p|content raw|content wr|]; try done; try (destruct e; try done; by intros [= <-]).
  - destruct e; try done. destruct d as [| |content]; [by intros [= <-]|by destruct create; intros [= <-]|]. intros [= <-]. apply Hl.
  - destruct (step_write w wr e) as [w1 wr1|[|]|]; try done; intros [= <-]; [done|apply Hl|done].
  - destruct e; try done. destruct raw as [| |raw]; [by intros [= <-]|intros [= <-]; apply (events_restored _ _ RestoreMissing)|].
    pose proof (log_restore (w_session w) content raw) as Hf. destruct (restoreSnapshot _ _ _ _) as [s1 o]. intros [= <-].
    cbn in *. rewrite events_restored. by injection Hf.
  - destruct (step_snapshot w wr e) as [[[w1 wr1] [[|]|]]|]; try done; by intros [= <-].
Qed.

(** A step of the persist loop: the text it had in hand has been saved, it has failed, or
    there is no event. *)
Lemma events_step_persist w e w' :
  calm_ok w -> ss_opened (w_session w) = true -> calm w (EvPersistGo e) w' -> step_persist w e = Some w' ->
  (exists fl content a wr, ss_persist (w_session w) = PersistRunning fl (AtSnapshot content a wr) /\
     w_session w' = set_persist (materialize_written (w_session w) content a) fl (AtReturn false)) \/
  ss_events (w_session w') = ss_events (w_session w) \/
  exists event, ev_kind event = PersistFailure /\ ss_events (w_session w') = ss_events (w_session w) ++ [event].
Proof.
  intros [_ _ _ Hok] Hop [_ Hcalm] Hstep. rewrite Hop in Hok. destruct (oo_file _ _ _ _ Hok) as (c0 & Hl & Hh & Hf).
  unfold step_persist, persist_ok in *. destruct (ss_persist (w_session w)) as [|fl at_|rej]; [done| |right; left; by destruct e; try done; injection Hstep as <-].
  destruct at_ as [content a|content a d|content a wr|content a wr|kind wr|threw].
  - right; left. destruct e; try done; by injection Hstep as <-.
  - right; left. destruct e; try done. destruct Hf as [_ [->|(t & -> & He)]]; [by injection Hstep as <-|].
    unfold materialize_read in Hstep. cbn [read_hash] in Hstep. rewrite Hh, (hash_encode _ _ He) in Hstep.
    rewrite (bool_decide_false (Some (hashContent c0) <> Some (hashContent c0))) in Hstep by (intros Hx; by apply Hx).
    rewrite andb_false_r in Hstep. by injection Hstep as <-.
  - right; left. destruct (step_write w wr e) as [w1 wr1|[|]|] eqn:Es; try done; injection Hstep as <-; try done.
    pose proof (log_pending (w_session w) (hashContent content)) as Hp. cbn. by injection Hp.
  - destruct (step_snapshot w wr e) as [[[w1 wr1] [[|]|]]|] eqn:Es; try done; injection Hstep as <-.
    + left. by exists fl, content, a, wr.
    + right; left. pose proof (log_pending (w_session w) (hashContent content)) as Hp. cbn. by injection Hp.
    + right; left. done.
  - done.
  - right. destruct e; try done. injection Hstep as <-. destruct threw; [right|left].
    + pose proof (log_persistLoop (markPersistFailed (w_session w)) (fl || true)) as Hp. injection Hp as _ Hp. exists (createEvent (w_session w) PersistFailure). split; [done|exact Hp].
    + pose proof (log_persistLoop (w_session w) (fl || false)) as Hp. by injection Hp.
Qed.

(** The events a step adds; [content-persisted] is among them only when the step ends the
    writing of a text. *)
Definition adds_events s s' : Prop :=
  exists l, ss_events s' = ss_events s ++ l /\
    (Forall (fun event => ev_kind event <> ContentPersisted) l \/
     exists fl content a wr, ss_persist s = PersistRunning fl (AtSnapshot content a wr) /\
       s' = set_persist (materialize_written s content a) fl (AtReturn false)).

Lemma adds_none s s' : ss_events s' = ss_events s -> adds_events s s'.
Proof. intros He. exists []. rewrite app_nil_r. split; [done|by left]. Qed.

Lemma adds_log s s' : log s' = log s -> (ss_opened s = true -> ss_opened s' = true) /\ adds_events s s'.
Proof. intros [= Ho He]. split; [congruence|by apply adds_none]. Qed.

Lemma events_recovered s : exists l, ss_events (markPersistRecovered s) = ss_events s ++ l.
Proof. unfold markPersistRecovered. destruct (negb _); [exists []; by rewrite app_nil_r|by eexists]. Qed.

Lemma events_emit s event : exists l, ss_events (emitEvent s event) = ss_events s ++ l.
Proof. by eexists. Qed.

Lemma events_pending s h : ss_events (clear_pending s h) = ss_events s.
Proof. unfold clear_pending. by case_bool_decide. Qed.

Lemma events_written s content a : exists l, ss_events (materialize_written s content a) = ss_events s ++ l.
Proof.
  unfold materialize_written. cbv zeta. rewrite events_pending.
  match goal with |- context [emitEvent (markPersistRecovered ?x) ?e] =>
    destruct (events_recovered x) as [l1 Hl1], (events_emit (markPersistRecovered x) e) as [l2 Hl2] end.
  rewrite Hl1 in Hl2. rewrite Hl2, <- app_assoc. by eexists.
Qed.

Lemma adds_step w e w' :
  calm_ok w -> session_step w e = Some w' -> calm w e w' ->
  (ss_opened (w_session w) = true -> ss_opened (w_session w') = true) /\ adds_events (w_session w) (w_session w').
Proof.
  intros Hw Hstep Hcalm. unfold session_step in Hstep. destruct (machine_step w e) as [w1|] eqn:Em; [|done]. injection Hstep as <-.
  pose proof (track_same_session w1) as Hs1. injection Hs1 as Hs1 _ _. rewrite Hs1.
  assert (calm w e w1) as Hcalm1 by (destruct Hcalm as [Hg Hc]; rewrite Hs1 in Hg; by split).
  assert (forall s1, client_change (w_session w) s1 -> log (w_session (edit_and_flush w s1)) = log (w_session w)) as Hclient
    by (intros s1 Hc; rewrite log_edit; by apply log_client).
  pose proof (ca_phase _ Hw) as Hph.
  destruct e; cbn in Em; unfold when_opened in Em; try (apply adds_log; injection Em as <-; done).
  - apply adds_log. injection Em as <-. unfold start_open. destruct (_ || _); [done|]. by destruct (ss_open _).
  - split; [|by eapply adds_none, events_step_open]. intros Hop. rewrite Hop in Hph. unfold step_open in Em.
    destruct (oo_open _ _ _ _ Hph) as [Eo|Eo]; rewrite Eo in Em; [done|]. destruct e; try done. by injection Em as <-.
  - destruct (ss_opened (w_session w)) eqn:Hop.
    + pose proof (persist_go_ok _ _ _ Hw Hop Hcalm1 Em) as [Hst _]. injection Hst as _ Ho _ _ _ _ _. split; [congruence|].
      destruct (events_step_persist _ _ _ Hw Hop Hcalm1 Em) as [(fl & content & a & wr & Hp & Hs)|[He|(ev & Hk & He)]].
      * destruct (events_written (w_session w) content a) as [l Hl]. exists l. rewrite Hs. split; [exact Hl|]. right. by exists fl, content, a, wr.
      * by apply adds_none.
      * exists [ev]. split; [done|]. left. constructor; [by rewrite Hk|done].
    + unfold step_persist in Em. by rewrite (co_persist _ _ _ Hph) in Em.
  - destruct (ss_opened (w_session w)) eqn:Hop.
    + destruct (check_go_shape _ _ _ Hw Hop Hcalm1 Em) as (c & -> & _). split; [by intros _|by apply adds_none].
    + split; [done|]. apply adds_none. unfold step_check in Em. destruct (co_check _ _ _ Hph) as [Ec|Ec]; rewrite Ec in Em; [done|].
      destruct e; try done. by injection Em as <-.
  - apply adds_log. injection Em as <-. unfold call_flush. pose proof (log_flush (w_session w)) as Hf. by destruct (flush _).
  - apply adds_log. destruct (w_flushes w !! i) as [[f k]|]; [|done]. cbn in Em. destruct (step_flush _ f) as [[s' f']|] eqn:Ef; [|done]. injection Em as <-. cbn.
    destruct f as [run retry|]; [|done]. cbn in Ef. destruct (_ !! run) as [[|]|]; [by injection Ef as <- <-| |done].
    destruct retry; [by injection Ef as <- <-|]. injection Ef as Ef. unfold flush_retry in Ef.
    destruct (ss_failureError _); injection Ef as <- <-; [|done]. apply log_request.
  - apply adds_log. destruct (ss_opened _); [|done]. destruct (negb _); [done|]. injection Em as <-.
    destruct acked; [apply Hclient, client_update|]. apply log_client, client_update.
  - apply adds_log. destruct (ss_opened _); [|done]. destruct (reset _ _) eqn:Er; [|done]. injection Em as <-. by eapply Hclient, client_reset.
  - apply adds_log. destruct (ss_opened _); [|done]. destruct (applyContent _ _ _) eqn:Er; [|done]. injection Em as <-. by eapply Hclient, client_applyContent.
  - apply adds_log. destruct (ss_opened _); [|done]. destruct (applyBaselineEdit _ _ _ _) as [[s'|]|] eqn:Er; [| |done]; injection Em as <-; [|done].
    by eapply Hclient, client_baseline.
  - apply adds_log. destruct (ss_opened _); [|done]. destruct (bool_decide _); [|done]. destruct (applyContentEdit _ _ _ _) eqn:Er; [|done]. injection Em as <-. by eapply Hclient, client_edit.
  - apply adds_log. destruct (ss_watching _); [|done]. by injection Em as <-.
  - apply adds_log. destruct (ss_debounce _); [|done]. injection Em as <-. unfold checkForExternalChange. cbn. by destruct (ss_check _).
  - apply adds_log. destruct (ss_watching _); [|done]. injection Em as <-. unfold checkForExternalChange. by destruct (ss_check _).
  - apply adds_log. injection Em as <-. unfold resumeAfterCloseFailure. by destruct (_ || _).
Qed.

(** When it does, whatever waits without a further request has been saved. *)
Lemma written_saved w w' k :
  calm_ok w -> ss_opened (w_session w) = true ->
  (exists fl content a wr, ss_persist (w_session w) = PersistRunning fl (AtSnapshot content a wr) /\
     w_session w' = set_persist (materialize_written (w_session w) content a) fl (AtReturn false)) ->
  safe false (w_session w) (w_texts w) k -> (exists l, w_texts w' = w_texts w ++ l) -> saved (w_session w') (w_texts w') k.
Proof.
  intros Hw Hop (fl & content & a & wr & Hp & ->) Hs [l ->]. apply saved_app.
  assert (since (w_texts w) k content) as Hc.
  { destruct Hs as [[_ Hc]|Hx]; [apply Hc; unfold captured; by rewrite Hp|]. unfold pending in Hx. rewrite Hp in Hx.
    destruct Hx as [[? _]|[?|(c & Hc & Hx)]]; [done|done|]. unfold captured in Hc. rewrite Hp in Hc. by injection Hc as ->. }
  pose proof (written_fields w content a) as Hf. cbn zeta in Hf. injection Hf as _ _ _ _ _ _ Hl _ _ _ _ _ _.
  split; [exists content; split; [exact Hl|done]|done].
Qed.

(** The threads do not touch the calls of flush. *)
Lemma flushes_persist w e w' : step_persist w e = Some w' -> (w_flushes w', w_texts w') = (w_flushes w, w_texts w).
Proof.
  unfold step_persist. destruct (ss_persist (w_session w)) as [|fl at_|rejects]; [done| |by destruct e; intros [= <-]].
  destruct at_ as [content a|content a d|content a wr|content a wr|kind wr|threw].
  - by destruct e; intros [= <-].
  - destruct e; try done. destruct (materialize_read _ _ _ _). by intros [= <-].
  - destruct e; cbn; try done; try (destruct (wr_renamed wr)); by intros [= <-].
  - destruct wr as [wr|], e; cbn; try done; try (destruct (wr_renamed wr)); by intros [= <-].
  - destruct wr as [wr|], e; cbn; try done; try (destruct (wr_renamed wr)); by intros [= <-].
  - by destruct e; intros [= <-].
Qed.

Lemma flushes_check w e w' : step_check w e = Some w' -> (w_flushes w', w_texts w') = (w_flushes w, w_texts w).
Proof.
  unfold step_check. destruct (ss_check (w_session w)) as [| |d|kind wr|]; try (by destruct e; intros [= <-]).
  destruct wr as [wr|], e; cbn; try done; try (destruct (wr_renamed wr)); by intros [= <-].
Qed.

Lemma flushes_open w e w' : step_open w e = Some w' -> (w_flushes w', w_texts w') = (w_flushes w, w_texts w).
Proof.
  unfold step_open. destruct (ss_open (w_session w)) as [| create|create d|wr|content path|content raw|content wr|]; try (by destruct e; intros [= <-]).
  - destruct e; try done. destruct d, create; by intros [= <-].
  - destruct e; cbn; try done; try (destruct (wr_renamed wr)); by intros [= <-].
  - destruct e; try done. destruct raw; try (by intros [= <-]). destruct (restoreSnapshot _ _ _ _). by intros [= <-].
  - destruct wr as [wr|], e; cbn; try done; try (destruct (wr_renamed wr)); by intros [= <-].
Qed.

(** A flush that has settled stays as it is, no call is forgotten, and no text. *)
Definition grows w w' : Prop :=
  length (w_flushes w) <= length (w_flushes w') /\
  (forall i ok k, w_flushes w !! i = Some (FlushDone ok, k) -> w_flushes w' !! i = Some (FlushDone ok, k)) /\
  exists l, w_texts w' = w_texts w ++ l.

Lemma grows_same w w' : (w_flushes w', w_texts w') = (w_flushes w, w_texts w) -> grows w w'.
Proof. intros [= Hf Ht]. unfold grows. rewrite Hf, Ht. split_and!; [lia|done|exists []; by rewrite app_nil_r]. Qed.

Lemma grows_trans w1 w2 w3 : grows w1 w2 -> grows w2 w3 -> grows w1 w3.
Proof.
  intros (L1 & F1 & l1 & T1) (L2 & F2 & l2 & T2). split_and!; [lia|by eauto|]. exists (l1 ++ l2). by rewrite T2, T1, app_assoc.
Qed.

Lemma grows_track w : grows w (track w).
Proof.
  pose proof (track_same_session w) as Hs. injection Hs as _ _ Hf. unfold grows. rewrite Hf. split_and!; [lia|done|].
  destruct (track_texts w) as (l & Ht & _). by exists l.
Qed.

Lemma grows_flush w : grows w (call_flush w).
Proof.
  unfold call_flush. destruct (flush _). unfold grows. cbn. rewrite length_app. split_and!; [lia|intros; by apply lookup_app_l_Some|].
  exists []. by rewrite app_nil_r.
Qed.

Lemma grows_edit w s : grows w (edit_and_flush w s).
Proof.
  unfold edit_and_flush. eapply grows_trans; [|apply grows_flush]. eapply grows_trans; [|apply grows_track]. by apply grows_same.
Qed.

Lemma grows_step w e w' : session_step w e = Some w' -> grows w w'.
Proof.
  intros Hstep. unfold session_step in Hstep. destruct (machine_step w e) as [w1|] eqn:Em; [|done]. injection Hstep as <-.
  eapply grows_trans; [|apply grows_track].
  destruct e; cbn in Em; unfold when_opened in Em; try (apply grows_same; injection Em as <-; done).
  - by eapply grows_same, flushes_open.
  - by eapply grows_same, flushes_persist.
  - by eapply grows_same, flushes_check.
  - injection Em as <-. apply grows_flush.
  - destruct (w_flushes w !! i) as [[f k]|] eqn:Ei; [|done]. cbn in Em. destruct (step_flush _ f) as [[s' f']|] eqn:Ef; [|done]. injection Em as <-.
    unfold grows. cbn. rewrite length_insert. split_and!; [done| |exists []; by rewrite app_nil_r].
    intros j ok k' Hk. destruct (decide (i = j)) as [->|Hne]; [|by rewrite list_lookup_insert_ne]. rewrite Hk in Ei. by injection Ei as <- <-.
  - destruct (ss_opened _); [|done]. destruct (negb _); [done|]. injection Em as <-. destruct acked; [apply grows_edit|by apply grows_same].
  - destruct (ss_opened _); [|done]. destruct (reset _ _); [|done]. injection Em as <-. apply grows_edit.
  - destruct (ss_opened _); [|done]. destruct (applyContent _ _ _); [|done]. injection Em as <-. apply grows_edit.
  - destruct (ss_opened _); [|done]. destruct (applyBaselineEdit _ _ _ _) as [[s1|]|]; [| |done]; injection Em as <-; [apply grows_edit|by apply grows_same].
  - destruct (ss_opened _); [|done]. destruct (bool_decide _); [|done]. destruct (applyContentEdit _ _ _ _); [|done]. injection Em as <-. apply grows_edit.
  - apply grows_same. destruct (ss_watching _); [|done]. by injection Em as <-.
  - apply grows_same. destruct (ss_debounce _); [|done]. by injection Em as <-.
  - apply grows_same. destruct (ss_watching _); [|done]. by injection Em as <-.
Qed.
End acks.
