(* ===== verification/SessionSocket.v ===== *)
(** [bindYjsWebSocket] of [packages/doc-session/src/websocket.ts]: what a socket that is
    bound to a document session receives and sends.

    A server is a session with its sockets.  Its steps are those of the session
    ([DocSession.v]), whose events reach the sockets that listen; a message of a client; the
    settling of a promise a socket waits for; a socket that closes; and an update the
    document emits, which [handle_update] passes on.  A flush the socket waits for is known
    by its number.  The timing events are left out. *)
From S2P Require Import Prelude JsString Utf8 Json SessionProtocol DocSession.

(** * The libraries *)

(** The sync protocol of Yjs: its message numbers, the bytes it appends to an encoder (a
    state vector may not be readable), and the clients of a document's state vector. *)
Class YjsSync `{Yjs} := {
  messageYjsSyncStep1 : N;
  messageYjsSyncStep2 : N;
  messageYjsUpdate : N;
  writeSyncStep1 : ydoc -> list N;
  writeSyncStep2 : ydoc -> list N -> option (list N);
  writeUpdate : list N -> list N;
  y_clients : ydoc -> list N
}.

(** * Data *)

Definition DOCUMENT_SESSION_FAILURE_CLOSE_CODE : Z := 1008.

(** [DocumentSessionFailure], with its kinds of errors. *)
Inductive session_error := NotFound | UnsafeDivergence.
Record DocumentSessionFailure := { df_error : session_error; df_message : jstr }.

Definition DOCUMENT_SESSION_NOT_FOUND_FAILURE : DocumentSessionFailure :=
  {| df_error := NotFound; df_message := js "file not found" |}.
Definition DOCUMENT_SESSION_UNSAFE_DIVERGENCE_FAILURE : DocumentSessionFailure :=
  {| df_error := UnsafeDivergence;
     df_message := js "document history diverged from durable content; reload the document to reconnect from disk" |}.

Definition failure_value (f : DocumentSessionFailure) : value :=
  plain [(js "ok", VBool false);
         (js "error", VStr (match df_error f with NotFound => js "not_found" | UnsafeDivergence => js "unsafe_divergence" end));
         (js "message", VStr (df_message f))].

(** What is sent, before it is encoded; an acknowledgement with the flush it answers. *)
Inductive sent :=
| SentAttributed (update : AttributedSyncUpdate)
| SentSync (payload : list N)
| SentSynced
| SentEvent (event : DocumentSessionEvent)
| SentAck (ack : SyncUpdateAck) (flush : nat).

(** Why a socket is closed: a message that cannot be read, or a failure. *)
Inductive close_reason := CloseInvalid | CloseFailure (failure : DocumentSessionFailure).

Definition closeDeletedDocument : close_reason := CloseFailure DOCUMENT_SESSION_NOT_FOUND_FAILURE.
Definition closeUnsafeDivergence : close_reason := CloseFailure DOCUMENT_SESSION_UNSAFE_DIVERGENCE_FAILURE.

(** The arguments of [socket.close]. *)
Definition close_arguments `{JsonHost} (r : close_reason) : Z * jstr :=
  match r with
  | CloseInvalid => (1003%Z, js "Invalid Yjs sync message")
  | CloseFailure failure => (DOCUMENT_SESSION_FAILURE_CLOSE_CODE, json_text (failure_value failure))
  end.

Record binding := {
  bd_socket : nat;
  bd_attribution : option value;
  bd_awaiting : bool;                         (* [bindYjsWebSocket] waits for the session to open *)
  bd_ready : bool;                            (* [sessionReady] *)
  bd_bound : bool;                            (* [sessionDoc] is set, and the listeners are there *)
  bd_open : bool;                             (* [socket.readyState === socketOpen] *)
  bd_closes : list close_reason;              (* the calls of [socket.close] *)
  bd_sent : list sent;
  bd_pending : list (option (list N));        (* [pendingMessages] *)
  bd_synced : bool;                           (* [syncedMessageSent] *)
  bd_waiting : list (jstr * nat);             (* acknowledgements and the flushes they wait for *)
  bd_deferred : list (jstr * nat);            (* [deferredPersistedAcks] *)
  bd_cleanup : option nat;                    (* [cleanupStarted], and its flush *)
  bd_resolved : bool                          (* the promise [closed] has resolved *)
}.

#[export] Instance binding_rebuild : Rebuild binding := fun b =>
  {| bd_socket := bd_socket b; bd_attribution := bd_attribution b; bd_awaiting := bd_awaiting b; bd_ready := bd_ready b; bd_bound := bd_bound b; bd_open := bd_open b;
     bd_closes := bd_closes b; bd_sent := bd_sent b; bd_pending := bd_pending b; bd_synced := bd_synced b;
     bd_waiting := bd_waiting b; bd_deferred := bd_deferred b; bd_cleanup := bd_cleanup b; bd_resolved := bd_resolved b |}.

Implicit Type b : binding.

Definition new_binding (socket : nat) (attribution : option value) : binding :=
  {| bd_socket := socket; bd_attribution := attribution; bd_awaiting := true; bd_ready := false; bd_bound := false; bd_open := true; bd_closes := []; bd_sent := [];
     bd_pending := []; bd_synced := false; bd_waiting := []; bd_deferred := []; bd_cleanup := None; bd_resolved := false |}.

(** It listens to the updates of the document and the events of the session. *)
Definition listens b : bool := bd_bound b && bool_decide (bd_cleanup b = None).

(** * Sending *)

(** [sendBytes]. *)
Definition send b (m : sent) : binding := if bd_open b then b <| bd_sent := bd_sent b ++ [m] |> else b.

Definition close_socket b (r : close_reason) : binding := b <| bd_closes := bd_closes b ++ [r] |>.

Definition sendSyncedOnce b : binding := if bd_synced b then b else send (b <| bd_synced := true |>) SentSynced.

Section bytes.
Context `{JsonHost, Lib0}.

(** The bytes of what is sent. *)
Definition sent_bytes (m : sent) : list N :=
  match m with
  | SentAttributed update => encodeAttributedSyncUpdate update
  | SentSync payload => writeVarUint MESSAGE_SYNC ++ payload
  | SentSynced => encodeSyncedMessage
  | SentEvent event => encodeSessionEvent event
  | SentAck ack _ => encodeSyncUpdateAck ack
  end.
End bytes.

(** [deferredPersistedAcks.set]: in place when the id is there. *)
Fixpoint defer_ack (deferred : list (jstr * nat)) (ackId : jstr) (flush : nat) : list (jstr * nat) :=
  match deferred with
  | [] => [(ackId, flush)]
  | (id, f) :: deferred => if jeqb id ackId then (id, flush) :: deferred else (id, f) :: defer_ack deferred ackId flush
  end.

(** The listener of the session's events. *)
Definition handle_event b (event : DocumentSessionEvent) : binding :=
  let b := send b (SentEvent event) in
  match ev_kind event with
  | DocDeleted => close_socket (b <| bd_deferred := [] |>) closeDeletedDocument
  | ContentPersisted =>
      foldl (fun b '(ackId, flush) => send b (SentAck {| sa_ackId := ackId; sa_ts := ev_ts event |} flush)) b (bd_deferred b)
        <| bd_deferred := [] |>
  | _ => b
  end.

Section socket.
Context `{YjsSync, FastDiff, JsonHost, Lib0}.

(** * The handlers *)

(** [updateHandler]. *)
Definition handle_update b (update : list N) (o : origin) : binding :=
  let own := match o with OtherOrigin source => source | _ => documentUpdateAttributionSourceFromOrigin o end in
  if bool_decide (own = Some (bd_socket b)) then b
  else
    let attribution := default UNKNOWN_DOCUMENT_UPDATE_ATTRIBUTION (documentUpdateAttributionFromOrigin o) in
    send (send b (SentAttributed {| at_attribution := attribution; at_update := update |})) (SentSync (writeUpdate update)).

(** [cleanup]: the subscriptions end, the deferred acknowledgements go, the session is flushed. *)
Definition cleanup (w : world) b : world * binding :=
  match bd_cleanup b with
  | Some _ => (w, b)
  | None => (call_flush w, b <| bd_deferred := [] |> <| bd_cleanup := Some (length (w_flushes w)) |>)
  end.

Definition stateVectorsShareClient (left right : list N) : bool := existsb (fun c => bool_decide (c ∈ right)) left.

(** [None] when it throws. *)
Definition hasUnsafeIndependentUpdate (s : session) (update : list N) : option bool :=
  if negb (hasNonEmptyMaterializedContent s) then Some false
  else if bool_decide (currentContent s = []) then Some false
  else
    let '(incoming, _, threw) := y_applyUpdate y_new update in
    if (threw : bool) then None
    else if bool_decide (y_text incoming = []) then Some false
    else Some (negb (stateVectorsShareClient (y_clients (ss_doc s)) (y_clients incoming))).

(** [Y.applyUpdate] in the name of the socket; [None] when it throws, with the world it leaves. *)
Definition apply_from_socket (w : world) b (update : list N) : world * bool :=
  let s := w_session w in
  let attribution := default LOCAL_USER_DOCUMENT_UPDATE_ATTRIBUTION (bd_attribution b) in
  let '(_, _, threw) := y_applyUpdate (ss_doc s) update in
  (track (set_session w (apply_update s update (createDocumentUpdateAttributionOrigin attribution (Some (bd_socket b))))), negb threw).

(** An update of a client: refused with the socket closed, applied, or an exception. *)
Definition take_update (w : world) b (update : list N) : world * option close_reason :=
  match hasUnsafeIndependentUpdate (w_session w) update with
  | None => (w, Some CloseInvalid)
  | Some true => (w, Some closeUnsafeDivergence)
  | Some false => let '(w, ok) := apply_from_socket w b update in (w, if ok then None else Some CloseInvalid)
  end.

Definition take_acked_update (w : world) b (u : AckedSyncUpdate) : world * binding :=
  match take_update w b (au_update u) with
  | (w, Some r) => (w, close_socket b r)
  | (w, None) => (call_flush w, b <| bd_waiting := bd_waiting b ++ [(au_ackId u, length (w_flushes w))] |>)
  end.

(** [processYjsSyncPayload], and what follows it. *)
Definition process_sync (w : world) b (decoder : list N) : world * binding :=
  match readVarUint decoder with
  | None => (w, close_socket b CloseInvalid)
  | Some (type, decoder) =>
      if (type =? messageYjsSyncStep1)%N then
        match (sv ← fst <$> readVarUint8Array decoder; writeSyncStep2 (ss_doc (w_session w)) sv) with
        | None => (w, close_socket b CloseInvalid)
        | Some payload =>
            let reply := if (1 <? length (writeVarUint MESSAGE_SYNC ++ payload))%nat then send b (SentSync payload) else b in
            (w, sendSyncedOnce reply)
        end
      else if (type =? messageYjsSyncStep2)%N || (type =? messageYjsUpdate)%N then
        match fst <$> readVarUint8Array decoder with
        | None => (w, close_socket b CloseInvalid)
        | Some update => let '(w, r) := take_update w b update in (w, from_option (close_socket b) b r)
        end
      else (w, close_socket b CloseInvalid)
  end.

Definition processSyncMessage (w : world) b (data : option (list N)) : world * binding :=
  match data with
  | None => (w, b)
  | Some message =>
      match readVarUint message with
      | None => (w, close_socket b CloseInvalid)
      | Some (messageType, decoder) =>
          if negb (isOpened (w_session w)) then (w, close_socket b closeDeletedDocument)
          else if (messageType =? MESSAGE_ACKED_SYNC_UPDATE)%N then
            match decodeAckedSyncUpdate decoder with
            | Err _ => (w, close_socket b CloseInvalid)
            | Ok None => (w, b)
            | Ok (Some u) => take_acked_update w b u
            end
          else if negb (messageType =? MESSAGE_SYNC)%N then (w, b)
          else process_sync w b decoder
      end
  end.

Definition handleMessage (w : world) b (data : option (list N)) : world * binding :=
  if negb (bd_ready b) then (w, b <| bd_pending := bd_pending b ++ [data] |>) else processSyncMessage w b data.

(** What follows the opening of the session.  The read of [session.ydoc] throws when the
    document has been deleted meanwhile: then nothing is bound, and [isOpened] makes every
    message close the socket. *)
Definition opened (w : world) b : world * binding :=
  let b := b <| bd_awaiting := false |> in
  if bool_decide (bd_cleanup b <> None) || negb (bd_open b) then cleanup w b
  else
    let b := b <| bd_ready := true |> in
    if ss_deleted (w_session w) then (w, b)
    else
    let b := b <| bd_bound := true |> in
    let b := from_option (fun event => send b (SentEvent event)) b (ss_activeFailure (w_session w)) in
    let '(w, b) := foldl (fun '(w, b) data => processSyncMessage w b data) (w, b <| bd_pending := [] |>) (bd_pending b) in
    (w, send b (SentSync (writeSyncStep1 (ss_doc (w_session w))))).

(** A flush an acknowledgement waited for has settled. *)
Definition flush_settled b (ackId : jstr) (flush : nat) (ok : bool) (now : Z) : binding :=
  let b := b <| bd_waiting := List.filter (fun x => negb (bool_decide (x = (ackId, flush)))) (bd_waiting b) |> in
  if ok then send b (SentAck {| sa_ackId := ackId; sa_ts := Int now |} flush)
  else b <| bd_deferred := defer_ack (bd_deferred b) ackId flush |>.

(** * The server *)

Record server := { sv_world : world; sv_bindings : list binding }.

Inductive server_event :=
| SvSession (e : event)                                 (* the session goes on *)
| SvConnect (attribution : option value)                (* [bindYjsWebSocket] is called *)
| SvOpened (i : nat)                                    (* [session.open()] has resolved *)
| SvRejected (i : nat) (notFound : bool)                (* it was rejected: there is no such document, or another error *)
| SvMessage (i : nat) (data : option (list N))
| SvUpdate (update : list N) (o : origin)               (* the document emits an update *)
| SvSettled (i : nat) (ackId : jstr) (flush : nat)      (* a flush that was waited for has settled *)
| SvReadyState (i : nat)                                (* the socket is not open any more *)
| SvClose (i : nat)                                     (* its close or error event *)
| SvClosed (i : nat).                                   (* the flush of its [cleanup] has settled *)

(** The events the session has emitted since [w] reach the sockets that are bound. *)
Definition deliver (w w' : world) (bs : list binding) : list binding :=
  map (fun b => if listens b
                then foldl handle_event b (drop (length (ss_events (w_session w))) (ss_events (w_session w')))
                else b) bs.

Definition with_binding (sv : server) (i : nat) (f : binding -> option (world * binding)) : option server :=
  b ← sv_bindings sv !! i;
  '(w, b) ← f b;
  Some {| sv_world := w; sv_bindings := deliver (sv_world sv) w (<[i := b]> (sv_bindings sv)) |}.

Definition server_step (sv : server) (e : server_event) : option server :=
  let w := sv_world sv in
  match e with
  | SvSession (EvUpdate _ _ _ _) => None
  | SvSession e =>
      w' ← session_step w e;
      Some {| sv_world := w'; sv_bindings := deliver w w' (sv_bindings sv) |}
  | SvConnect attribution =>
      Some {| sv_world := w; sv_bindings := sv_bindings sv ++ [new_binding (length (sv_bindings sv)) attribution] |}
  | SvOpened i =>
      with_binding sv i (fun b => if bd_awaiting b && ss_opened (w_session w) then Some (opened w b) else None)
  | SvRejected i notFound =>
      with_binding sv i (fun b =>
        if bd_awaiting b then
          let b := b <| bd_awaiting := false |> in
          Some (w, if (notFound : bool) then close_socket b closeDeletedDocument <| bd_resolved := true |> else b)
        else None)
  | SvMessage i data => with_binding sv i (fun b => Some (handleMessage w b data))
  | SvUpdate update o =>
      Some {| sv_world := w;
              sv_bindings := map (fun b => if listens b then handle_update b update o else b) (sv_bindings sv) |}
  | SvSettled i ackId flush =>
      with_binding sv i (fun b =>
        if bool_decide ((ackId, flush) ∈ bd_waiting b) then
          match w_flushes w !! flush with
          | Some (FlushDone ok, _) => Some (w, flush_settled b ackId flush ok (ss_now (w_session w)))
          | _ => None
          end
        else None)
  | SvReadyState i => with_binding sv i (fun b => Some (w, b <| bd_open := false |>))
  | SvClose i => with_binding sv i (fun b => Some (cleanup w b))
  | SvClosed i =>
      with_binding sv i (fun b =>
        flush ← bd_cleanup b;
        match w_flushes w !! flush with
        | Some (FlushDone _, _) => Some (w, b <| bd_resolved := true |>)
        | _ => None
        end)
  end.
End socket.
