(* ===== verification/SessionSocketProps.v ===== *)
(** What the sockets of [SessionSocket.v] are told about saving: an acknowledgement means
    that the update it answers is in the file, whatever the interleaving of clients, session
    and promises. *)
From S2P Require Import Prelude JsString Utf8 Splice Base64 Json Sha256 SessionProtocol DocSession DocSessionProps DocSessionAcks SessionSocket.

#[local] Opaque hashContent json_text snapshot_value.

Section props.
Context `{YjsLaws, !YjsSync, FastDiff, JsonHost, Lib0}.
Implicit Types (s : session) (w : world) (b : binding) (sv : server).

(** * Runs *)




(** * The invariant *)





(** * The world of a server *)








(** * Messages *)






















(** * Events *)







(** * Steps *)








(** * Acknowledgements *)


(** * Updates of another history *)

(** The messages that carry an update of a client: with the id of an acknowledgement, or
    as the second step or the update of the sync protocol. *)
Inductive update_carrier := CarriedAcked (ackId : jstr) | CarriedStep2 | CarriedUpdate.

Definition carried (c : update_carrier) (update : list N) : list N :=
  match c with
  | CarriedAcked ackId => encodeAckedSyncUpdate {| au_ackId := ackId; au_update := update |}
  | CarriedStep2 => writeVarUint MESSAGE_SYNC ++ writeVarUint messageYjsSyncStep2 ++ writeVarUint8Array update
  | CarriedUpdate => writeVarUint MESSAGE_SYNC ++ writeVarUint messageYjsUpdate ++ writeVarUint8Array update
  end.

Definition carrier_ok (c : update_carrier) : Prop :=
  match c with CarriedAcked ackId => proper ackId = true /\ ackId <> [] | _ => True end.

(** The numbers of the sync protocol are numbers, and differ from its first step. *)
Definition sync_numbers : Prop :=
  (messageYjsSyncStep2 < 2 ^ 53)%N /\ (messageYjsUpdate < 2 ^ 53)%N /\
  messageYjsSyncStep2 <> messageYjsSyncStep1 /\ messageYjsUpdate <> messageYjsSyncStep1.

(** However it is carried, an update comes to [take_update]. *)
Lemma carried_taken `{!Lib0Laws} w b c update rest :
  sync_numbers -> carrier_ok c -> Forall (fun x => x < 256)%N update -> isOpened (w_session w) = true ->
  processSyncMessage w b (Some (carried c update ++ rest)) =
  match c with
  | CarriedAcked ackId => take_acked_update w b {| au_ackId := ackId; au_update := update |}
  | _ => let '(w, r) := take_update w b update in (w, from_option (close_socket b) b r)
  end.
Proof.
  intros (N2 & Nu & D2 & Du) Hc Hu Ho. unfold processSyncMessage. destruct c as [ackId| |]; cbn [carried].
  - destruct Hc as [Hp Hne]. unfold proper in Hp. apply andb_true_iff in Hp as [Hj Hwf]. unfold encodeAckedSyncUpdate. cbn [au_ackId au_update].
    rewrite <- !app_assoc, read_var_uint by done. rewrite Ho. cbn [negb]. change (MESSAGE_ACKED_SYNC_UPDATE =? MESSAGE_ACKED_SYNC_UPDATE)%N with true.
    unfold decodeAckedSyncUpdate. rewrite read_var_string by done. cbn -[jlen Z.eqb]. rewrite read_var_bytes by done. cbn -[jlen Z.eqb].
    assert ((jlen ackId =? 0)%Z = false) as -> by (unfold jlen; destruct ackId; [done|apply Z.eqb_neq; cbn; lia]). done.
  - rewrite <- !app_assoc, read_var_uint by done. rewrite Ho. cbn [negb]. change (MESSAGE_SYNC =? MESSAGE_ACKED_SYNC_UPDATE)%N with false.
    change (MESSAGE_SYNC =? MESSAGE_SYNC)%N with true. cbn [negb]. unfold process_sync. rewrite read_var_uint by done.
    rewrite (proj2 (N.eqb_neq _ _) D2), N.eqb_refl. cbn [orb]. by rewrite read_var_bytes.
  - rewrite <- !app_assoc, read_var_uint by done. rewrite Ho. cbn [negb]. change (MESSAGE_SYNC =? MESSAGE_ACKED_SYNC_UPDATE)%N with false.
    change (MESSAGE_SYNC =? MESSAGE_SYNC)%N with true. cbn [negb]. unfold process_sync. rewrite read_var_uint by done.
    rewrite (proj2 (N.eqb_neq _ _) Du), N.eqb_refl, orb_true_r. by rewrite read_var_bytes.
Qed.

(** an update of another history is refused: when the document has a text that comes from
    its file, an update that brings a text of its own and no client the document knows leaves
    the document, the file and the flushes alone, and the socket is closed with the failure
    that says so; however the update is carried. *)
Theorem divergent_update_refused `{!Lib0Laws} w b c update rest incoming emitted :
  sync_numbers -> carrier_ok c -> Forall (fun x => x < 256)%N update ->
  isOpened (w_session w) = true -> ss_nonEmpty (w_session w) = true -> currentContent (w_session w) <> [] ->
  y_applyUpdate y_new update = (incoming, emitted, false) -> y_text incoming <> [] ->
  (forall client, client ∈ y_clients (ss_doc (w_session w)) -> client ∉ y_clients incoming) ->
  processSyncMessage w b (Some (carried c update ++ rest)) = (w, close_socket b closeUnsafeDivergence).
Proof.
  intros Hn Hc Hu Ho Hne Ht Hi Hti Hcl. rewrite carried_taken by done.
  assert (take_update w b update = (w, Some closeUnsafeDivergence)) as Htake.
  { unfold take_update, hasUnsafeIndependentUpdate, hasNonEmptyMaterializedContent. unfold isOpened in Ho. apply andb_true_iff in Ho as [_ Hd].
    rewrite Hd, Hne. cbn [andb negb]. rewrite (bool_decide_false (currentContent _ = [])) by done. rewrite Hi.
    rewrite (bool_decide_false (y_text incoming = [])) by done. unfold stateVectorsShareClient.
    assert (existsb (fun c0 => bool_decide (c0 ∈ y_clients incoming)) (y_clients (ss_doc (w_session w))) = false) as ->; [|done].
    apply existsb_false_Forall, Forall_forall. intros x Hx. apply bool_decide_eq_false. by apply Hcl. }
  destruct c; [|by rewrite Htake..]. unfold take_acked_update. cbn [au_update]. by rewrite Htake.
Qed.
End props.
