(* ===== verification/SessionManager.v ===== *)
(** [DocumentSessionManager] of [packages/doc-session/src/manager.ts]: the table of document
    sessions of a vault, as a state machine.

    Sessions, timers, reservations, clients, operations, calls that wait for a path and
    structure mutations are objects with an address.  A step is a call, one of the
    asynchronous functions going on after an [await], a timer that fires, or a session doing
    what it does ([DocSession.v]).  The path mutations of a session ([moveTo],
    [completeMoveAfterTransition], [deleteWith], [close]) are seen from the manager: they
    rebind or end the session and settle_mutation, in the order the steps say.  The handlers of
    events and what the mutations answer are left out. *)
From S2P Require Import Prelude JsString Utf8 NodePath Json Sha256 SessionProtocol DocSession.

#[local] Open Scope Z_scope.

(** * Data *)

(** The [matches] of a [PathReservation]. *)
Inductive path_matcher := Exact (paths : list jstr) | Subtrees (folders : list jstr).

Definition in_folder (folder vaultPath : jstr) : bool := starts_with vaultPath (folder ++ js "/").

Definition matches (m : path_matcher) (vaultPath : jstr) : bool :=
  match m with
  | Exact paths => bool_decide (vaultPath ∈ paths)
  | Subtrees folders => existsb (fun folder => jeqb vaultPath folder || in_folder folder vaultPath) folders
  end.

(** A [ClientDocumentSession], and a call of [runSessionOperation] that has not settled. *)
Record client_session := { cl_session : nat; cl_path : jstr; cl_released : bool }.
Record session_operation := { op_session : nat; op_path : jstr }.

(** A call of [withAvailablePath]: it waits for reservations to settle, or runs next. *)
Inductive access_kind := Attach | WithSession (defaultContent : option jstr).
Inductive access_phase := AccessWaits (reservations : list nat) | AccessGoes.
Record path_access := { pa_path : jstr; pa_kind : access_kind; pa_phase : access_phase }.

Inductive mutation_kind :=
| StablePath (vaultPath : jstr)
| MoveSession (fromPath toPath : jstr)
| MoveSubtree (fromFolder toFolder : jstr)
| DeleteSession (path : jstr)
| DeleteSubtree (folderPath : jstr)
| CloseIdle (vaultPath : jstr)
| CloseAll.

#[export] Instance mutation_kind_eq_dec : EqDecision mutation_kind.
Proof. solve_decision. Defined.

(** The awaits of a structure mutation. *)
Inductive mutation_phase :=
| MWaiting                                           (* for [structureMutationTail] *)
| MStableWaits (session : nat)                       (* for the stable open state of the session *)
| MStable (liveSession : option nat)                 (* the operation runs *)
| MStat (session : option nat)
| MDisk                                              (* the disk operation, the last await *)
| MMoving (session : nat) (rebound : bool)           (* [moveTo] *)
| MPreparing (entries : list (jstr * nat))           (* [prepareForPathTransition] *)
| MCompleting                                        (* [completeMoveAfterTransition] of every mover *)
| MDeleting (session : nat) (path : jstr) (rest : list jstr) (diskDeleted : bool)
| MDeleteDisk (rest : list jstr)
| MClosing (session : nat)
| MCloseWaits (closing : list nat)
| MCloseOps (operations : list nat)
| MCloseSessions (pending : list nat) (rejected : bool)
| MSettled (threw : bool).

(** A session that moves with its folder. *)
Record mover := { mv_from : jstr; mv_to : jstr; mv_session : nat; mv_rebound : bool }.

Record structure_mutation := {
  sm_kind : mutation_kind;
  sm_reservation : option nat;
  sm_previous : option nat;        (* the mutation whose promise is the tail at the call *)
  sm_phase : mutation_phase;
  sm_movers : list mover;
  sm_diskMove : option bool        (* whether the shared move on disk has succeeded *)
}.

#[export] Instance mutation_rebuild : Rebuild structure_mutation := fun m =>
  {| sm_kind := sm_kind m; sm_reservation := sm_reservation m; sm_previous := sm_previous m; sm_phase := sm_phase m;
     sm_movers := sm_movers m; sm_diskMove := sm_diskMove m |}.

Inductive manager_error := ManagerClosed | PathTransitioning (vaultPath : jstr).

Section manager.
Context `{Yjs, FastDiff, JsonHost, Host}.

Record manager := {
  mg_next : nat;                                     (* the next free address *)
  mg_objects : gmap nat session;
  mg_sessions : list (jstr * nat);
  mg_clientCounts : gmap nat Z;
  mg_operationCounts : gmap nat Z;
  mg_clients : gmap nat client_session;
  mg_operations : gmap nat session_operation;        (* [activeSessionOperations] *)
  mg_accesses : gmap nat path_access;
  mg_idleCloseTimers : gmap jstr nat;
  mg_timers : gmap nat jstr;
  mg_closingSessions : gset nat;
  mg_reservations : gmap nat path_matcher;           (* [pathReservations] *)
  mg_mutations : gmap nat structure_mutation;
  mg_tail : option nat;                              (* [structureMutationTail] *)
  mg_closePromise : option nat;
  mg_closing : bool;
  mg_closed : bool
}.

#[export] Instance manager_rebuild : Rebuild manager := fun g =>
  {| mg_next := mg_next g; mg_objects := mg_objects g; mg_sessions := mg_sessions g; mg_clientCounts := mg_clientCounts g;
     mg_operationCounts := mg_operationCounts g; mg_clients := mg_clients g; mg_operations := mg_operations g;
     mg_accesses := mg_accesses g; mg_idleCloseTimers := mg_idleCloseTimers g; mg_timers := mg_timers g;
     mg_closingSessions := mg_closingSessions g; mg_reservations := mg_reservations g; mg_mutations := mg_mutations g;
     mg_tail := mg_tail g; mg_closePromise := mg_closePromise g; mg_closing := mg_closing g; mg_closed := mg_closed g |}.

Implicit Types (g : manager) (a i t m : nat) (vaultPath : jstr).

(** The directory of the vault, and the content of a session that has no file. *)
Context (root defaultContent : jstr).

Definition new_manager : manager :=
  {| mg_next := 0; mg_objects := ∅; mg_sessions := []; mg_clientCounts := ∅; mg_operationCounts := ∅; mg_clients := ∅;
     mg_operations := ∅; mg_accesses := ∅; mg_idleCloseTimers := ∅; mg_timers := ∅; mg_closingSessions := ∅; mg_reservations := ∅;
     mg_mutations := ∅; mg_tail := None; mg_closePromise := None; mg_closing := false; mg_closed := false |}.

(** * The table *)

Fixpoint sessions_get (l : list (jstr * nat)) vaultPath : option nat :=
  match l with [] => None | (p, a) :: l => if jeqb p vaultPath then Some a else sessions_get l vaultPath end.
Definition sessions_delete (l : list (jstr * nat)) vaultPath : list (jstr * nat) := List.filter (fun e => negb (jeqb e.1 vaultPath)) l.
(** [set] on a [Map]: an entry that exists keeps its place. *)
Fixpoint sessions_set (l : list (jstr * nat)) vaultPath a : list (jstr * nat) :=
  match l with
  | [] => [(vaultPath, a)]
  | (p, b) :: l => if jeqb p vaultPath then (p, a) :: l else (p, b) :: sessions_set l vaultPath a
  end.
Fixpoint findSessionPath (l : list (jstr * nat)) a : option jstr :=
  match l with [] => None | (p, b) :: l => if (b =? a)%nat then Some p else findSessionPath l a end.

Definition get_session g vaultPath : option nat := sessions_get (mg_sessions g) vaultPath.

Definition toFilePath vaultPath : jstr := path_join (root :: split_on 47%N vaultPath).
Definition DOCUMENT_SESSION_STATE_DIR : jstr := js ".kb1/doc-session-state".
Definition hashVaultPath vaultPath : jstr := hashContent vaultPath.
Definition toStateFilePath vaultPath : jstr := path_join [root; DOCUMENT_SESSION_STATE_DIR; hashVaultPath vaultPath ++ js ".json"].

Definition inactive g : bool := mg_closing g || mg_closed g.

Definition hasActiveOperations g a : bool := 0 <? default 0 (mg_operationCounts g !! a).
Definition isSessionInUse g a : bool := (0 <? default 0 (mg_clientCounts g !! a)) || hasActiveOperations g a.

Definition object_opened g a : bool := match mg_objects g !! a with Some s => isOpened s | None => false end.
Definition object_failed g a : bool := match mg_objects g !! a with Some s => hasActivePersistFailure s | None => false end.

Definition getOpenSessionCount g : nat := length (mg_sessions g) + size (mg_closingSessions g).

(** The sessions that [flushDirtySessions] flushes. *)
Definition dirtySessions g : list nat :=
  List.filter (fun a => match mg_objects g !! a with Some s => hasUnsettledPersist s | None => false end) (mg_sessions g).*2.

(** * Closing idle sessions *)

Definition cancelIdleClose g vaultPath : manager :=
  match mg_idleCloseTimers g !! vaultPath with
  | Some t => g <| mg_timers := delete t (mg_timers g) |> <| mg_idleCloseTimers := delete vaultPath (mg_idleCloseTimers g) |>
  | None => g
  end.

Definition scheduleIdleClose g vaultPath : manager :=
  if inactive g then g
  else
    match get_session g vaultPath with
    | Some a =>
        if isSessionInUse g a then g
        else
          let g := cancelIdleClose g vaultPath in
          if negb (object_opened g a) then g <| mg_sessions := sessions_delete (mg_sessions g) vaultPath |>
          else
            let t := mg_next g in
            g <| mg_next := S t |> <| mg_timers := <[t := vaultPath]> (mg_timers g) |>
              <| mg_idleCloseTimers := <[vaultPath := t]> (mg_idleCloseTimers g) |>
    | None => g
    end.

(** * Reservations *)

Definition reservation_ids g vaultPath : list nat := (filter (fun r => matches r.2 vaultPath = true) (map_to_list (mg_reservations g))).*1.
Definition hasPathReservation g vaultPath : bool := existsb (fun r => matches r.2 vaultPath) (map_to_list (mg_reservations g)).

(** [createPathReservation] once the manager is known to be active. *)
Definition createPathReservation g (r : path_matcher) : manager * nat :=
  let i := mg_next g in (g <| mg_next := S i |> <| mg_reservations := <[i := r]> (mg_reservations g) |>, i).

(** [runStructureMutation]: the mutation waits for the tail and becomes it. *)
Definition runStructureMutation g (reservation : option nat) (kind : mutation_kind) : manager * nat :=
  let i := mg_next g in
  (g <| mg_next := S i |>
     <| mg_mutations := <[i := {| sm_kind := kind; sm_reservation := reservation; sm_previous := mg_tail g; sm_phase := MWaiting;
                                  sm_movers := []; sm_diskMove := None |}]> (mg_mutations g) |>
     <| mg_tail := Some i |>, i).

(** A structure mutation with a reservation of its own: the call is refused when the manager
    is not active. *)
Definition reserved_mutation g (r : path_matcher) (kind : mutation_kind) : manager :=
  if inactive g then g
  else let '(g, i) := createPathReservation g r in (runStructureMutation g (Some i) kind).1.

(** The callback of an idle timer: [closeSession]. *)
Definition idle_timer_fires g t : manager :=
  match mg_timers g !! t with
  | None => g
  | Some vaultPath =>
      let g := g <| mg_timers := delete t (mg_timers g) |> in
      if mg_closing g then g
      else if inactive g then g
      else
        let '(g, i) := createPathReservation g (Exact [vaultPath]) in
        let '(g, m) := runStructureMutation g (Some i) (CloseIdle vaultPath) in
        g <| mg_closingSessions := {[m]} ∪ mg_closingSessions g |>
  end.

(** * Sessions *)

Definition getSession g vaultPath (override : option jstr) : manager * result manager_error nat :=
  if inactive g then (g, Err ManagerClosed)
  else if hasPathReservation g vaultPath then (g, Err (PathTransitioning vaultPath))
  else
    let g := cancelIdleClose g vaultPath in
    match get_session g vaultPath with
    | Some a => (g, Ok a)
    | None =>
        let a := mg_next g in
        (g <| mg_next := S a |>
           <| mg_objects := <[a := new_session (toFilePath vaultPath) vaultPath (Some (toStateFilePath vaultPath)) (default defaultContent override)]>
                (mg_objects g) |>
           <| mg_sessions := sessions_set (mg_sessions g) vaultPath a |>, Ok a)
    end.

Definition getOpenSession g vaultPath : result manager_error (option nat) :=
  if mg_closing g then Ok None
  else if hasPathReservation g vaultPath then Err (PathTransitioning vaultPath)
  else Ok match get_session g vaultPath with Some a => if object_opened g a then Some a else None | None => None end.

Definition count_up (counts : gmap nat Z) a : gmap nat Z := <[a := default 0 (counts !! a) + 1]> counts.
(** One less; the entry goes with the last. *)
Definition uncount (counts : gmap nat Z) a : gmap nat Z :=
  let remaining := default 1 (counts !! a) - 1 in if 0 <? remaining then <[a := remaining]> counts else delete a counts.

(** [waitForPathAvailability]: the call goes on, waits, or is refused. *)
Definition waitForPathAvailability g i (x : path_access) : manager :=
  if inactive g then g <| mg_accesses := delete i (mg_accesses g) |>
  else
    let phase := match reservation_ids g (pa_path x) with [] => AccessGoes | l => AccessWaits l end in
    g <| mg_accesses := <[i := {| pa_path := pa_path x; pa_kind := pa_kind x; pa_phase := phase |}]> (mg_accesses g) |>.

(** [attachClientSession], [withSession] up to their first await. *)
Definition call_access g vaultPath (kind : access_kind) : manager :=
  let i := mg_next g in
  waitForPathAvailability (g <| mg_next := S i |>) i {| pa_path := vaultPath; pa_kind := kind; pa_phase := AccessGoes |}.

(** The operation of [withAvailablePath]. *)
Definition access_operation g (x : path_access) : manager * bool :=
  match pa_kind x with
  | Attach =>
      match getSession g (pa_path x) None with
      | (g, Ok a) =>
          let g := cancelIdleClose g (pa_path x) in
          let i := mg_next g in
          (g <| mg_clientCounts := count_up (mg_clientCounts g) a |> <| mg_next := S i |>
             <| mg_clients := <[i := {| cl_session := a; cl_path := pa_path x; cl_released := false |}]> (mg_clients g) |>, true)
      | (g, Err _) => (g, false)
      end
  | WithSession override =>
      match getSession (cancelIdleClose g (pa_path x)) (pa_path x) override with
      | (g, Ok a) =>
          let i := mg_next g in
          (g <| mg_operationCounts := count_up (mg_operationCounts g) a |> <| mg_next := S i |>
             <| mg_operations := <[i := {| op_session := a; op_path := pa_path x |}]> (mg_operations g) |>, true)
      | (g, Err _) => (g, false)
      end
  end.

Definition access_goes g i : option manager :=
  x ← mg_accesses g !! i;
  match pa_phase x with
  | AccessWaits l => if forallb (fun r => bool_decide (mg_reservations g !! r = None)) l then Some (waitForPathAvailability g i x) else None
  | AccessGoes =>
      let '(g, ok) := access_operation g x in
      Some (if negb ok && hasPathReservation g (pa_path x) then waitForPathAvailability g i x
            else g <| mg_accesses := delete i (mg_accesses g) |>)
  end.

Definition release g i : manager :=
  match mg_clients g !! i with
  | Some {| cl_session := a; cl_path := vaultPath; cl_released := false |} =>
      let g := g <| mg_clients := <[i := {| cl_session := a; cl_path := vaultPath; cl_released := true |}]> (mg_clients g) |> in
      let currentPath := default vaultPath (findSessionPath (mg_sessions g) a) in
      let g := g <| mg_clientCounts := uncount (mg_clientCounts g) a |> in
      if bool_decide (is_Some (mg_clientCounts g !! a)) then g
      else if hasActiveOperations g a then g else scheduleIdleClose g currentPath
  | _ => g
  end.

(** The [finally] of [runSessionOperation]. *)
Definition operation_ends g i : option manager :=
  x ← mg_operations g !! i;
  let g := g <| mg_operations := delete i (mg_operations g) |> <| mg_operationCounts := uncount (mg_operationCounts g) (op_session x) |> in
  let currentPath := default (op_path x) (findSessionPath (mg_sessions g) (op_session x)) in
  Some (if negb (isSessionInUse g (op_session x)) then scheduleIdleClose g currentPath else g).

(** The handler of the session's ["doc-deleted"] event. *)
Definition forget_session g a : manager := g <| mg_sessions := List.filter (fun e => negb (e.2 =? a)%nat) (mg_sessions g) |>.

Definition rekeySession g (fromPath toPath : jstr) a : manager :=
  let g := cancelIdleClose (cancelIdleClose g fromPath) toPath in
  let g := g <| mg_sessions := sessions_set (sessions_delete (mg_sessions g) fromPath) toPath a |> in
  if negb (isSessionInUse g a) then scheduleIdleClose g toPath else g.

(** [this.filePath = filePath; this.eventPath = eventPath; this.stateFilePath = stateFilePath]. *)
Definition rebind (s : session) toPath : session :=
  s <| ss_filePath := toFilePath toPath |> <| ss_eventPath := toPath |> <| ss_stateFilePath := Some (toStateFilePath toPath) |>.

(** * Structure mutations *)

Definition put_mutation g i (x : structure_mutation) : manager := g <| mg_mutations := <[i := x]> (mg_mutations g) |>.
Definition to_phase g i (x : structure_mutation) (phase : mutation_phase) : manager := put_mutation g i (x <| sm_phase := phase |>).

(** The mutation has settled: its reservation is released. *)
Definition settle_mutation g i (x : structure_mutation) (threw : bool) : manager :=
  to_phase g i x (MSettled threw)
    <| mg_reservations := match sm_reservation x with Some r => delete r (mg_reservations g) | None => mg_reservations g end |>
    <| mg_closingSessions := mg_closingSessions g ∖ {[i]} |>.

Definition settled g i : bool := match mg_mutations g !! i with Some x => match sm_phase x with MSettled _ => true | _ => false end | None => false end.

(** The loop of [deleteSessionSubtree] from the paths that are left. *)
Fixpoint delete_next g i (x : structure_mutation) (rest : list jstr) (diskDeleted : bool) : manager :=
  match rest with
  | [] => if diskDeleted then settle_mutation g i x false else to_phase g i x MDisk
  | path :: rest =>
      match get_session g path with
      | Some a => to_phase g i x (MDeleting a path rest diskDeleted)
      | None => if diskDeleted then delete_next g i x rest diskDeleted else to_phase g i x (MDeleteDisk rest)
      end
  end.

(** A session of the table when the close has failed. *)
Definition resume_session g (e : jstr * nat) : manager :=
  let g := g <| mg_objects := alter resumeAfterCloseFailure e.2 (mg_objects g) |> in
  if negb (isSessionInUse g e.2) then scheduleIdleClose g e.1 else g.

(** The end of [closeUnlocked], and the handlers of [closePromise]. *)
Definition finish_close g i (x : structure_mutation) (rejected : bool) : manager :=
  let g := settle_mutation g i x rejected in
  if rejected then
    let g := g <| mg_closing := false |> in foldl resume_session g (mg_sessions g) <| mg_closePromise := None |>
  else
    g <| mg_sessions := [] |> <| mg_clientCounts := ∅ |> <| mg_operationCounts := ∅ |> <| mg_operations := ∅ |> <| mg_closed := true |>.

Definition close_sessions g i (x : structure_mutation) : manager :=
  match (mg_sessions g).*2 with
  | [] => finish_close g i x false
  | l => to_phase g i x (MCloseSessions l false)
  end.

(** The tail has settled: the mutation runs up to its first await. *)
Definition mutation_starts g i (x : structure_mutation) : manager :=
  match sm_kind x with
  | StablePath vaultPath =>
      to_phase g i x match get_session g vaultPath with Some a => MStableWaits a | None => MStable None end
  | MoveSession fromPath _ => to_phase g i x (MStat (get_session g fromPath))
  | MoveSubtree _ _ => to_phase g i x (MStat None)
  | DeleteSession path =>
      to_phase g i x match get_session g path with Some a => MDeleting a path [] true | None => MDisk end
  | DeleteSubtree folderPath =>
      delete_next g i x (sort_by lex_compare (filter (fun path => in_folder folderPath path = true) (mg_sessions g).*1)) false
  | CloseIdle vaultPath =>
      let g := cancelIdleClose g vaultPath in
      match get_session g vaultPath with
      | None => settle_mutation g i x false
      | Some a =>
          if isSessionInUse g a || object_failed g a then settle_mutation g i x false
          else to_phase (g <| mg_sessions := sessions_delete (mg_sessions g) vaultPath |>) i x (MClosing a)
      end
  | CloseAll =>
      to_phase (g <| mg_timers := foldr delete (mg_timers g) (map_to_list (mg_idleCloseTimers g)).*2 |> <| mg_idleCloseTimers := ∅ |>)
        i x (MCloseWaits (elements (mg_closingSessions g)))
  end.

(** What an await comes to: a disk operation, a call of a session that succeeds or not, the
    kind of a file, a session that takes its new path, and the same for the sessions of a
    folder or of the whole table. *)
Inductive mutation_answer :=
| ADone (ok : bool)
| AStat (isFile isDirectory : bool)
| ARebinds
| ADeleted (invoked ok : bool)                       (* [deleteWith], and whether it came to the disk *)
| AMoverRebinds (session : nat)
| AMoverEnds (session : nat) (ok : bool)
| ACloses (session : nat) (ok : bool).

Definition entries_below g (folder : jstr) : list (jstr * nat) :=
  sort_by (fun e e' => locale_compare e.1 e'.1) (filter (fun e => in_folder folder e.1 = true) (mg_sessions g)).

Definition mover_of (fromFolder toFolder : jstr) (e : jstr * nat) : mover :=
  {| mv_from := e.1; mv_to := toFolder ++ js "/" ++ drop (S (length fromFolder)) e.1; mv_session := e.2; mv_rebound := false |}.

Definition find_mover (l : list mover) a : option mover := List.find (fun v => (mv_session v =? a)%nat) l.
Definition drop_mover (l : list mover) a : list mover := List.filter (fun v => negb (mv_session v =? a)%nat) l.

Definition rebind_object g a toPath : manager := g <| mg_objects := alter (fun s => rebind s toPath) a (mg_objects g) |>.
Definition object_deleted g a : bool := match mg_objects g !! a with Some s => ss_deleted s | None => true end.

(** [statOrNull] has answered. *)
Definition stat_answered g i (x : structure_mutation) (session : option nat) (isFile isDirectory : bool) : manager :=
  match sm_kind x with
  | MoveSession fromPath toPath =>
      if negb isFile then to_phase g i x MDisk
      else
        match get_session g toPath, session with
        | Some destination, Some a => if (destination =? a)%nat then to_phase g i x (MMoving a false) else settle_mutation g i x true
        | Some _, None => settle_mutation g i x true
        | None, Some a => to_phase g i x (MMoving a false)
        | None, None => to_phase g i x MDisk
        end
  | MoveSubtree fromFolder toFolder =>
      if negb isDirectory then to_phase g i x MDisk
      else
        let entries := entries_below g fromFolder in
        if existsb (fun e => (jeqb e.1 toFolder || in_folder toFolder e.1) && negb (bool_decide (e.2 ∈ entries.*2))) (mg_sessions g)
        then settle_mutation g i x true
        else match entries with [] => to_phase g i x MDisk | _ => to_phase g i x (MPreparing entries) end
  | _ => g
  end.

(** [completeMoveAfterTransition] of one session settles.  The first that throws settles the
    mutation, the others go on. *)
Definition mover_ends g i (x : structure_mutation) (v : mover) (ok : bool) : manager :=
  let movers := drop_mover (sm_movers x) (mv_session v) in
  let x := x <| sm_movers := movers |> in
  let g := if ok then rekeySession g (mv_from v) (mv_to v) (mv_session v) else g in
  let g := put_mutation g i x in
  match sm_phase x with
  | MCompleting => if negb ok then settle_mutation g i x true else match movers with [] => settle_mutation g i x false | _ => g end
  | _ => g
  end.

(** A mutation that runs goes on with what it waits for. *)
Definition mutation_goes g i (x : structure_mutation) (answer : mutation_answer) : option manager :=
  match answer, sm_phase x with
  | ADone _, MStableWaits a => Some (to_phase g i x (MStable (if object_opened g a then Some a else None)))
  | ADone ok, MStable _ | ADone ok, MDisk => Some (settle_mutation g i x (negb ok))
  | AStat isFile isDirectory, MStat session => Some (stat_answered g i x session isFile isDirectory)
  | ARebinds, MMoving a false =>
      match sm_kind x with
      | MoveSession _ toPath => if object_deleted g a then None else Some (to_phase (rebind_object g a toPath) i x (MMoving a true))
      | _ => None
      end
  | ADone ok, MMoving a rebound =>
      match sm_kind x, ok with
      | MoveSession fromPath toPath, true => if rebound then Some (settle_mutation (rekeySession g fromPath toPath a) i x false) else None
      | _, _ => Some (settle_mutation g i x true)
      end
  | ADone ok, MPreparing entries =>
      match sm_kind x with
      | MoveSubtree fromFolder toFolder =>
          Some (if ok then put_mutation g i (x <| sm_phase := MCompleting |> <| sm_movers := map (mover_of fromFolder toFolder) entries |>)
                else settle_mutation g i x true)
      | _ => None
      end
  | ADone ok, MCompleting => match sm_diskMove x with None => Some (put_mutation g i (x <| sm_diskMove := Some ok |>)) | Some _ => None end
  | AMoverRebinds a, _ =>
      v ← find_mover (sm_movers x) a;
      if bool_decide (sm_diskMove x = Some true) && negb (mv_rebound v) && negb (object_deleted g a)
      then
        let v' := {| mv_from := mv_from v; mv_to := mv_to v; mv_session := a; mv_rebound := true |} in
        Some (put_mutation (rebind_object g a (mv_to v)) i (x <| sm_movers := v' :: drop_mover (sm_movers x) a |>))
      else None
  | AMoverEnds a ok, _ => v ← find_mover (sm_movers x) a; if ok && negb (mv_rebound v) then None else Some (mover_ends g i x v ok)
  | ADeleted invoked ok, MDeleting a path rest diskDeleted =>
      Some (if ok then
              let g := forget_session (g <| mg_objects := alter markDeleted a (mg_objects g) |>) a in
              let g := g <| mg_sessions := sessions_delete (mg_sessions g) path |> in
              delete_next g i x rest (diskDeleted || invoked)
            else settle_mutation g i x true)
  | ADone ok, MDeleteDisk rest => Some (if ok then delete_next g i x rest true else settle_mutation g i x true)
  | ADone ok, MClosing a =>
      Some (if ok then settle_mutation (g <| mg_objects := alter DocSession.closed a (mg_objects g) |>) i x false
            else if object_failed g a
            then match sm_kind x with
                 | CloseIdle vaultPath => settle_mutation (g <| mg_sessions := sessions_set (mg_sessions g) vaultPath a |>) i x false
                 | _ => settle_mutation g i x true
                 end
            else settle_mutation g i x true)
  | ADone _, MCloseWaits l => if forallb (settled g) l then Some (to_phase g i x (MCloseOps (map_to_list (mg_operations g)).*1)) else None
  | ADone _, MCloseOps l => if forallb (fun o => bool_decide (mg_operations g !! o = None)) l then Some (close_sessions g i x) else None
  | ACloses a ok, MCloseSessions pending rejected =>
      if bool_decide (a ∈ pending) then
        let g := if ok then g <| mg_objects := alter DocSession.closed a (mg_objects g) |> else g in
        let rejected := rejected || negb ok in
        Some match List.filter (fun b => negb (b =? a)%nat) pending with
             | [] => finish_close g i x rejected
             | pending => to_phase g i x (MCloseSessions pending rejected)
             end
      else None
  | _, _ => None
  end.

(** * Steps *)

Inductive manager_event :=
| CallGetSession (vaultPath : jstr) (override : option jstr)
| CallAccess (vaultPath : jstr) (kind : access_kind)
| AccessRuns (access : nat)
| CallRelease (client : nat)
| OperationEnds (operation : nat)
| CallMutation (kind : mutation_kind)
| MutationStarts (mutation : nat)
| MutationGoes (mutation : nat) (answer : mutation_answer)
| IdleTimerFires (t : nat)
| SessionRuns (a : nat) (s : session).

(** What a mutation reserves. *)
Definition reservation_of (kind : mutation_kind) : option path_matcher :=
  match kind with
  | StablePath vaultPath | CloseIdle vaultPath => Some (Exact [vaultPath])
  | MoveSession fromPath toPath => Some (Exact [fromPath; toPath])
  | MoveSubtree fromFolder toFolder => Some (Subtrees [fromFolder; toFolder])
  | DeleteSession path => Some (Exact [path])
  | DeleteSubtree folderPath => Some (Subtrees [folderPath])
  | CloseAll => None
  end.

(** [close]: [closePromise] is the tail. *)
Definition call_close g : manager :=
  match mg_closePromise g with
  | Some _ => g
  | None => let '(g, i) := runStructureMutation (g <| mg_closing := true |>) None CloseAll in g <| mg_closePromise := Some i |>
  end.

Definition call_mutation g (kind : mutation_kind) : manager :=
  match kind, reservation_of kind with
  | CloseIdle _, _ => g
  | _, Some r => reserved_mutation g r kind
  | _, None => call_close g
  end.

Definition can_start g (x : structure_mutation) : bool :=
  match sm_phase x with MWaiting => match sm_previous x with Some p => settled g p | None => true end | _ => false end.

Definition manager_step g (e : manager_event) : option manager :=
  match e with
  | CallGetSession vaultPath override => Some (getSession g vaultPath override).1
  | CallAccess vaultPath kind => Some (call_access g vaultPath kind)
  | AccessRuns i => access_goes g i
  | CallRelease i => Some (release g i)
  | OperationEnds i => operation_ends g i
  | CallMutation kind => Some (call_mutation g kind)
  | MutationStarts i => x ← mg_mutations g !! i; if can_start g x then Some (mutation_starts g i x) else None
  | MutationGoes i answer => x ← mg_mutations g !! i; mutation_goes g i x answer
  | IdleTimerFires t => Some (idle_timer_fires g t)
  | SessionRuns a s =>
      old ← mg_objects g !! a;
      if bool_decide (ss_filePath s = ss_filePath old /\ ss_eventPath s = ss_eventPath old /\ ss_stateFilePath s = ss_stateFilePath old /\
                      (ss_deleted old = true -> ss_deleted s = true))
      then
        let g := g <| mg_objects := <[a := s]> (mg_objects g) |> in
        Some (if ss_deleted s && negb (ss_deleted old) then forget_session g a else g)
      else None
  end.

Fixpoint manager_run g (es : list manager_event) : option manager :=
  match es with [] => Some g | e :: es => g ← manager_step g e; manager_run g es end.
End manager.
