(* ===== verification/SessionManagerProps.v ===== *)
(** What holds of the manager of document sessions in every run: structure mutations run one at
    a time and hold their reservations, and the table serves every session that is in use. *)
From S2P Require Import Prelude JsString Utf8 NodePath Json Sha256 SessionProtocol DocSession SessionManager.

Section props.
Context `{Yjs, FastDiff, JsonHost, Host}.
Context (root defaultContent : jstr).
Implicit Types (g : manager) (a i j t r : nat) (x y : structure_mutation) (l : list (jstr * nat)).

(** * The chain of structure mutations *)

Definition is_settled x : bool := match sm_phase x with MSettled _ => true | _ => false end.
Definition is_waiting x : bool := match sm_phase x with MWaiting => true | _ => false end.
Definition active x : bool := negb (is_waiting x) && negb (is_settled x).

(** Each mutation waits for the one before it; the last is the tail; those that have not settled
    hold the reservation of their kind. *)
Record chain_ok g : Prop := {
  ch_fresh : forall i x, mg_mutations g !! i = Some x -> (i < mg_next g)%nat;
  ch_res_fresh : forall r m, mg_reservations g !! r = Some m -> (r < mg_next g)%nat;
  ch_own_fresh : forall i x r, mg_mutations g !! i = Some x -> sm_reservation x = Some r -> (r < mg_next g)%nat;
  ch_tail : forall i x, mg_mutations g !! i = Some x -> exists t, mg_tail g = Some t /\ (i <= t)%nat;
  ch_tail_in : forall t, mg_tail g = Some t -> is_Some (mg_mutations g !! t);
  ch_previous : forall i x j y, mg_mutations g !! i = Some x -> mg_mutations g !! j = Some y -> (j < i)%nat ->
    exists p, sm_previous x = Some p /\ (j <= p < i)%nat /\ is_Some (mg_mutations g !! p);
  ch_waits : forall i x q, mg_mutations g !! i = Some x -> sm_previous x = Some q -> (q < i)%nat /\ is_Some (mg_mutations g !! q);
  ch_serial : forall i x j y, mg_mutations g !! i = Some x -> mg_mutations g !! j = Some y -> (j < i)%nat -> is_waiting x = false -> is_settled y = true;
  ch_reserved : forall i x m, mg_mutations g !! i = Some x -> is_settled x = false -> reservation_of (sm_kind x) = Some m ->
    exists r, sm_reservation x = Some r /\ mg_reservations g !! r = Some m;
  ch_unique : forall i x j y r, mg_mutations g !! i = Some x -> mg_mutations g !! j = Some y ->
    sm_reservation x = Some r -> sm_reservation y = Some r -> i = j;
  ch_closing : mg_closing g = true -> exists i x, mg_tail g = Some i /\ mg_closePromise g = Some i /\ mg_mutations g !! i = Some x /\
    sm_kind x = CloseAll /\ is_settled x = mg_closed g;
  ch_promise : mg_closing g = false -> mg_closePromise g = None /\ mg_closed g = false;
  ch_all : forall i x, mg_mutations g !! i = Some x -> sm_kind x = CloseAll -> is_settled x = false -> mg_closing g = true /\ mg_closePromise g = Some i
}.

(** What the chain depends on. *)
Definition chain_parts g := (mg_mutations g, mg_reservations g, mg_tail g, mg_closing g, mg_closePromise g, mg_closed g).

Lemma chain_same g g' : chain_parts g' = chain_parts g -> (mg_next g <= mg_next g')%nat -> chain_ok g -> chain_ok g'.
Proof.
  unfold chain_parts. intros E Hn [H1' H2' H3' H4 H5 H6 Hwt H7 H8 H9 H10 H11 H12]. injection E as Em Er Et Ec Ep Ed.
  split; rewrite ?Em, ?Er, ?Et, ?Ec, ?Ep, ?Ed; try done.
  - intros i x Hx. pose proof (H1' i x Hx). lia.
  - intros r m Hr. pose proof (H2' r m Hr). lia.
  - intros i x r Hx Hr. pose proof (H3' i x r Hx Hr). lia.
Qed.

(** At most one runs. *)
Lemma chain_one_active g i x j y :
  chain_ok g -> mg_mutations g !! i = Some x -> mg_mutations g !! j = Some y -> active x = true -> active y = true -> i = j.
Proof.
  intros Hc Hx Hy Hax Hay. unfold active in *. to_prop.
  destruct (Nat.lt_trichotomy i j) as [Hl|[Hl|Hl]]; [|done|].
  - pose proof (ch_serial _ Hc j y i x Hy Hx Hl). destruct (is_waiting y), (is_settled x); naive_solver.
  - pose proof (ch_serial _ Hc i x j y Hx Hy Hl). destruct (is_waiting x), (is_settled y); naive_solver.
Qed.

(** A mutation changes, but for its kind and its place. *)
Definition same_place x x' : Prop := sm_kind x' = sm_kind x /\ sm_reservation x' = sm_reservation x /\ sm_previous x' = sm_previous x.

Lemma chain_put g i x x' :
  chain_ok g -> mg_mutations g !! i = Some x -> same_place x x' ->
  is_settled x' = is_settled x -> (is_waiting x' = false -> forall j y, mg_mutations g !! j = Some y -> (j < i)%nat -> is_settled y = true) ->
  chain_ok (put_mutation g i x').
Proof.
  intros Hc Hx (Ek & Er & Ep) Es Hw. destruct Hc as [H1' H2' H3' H4 H5 H6 Hwt H7 H8 H9 H10 H11 H12].
  set (g' := put_mutation g i x').
  assert (forall j z, mg_mutations g' !! j = Some z -> exists z0, mg_mutations g !! j = Some z0 /\
    sm_kind z = sm_kind z0 /\ sm_reservation z = sm_reservation z0 /\ sm_previous z = sm_previous z0 /\ is_settled z = is_settled z0 /\
    (is_waiting z = false -> is_waiting z0 = false \/ j = i /\ is_waiting x' = false)) as Hl.
  { intros j z. unfold g', put_mutation, update. cbn. destruct (decide (i = j)) as [<-|Hne].
    - rewrite lookup_insert_eq. intros [= <-]. exists x. split_and!; auto.
    - rewrite lookup_insert_ne by done. intros Hz. exists z. split_and!; auto. }
  assert (forall j, is_Some (mg_mutations g !! j) -> is_Some (mg_mutations g' !! j)) as Hin.
  { intros j [z Hz]. unfold g', put_mutation, update. cbn. destruct (decide (i = j)) as [<-|Hne]; [rewrite lookup_insert_eq|rewrite lookup_insert_ne by done]; eauto. }
  split.
  - intros j z (z0 & Hz & _)%Hl. by eapply H1'.
  - exact H2'.
  - intros j z r (z0 & Hz & _ & -> & _)%Hl. by eapply H3'.
  - intros j z (z0 & Hz & _)%Hl. by eapply H4.
  - intros t Ht. apply Hin. by apply H5.
  - intros j z k w (z0 & Hz & _ & _ & -> & _)%Hl (w0 & Hw0 & _)%Hl Hlt. destruct (H6 _ _ _ _ Hz Hw0 Hlt) as (p & ? & ? & ?). exists p. auto.
  - intros j z q (z0 & Hz & _ & _ & -> & _)%Hl Hq. destruct (Hwt _ _ _ Hz Hq). auto.
  - intros j z k w (z0 & Hz & _ & _ & _ & _ & Hwz)%Hl (w0 & Hw0 & _ & _ & _ & -> & _)%Hl Hlt Hnw. destruct (Hwz Hnw) as [Hz0|[-> Hx']].
    + by apply (H7 _ _ _ _ Hz Hw0).
    + by apply (Hw Hx' k).
  - intros j z m (z0 & Hz & -> & -> & _ & -> & _)%Hl. by eapply H8.
  - intros j z k w r (z0 & Hz & _ & -> & _)%Hl (w0 & Hw0 & _ & -> & _)%Hl. by eapply H9.
  - intros Hcl. destruct (H10 Hcl) as (k & z & Ht & Hp & Hz & Hk & Hse). exists k. destruct (decide (i = k)) as [<-|Hne].
    + rewrite Hx in Hz. injection Hz as <-. exists x'. unfold g', put_mutation, update. cbn. rewrite lookup_insert_eq, Ek, Es. done.
    + exists z. unfold g', put_mutation, update. cbn. by rewrite lookup_insert_ne by done.
  - exact H11.
  - intros j z (z0 & Hz & -> & _ & _ & -> & _)%Hl. by eapply H12.
Qed.

(** The mutation that settles releases its reservation.  What the flags of the manager become is
    left to the caller. *)
Lemma chain_settle g i x x' closing promise closed :
  chain_ok g -> mg_mutations g !! i = Some x -> same_place x x' -> is_settled x' = true -> is_settled x = false ->
  (forall j y, mg_mutations g !! j = Some y -> (j < i)%nat -> is_settled y = true) ->
  (sm_kind x <> CloseAll -> closing = mg_closing g /\ promise = mg_closePromise g /\ closed = mg_closed g) ->
  (sm_kind x = CloseAll -> closing = closed /\ (closed = true -> promise = mg_closePromise g) /\ (closed = false -> promise = None)) ->
  forall g', chain_parts g' =
    (<[i := x']> (mg_mutations g), match sm_reservation x with Some r => delete r (mg_reservations g) | None => mg_reservations g end,
     mg_tail g, closing, promise, closed) ->
  (mg_next g <= mg_next g')%nat -> chain_ok g'.
Proof.
  intros Hc Hx (Ek & Er & Ep) Hs' Hs Hw Hkeep Hclose g' E Hn.
  unfold chain_parts in E. injection E as Em Erv Et Ec Epr Ed.
  assert (forall j z, mg_mutations g' !! j = Some z -> exists z0, mg_mutations g !! j = Some z0 /\
    sm_kind z = sm_kind z0 /\ sm_reservation z = sm_reservation z0 /\ sm_previous z = sm_previous z0 /\ (is_settled z0 = true -> is_settled z = true) /\
    (is_waiting z = false -> is_waiting z0 = false \/ j = i) /\ (is_settled z = false -> is_settled z0 = false /\ j <> i)) as Hl.
  { intros j z. rewrite Em. destruct (decide (i = j)) as [<-|Hne].
    - rewrite lookup_insert_eq. intros [= <-]. exists x. split_and!; auto; congruence.
    - rewrite lookup_insert_ne by done. intros Hz. exists z. split_and!; auto. }
  assert (forall j, is_Some (mg_mutations g !! j) -> is_Some (mg_mutations g' !! j)) as Hin.
  { intros j [z Hz]. rewrite Em. destruct (decide (i = j)) as [<-|Hne]; [rewrite lookup_insert_eq|rewrite lookup_insert_ne by done]; eauto. }
  assert (forall r m, mg_reservations g' !! r = Some m -> mg_reservations g !! r = Some m) as Hr.
  { intros r m. rewrite Erv. destruct (sm_reservation x) as [r'|]; [|done]. intros Hd. by apply lookup_delete_Some in Hd as [_ Hd]. }
  destruct Hc as [H1' H2' H3' H4 H5 H6 Hwt H7 H8 H9 H10 H11 H12]. split.
  - intros j z (z0 & Hz & _)%Hl. pose proof (H1' _ _ Hz). lia.
  - intros r m Hm%Hr. pose proof (H2' _ _ Hm). lia.
  - intros j z r (z0 & Hz & _ & -> & _)%Hl Hzr. pose proof (H3' _ _ _ Hz Hzr). lia.
  - rewrite Et. intros j z (z0 & Hz & _)%Hl. by eapply H4.
  - rewrite Et. intros t Ht. apply Hin. by apply H5.
  - intros j z k w (z0 & Hz & _ & _ & -> & _)%Hl (w0 & Hw0 & _)%Hl Hlt. destruct (H6 _ _ _ _ Hz Hw0 Hlt) as (p & ? & ? & ?). exists p. auto.
  - intros j z q (z0 & Hz & _ & _ & -> & _)%Hl Hq. destruct (Hwt _ _ _ Hz Hq). auto.
  - intros j z k w (z0 & Hz & _ & _ & _ & _ & Hwz & _)%Hl (w0 & Hw0 & _ & _ & _ & Hsw & _)%Hl Hlt Hnw. apply Hsw.
    destruct (Hwz Hnw) as [Hz0| ->]; [by apply (H7 _ _ _ _ Hz Hw0 Hlt)|by apply (Hw k)].
  - intros j z m (z0 & Hz & -> & -> & _ & _ & _ & Hsz)%Hl Hns Hm. destruct (Hsz Hns) as [Hns0 Hne]. destruct (H8 _ _ _ Hz Hns0 Hm) as (r & Hzr & Hrm).
    exists r. split; [done|]. rewrite Erv. destruct (sm_reservation x) as [r'|] eqn:Exr; [|done]. rewrite lookup_delete_ne; [done|].
    intros ->. apply Hne. by eapply H9.
  - intros j z k w r (z0 & Hz & _ & -> & _)%Hl (w0 & Hw0 & _ & -> & _)%Hl. by eapply H9.
  - rewrite Ec, Et, Epr, Ed. intros Hcl. destruct (decide (sm_kind x = CloseAll)) as [Ea|Ea].
    + destruct (Hclose Ea) as (-> & Hp & _). destruct (H12 _ _ Hx Ea Hs) as [Hcl' Hpi].
      destruct (H10 Hcl') as (k & z & Ht & Hp' & Hz & Hk & Hse). rewrite Hpi in Hp'. injection Hp' as <-.
      exists i, x'. rewrite Em, lookup_insert_eq. rewrite Hp by done. split_and!; try done; congruence.
    + destruct (Hkeep Ea) as (-> & -> & ->). destruct (H10 Hcl) as (k & z & Ht & Hp' & Hz & Hk & Hse). exists k, z. rewrite Em.
      rewrite lookup_insert_ne; [done|]. intros ->. rewrite Hx in Hz. by injection Hz as ->.
  - rewrite Ec, Epr, Ed. intros Hcl. destruct (decide (sm_kind x = CloseAll)) as [Ea|Ea].
    + destruct (Hclose Ea) as (-> & _ & Hp). by rewrite Hp.
    + destruct (Hkeep Ea) as (-> & -> & ->). by apply H11.
  - intros j z (z0 & Hz & -> & _ & _ & _ & _ & Hsz)%Hl Ha Hns. destruct (Hsz Hns) as [Hns0 Hne]. rewrite Ec.
    destruct (decide (sm_kind x = CloseAll)) as [Ea|Ea].
    + exfalso. apply Hne. destruct (H12 _ _ Hz Ha Hns0) as [_ Hpj], (H12 _ _ Hx Ea Hs) as [_ Hpi]. congruence.
    + rewrite Epr. destruct (Hkeep Ea) as (-> & -> & _). by eapply H12.
Qed.

(** A mutation is called, under a new address: the tail was the last. *)
Lemma chain_new g i x g' :
  chain_ok g -> (mg_next g <= i)%nat -> is_settled x = false -> is_waiting x = true -> sm_previous x = mg_tail g ->
  mg_mutations g' = <[i := x]> (mg_mutations g) -> mg_tail g' = Some i -> (i < mg_next g')%nat ->
  (forall r m, mg_reservations g !! r = Some m -> mg_reservations g' !! r = Some m) ->
  (forall r m, mg_reservations g' !! r = Some m -> (r < mg_next g')%nat) ->
  (forall m, reservation_of (sm_kind x) = Some m -> exists r, sm_reservation x = Some r /\ mg_reservations g' !! r = Some m) ->
  (forall r, sm_reservation x = Some r -> (mg_next g <= r < mg_next g')%nat) ->
  mg_closing g = false ->
  (sm_kind x <> CloseAll -> mg_closing g' = false /\ mg_closePromise g' = None /\ mg_closed g' = false) ->
  (sm_kind x = CloseAll -> mg_closing g' = true /\ mg_closePromise g' = Some i /\ mg_closed g' = false) ->
  chain_ok g'.
Proof.
  intros [H1' H2' H3' H4 H5 H6 Hwt H7 H8 H9 H10 H11 H12] Hi Hs Hw Ep Em Et Hn Hr Hrf Hown Hfresh Hcl Hk Hka.
  assert (forall j z, mg_mutations g !! j = Some z -> (j < i)%nat) as Hlt by (intros j z Hz; pose proof (H1' _ _ Hz); lia).
  assert (forall j z, mg_mutations g' !! j = Some z -> j = i /\ z = x \/ j <> i /\ mg_mutations g !! j = Some z) as Hl.
  { intros j z. rewrite Em. destruct (decide (i = j)) as [<-|Hne].
    - rewrite lookup_insert_eq. intros [= <-]. by left.
    - rewrite lookup_insert_ne by done. by right. }
  assert (forall j, is_Some (mg_mutations g !! j) -> is_Some (mg_mutations g' !! j)) as Hin.
  { intros j [z Hz]. rewrite Em, lookup_insert_ne; [eauto|]. intros ->. pose proof (Hlt _ _ Hz). lia. }
  split.
  - intros j z [[-> ->]|[_ Hz]]%Hl; [done|]. pose proof (Hlt _ _ Hz). lia.
  - exact Hrf.
  - intros j z r [[-> ->]|[_ Hz]]%Hl Hzr; [by apply Hfresh|]. pose proof (H3' _ _ _ Hz Hzr). lia.
  - intros j z [[-> ->]|[_ Hz]]%Hl; exists i; (split; [done|]); [lia|]. pose proof (Hlt _ _ Hz). lia.
  - rewrite Et. intros t [= <-]. rewrite Em, lookup_insert_eq. eauto.
  - intros j z k w Hz Hw' Hjk. apply Hl in Hz, Hw'. destruct Hz as [[-> ->]|[_ Hz]], Hw' as [[-> ->]|[Hne Hw']]; try lia.
    + destruct (H4 _ _ Hw') as (t & Ht & Hle). exists t. rewrite Ep. split; [done|]. destruct (H5 t Ht) as [v Hv]. pose proof (Hlt _ _ Hv).
      split; [lia|]. apply Hin. by exists v.
    + pose proof (Hlt _ _ Hz). lia.
    + destruct (H6 _ _ _ _ Hz Hw' Hjk) as (p & ? & ? & ?). exists p. auto.
  - intros j z q [[-> ->]|[_ Hz]]%Hl Hq; [|destruct (Hwt _ _ _ Hz Hq); auto]. rewrite Ep in Hq. destruct (H5 _ Hq) as [v Hv].
    split; [by eapply Hlt|]. apply Hin. by exists v.
  - intros j z k w Hz Hw' Hjk Hnw. apply Hl in Hz, Hw'. destruct Hz as [[-> ->]|[_ Hz]]; [congruence|].
    destruct Hw' as [[-> ->]|[_ Hw']]; [pose proof (Hlt _ _ Hz); lia|]. exact (H7 _ _ _ _ Hz Hw' Hjk Hnw).
  - intros j z m [[-> ->]|[_ Hz]]%Hl Hns Hm; [by apply Hown|]. destruct (H8 _ _ _ Hz Hns Hm) as (r & ? & ?). eauto.
  - intros j z k w r Hz Hw' Hzr Hwr. apply Hl in Hz, Hw'. destruct Hz as [[-> ->]|[_ Hz]], Hw' as [[-> ->]|[_ Hw']]; try done.
    + pose proof (Hfresh _ Hzr). pose proof (H3' _ _ _ Hw' Hwr). lia.
    + pose proof (Hfresh _ Hwr). pose proof (H3' _ _ _ Hz Hzr). lia.
    + by eapply H9.
  - intros Hc. destruct (decide (sm_kind x = CloseAll)) as [Ea|Ea]; [|by destruct (Hk Ea) as (E & _); rewrite E in Hc].
    destruct (Hka Ea) as (_ & Hp & Hd). exists i, x. rewrite Em, lookup_insert_eq, Hd. done.
  - intros Hc. destruct (decide (sm_kind x = CloseAll)) as [Ea|Ea]; [by destruct (Hka Ea) as (E & _); rewrite E in Hc|]. by destruct (Hk Ea) as (_ & ? & ?).
  - intros j z [[-> ->]|[_ Hz]]%Hl Ha Hns; [by destruct (Hka Ha) as (? & ? & _)|]. destruct (H12 _ _ Hz Ha Hns). congruence.
Qed.

Definition called (tail reservation : option nat) (kind : mutation_kind) : structure_mutation :=
  {| sm_kind := kind; sm_reservation := reservation; sm_previous := tail; sm_phase := MWaiting; sm_movers := []; sm_diskMove := None |}.

Lemma inactive_false g : inactive g = false -> mg_closing g = false /\ mg_closed g = false.
Proof. unfold inactive. intros [? ?]%orb_false_iff. done. Qed.

Lemma chain_reserved g m kind : chain_ok g -> kind <> CloseAll -> reservation_of kind = Some m -> chain_ok (reserved_mutation g m kind).
Proof.
  intros Hc Hk Hm. unfold reserved_mutation. destruct (inactive g) eqn:Ei; [done|]. apply inactive_false in Ei as [Ei Ed].
  cbn [createPathReservation]. eapply (chain_new g (S (mg_next g)) (called (mg_tail g) (Some (mg_next g)) kind)); unfold update; cbn; try done; try lia.
  - intros r m' Hr. rewrite lookup_insert_ne; [done|]. intros <-. pose proof (ch_res_fresh _ Hc _ _ Hr). lia.
  - intros r m' Hr. apply lookup_insert_Some in Hr as [[<- _]|[_ Hr]]; [lia|]. pose proof (ch_res_fresh _ Hc _ _ Hr). lia.
  - intros m' Hm'. rewrite Hm in Hm'. injection Hm' as <-. exists (mg_next g). by rewrite lookup_insert_eq.
  - intros r [= <-]. lia.
  - intros _. by destruct (ch_promise _ Hc Ei).
Qed.

Lemma chain_close g : chain_ok g -> chain_ok (call_close g).
Proof.
  intros Hc. unfold call_close. destruct (mg_closePromise g) eqn:Ep; [done|]. cbn [runStructureMutation].
  assert (mg_closing g = false) as Ecl.
  { destruct (mg_closing g) eqn:E; [|done]. destruct (ch_closing _ Hc E) as (i & x & _ & Hp & _). by rewrite Ep in Hp. }
  match goal with |- chain_ok ?g1 => set (g' := g1) end.
  assert (chain_parts g' = (<[mg_next g := called (mg_tail g) None CloseAll]> (mg_mutations g), mg_reservations g, Some (mg_next g), true, Some (mg_next g), mg_closed g)) as E by reflexivity.
  assert (mg_next g' = S (mg_next g)) as En by reflexivity. clearbody g'. unfold chain_parts in E. injection E as Em Er Et Ecl' Epr Ed.
  destruct (ch_promise _ Hc Ecl) as [_ Hd]. apply (chain_new g (mg_next g) (called (mg_tail g) None CloseAll)); rewrite ?Em, ?Er, ?Et, ?Ecl', ?Epr, ?Ed, ?En; try done.
  - lia.
  - intros r m Hr. pose proof (ch_res_fresh _ Hc _ _ Hr). lia.
Qed.
End props.
