(* ===== verification/SessionManagerTable.v ===== *)
(** The table of the manager: sessions that are in use are served under one path each, and the
    sessions of different paths write different files. *)
From S2P Require Import Prelude JsString Utf8 NodePath Json Sha256 SessionProtocol DocSession SessionManager SessionManagerProps.

Section table.
Context `{Yjs, FastDiff, JsonHost, Host}.
Context (root defaultContent : jstr).
Implicit Types (g : manager) (a b i j r : nat) (x y : structure_mutation) (l : list (jstr * nat)) (k p f t : jstr) (o : gmap nat session).

(** * The table as a list *)

Lemma sessions_get_elem l p a : sessions_get l p = Some a -> (p, a) ∈ l.
Proof.
  induction l as [|[q b] l IH]; [done|]. cbn. destruct (jeqb q p) eqn:E; [|by right; apply IH]. intros [= <-]. apply bool_decide_eq_true in E as ->. by left.
Qed.
Lemma sessions_get_None l p : sessions_get l p = None -> forall a, (p, a) ∉ l.
Proof.
  induction l as [|[q b] l IH]; [intros _ a Hin; by apply not_elem_of_nil in Hin|]. cbn. destruct (jeqb q p) eqn:E; [done|]. intros Hn a [Heq|Hin]%elem_of_cons.
  - injection Heq as -> ->. unfold jeqb in E. by rewrite bool_decide_eq_true_2 in E.
  - by eapply IH.
Qed.
Lemma table_keys_unique l k a b : NoDup l.*1 -> (k, a) ∈ l -> (k, b) ∈ l -> a = b.
Proof.
  induction l as [|[q c] l IH]; [intros _ Ha; by apply not_elem_of_nil in Ha|]. cbn. intros [Hq Hnd]%NoDup_cons [Ea|Ha]%elem_of_cons [Eb|Hb]%elem_of_cons.
  - congruence.
  - injection Ea as -> ->. destruct Hq. apply list_elem_of_fmap. by exists (q, b).
  - injection Eb as -> ->. destruct Hq. apply list_elem_of_fmap. by exists (q, a).
  - by apply IH.
Qed.
Lemma sessions_get_in l p a : NoDup l.*1 -> (p, a) ∈ l -> sessions_get l p = Some a.
Proof.
  intros Hnd Hin. destruct (sessions_get l p) as [b|] eqn:E; [|by destruct (sessions_get_None _ _ E a)].
  f_equal. apply sessions_get_elem in E. by eapply table_keys_unique.
Qed.

Lemma elem_filter (P : jstr * nat -> bool) l e : e ∈ List.filter P l <-> e ∈ l /\ P e = true.
Proof. rewrite !list_elem_of_In. apply filter_In. Qed.
Lemma NoDup_filter_keys (P : jstr * nat -> bool) l : NoDup l.*1 -> NoDup (List.filter P l).*1.
Proof.
  induction l as [|e l IH]; [done|]. cbn. intros [He Hnd]%NoDup_cons. destruct (P e); [|by apply IH]. cbn. constructor; [|by apply IH].
  rewrite list_elem_of_fmap. intros (e' & Heq & [He' _]%elem_filter). apply He. rewrite Heq. apply list_elem_of_fmap. eauto.
Qed.
Lemma elem_delete l p k b : (k, b) ∈ sessions_delete l p <-> k <> p /\ (k, b) ∈ l.
Proof. unfold sessions_delete. rewrite elem_filter. cbn. unfold jeqb. case_bool_decide; naive_solver. Qed.

Lemma elem_set l p a k b : NoDup l.*1 -> (k, b) ∈ sessions_set l p a <-> k = p /\ b = a \/ k <> p /\ (k, b) ∈ l.
Proof.
  induction l as [|[q c] l IH]; intros Hnd.
  - cbn. rewrite list_elem_of_singleton, elem_of_nil. naive_solver.
  - apply NoDup_cons in Hnd as [Hq Hnd]. cbn. unfold jeqb. case_bool_decide as E.
    + subst q. rewrite !elem_of_cons. split; [|naive_solver]. intros [Heq|Hin]; [left; naive_solver|]. right. split; [|auto].
      intros ->. apply Hq. apply list_elem_of_fmap. by exists (p, b).
    + rewrite !elem_of_cons, IH by done. split; [|naive_solver]. intros [Heq|[?|[? ?]]]; [right|naive_solver..]. injection Heq as -> ->. naive_solver.
Qed.
Lemma NoDup_set l p a : NoDup l.*1 -> NoDup (sessions_set l p a).*1.
Proof.
  induction l as [|[q c] l IH]; intros Hnd; [by apply NoDup_singleton|]. apply NoDup_cons in Hnd as [Hq Hnd]. cbn. unfold jeqb. case_bool_decide as E.
  - by constructor.
  - cbn. constructor; [|by apply IH]. rewrite list_elem_of_fmap. intros ([k b] & Hk & Hin). cbn in Hk. subst k. apply elem_set in Hin as [[? _]|[_ Hin]]; [done| |done].
    apply Hq. apply list_elem_of_fmap. by exists (q, b).
Qed.

(** * What a mutation that runs knows of the table *)

Definition deleted o a : bool := match o !! a with Some s => ss_deleted s | None => true end.

(** The session of path [p] is [a], unless it has left the table. *)
Definition serves l p a : Prop := forall k b, (k, b) ∈ l -> k = p -> b = a.
Definition only_at l a p p' : Prop := forall k b, (k, b) ∈ l -> b = a -> k = p \/ k = p'.

(** Neither folder is below the other. *)
Definition nested (f f' : jstr) : bool := in_folder f f' || in_folder f' f.

Record movers_ok (n : nat) l (fromFolder toFolder : jstr) (vs : list mover) : Prop := {
  mo_shape : forall v, v ∈ vs -> exists rest, mv_from v = fromFolder ++ js "/" ++ rest /\ mv_to v = toFolder ++ js "/" ++ rest;
  mo_sessions : NoDup (map mv_session vs);
  mo_fresh : forall v, v ∈ vs -> (mv_session v < n)%nat;
  mo_paths : forall v w, v ∈ vs -> w ∈ vs -> mv_from v = mv_from w -> mv_session v = mv_session w;
  mo_serves : forall v, v ∈ vs -> serves l (mv_from v) (mv_session v);
  mo_only : forall v, v ∈ vs -> only_at l (mv_session v) (mv_from v) (mv_to v);
  mo_free : forall v, v ∈ vs -> serves l (mv_to v) (mv_session v)
}.

(** What it knows in each phase. *)
Definition knows (n : nat) l (used : nat -> bool) (phase : mutation_phase) (kind : mutation_kind) (vs : list mover) (d : option bool) : Prop :=
  match phase, kind with
  | MStableWaits a, StablePath p | MStable (Some a), StablePath p => serves l p a
  | MStat (Some a), MoveSession f _ => serves l f a /\ only_at l a f f /\ (a < n)%nat
  | MStat None, MoveSession f _ => forall b, (f, b) ∉ l
  | MMoving a _, MoveSession f t => serves l f a /\ serves l t a /\ only_at l a f t /\ (a < n)%nat
  | MPreparing es, MoveSubtree f t => nested f t = false -> movers_ok n l f t (map (mover_of f t) es)
  | MCompleting, MoveSubtree f t => (nested f t = true -> d <> Some true) /\ (nested f t = false -> movers_ok n l f t vs)
  | MDeleting a p _ _, DeleteSession q => p = q /\ serves l p a
  | MDeleting a p rest _, DeleteSubtree f => serves l p a /\ Forall (fun q => in_folder f q = true) (p :: rest)
  | MDeleteDisk rest, DeleteSubtree f => Forall (fun q => in_folder f q = true) rest
  | MClosing a, CloseIdle p => (forall b, (p, b) ∉ l) /\ (forall k, (k, a) ∉ l) /\ used a = false /\ (a < n)%nat
  | _, _ => True
  end.

(** Movers are there from the preparation to the end, and move when the disk has. *)
Definition mutation_ok (n : nat) l (used : nat -> bool) x : Prop :=
  (sm_diskMove x <> Some true -> forall v, v ∈ sm_movers x -> mv_rebound v = false) /\
  match sm_phase x with
  | MCompleting => True
  | MSettled _ => sm_movers x <> [] -> sm_diskMove x <> Some true
  | _ => sm_movers x = [] /\ sm_diskMove x = None
  end /\
  knows n l used (sm_phase x) (sm_kind x) (sm_movers x) (sm_diskMove x).

(** Phases only go with their kinds. *)
Definition fits (phase : mutation_phase) (kind : mutation_kind) : Prop :=
  match phase, kind with
  | (MWaiting | MSettled _), _ => True
  | (MStableWaits _ | MStable _), StablePath _ => True
  | (MStat _ | MDisk), MoveSession _ _ | MMoving _ _, MoveSession _ _ => True
  | (MStat None | MDisk | MPreparing _ | MCompleting), MoveSubtree _ _ => True
  | (MDisk | MDeleting _ _ [] true), DeleteSession _ => True
  | (MDisk | MDeleting _ _ _ _ | MDeleteDisk _), DeleteSubtree _ => True
  | MClosing _, CloseIdle _ => True
  | (MCloseWaits _ | MCloseOps _ | MCloseSessions _ _), CloseAll => True
  | _, _ => False
  end.
Definition phase_of_kind x : Prop := fits (sm_phase x) (sm_kind x).

Lemma mutation_ok_inactive n l used n' l' used' x : active x = false -> mutation_ok n l used x -> mutation_ok n' l' used' x.
Proof. unfold active, mutation_ok, knows, is_waiting, is_settled. destruct (sm_phase x); try done; intros _ (? & ? & _); split_and!; try done; by destruct (sm_kind x). Qed.

(** Sessions that leave the table, or are used less. *)
Lemma serves_mono l l' p a : (forall e, e ∈ l' -> e ∈ l) -> serves l p a -> serves l' p a.
Proof. intros Hl Hs k b Hin. by apply (Hs k b), Hl. Qed.
Lemma only_mono l l' a p p' : (forall e, e ∈ l' -> e ∈ l) -> only_at l a p p' -> only_at l' a p p'.
Proof. intros Hl Hs k b Hin. by apply (Hs k b), Hl. Qed.

Lemma movers_mono n n' l l' f t vs : (n <= n')%nat -> (forall e, e ∈ l' -> e ∈ l) -> movers_ok n l f t vs -> movers_ok n' l' f t vs.
Proof.
  intros Hn Hl [Hsh Hs Hfr Hp Hse Hon Hf]. split; try done; intros v Hv.
  - pose proof (Hfr v Hv). lia.
  - by eapply serves_mono, Hse.
  - by eapply only_mono, Hon.
  - by eapply serves_mono, Hf.
Qed.

Lemma mutation_ok_mono n n' l l' used used' x :
  (n <= n')%nat -> (forall e, e ∈ l' -> e ∈ l) -> (forall a, used' a = true -> used a = true) -> mutation_ok n l used x -> mutation_ok n' l' used' x.
Proof.
  intros Hn Hl Hu (Hd & Hm & Hk). split_and!; try done. unfold knows in *.
  destruct (sm_phase x) as [|a|[a|]|[a|]| |a rb|es| |a p rest d|rest|a|c|ops|pe rj|th], (sm_kind x) as [p0|f t|f t|p0|f|p0|]; try done.
  - by eapply serves_mono.
  - by eapply serves_mono.
  - destruct Hk as (? & ? & ?). split_and!; [by eapply serves_mono|by eapply only_mono|lia].
  - intros b Hb. by apply (Hk b), Hl.
  - destruct Hk as (? & ? & ? & ?). split_and!; [by eapply serves_mono|by eapply serves_mono|by eapply only_mono|lia].
  - intros Hn'. by eapply movers_mono, Hk.
  - destruct Hk as [? Hk]. split; [done|]. intros Hn'. by eapply movers_mono, Hk.
  - destruct Hk as [? ?]. split; [done|by eapply serves_mono].
  - destruct Hk as [? ?]. split; [by eapply serves_mono|done].
  - destruct Hk as (Hp & Ha & Hus & ?). split_and!; [intros b Hb; by apply (Hp b), Hl|intros k Hb; by apply (Ha k), Hl| |lia].
    destruct (used' a) eqn:E; [|done]. by rewrite (Hu _ E) in Hus.
Qed.

(** A session that comes into being at a path that is not reserved. *)
Lemma serves_add l k a p b : k <> p -> serves l p b -> serves ((k, a) :: l) p b.
Proof. intros Hne Hs q c [Heq|Hin]%elem_of_cons; [|by apply (Hs q c)]. injection Heq as -> ->. by intros ->. Qed.
Lemma only_add l k a b p p' : a <> b -> only_at l b p p' -> only_at ((k, a) :: l) b p p'.
Proof. intros Hne Hs q c [Heq|Hin]%elem_of_cons; [|by apply (Hs q c)]. injection Heq as -> ->. by intros ->. Qed.

Lemma in_folder_app f rest : in_folder f (f ++ js "/" ++ rest) = true.
Proof. unfold in_folder. rewrite app_assoc. apply starts_with_app. Qed.

Lemma movers_add n l k a f t vs :
  (n <= a)%nat -> matches (Subtrees [f; t]) k = false -> movers_ok n l f t vs -> movers_ok (S a) ((k, a) :: l) f t vs.
Proof.
  intros Ha Hk [Hsh Hs Hfr Hp Hse Hon Hf]. cbn [matches existsb] in Hk. rewrite !orb_false_iff in Hk. destruct Hk as ((_ & Hkf) & (_ & Hkt) & _).
  assert (forall v, v ∈ vs -> k <> mv_from v /\ k <> mv_to v) as Hne.
  { intros v Hv. destruct (Hsh v Hv) as (rest & -> & ->). split; intros ->; by rewrite in_folder_app in *. }
  split; try done; intros v Hv.
  - pose proof (Hfr v Hv). lia.
  - apply serves_add; [by apply Hne|by apply Hse].
  - apply only_add; [pose proof (Hfr v Hv); lia|by apply Hon].
  - apply serves_add; [by apply Hne|by apply Hf].
Qed.

Lemma mutation_ok_add n l used used' k a x :
  (n <= a)%nat -> (forall b, (b < n)%nat -> used' b = true -> used b = true) ->
  (forall m, reservation_of (sm_kind x) = Some m -> matches m k = false) ->
  phase_of_kind x -> mutation_ok n l used x -> mutation_ok (S a) ((k, a) :: l) used' x.
Proof.
  intros Ha Hu Hr Hph (Hd & Hm & Hk). split_and!; try done. unfold phase_of_kind, fits, knows in *.
  assert (forall p, matches (Exact [p]) k = false -> k <> p) as Hone.
  { intros p Hf ->. cbn [matches] in Hf. rewrite bool_decide_eq_true_2 in Hf by (by left). done. }
  assert (forall p q, matches (Exact [p; q]) k = false -> k <> p /\ k <> q) as Htwo.
  { intros p q Hf. cbn [matches] in Hf. apply bool_decide_eq_false_1 in Hf. rewrite !elem_of_cons in Hf. split; intros ->; apply Hf; auto. }
  destruct (sm_phase x) as [|c|[c|]|[c|]| |c rb|es| |c p rest d|rest|c|cw|ops|pe rj|th], (sm_kind x) as [p0|f t|f t|p0|f|p0|]; try done;
    pose proof (Hr _ eq_refl) as Hkr.
  - by apply serves_add; [apply Hone|].
  - by apply serves_add; [apply Hone|].
  - apply Htwo in Hkr as [? ?]. destruct Hk as (? & ? & ?). split_and!; [by apply serves_add|apply only_add; [lia|done]|lia].
  - apply Htwo in Hkr as [? ?]. intros b [Heq|Hin]%elem_of_cons; [by injection Heq as -> ->|by apply (Hk b)].
  - apply Htwo in Hkr as [? ?]. destruct Hk as (? & ? & ? & ?). split_and!; [by apply serves_add|by apply serves_add|apply only_add; [lia|done]|lia].
  - intros Hn. by apply (movers_add n), Hk.
  - destruct Hk as [? Hk]. split; [done|]. intros Hn. by apply (movers_add n), Hk.
  - destruct Hk as [-> Hk]. split; [done|]. apply serves_add; [by apply Hone|done].
  - destruct Hk as [Hk Hf]. split; [|done]. apply serves_add; [|done]. apply Forall_cons in Hf as [Hf _]. cbn [matches existsb] in Hkr.
    rewrite !orb_false_iff in Hkr. intros ->. destruct Hkr as [[_ Hkr] _]. by rewrite Hf in Hkr.
  - destruct Hk as (Hp & Hc & Hus & ?). split_and!; [|..|lia].
    + intros b [Heq|Hin]%elem_of_cons; [|by apply (Hp b)]. injection Heq as -> ->. by apply (Hone k).
    + intros q [Heq|Hin]%elem_of_cons; [injection Heq as -> ->; lia|by apply (Hc q)].
    + destruct (used' c) eqn:E; [|done]. by rewrite (Hu c) in Hus.
Qed.

(** * The invariant of the table *)

(** The session writes the file of path [k]. *)
Definition own_path (s : session) k : Prop := ss_eventPath s = k /\ ss_filePath s = toFilePath root k.

(** The session already writes the file of path [k], but may be in the table under the path it
    moves from. *)
Definition rebinds x a k : Prop :=
  (sm_phase x = MMoving a true /\ exists f, sm_kind x = MoveSession f k) \/
  (exists v, v ∈ sm_movers x /\ mv_session v = a /\ mv_rebound v = true /\ mv_to v = k).

(** So does one that is being closed, and is in the table no more. *)
Definition owns x a k : Prop := rebinds x a k \/ sm_phase x = MClosing a /\ sm_kind x = CloseIdle k.

Record table_ok g : Prop := {
  tb_keys : NoDup (mg_sessions g).*1;
  tb_values : forall k k' a, (k, a) ∈ mg_sessions g -> (k', a) ∈ mg_sessions g -> k = k';
  tb_entries : forall k a, (k, a) ∈ mg_sessions g -> is_Some (mg_objects g !! a);
  tb_objects : forall a s, mg_objects g !! a = Some s -> (a < mg_next g)%nat;
  tb_used : forall a, isSessionInUse g a = true -> mg_closed g = true \/ deleted (mg_objects g) a = true \/ exists k, (k, a) ∈ mg_sessions g;
  tb_mutations : forall i x, mg_mutations g !! i = Some x -> mutation_ok (mg_next g) (mg_sessions g) (isSessionInUse g) x;
  tb_phases : forall i x, mg_mutations g !! i = Some x -> phase_of_kind x;
  tb_paths : forall k a s, (k, a) ∈ mg_sessions g -> mg_objects g !! a = Some s ->
    own_path s k \/ exists i x k', mg_mutations g !! i = Some x /\ rebinds x a k';
  tb_owns : forall i x a k, mg_mutations g !! i = Some x -> owns x a k -> exists s, mg_objects g !! a = Some s /\ own_path s k
}.

(** Sessions that do what they do: their paths stay, and one that is deleted stays so. *)
Definition like (s s' : session) : Prop :=
  ss_eventPath s' = ss_eventPath s /\ ss_filePath s' = ss_filePath s /\ (ss_deleted s = true -> ss_deleted s' = true).
Definition objects_like o o' : Prop :=
  (forall b s', o' !! b = Some s' -> exists s, o !! b = Some s /\ like s s') /\ (forall b, is_Some (o !! b) -> is_Some (o' !! b)).

Lemma like_refl s : like s s.
Proof. done. Qed.
Lemma objects_like_refl o : objects_like o o.
Proof. split; [|done]. intros b s Hs. exists s. split; [done|apply like_refl]. Qed.
Lemma objects_like_alter o (f : session -> session) a : (forall s, like s (f s)) -> objects_like o (alter f a o).
Proof.
  intros Hf. split.
  - intros b s'. destruct (decide (a = b)) as [<-|Hne].
    + rewrite lookup_alter_eq. destruct (o !! a) as [s|]; [|done]. intros [= <-]. eauto.
    + rewrite lookup_alter_ne by done. intros Hs. exists s'. split; [done|apply like_refl].
  - intros b [s Hs]. destruct (decide (a = b)) as [<-|Hne]; [rewrite lookup_alter_eq, Hs|rewrite lookup_alter_ne by done]; eauto.
Qed.
Lemma objects_like_deleted o o' a : objects_like o o' -> is_Some (o !! a) -> deleted o a = true -> deleted o' a = true.
Proof.
  intros [Hl Hi] Ha. unfold deleted. destruct (Hi _ Ha) as [s' Hs']. destruct (Hl _ _ Hs') as (s & -> & _ & _ & Hd). by rewrite Hs'.
Qed.
Lemma own_path_like s s' k : like s s' -> own_path s' k <-> own_path s k.
Proof. unfold own_path. intros (-> & -> & _). done. Qed.

Lemma table_general g g' P :
  table_ok g -> objects_like (mg_objects g) (mg_objects g') -> mg_sessions g' = List.filter P (mg_sessions g) ->
  (forall k a, (k, a) ∈ mg_sessions g -> P (k, a) = false -> isSessionInUse g' a = true -> mg_closed g' = true \/ deleted (mg_objects g') a = true) ->
  (forall a, isSessionInUse g' a = true -> isSessionInUse g a = true) -> (mg_closed g = true -> mg_closed g' = true) -> (mg_next g <= mg_next g')%nat ->
  (forall i x, mg_mutations g' !! i = Some x -> mutation_ok (mg_next g') (mg_sessions g') (isSessionInUse g') x /\ phase_of_kind x) ->
  (forall i x k a k' s, mg_mutations g !! i = Some x -> (k, a) ∈ mg_sessions g' -> mg_objects g !! a = Some s -> rebinds x a k' ->
    own_path s k \/ exists i' x' k'', mg_mutations g' !! i' = Some x' /\ rebinds x' a k'') ->
  (forall i x a k, mg_mutations g' !! i = Some x -> owns x a k ->
    (exists i' y, mg_mutations g !! i' = Some y /\ owns y a k) \/ exists s, mg_objects g !! a = Some s /\ own_path s k) ->
  table_ok g'.
Proof.
  intros [Hk Hv He Ho Hu Hm Hph Hp Hc] Hlike El Hrem Hus Hcl Hn Hmut Hmov Hclose.
  assert (forall k a, (k, a) ∈ mg_sessions g' -> (k, a) ∈ mg_sessions g) as Hin by (intros k a; rewrite El, elem_filter; by intros [? _]).
  pose proof Hlike as [Hl Hi]. split.
  - rewrite El. by apply NoDup_filter_keys.
  - intros k k' a Ha%Hin Ha'%Hin. by eapply Hv.
  - intros k a Ha%Hin. by eapply Hi, He.
  - intros a s' Hs'. destruct (Hl _ _ Hs') as (s & Hs & _). pose proof (Ho _ _ Hs). lia.
  - intros a Ha. destruct (Hu a (Hus a Ha)) as [Hd|[Hd|[k Hka]]]; [left; auto|..].
    + right. left. destruct (mg_objects g !! a) as [s|] eqn:Es; [by eapply objects_like_deleted|].
      unfold deleted. destruct (mg_objects g' !! a) as [s'|] eqn:Es'; [|done]. destruct (Hl _ _ Es') as (s & Hs & _). congruence.
    + destruct (P (k, a)) eqn:E; [right; right; exists k; rewrite El, elem_filter; done|]. destruct (Hrem _ _ Hka E Ha); auto.
  - intros i x Hx. by apply (Hmut i).
  - intros i x Hx. by apply (Hmut i).
  - intros k a s' Hka Hs'. destruct (Hl _ _ Hs') as (s & Hs & Hsl). rewrite (own_path_like _ _ _ Hsl).
    destruct (Hp _ _ _ (Hin _ _ Hka) Hs) as [|(i & x & k' & Hx & Hr)]; [by left|]. by destruct (Hmov _ _ _ _ _ _ Hx Hka Hs Hr) as [|?]; [left|right].
  - intros i x a k Hx Ho'. assert (exists s, mg_objects g !! a = Some s /\ own_path s k) as (s & Hs & Hown).
    { destruct (Hclose _ _ _ _ Hx Ho') as [(i' & y & Hy & Hoy)|]; [by eapply Hc|done]. }
    destruct (Hi a) as [s' Hs']; [eauto|]. destruct (Hl _ _ Hs') as (s0 & Hs0 & Hsl). rewrite Hs in Hs0. injection Hs0 as <-.
    exists s'. split; [done|]. by apply (own_path_like _ _ _ Hsl).
Qed.

(** Nothing but timers, calls and counts changes, and sessions that are not in use leave. *)
Lemma table_less g g' P :
  table_ok g -> objects_like (mg_objects g) (mg_objects g') -> mg_sessions g' = List.filter P (mg_sessions g) ->
  (forall k a, (k, a) ∈ mg_sessions g -> P (k, a) = false -> isSessionInUse g' a = true -> deleted (mg_objects g') a = true) ->
  (forall a, isSessionInUse g' a = true -> isSessionInUse g a = true) -> mg_closed g' = mg_closed g -> (mg_next g <= mg_next g')%nat ->
  mg_mutations g' = mg_mutations g -> table_ok g'.
Proof.
  intros Ht Hlike El Hrem Hus Hcl Hn Em. eapply table_general; try done.
  - intros k a Hka HP Ha. right. by eapply Hrem.
  - by rewrite Hcl.
  - rewrite Em. intros i x Hx. split; [|by eapply tb_phases]. eapply mutation_ok_mono; [exact Hn| |exact Hus|by eapply tb_mutations].
    rewrite El. by intros [k a] [? _]%elem_filter.
  - rewrite Em. eauto 10.
  - rewrite Em. eauto 10.
Qed.

Lemma filter_all l : List.filter (fun _ => true) l = l.
Proof. induction l as [|e l IH]; [done|]. cbn. by rewrite IH. Qed.

Lemma table_same g g' :
  table_ok g -> mg_objects g' = mg_objects g -> mg_sessions g' = mg_sessions g -> (forall a, isSessionInUse g' a = true -> isSessionInUse g a = true) ->
  mg_closed g' = mg_closed g -> (mg_next g <= mg_next g')%nat -> mg_mutations g' = mg_mutations g -> table_ok g'.
Proof.
  intros Ht Eo El Hu Hcl Hn Em. eapply (table_less g g' (fun _ => true)); try done; [rewrite Eo; apply objects_like_refl|by rewrite filter_all].
Qed.
End table.
