(* ===== verification/SessionManagerSteps.v ===== *)
(** Every step of the manager keeps the chain of mutations and the table. *)
From S2P Require Import Prelude JsString Utf8 NodePath Json Sha256 SessionProtocol DocSession SessionManager SessionManagerProps SessionManagerTable.

Section steps.
Context `{Yjs, FastDiff, JsonHost, Host}.
Context (root defaultContent : jstr).
Implicit Types (g : manager) (a b i j r : nat) (x y : structure_mutation) (l : list (jstr * nat)) (k p f t : jstr) (o : gmap nat session).

Abbreviation table_ok := (SessionManagerTable.table_ok root).
Definition manager_ok g : Prop := chain_ok g /\ table_ok g.

(** * Timers and counts *)

(** Only timers, clients, operations and calls change. *)
Definition core g := (mg_objects g, mg_sessions g, mg_clientCounts g, mg_operationCounts g, mg_reservations g, mg_mutations g, mg_tail g,
  mg_closePromise g, mg_closing g, mg_closed g).

Lemma core_ok g g' : core g' = core g -> (mg_next g <= mg_next g')%nat -> manager_ok g -> manager_ok g'.
Proof.
  unfold core. intros E Hn [Hc Ht]. injection E as Eo El Ec Eop Er Em Et Ep Ecl Ed. split.
  - apply (chain_same g); [|done|done]. unfold chain_parts. congruence.
  - apply (table_same root g); try done. intros a. unfold isSessionInUse, hasActiveOperations. by rewrite Ec, Eop.
Qed.

Lemma cancel_core g p : core (cancelIdleClose g p) = core g /\ mg_next (cancelIdleClose g p) = mg_next g.
Proof. unfold cancelIdleClose. by destruct (mg_idleCloseTimers g !! p). Qed.
Lemma cancel_ok g p : manager_ok g -> manager_ok (cancelIdleClose g p).
Proof. destruct (cancel_core g p) as [E En]. apply core_ok; [done|lia]. Qed.

(** Sessions that leave the table while they are not in use, or are deleted. *)
Lemma filter_ok g P :
  manager_ok g -> (forall k a, (k, a) ∈ mg_sessions g -> P (k, a) = false -> isSessionInUse g a = true -> deleted (mg_objects g) a = true) ->
  manager_ok (g <| mg_sessions := List.filter P (mg_sessions g) |>).
Proof.
  intros [Hc Ht] Hrem. split; [by apply (chain_same g)|]. apply (table_less root g _ P); try done. apply objects_like_refl.
Qed.

Lemma schedule_ok g p : manager_ok g -> manager_ok (scheduleIdleClose g p).
Proof.
  intros Hok. unfold scheduleIdleClose. destruct (inactive g); [done|]. destruct (get_session g p) as [a|] eqn:Ea; [|done].
  destruct (isSessionInUse g a) eqn:Eu; [done|]. destruct (cancel_core g p) as [E En]. pose proof (cancel_ok g p Hok) as Hok1.
  assert (mg_sessions (cancelIdleClose g p) = mg_sessions g) as El by (unfold core in E; congruence).
  assert (forall b, isSessionInUse (cancelIdleClose g p) b = isSessionInUse g b) as Hu.
  { intros b. unfold core in E. injection E as _ _ Ec Eo _ _ _ _ _ _. unfold isSessionInUse, hasActiveOperations. by rewrite Ec, Eo. }
  revert Hok1 El Hu. generalize (cancelIdleClose g p). intros g1 Hok1 El Hu. destruct (negb (object_opened g1 a)).
  - apply filter_ok; [done|]. intros k b Hkb HP. cbn in HP. apply negb_false_iff, bool_decide_eq_true_1 in HP as ->. rewrite Hu.
    rewrite El in Hkb. destruct Hok as [_ Ht]. rewrite (sessions_get_in _ _ _ (tb_keys _ _ Ht) Hkb : get_session g p = Some b) in Ea.
    injection Ea as ->. by rewrite Eu.
  - apply (core_ok g1); [done|cbn; lia|done].
Qed.

(** * Sessions that come into being *)

Lemma reserved_by g i x m k :
  chain_ok g -> mg_mutations g !! i = Some x -> active x = true -> reservation_of (sm_kind x) = Some m -> hasPathReservation g k = false -> matches m k = false.
Proof.
  intros Hc Hx Ha Hm Hp. unfold active in Ha. apply andb_true_iff in Ha as [_ Hs%negb_true_iff].
  destruct (ch_reserved _ Hc _ _ _ Hx Hs Hm) as (r & _ & Hr). unfold hasPathReservation in Hp.
  destruct (matches m k) eqn:E; [|done]. exfalso. assert (existsb (fun e : nat * path_matcher => matches e.2 k) (map_to_list (mg_reservations g)) = true) as Ht; [|congruence].
  apply existsb_exists. exists (r, m). split; [|done]. apply list_elem_of_In. by apply elem_of_map_to_list.
Qed.

Lemma add_ok g k (s : session) :
  manager_ok g -> hasPathReservation g k = false -> get_session g k = None -> own_path root s k ->
  manager_ok (g <| mg_next := S (mg_next g) |> <| mg_objects := <[mg_next g := s]> (mg_objects g) |>
                <| mg_sessions := sessions_set (mg_sessions g) k (mg_next g) |>).
Proof.
  intros [Hc Ht] Hp Hn Hs. split; [apply (chain_same g); [done|cbn; lia|done]|]. destruct Ht as [Hk Hv He Ho Hu Hm Hph Hpa Hcl].
  assert (forall a, (k, a) ∉ mg_sessions g) as Hnk by by apply sessions_get_None.
  assert (forall q b, (q, b) ∈ sessions_set (mg_sessions g) k (mg_next g) -> q = k /\ b = mg_next g \/ q <> k /\ b <> mg_next g /\ (q, b) ∈ mg_sessions g) as Hin.
  { intros q b [[-> ->]|[Hq Hb]]%elem_set; [by left| |done]. right. split_and!; [done| |done]. intros ->. destruct (He _ _ Hb) as [z Hz]. pose proof (Ho _ _ Hz). lia. }
  assert (forall b, b <> mg_next g -> <[mg_next g := s]> (mg_objects g) !! b = mg_objects g !! b) as Hob by (intros b Hb; by rewrite lookup_insert_ne).
  split; cbn [mg_sessions mg_objects mg_next mg_mutations mg_closed update].
  - by apply NoDup_set.
  - intros q q' b [[-> ?]|(? & ? & Hb)]%Hin [[-> ?]|(? & ? & Hb')]%Hin; try done. by eapply Hv.
  - intros q b [[-> ->]|(? & Hne & Hb)]%Hin; unfold update; cbn; [rewrite lookup_insert_eq; eauto|]. rewrite lookup_insert_ne by done. by eapply He.
  - intros b z. unfold update. cbn. destruct (decide (mg_next g = b)) as [<-|Hne]; [lia|]. rewrite lookup_insert_ne by done. intros Hz. pose proof (Ho _ _ Hz). lia.
  - intros b Hb. destruct (Hu b Hb) as [Hd|[Hd|[q Hq]]]; [by left|..].
    + destruct (decide (b = mg_next g)) as [->|Hne]; [right; right; exists k; apply elem_set; auto|]. right. left. unfold deleted, update. cbn. by rewrite Hob.
    + right. right. exists q. apply elem_set; [done|]. right. split; [|done]. intros ->. by apply (Hnk b).
  - intros i x Hx. destruct (active x) eqn:Ea; [|eapply mutation_ok_inactive; [done|by eapply Hm]].
    eapply (mutation_ok_mono (S (mg_next g)) _ ((k, mg_next g) :: mg_sessions g) _ (isSessionInUse g));
      [unfold update; cbn; lia| |intros b Hb; exact Hb|].
    + intros [q b]. unfold update. cbn. intros [[-> ->]|(_ & _ & Hb)]%Hin; [by left|by right].
    + eapply mutation_ok_add; [done| | |by eapply Hph|by eapply Hm]; [done|]. intros m Hmm. by eapply reserved_by.
  - exact Hph.
  - intros q b z Hqb. unfold update in *. cbn in *. apply Hin in Hqb as [[-> ->]|(Hq & Hne & Hb)].
    + rewrite lookup_insert_eq. intros [= <-]. by left.
    + rewrite lookup_insert_ne by done. by apply Hpa.
  - intros i x a p Hx Hox. destruct (Hcl _ _ _ _ Hx Hox) as (z & Hz & Hoz). exists z. split; [|done]. unfold update. cbn.
    rewrite lookup_insert_ne; [done|]. pose proof (Ho _ _ Hz). lia.
Qed.

Lemma getSession_ok g k override g' (res : result manager_error nat) : getSession root defaultContent g k override = (g', res) -> manager_ok g ->
  manager_ok g' /\ forall a, res = Ok a -> (k, a) ∈ mg_sessions g'.
Proof.
  unfold getSession. intros Eg Hok. destruct (inactive g); [by injection Eg as <- <-|]. destruct (hasPathReservation g k) eqn:Er; [by injection Eg as <- <-|].
  destruct (cancel_core g k) as [E En]. pose proof (cancel_ok g k Hok) as Hok1.
  assert (hasPathReservation (cancelIdleClose g k) k = false) as Er1 by (unfold hasPathReservation, core in *; congruence).
  revert Eg Hok1 Er1. generalize (cancelIdleClose g k). intros g1 Eg Hok1 Er1. destruct (get_session g1 k) as [a|] eqn:Ea; injection Eg as <- <-.
  - split; [done|]. intros b [= <-]. by apply sessions_get_elem.
  - split; [by apply add_ok|]. intros b [= <-]. cbn. unfold update. cbn. apply elem_set; [by destruct Hok1 as [_ []]|auto].
Qed.

(** * Clients and operations *)

Lemma count_used (c : gmap nat Z) a b : (0 <? default 0 (count_up c a !! b))%Z = true -> (0 <? default 0 (c !! b))%Z = true \/ b = a.
Proof. unfold count_up. destruct (decide (a = b)) as [<-|Hne]; [by right|]. rewrite lookup_insert_ne by done. by left. Qed.

Lemma uncount_used (c : gmap nat Z) a b : (0 <? default 0 (uncount c a !! b))%Z = true -> (0 <? default 0 (c !! b))%Z = true.
Proof.
  unfold uncount. destruct (decide (a = b)) as [<-|Hne].
  - case_match eqn:E; [|by rewrite lookup_delete_eq]. rewrite lookup_insert_eq. cbn. destruct (c !! a) as [n|]; cbn in *; lia.
  - case_match; [rewrite lookup_insert_ne by done|rewrite lookup_delete_ne by done]; done.
Qed.

(** A session of the table is used once more. *)
Lemma use_ok g g' k a :
  manager_ok g -> (k, a) ∈ mg_sessions g -> (forall b, isSessionInUse g' b = true -> isSessionInUse g b = true \/ b = a) ->
  mg_objects g' = mg_objects g -> mg_sessions g' = mg_sessions g -> chain_parts g' = chain_parts g -> (mg_next g <= mg_next g')%nat -> manager_ok g'.
Proof.
  intros [Hc [Hk Hv He Ho Hu Hm Hph Hpa Hcl]] Ha Hus Eo El Ech Hn. split; [by apply (chain_same g)|]. unfold chain_parts in Ech. injection Ech as Em _ _ _ _ Ed.
  split; rewrite ?Eo, ?El, ?Em, ?Ed; try done.
  - intros b z Hz. pose proof (Ho _ _ Hz). lia.
  - intros b [Hb| ->]%Hus; [by apply Hu|]. right. right. by exists k.
  - intros i x Hx. pose proof (Hm _ _ Hx) as Hmx. destruct (active x) eqn:Eax; [|by eapply mutation_ok_inactive].
    assert (mutation_ok (mg_next g') (mg_sessions g) (isSessionInUse g) x) as Hm1 by (eapply mutation_ok_mono; [exact Hn| | |exact Hmx]; auto).
    destruct Hm1 as (H1' & H2' & H3'). split_and!; try done. unfold knows in *. destruct (sm_phase x), (sm_kind x); try done.
    destruct H3' as (Hp & Hna & Hused & Hlt). split_and!; try done. destruct (isSessionInUse g' session) eqn:E; [|done].
    destruct (Hus _ E) as [Hold| ->]; [congruence|by destruct (Hna k)].
Qed.

Lemma wait_ok g i (x : path_access) : manager_ok g -> manager_ok (waitForPathAvailability g i x).
Proof. intros Hok. unfold waitForPathAvailability. destruct (inactive g); by apply (core_ok g). Qed.

Lemma access_operation_ok g (x : path_access) g' ok : access_operation root defaultContent g x = (g', ok) -> manager_ok g -> manager_ok g'.
Proof.
  unfold access_operation. intros E Hok. destruct (pa_kind x) as [|override].
  - destruct (getSession _ _ _ _ _) as [g1 [a|e]] eqn:Eg; injection E as <- <-; destruct (getSession_ok _ _ _ _ _ Eg Hok) as [Hok1 Hin]; [|done].
    specialize (Hin a eq_refl). destruct (cancel_core g1 (pa_path x)) as [Ec En]. pose proof (cancel_ok g1 (pa_path x) Hok1) as Hok2.
    assert ((pa_path x, a) ∈ mg_sessions (cancelIdleClose g1 (pa_path x))) as Hin2 by (unfold core in Ec; injection Ec as _ -> _; done).
    revert Hok2 Hin2. generalize (cancelIdleClose g1 (pa_path x)). intros g2 Hok2 Hin2.
    eapply (use_ok g2 _ _ a Hok2 Hin2); try done; [|unfold update; cbn; lia].
    intros b. unfold isSessionInUse, update. cbn. rewrite !orb_true_iff. intros [Hb%count_used|Hb]; [|by left; right]. destruct Hb; [left; by left|by right].
  - assert (manager_ok (cancelIdleClose g (pa_path x))) as Hok0 by by apply cancel_ok.
    destruct (getSession _ _ _ _ _) as [g1 [a|e]] eqn:Eg; injection E as <- <-; destruct (getSession_ok _ _ _ _ _ Eg Hok0) as [Hok1 Hin]; [|done].
    eapply (use_ok g1 _ _ a Hok1 (Hin a eq_refl)); try done; [|unfold update; cbn; lia].
    intros b. unfold isSessionInUse, hasActiveOperations, update. cbn. rewrite !orb_true_iff. intros [Hb|Hb%count_used]; [by left; left|].
    destruct Hb; [left; by right|by right].
Qed.

Lemma access_goes_ok g i g' : access_goes root defaultContent g i = Some g' -> manager_ok g -> manager_ok g'.
Proof.
  unfold access_goes. destruct (mg_accesses g !! i) as [x|]; [|done]. cbn [mbind option_bind]. destruct (pa_phase x) as [rs|].
  - destruct (forallb _ _); [|done]. intros [= <-]. apply wait_ok.
  - destruct (access_operation root defaultContent g x) as [g1 ok] eqn:E. intros [= <-] Hok. pose proof (access_operation_ok _ _ _ _ E Hok).
    destruct (negb ok && _); [by apply wait_ok|by apply (core_ok g1)].
Qed.

(** Counts go down. *)
Lemma less_used_ok g g' :
  manager_ok g -> (forall b, isSessionInUse g' b = true -> isSessionInUse g b = true) -> mg_objects g' = mg_objects g ->
  mg_sessions g' = mg_sessions g -> chain_parts g' = chain_parts g -> (mg_next g <= mg_next g')%nat -> manager_ok g'.
Proof.
  intros [Hc Ht] Hu Eo El Ech Hn. split; [by apply (chain_same g)|]. unfold chain_parts in Ech. injection Ech as Em _ _ _ _ Ed.
  by apply (table_same root g).
Qed.

Lemma release_ok g i : manager_ok g -> manager_ok (release g i).
Proof.
  intros Hok. unfold release. destruct (mg_clients g !! i) as [[a k []]|]; try done.
  match goal with |- context [hasActiveOperations ?g1 a] => set (g2 := g1) end. assert (manager_ok g2) as Hok2.
  { apply (less_used_ok g); try done. intros b. unfold isSessionInUse, g2, update. cbn. rewrite !orb_true_iff. intros [Hb%uncount_used|Hb]; auto. }
  case_bool_decide; [done|]. destruct (hasActiveOperations g2 a); [done|]. by apply schedule_ok.
Qed.

Lemma operation_ends_ok g i g' : operation_ends g i = Some g' -> manager_ok g -> manager_ok g'.
Proof.
  unfold operation_ends. destruct (mg_operations g !! i) as [x|]; [|done]. cbn [mbind option_bind]. intros [= <-] Hok.
  match goal with |- context [isSessionInUse ?g1 _] => set (g2 := g1) end. assert (manager_ok g2) as Hok2.
  { apply (less_used_ok g); try done. intros b. unfold isSessionInUse, hasActiveOperations, g2, update. cbn. rewrite !orb_true_iff. intros [Hb|Hb%uncount_used]; auto. }
  destruct (negb _); [by apply schedule_ok|done].
Qed.

(** * Calls of structure mutations *)

Lemma table_called g g' i tail reservation kind :
  table_ok g -> mg_objects g' = mg_objects g -> mg_sessions g' = mg_sessions g -> (forall b, isSessionInUse g' b = isSessionInUse g b) ->
  mg_closed g' = mg_closed g -> (mg_next g <= mg_next g')%nat -> mg_mutations g !! i = None ->
  mg_mutations g' = <[i := called tail reservation kind]> (mg_mutations g) -> table_ok g'.
Proof.
  intros Ht Eo El Hu Ed Hn Hi Em. apply (table_general root g g' (fun _ => true)); rewrite ?Eo, ?El, ?Ed, ?filter_all; try done.
  - apply objects_like_refl.
  - intros b. by rewrite Hu.
  - intros j x. rewrite Em. destruct (decide (i = j)) as [<-|Hne].
    + rewrite lookup_insert_eq. intros [= <-]. split; [|done]. split_and!; [|done|done]. intros _ v Hv. by apply not_elem_of_nil in Hv.
    + rewrite lookup_insert_ne by done. intros Hx. split; [|by eapply tb_phases]. eapply mutation_ok_mono; [exact Hn|done| |by eapply tb_mutations].
      intros b. by rewrite Hu.
  - intros j x k a k' s Hx _ _ Hmx. right. exists j, x, k'. split; [|done]. rewrite Em, lookup_insert_ne; [done|]. intros ->. congruence.
  - intros j x a p. rewrite Em. destruct (decide (i = j)) as [<-|Hne].
    + rewrite lookup_insert_eq. intros [= <-] [[[? _]|(v & Hv & _)]|[? _]]; [done| |done]. by apply not_elem_of_nil in Hv.
    + rewrite lookup_insert_ne by done. eauto 10.
Qed.

Lemma fresh_mutation g i : chain_ok g -> (mg_next g <= i)%nat -> mg_mutations g !! i = None.
Proof. intros Hc Hi. destruct (mg_mutations g !! i) as [x|] eqn:E; [|done]. pose proof (ch_fresh _ Hc _ _ E). lia. Qed.

Lemma reserved_ok g m kind : manager_ok g -> kind <> CloseAll -> reservation_of kind = Some m -> manager_ok (reserved_mutation g m kind).
Proof.
  intros [Hc Ht] Hk Hm. split; [by apply chain_reserved|]. unfold reserved_mutation. destruct (inactive g); [done|]. cbn [createPathReservation].
  eapply (table_called g _ (S (mg_next g)) (mg_tail g) (Some (mg_next g)) kind); try done; [unfold update; cbn; lia|].
  apply fresh_mutation; [done|lia].
Qed.

Lemma call_close_ok g : manager_ok g -> manager_ok (call_close g).
Proof.
  intros [Hc Ht]. split; [by apply chain_close|]. unfold call_close. destruct (mg_closePromise g); [done|].
  eapply (table_called g _ (mg_next g) (mg_tail g) None CloseAll); try done; [unfold update; cbn; lia|]. by apply fresh_mutation.
Qed.

Lemma call_mutation_ok g kind : manager_ok g -> manager_ok (call_mutation g kind).
Proof. intros Hok. unfold call_mutation. destruct kind; cbn [reservation_of]; try done; try (by apply reserved_ok). by apply call_close_ok. Qed.

Lemma idle_timer_ok g i : manager_ok g -> manager_ok (idle_timer_fires g i).
Proof.
  intros Hok. unfold idle_timer_fires. destruct (mg_timers g !! i) as [p|]; [|done].
  set (g1 := g <| mg_timers := delete i (mg_timers g) |>). assert (manager_ok g1) as Hok1 by by apply (core_ok g).
  destruct (mg_closing g1); [done|]. destruct (inactive g1) eqn:Ei; [done|].
  pose proof (reserved_ok g1 (Exact [p]) (CloseIdle p) Hok1 ltac:(done) eq_refl) as Hok2. unfold reserved_mutation in Hok2. rewrite Ei in Hok2.
  cbn [createPathReservation runStructureMutation] in *. eapply core_ok; [| |exact Hok2]; done.
Qed.
End steps.
