(* ===== verification/SessionManagerMutations.v ===== *)
(** Structure mutations that start, settle or take their next phase keep the invariants of the manager. *)
From S2P Require Import Prelude JsString Utf8 NodePath Json Sha256 SessionProtocol DocSession SessionManager SessionManagerProps SessionManagerTable SessionManagerSteps.

Section runs.
Context `{Yjs, FastDiff, JsonHost, Host}.
Context (root defaultContent : jstr).
Implicit Types (g : manager) (a b i j r : nat) (x y : structure_mutation) (l : list (jstr * nat)) (k p f t : jstr) (o : gmap nat session).

Abbreviation table_ok := (SessionManagerTable.table_ok root).
Abbreviation manager_ok := (SessionManagerSteps.manager_ok root).
Abbreviation own_path := (SessionManagerTable.own_path root).

Lemma same_place_refl x : same_place x x.
Proof. done. Qed.

(** * A mutation goes on *)

Lemma table_put g g' i x x' :
  table_ok g -> mg_mutations g !! i = Some x -> mg_mutations g' = <[i := x']> (mg_mutations g) ->
  mg_objects g' = mg_objects g -> mg_sessions g' = mg_sessions g -> (forall b, isSessionInUse g' b = isSessionInUse g b) ->
  (mg_closed g = true -> mg_closed g' = true) -> (mg_next g <= mg_next g')%nat ->
  mutation_ok (mg_next g) (mg_sessions g) (isSessionInUse g) x' -> phase_of_kind x' ->
  (forall k a k' s, (k, a) ∈ mg_sessions g -> mg_objects g !! a = Some s -> rebinds x a k' -> own_path s k \/ exists k'', rebinds x' a k'') ->
  (forall a k, owns x' a k -> owns x a k \/ exists s, mg_objects g !! a = Some s /\ own_path s k) -> table_ok g'.
Proof.
  intros Ht Hx Em Eo El Hu Hcl Hn Hm Hph Hmov Hclose. apply (table_general root g g' (fun _ => true)); rewrite ?Eo, ?El, ?filter_all; try done.
  - apply objects_like_refl.
  - intros b. by rewrite Hu.
  - intros j z. rewrite Em. destruct (decide (i = j)) as [<-|Hne].
    + rewrite lookup_insert_eq. intros [= <-]. split; [|done]. eapply mutation_ok_mono; [exact Hn|done| |exact Hm]. intros b. by rewrite Hu.
    + rewrite lookup_insert_ne by done. intros Hz. split; [|by eapply tb_phases]. eapply mutation_ok_mono; [exact Hn|done| |by eapply tb_mutations].
      intros b. by rewrite Hu.
  - intros j z k a k' s Hz Hka Hs Hmz. rewrite Em. destruct (decide (i = j)) as [<-|Hne].
    + rewrite Hx in Hz. injection Hz as <-. destruct (Hmov _ _ _ _ Hka Hs Hmz) as [|[k'' Hr]]; [by left|right]. exists i, x', k''. by rewrite lookup_insert_eq.
    + right. exists j, z, k'. by rewrite lookup_insert_ne by done.
  - intros j z a k. rewrite Em. destruct (decide (i = j)) as [<-|Hne].
    + rewrite lookup_insert_eq. intros [= <-] Hc. destruct (Hclose _ _ Hc); [left|by right]. eauto.
    + rewrite lookup_insert_ne by done. intros Hz Hc. left. eauto.
Qed.

(** The mutations before one that runs have settled. *)
Definition before_settled g i : Prop := forall j y, mg_mutations g !! j = Some y -> (j < i)%nat -> is_settled y = true.

Lemma put_mutation_ok g i x x' :
  manager_ok g -> mg_mutations g !! i = Some x -> same_place x x' -> is_settled x' = is_settled x -> before_settled g i ->
  mutation_ok (mg_next g) (mg_sessions g) (isSessionInUse g) x' -> phase_of_kind x' ->
  (forall k a k' s, (k, a) ∈ mg_sessions g -> mg_objects g !! a = Some s -> rebinds x a k' -> own_path s k \/ exists k'', rebinds x' a k'') ->
  (forall a k, owns x' a k -> owns x a k \/ exists s, mg_objects g !! a = Some s /\ own_path s k) -> manager_ok (put_mutation g i x').
Proof.
  intros [Hc Ht] Hx Hp Hs Hb Hm Hph Hmov Hcl. split.
  - by apply (chain_put g i x).
  - by apply (table_put g _ i x x').
Qed.

Lemma settle_ok g i x x' threw :
  manager_ok g -> mg_mutations g !! i = Some x -> same_place x x' -> is_settled x = false -> before_settled g i -> sm_kind x <> CloseAll ->
  (sm_movers x' <> [] -> sm_diskMove x' <> Some true) -> (sm_diskMove x' <> Some true -> forall v, v ∈ sm_movers x' -> mv_rebound v = false) ->
  (forall k a k' s, (k, a) ∈ mg_sessions g -> mg_objects g !! a = Some s -> rebinds x a k' -> own_path s k) ->
  manager_ok (settle_mutation g i x' threw).
Proof.
  intros [Hc Ht] Hx (Ek & Er & Ep) Hs Hb Hk Hd Hreb Hmov. split.
  - eapply (chain_settle g i x (x' <| sm_phase := MSettled threw |>) (mg_closing g) (mg_closePromise g) (mg_closed g)); try done.
    unfold settle_mutation, to_phase, put_mutation, chain_parts, update. cbn. by rewrite Er.
  - apply (table_put g _ i x (x' <| sm_phase := MSettled threw |>)); try done.
    + intros k a k' s Hka Hs' Hm. left. by eapply Hmov.
    + intros a k [[[? _]|(v & Hv & _ & Hr & _)]|[? _]]; [done| |done]. cbn in Hv. unfold update in Hv. cbn in Hv.
      rewrite Hreb in Hr; [done| |done]. apply Hd. intros E. rewrite E in Hv. by apply not_elem_of_nil in Hv.
Qed.

(** A mutation that moves no session so far. *)
Record plain g i x : Prop := {
  pl_in : mg_mutations g !! i = Some x;
  pl_unsettled : is_settled x = false;
  pl_before : before_settled g i;
  pl_movers : sm_movers x = [];
  pl_disk : sm_diskMove x = None;
  pl_unmoved : forall b, sm_phase x <> MMoving b true
}.

Lemma no_movers x : sm_movers x = [] -> forall v, v ∉ sm_movers x.
Proof. intros -> v Hv. by apply not_elem_of_nil in Hv. Qed.

Lemma plain_still g i x a k : plain g i x -> ~ rebinds x a k.
Proof. intros Hp [[E _]|(v & Hv & _)]; [by apply (pl_unmoved _ _ _ Hp) in E|]. by apply (no_movers x (pl_movers _ _ _ Hp)) in Hv. Qed.

(** What it does with the manager before it settles or goes on keeps it. *)
Lemma plain_same g g' i x : mg_mutations g' = mg_mutations g -> plain g i x -> plain g' i x.
Proof. intros Em [? ? ? ? ? ?]. split; try done; [by rewrite Em|]. unfold before_settled. by rewrite Em. Qed.

Lemma settle_plain g i x threw : manager_ok g -> plain g i x -> sm_kind x <> CloseAll -> manager_ok (settle_mutation g i x threw).
Proof.
  intros Hok Hp Hk. pose proof Hp as [Hx Hs Hb Hm Hd Hu]. apply (settle_ok g i x); try done.
  - intros _ v Hv. by apply no_movers in Hv.
  - intros k a k' s _ _ Hmx. by apply (plain_still g i) in Hmx.
Qed.

(** It takes its next phase. *)
Lemma phase_ok g i x phase :
  manager_ok g -> plain g i x ->
  match phase with
  | MSettled _ | MCompleting | MMoving _ true => False
  | MClosing a => forall k, sm_kind x = CloseIdle k -> exists s, mg_objects g !! a = Some s /\ own_path s k
  | _ => True
  end -> knows (mg_next g) (mg_sessions g) (isSessionInUse g) phase (sm_kind x) [] None -> fits phase (sm_kind x) -> manager_ok (to_phase g i x phase).
Proof.
  intros Hok Hp Hph Hk Hf. pose proof Hp as [Hx Hs Hb Hm Hd Hu]. unfold to_phase. apply (put_mutation_ok g i x); try done.
  - rewrite Hs. unfold is_settled, update. cbn. by destruct phase.
  - unfold mutation_ok, update. cbn. rewrite Hm, Hd. split_and!; [intros _ v Hv; by apply not_elem_of_nil in Hv|by destruct phase|done].
  - intros k a k' s _ _ Hmx. by apply (plain_still g i) in Hmx.
  - intros a k [[[E _]|(v & Hv & _)]|[E Ek]]; unfold update in *; cbn in *.
    + exfalso. by subst phase.
    + exfalso. by apply no_movers in Hv.
    + right. subst phase. by apply Hph.
Qed.

Lemma active_before g i x : chain_ok g -> mg_mutations g !! i = Some x -> is_waiting x = false -> before_settled g i.
Proof. intros Hc Hx Hw j y Hy Hlt. by apply (ch_serial _ Hc i x j y). Qed.

(** * A session takes its new path *)

Lemma elem_rekey l k k' a q b : NoDup l.*1 -> (q, b) ∈ sessions_set (sessions_delete l k) k' a <-> q = k' /\ b = a \/ q <> k' /\ q <> k /\ (q, b) ∈ l.
Proof. intros Hn. rewrite elem_set by by apply NoDup_filter_keys. by rewrite elem_delete. Qed.

Lemma rekey_ok g k k' a s :
  manager_ok g -> serves (mg_sessions g) k a -> serves (mg_sessions g) k' a -> only_at (mg_sessions g) a k k' ->
  mg_objects g !! a = Some s -> own_path s k' ->
  (forall i x, mg_mutations g !! i = Some x -> active x = true ->
    mutation_ok (mg_next g) (sessions_set (sessions_delete (mg_sessions g) k) k' a) (isSessionInUse g) x) ->
  manager_ok (rekeySession g k k' a).
Proof.
  intros Hok Hk Hk' Hon Hs Hown Hact. unfold rekeySession.
  set (g1 := cancelIdleClose (cancelIdleClose g k) k').
  assert (core g1 = core g /\ mg_next g1 = mg_next g) as [E En].
  { unfold g1. destruct (cancel_core (cancelIdleClose g k) k') as [-> ->]. apply cancel_core. }
  assert (manager_ok g1) as [Hc Ht] by (apply (core_ok root g); [done|lia|done]). clearbody g1.
  unfold core in E. injection E as Eo El Ecc Eoc Er Em Etl Ep Ecl Ed. rewrite <- El, <- Em, <- Eo, <- En in *.
  assert (forall b, isSessionInUse g1 b = isSessionInUse g b) as Hu by (intros b; unfold isSessionInUse, hasActiveOperations; by rewrite Ecc, Eoc).
  set (l' := sessions_set (sessions_delete (mg_sessions g1) k) k' a) in *.
  assert (manager_ok (g1 <| mg_sessions := l' |>)) as Hok2.
  { split; [by apply (chain_same g1)|]. destruct Ht as [Hkeys Hv He Ho Hus Hm Hph Hpa Hcl].
    assert (forall q b, (q, b) ∈ l' <-> q = k' /\ b = a \/ q <> k' /\ q <> k /\ (q, b) ∈ mg_sessions g1) as Hin by (intros q b; by apply elem_rekey).
    split; cbn [mg_sessions mg_objects mg_next mg_mutations mg_closed]; unfold update; cbn [mg_sessions mg_objects mg_next mg_mutations mg_closed]; try done.
    - apply NoDup_set. by apply NoDup_filter_keys.
    - intros q q' b [[-> ->]|(Hq1 & Hq2 & Hb)]%Hin [[-> Hb']|(Hq1' & Hq2' & Hb')]%Hin; try done.
      + by destruct (Hon _ _ Hb' eq_refl).
      + subst b. by destruct (Hon _ _ Hb eq_refl).
      + by eapply Hv.
    - intros q b [[-> ->]|(_ & _ & Hb)]%Hin; [eauto|by eapply He].
    - intros b Hb. destruct (Hus b Hb) as [Hd|[Hd|[q Hq]]]; [by left|by right; left|]. right. right.
      destruct (decide (q = k)) as [->|Hnk]; [exists k'; apply Hin; left; split; [done|by apply (Hk k b)]|].
      destruct (decide (q = k')) as [->|Hnk']; [exists k'; apply Hin; left; split; [done|by apply (Hk' k' b)]|]. exists q. apply Hin. auto.
    - intros i x Hx. destruct (active x) eqn:Ea; [|eapply mutation_ok_inactive; [done|by eapply Hm]].
      eapply mutation_ok_mono; [done|by intros e He'| |by eapply Hact]. intros b. by rewrite <- Hu.
    - intros q b z [[-> ->]|(_ & _ & Hb)]%Hin Hz; [|by apply Hpa]. rewrite Hs in Hz. injection Hz as <-. by left. }
  destruct (negb _); [by apply schedule_ok|done].
Qed.

(** * A mutation starts *)

Lemma starts_before g i x : chain_ok g -> mg_mutations g !! i = Some x -> can_start g x = true -> before_settled g i.
Proof.
  intros Hc Hx Hs j y Hy Hlt. unfold can_start in Hs. destruct (sm_phase x); try done.
  destruct (ch_previous _ Hc _ _ _ _ Hx Hy Hlt) as (q & Eq & Hjq & [z Hz]). rewrite Eq in Hs. unfold settled in Hs. rewrite Hz in Hs.
  assert (is_settled z = true) as Hsz by done. destruct (decide (j = q)) as [->|Hne]; [congruence|].
  apply (ch_serial _ Hc q z j y); [done|done|lia|]. unfold is_settled, is_waiting in *. by destruct (sm_phase z).
Qed.

Lemma get_serves g p a : table_ok g -> get_session g p = Some a -> serves (mg_sessions g) p a /\ only_at (mg_sessions g) a p p /\ (a < mg_next g)%nat.
Proof.
  intros Ht Ha%sessions_get_elem. split_and!.
  - intros k b Hb ->. by eapply table_keys_unique; [apply (tb_keys _ _ Ht)| |].
  - intros k b Hb ->. left. by eapply (tb_values _ _ Ht).
  - destruct (tb_entries _ _ Ht _ _ Ha) as [s Hs]. by eapply tb_objects.
Qed.

Lemma delete_next_ok g i x d rest :
  manager_ok g -> plain g i x ->
  match sm_kind x with DeleteSession _ => rest = [] /\ d = true | DeleteSubtree f => Forall (fun q => in_folder f q = true) rest | _ => False end ->
  manager_ok (delete_next g i x rest d).
Proof.
  intros Hok Hp. induction rest as [|path rest IH]; intros Hk; cbn [delete_next].
  - destruct d; [apply settle_plain; try done; intros E; by rewrite E in Hk|]. apply phase_ok; try done; by destruct (sm_kind x).
  - destruct (sm_kind x) as [|f t|f t|q|f|q|] eqn:Ek; try done; [by destruct Hk|]. apply Forall_cons in Hk as [Hpath Hrest].
    destruct (get_session g path) as [a|] eqn:Ea.
    + apply phase_ok; try done; rewrite Ek; [|by destruct rest, d]. split; [|by constructor]. by apply (get_serves g); [destruct Hok|].
    + destruct d; [by apply IH|]. apply phase_ok; try done; by rewrite Ek.
Qed.

Lemma rebinds_active n l used x a k : mutation_ok n l used x -> rebinds x a k -> active x = true.
Proof.
  unfold active, is_waiting, is_settled. intros (Hd & Hm & _) [[-> _]|(v & Hv & _ & Hr & _)]; [done|].
  assert (sm_movers x <> []) as Hne by (intros E; rewrite E in Hv; by apply not_elem_of_nil in Hv).
  destruct (sm_phase x); try done; try (by destruct Hm). by rewrite (Hd (Hm Hne) v Hv) in Hr.
Qed.

(** Nothing else runs when a mutation starts. *)
Lemma starts_alone g i x j y : chain_ok g -> mg_mutations g !! i = Some x -> can_start g x = true -> mg_mutations g !! j = Some y -> active y = false.
Proof.
  intros Hc Hx Hs Hy. pose proof (starts_before _ _ _ Hc Hx Hs) as Hb. unfold can_start in Hs. unfold active.
  destruct (Nat.lt_trichotomy j i) as [Hl|[->|Hl]].
  - rewrite (Hb _ _ Hy Hl). apply andb_false_r.
  - rewrite Hx in Hy. injection Hy as <-. unfold is_waiting. by destruct (sm_phase x).
  - destruct (is_waiting y) eqn:E; [done|]. pose proof (ch_serial _ Hc _ _ _ _ Hy Hx Hl E) as Hw. unfold is_settled in Hw. by destruct (sm_phase x).
Qed.

Lemma starts_plain g i x : manager_ok g -> mg_mutations g !! i = Some x -> can_start g x = true -> plain g i x.
Proof.
  intros [Hc Ht] Hx Hs. assert (sm_phase x = MWaiting) as Eph by (unfold can_start in Hs; by destruct (sm_phase x)).
  destruct (tb_mutations _ _ Ht _ _ Hx) as (_ & Hm & _). rewrite Eph in Hm. destruct Hm. split; try done; [unfold is_settled; by rewrite Eph|..].
  - by apply (starts_before g i x).
  - intros b. by rewrite Eph.
Qed.

(** The session leaves the table before it is closed. *)
Lemma leave_ok g i x p a :
  manager_ok g -> plain g i x -> sm_kind x = CloseIdle p -> (forall j y, mg_mutations g !! j = Some y -> active y = false) ->
  get_session g p = Some a -> isSessionInUse g a = false ->
  manager_ok (to_phase (g <| mg_sessions := sessions_delete (mg_sessions g) p |>) i x (MClosing a)).
Proof.
  intros Hok Hp Ek Halone Ea Eu. pose proof Hok as [Hc Ht]. pose proof (sessions_get_elem _ _ _ Ea) as Hin.
  destruct (get_serves g p a Ht Ea) as (_ & Hon & Hlt). apply phase_ok.
  - apply filter_ok; [done|]. intros k b Hkb HP. cbn in HP. apply negb_false_iff, bool_decide_eq_true_1 in HP as ->.
    rewrite (table_keys_unique _ _ _ _ (tb_keys _ _ Ht) Hkb Hin). by rewrite Eu.
  - by apply (plain_same g).
  - rewrite Ek. intros q [= <-]. destruct (tb_entries _ _ Ht _ _ Hin) as [s Hs]. exists s. split; [done|]. destruct (tb_paths _ _ Ht _ _ _ Hin Hs) as [|(j & y & k' & Hy & Hmy)]; [done|].
    pose proof (rebinds_active _ _ _ _ _ _ (tb_mutations _ _ Ht _ _ Hy) Hmy) as Hay. by rewrite (Halone _ _ Hy) in Hay.
  - rewrite Ek. split_and!; try done.
    + intros b [? _]%elem_delete. done.
    + intros k [Hne Hk]%elem_delete. by destruct (Hon _ _ Hk eq_refl).
  - by rewrite Ek.
Qed.

Lemma mutation_starts_ok g i x :
  manager_ok g -> mg_mutations g !! i = Some x -> can_start g x = true -> manager_ok (mutation_starts g i x).
Proof.
  intros Hok Hx Hs. pose proof Hok as [Hc Ht]. pose proof (starts_plain g i x Hok Hx Hs) as Hp. unfold mutation_starts.
  destruct (sm_kind x) as [p|f t|f t|p|f|p|] eqn:Ek.
  - apply phase_ok; try done; rewrite ?Ek; destruct (get_session g p) eqn:Ea; try done. by apply get_serves.
  - apply phase_ok; try done; rewrite ?Ek; destruct (get_session g f) eqn:Ea; try done; [by apply get_serves|by exact (sessions_get_None _ _ Ea)].
  - apply phase_ok; try done; by rewrite Ek.
  - apply phase_ok; try done; rewrite ?Ek; destruct (get_session g p) eqn:Ea; try done. split; [done|]. by apply get_serves.
  - apply delete_next_ok; try done. rewrite Ek. apply Forall_forall. intros q Hq. rewrite sort_by_perm in Hq. by apply list_elem_of_filter in Hq as [? _].
  - destruct (cancel_core g p) as [E _]. unfold core in E. injection E as _ _ _ _ _ Em _ _ _ _.
    assert (plain (cancelIdleClose g p) i x) as Hp1 by by apply (plain_same g). pose proof (cancel_ok root g p Hok) as Hok1.
    destruct (get_session (cancelIdleClose g p) p) as [a|] eqn:Ea; [|apply settle_plain; try done; by rewrite Ek].
    destruct (isSessionInUse _ a || object_failed _ a) eqn:Eu; [apply settle_plain; try done; by rewrite Ek|]. apply orb_false_iff in Eu as [Eu _].
    apply leave_ok; try done. rewrite Em. intros j y. by apply (starts_alone g i x).
  - apply phase_ok; [by apply (core_ok root g)|by apply (plain_same g)|done|by rewrite Ek|by rewrite Ek].
Qed.
End runs.
