(* ===== verification/SessionManagerMoves.v ===== *)
(** Sessions that move: their movers, and the new path of an object. *)
From S2P Require Import Prelude JsString Utf8 NodePath Json Sha256 SessionProtocol DocSession SessionManager SessionManagerProps SessionManagerTable SessionManagerSteps SessionManagerMutations.

Section moves.
Context `{Yjs, FastDiff, JsonHost, Host}.
Context (root defaultContent : jstr).
Implicit Types (g : manager) (a b i j r : nat) (x y : structure_mutation) (l : list (jstr * nat)) (k p f t : jstr) (v w : mover).

Abbreviation table_ok := (SessionManagerTable.table_ok root).
Abbreviation manager_ok := (SessionManagerSteps.manager_ok root).
Abbreviation own_path := (SessionManagerTable.own_path root).

(** * The movers of a folder *)

Lemma same_prefix f t (r r' k : jstr) : f ++ js "/" = (t ++ js "/") ++ k -> f = t \/ in_folder t f = true.
Proof.
  change (js "/") with [47%N]. destruct k as [|c k _] using rev_ind.
  - rewrite app_nil_r. intros [E _]%app_inj_tail. by left.
  - rewrite app_assoc. intros [-> _]%app_inj_tail. right. unfold in_folder. apply starts_with_app.
Qed.

Lemma same_below f t (r r' : jstr) : nested f t = false -> f ++ js "/" ++ r = t ++ js "/" ++ r' -> f = t /\ r = r'.
Proof.
  unfold nested. intros [Hf Ht]%orb_false_iff E. assert (f = t) as ->; [|split; [done|]; by do 2 apply app_inv_head in E].
  rewrite !app_assoc in E. apply app_eq_inv in E as [(k & E & _)|(k & E & _)].
  - destruct (same_prefix _ _ r r' _ E) as [|E']; [done|congruence].
  - destruct (same_prefix _ _ r r' _ E) as [|E']; [done|congruence].
Qed.

Lemma in_folder_spec f p : in_folder f p = true -> p = f ++ js "/" ++ drop (S (length f)) p.
Proof.
  unfold in_folder. intros (rest & ->)%starts_with_spec. rewrite <- app_assoc. f_equal. f_equal. rewrite drop_app_ge by lia.
  replace (S (length f) - length f)%nat with 1%nat by lia. done.
Qed.

Lemma mover_unique vs v w : NoDup (map mv_session vs) -> v ∈ vs -> w ∈ vs -> mv_session v = mv_session w -> v = w.
Proof.
  induction vs as [|u vs IH]; [intros _ Hv; by apply not_elem_of_nil in Hv|]. cbn. intros [Hu Hn]%NoDup_cons [->|Hv]%elem_of_cons [->|Hw]%elem_of_cons E; [done|..|by apply IH].
  - destruct Hu. rewrite E. apply list_elem_of_fmap. eauto.
  - destruct Hu. rewrite <- E. apply list_elem_of_fmap. eauto.
Qed.

Lemma find_mover_in vs a v : find_mover vs a = Some v -> v ∈ vs /\ mv_session v = a.
Proof. unfold find_mover. intros [Hin E%Nat.eqb_eq]%find_some. by rewrite list_elem_of_In. Qed.
Lemma drop_mover_in vs a v : v ∈ drop_mover vs a <-> v ∈ vs /\ mv_session v <> a.
Proof. unfold drop_mover. rewrite !list_elem_of_In, filter_In. by rewrite negb_true_iff, Nat.eqb_neq. Qed.
Lemma drop_mover_nodup vs a : NoDup (map mv_session vs) -> NoDup (map mv_session (drop_mover vs a)).
Proof.
  induction vs as [|u vs IH]; [done|]. cbn. intros [Hu Hn]%NoDup_cons. destruct (negb _); [|by apply IH]. cbn. constructor; [|by apply IH].
  intros (w & E & [Hw _]%drop_mover_in)%list_elem_of_fmap. apply Hu. rewrite E. apply list_elem_of_fmap. eauto.
Qed.

Lemma movers_like n l f t vs vs' :
  NoDup (map mv_session vs') -> (forall v, v ∈ vs' -> exists w, w ∈ vs /\ mv_from v = mv_from w /\ mv_to v = mv_to w /\ mv_session v = mv_session w) ->
  movers_ok n l f t vs -> movers_ok n l f t vs'.
Proof.
  intros Hn Hl [Hsh Hs Hfr Hp Hse Hon Hf]. split; [| done| |intros v w (u & Hu & -> & _ & ->)%Hl (u' & Hu' & -> & _ & ->)%Hl; by apply Hp|..];
    intros v (u & Hu & Ef & Et & Es)%Hl; rewrite ?Ef, ?Et, ?Es; auto.
Qed.

Lemma NoDup_values l (P : jstr * nat -> Prop) `{forall e, Decision (P e)} :
  NoDup l.*1 -> (forall k k' a, (k, a) ∈ l -> (k', a) ∈ l -> k = k') -> NoDup (map snd (filter P l)).
Proof.
  induction l as [|[k a] l IH]; [intros _ _; constructor|]. intros [Hk Hn]%NoDup_cons Hv. assert (NoDup (map snd (filter P l))) as Hl.
  { apply IH; [done|]. intros q q' b Hq Hq'. by apply (Hv q q' b); right. }
  rewrite filter_cons. case_decide; [|done]. cbn. constructor; [|done]. intros ([q b] & E & [_ Hq]%list_elem_of_filter)%list_elem_of_fmap. cbn in E. subst b.
  apply Hk. rewrite (Hv k q a (list_elem_of_here _ _) (list_elem_of_further _ _ _ Hq)). apply list_elem_of_fmap. by exists (q, a).
Qed.

(** What the sessions below a folder come to, when no other session is at their new paths. *)
Lemma movers_start g f t :
  table_ok g -> nested f t = false ->
  existsb (fun e => (jeqb e.1 t || in_folder t e.1) && negb (bool_decide (e.2 ∈ (entries_below g f).*2))) (mg_sessions g) = false ->
  movers_ok (mg_next g) (mg_sessions g) f t (map (mover_of f t) (entries_below g f)).
Proof.
  intros Ht Hnest Hcol. assert (forall k a, (k, a) ∈ entries_below g f <-> in_folder f k = true /\ (k, a) ∈ mg_sessions g) as Hin.
  { intros k a. unfold entries_below. rewrite sort_by_perm. rewrite list_elem_of_filter. done. }
  assert (forall k a, (k, a) ∈ mg_sessions g -> in_folder t k = true -> exists k', (k', a) ∈ entries_below g f) as Hfree.
  { intros k a Hk Hb. destruct (bool_decide (a ∈ (entries_below g f).*2)) eqn:E.
    - apply bool_decide_eq_true_1, list_elem_of_fmap in E as ([k' a'] & -> & ?). eauto.
    - exfalso. apply not_true_iff_false in Hcol. apply Hcol, existsb_exists. exists (k, a). split; [by apply list_elem_of_In|].
      cbn. by rewrite E, Hb, orb_true_r. }
  assert (forall v, v ∈ map (mover_of f t) (entries_below g f) -> exists rest, mv_from v = f ++ js "/" ++ rest /\ mv_to v = t ++ js "/" ++ rest /\
    (mv_from v, mv_session v) ∈ mg_sessions g) as Hv.
  { intros v ([k a] & -> & [Hb Hk]%Hin)%list_elem_of_fmap. cbn. exists (drop (S (length f)) k). split_and!; [by apply in_folder_spec|done|done]. }
  split.
  - intros v Hvs. destruct (Hv v Hvs) as (rest & ? & ? & _). eauto.
  - rewrite map_map. cbn. unfold entries_below. assert (sort_by (fun e e' => locale_compare e.1 e'.1) (filter (fun e => in_folder f e.1 = true) (mg_sessions g))
      ≡ₚ filter (fun e => in_folder f e.1 = true) (mg_sessions g)) as -> by apply sort_by_perm. apply NoDup_values; [apply (tb_keys _ _ Ht)|apply (tb_values _ _ Ht)].
  - intros v Hvs. destruct (Hv v Hvs) as (rest & _ & _ & Hk). destruct (tb_entries _ _ Ht _ _ Hk) as [s Hs]. by eapply tb_objects.
  - intros v w Hvs Hws E. destruct (Hv v Hvs) as (rest & _ & _ & Hk), (Hv w Hws) as (rest' & _ & _ & Hk'). rewrite E in Hk. by eapply table_keys_unique; [apply (tb_keys _ _ Ht)| |].
  - intros v Hvs k b Hb ->. destruct (Hv v Hvs) as (rest & _ & _ & Hk). by eapply table_keys_unique; [apply (tb_keys _ _ Ht)| |].
  - intros v Hvs k b Hb ->. destruct (Hv v Hvs) as (rest & _ & _ & Hk). left. by eapply (tb_values _ _ Ht).
  - intros v Hvs k b Hb ->. destruct (Hv v Hvs) as (rest & Ef & Et & Hk). rewrite Et in Hb. destruct (Hfree _ _ Hb) as [k' [Hb' Hk']%Hin]; [apply in_folder_app|].
    pose proof (tb_values _ _ Ht _ _ _ Hb Hk') as <-. apply in_folder_spec in Hb'. destruct (same_below f t _ _ Hnest (eq_sym Hb')) as [<- _].
    rewrite <- Ef in Hb. apply (table_keys_unique (mg_sessions g) (mv_from v)); [apply (tb_keys _ _ Ht)|done|done].
Qed.

(** A mover takes its new key. *)
Lemma movers_rekey n l f t vs v :
  NoDup l.*1 -> nested f t = false -> v ∈ vs -> movers_ok n l f t vs ->
  movers_ok n (sessions_set (sessions_delete l (mv_from v)) (mv_to v) (mv_session v)) f t vs.
Proof.
  intros Hl Hnest Hv [Hsh Hs Hfr Hp Hse Hon Hf]. split; try done; intros w Hw k b [[-> ->]|(Hk1 & Hk2 & Hb)]%elem_rekey; try done; try (by intros E; eauto using Hse, Hon, Hf).
  - intros E. destruct (Hsh v Hv) as (rv & Efv & Etv), (Hsh w Hw) as (rw & Efw & Etw). apply (Hp v w Hv Hw). rewrite Etv, Efw in E.
    destruct (same_below f t rw rv Hnest (eq_sym E)) as [<- <-]. congruence.
  - by apply (Hse w Hw k b).
  - intros E. rewrite (mover_unique vs v w Hs Hv Hw E). by right.
  - by apply (Hon w Hw k b).
  - intros E. destruct (Hsh v Hv) as (rv & Efv & Etv), (Hsh w Hw) as (rw & Efw & Etw). apply (Hp v w Hv Hw). rewrite Etv, Etw in E.
    do 2 apply app_inv_head in E. congruence.
  - by apply (Hf w Hw k b).
Qed.

(** * The object takes its new path *)

Lemma owns_active n l used x a k : mutation_ok n l used x -> owns x a k -> active x = true.
Proof. intros Hm [Hr|[E _]]; [by eapply rebinds_active|]. unfold active, is_waiting, is_settled. by rewrite E. Qed.

Lemma rebind_ok g i x x' a k' :
  manager_ok g -> mg_mutations g !! i = Some x -> same_place x x' -> active x = true -> active x' = true ->
  mutation_ok (mg_next g) (mg_sessions g) (isSessionInUse g) x' -> phase_of_kind x' ->
  (forall b k, rebinds x b k -> exists k'', rebinds x' b k'') -> (forall b k, owns x' b k -> b = a /\ k = k' \/ b <> a /\ owns x b k) ->
  (exists k'', rebinds x' a k'') -> is_Some (mg_objects g !! a) ->
  manager_ok (put_mutation (rebind_object root g a k') i x').
Proof.
  intros [Hc Ht] Hx Hsp Hax Hax' Hmx' Hpx' Hreb Hown Ha Hsome. pose proof Hax as Ha0. pose proof Hax' as Ha1.
  unfold active in Ha0, Ha1. apply andb_true_iff in Ha0 as [Hw%negb_true_iff Hs%negb_true_iff], Ha1 as [Hw'%negb_true_iff Hs'%negb_true_iff].
  pose proof (active_before _ _ _ Hc Hx Hw) as Hb. split.
  { apply (chain_same (put_mutation g i x')); [done|done|]. apply (chain_put g i x); try done. by rewrite Hs, Hs'. }
  destruct Ht as [Hk Hv He Ho Hu Hm Hph Hpa Hcl].
  assert (forall b s, mg_objects (rebind_object root g a k') !! b = Some s ->
    b = a /\ (exists s0, mg_objects g !! b = Some s0 /\ s = rebind root s0 k') \/ b <> a /\ mg_objects g !! b = Some s) as Hobj.
  { intros b s. unfold rebind_object, update. cbn. destruct (decide (a = b)) as [<-|Hne].
    - rewrite lookup_alter_eq. intros (s0 & E & ->)%fmap_Some_1. left. eauto.
    - rewrite lookup_alter_ne by done. auto. }
  assert (forall j y, mg_mutations (put_mutation (rebind_object root g a k') i x') !! j = Some y -> j = i /\ y = x' \/ j <> i /\ mg_mutations g !! j = Some y) as Hput.
  { intros j y. unfold put_mutation, rebind_object, update. cbn. intros [[<- <-]|[Hne Hy]]%lookup_insert_Some; auto. }
  split; try done.
  - intros k b Hkb. apply (He k b) in Hkb as [s Hsb]. unfold put_mutation, rebind_object, update. cbn.
    destruct (decide (a = b)) as [<-|Hne]; [rewrite lookup_alter_eq, Hsb|rewrite lookup_alter_ne by done]; eauto.
  - intros b s [[-> (s0 & Hs0 & _)]|[_ Hs0]]%Hobj; by eapply Ho.
  - intros b Hb'. destruct (Hu b Hb') as [|[Hd|]]; [auto| |auto]. right. left. revert Hd. unfold deleted, put_mutation, rebind_object, update. cbn.
    destruct (decide (a = b)) as [<-|Hne]; [rewrite lookup_alter_eq; by destruct (mg_objects g !! a)|by rewrite lookup_alter_ne by done].
  - intros j y [[-> ->]|[_ Hy]]%Hput; [done|by apply (Hm j)].
  - intros j y [[-> ->]|[_ Hy]]%Hput; [done|by apply (Hph j)].
  - intros k b s Hkb Hs1. assert (forall k'', rebinds x' b k'' ->
      exists j y k'', mg_mutations (put_mutation (rebind_object root g a k') i x') !! j = Some y /\ rebinds y b k'') as Hi.
    { intros k'' Hr. exists i, x', k''. split; [|done]. unfold put_mutation, update. cbn. by rewrite lookup_insert_eq. }
    apply Hobj in Hs1 as [[-> _]|[Hne Hs1]]; [right; destruct Ha as [k'' Hr]; by eapply Hi|].
    destruct (Hpa _ _ _ Hkb Hs1) as [|(j & y & k'' & Hy & Hr)]; [by left|right]. destruct (decide (i = j)) as [<-|Hij].
    + rewrite Hx in Hy. injection Hy as <-. destruct (Hreb _ _ Hr) as [k3 Hr']. by eapply Hi.
    + exists j, y, k''. split; [|done]. unfold put_mutation, rebind_object, update. cbn. by rewrite lookup_insert_ne.
  - intros j y b k Hy Hoy. apply Hput in Hy as [[-> ->]|[Hne Hy]].
    + apply Hown in Hoy as [[-> ->]|[Hba Hoy]].
      * destruct Hsome as [s0 Hs0]. exists (rebind root s0 k'). unfold put_mutation, rebind_object, update. cbn. by rewrite lookup_alter_eq, Hs0.
      * destruct (Hcl _ _ _ _ Hx Hoy) as (s & Hs1 & Hos). exists s. unfold put_mutation, rebind_object, update. cbn. by rewrite lookup_alter_ne by done.
    + pose proof (owns_active _ _ _ _ _ _ (Hm _ _ Hy) Hoy) as Hay. destruct Hne. by apply (chain_one_active g j y i x).
Qed.
End moves.
