(* ===== verification/SessionManagerGoes.v ===== *)
(** Structure mutations that go on keep the invariants of the manager. *)
From S2P Require Import Prelude JsString Utf8 NodePath Json Sha256 SessionProtocol DocSession SessionManager SessionManagerProps SessionManagerTable SessionManagerSteps SessionManagerMutations SessionManagerMoves.

Section goes.
Context `{Yjs, FastDiff, JsonHost, Host}.
Context (root defaultContent : jstr).
Implicit Types (g : manager) (a b i j r : nat) (x y : structure_mutation) (l : list (jstr * nat)) (k p f t : jstr) (v w : mover).

Abbreviation table_ok := (SessionManagerTable.table_ok root).
Abbreviation manager_ok := (SessionManagerSteps.manager_ok root).
Abbreviation own_path := (SessionManagerTable.own_path root).

Lemma active_plain g i x :
  manager_ok g -> mg_mutations g !! i = Some x -> active x = true -> sm_phase x <> MCompleting -> (forall b, sm_phase x <> MMoving b true) -> plain g i x.
Proof.
  intros [Hc Ht] Hx Ha Hnc Hu. unfold active in Ha. apply andb_true_iff in Ha as [Hw%negb_true_iff Hs%negb_true_iff].
  destruct (tb_mutations _ _ Ht _ _ Hx) as (_ & Hm & _). assert (sm_movers x = [] /\ sm_diskMove x = None) as [? ?].
  { unfold is_settled in Hs. by destruct (sm_phase x). }
  split; try done. by apply (active_before g i x).
Qed.

Lemma knows_phase g i x :
  table_ok g -> mg_mutations g !! i = Some x -> knows (mg_next g) (mg_sessions g) (isSessionInUse g) (sm_phase x) (sm_kind x) (sm_movers x) (sm_diskMove x).
Proof. intros Ht Hx. by destruct (tb_mutations _ _ Ht _ _ Hx) as (_ & _ & Hk). Qed.

(** * The kind of the file is known *)

Lemma stat_answered_ok g i x session isFile isDirectory :
  manager_ok g -> mg_mutations g !! i = Some x -> sm_phase x = MStat session -> manager_ok (stat_answered g i x session isFile isDirectory).
Proof.
  intros Hok Hx Eph. pose proof Hok as [Hc Ht]. assert (plain g i x) as Hp.
  { apply active_plain; try done; [unfold active, is_waiting, is_settled|..]; by rewrite Eph. }
  pose proof (knows_phase _ _ _ Ht Hx) as Hk. rewrite Eph in Hk. unfold stat_answered. destruct (sm_kind x) as [|f t|f t| | | |] eqn:Ek; try done.
  - assert (forall a, session = Some a -> get_session g t = Some a \/ get_session g t = None -> manager_ok (to_phase g i x (MMoving a false))) as Hgo.
    { intros a -> Hd. destruct Hk as (Hs & Hon & Hlt). apply phase_ok; try done; rewrite Ek; [|done]. split_and!; [done| | |done].
      - destruct Hd as [Hd|Hd]; [by destruct (get_serves root g t a Ht Hd)|]. intros k b Hb ->. by destruct (sessions_get_None _ _ Hd b).
      - intros k b Hb Eb. destruct (Hon k b Hb Eb) as [->| ->]; by left. }
    assert (manager_ok (to_phase g i x MDisk)) as Hdisk by (apply phase_ok; try done; by rewrite Ek).
    assert (manager_ok (settle_mutation g i x true)) as Hset by (apply settle_plain; try done; by rewrite Ek).
    destruct (negb isFile); [done|]. destruct (get_session g t) as [d|], session as [a|]; try done.
    + destruct (d =? a)%nat eqn:E; [|done]. apply Nat.eqb_eq in E as ->. apply Hgo; auto.
    + apply Hgo; auto.
  - assert (manager_ok (to_phase g i x MDisk)) as Hdisk by (apply phase_ok; try done; by rewrite Ek).
    destruct (negb isDirectory); [done|]. destruct (existsb _ _) eqn:Ecol; [apply settle_plain; try done; by rewrite Ek|].
    destruct (entries_below g f) eqn:Ee; [done|]. rewrite <- Ee in *. apply phase_ok; try done; rewrite Ek; [|done]. intros Hn. by apply (movers_start root).
Qed.

(** * A session has moved *)

Lemma schedule_parts g p : mg_objects (scheduleIdleClose g p) = mg_objects g /\ mg_mutations (scheduleIdleClose g p) = mg_mutations g /\
  (forall e, e ∈ mg_sessions (scheduleIdleClose g p) -> e ∈ mg_sessions g).
Proof.
  unfold scheduleIdleClose. destruct (inactive g); [done|]. destruct (get_session g p) as [a|]; [|done]. destruct (isSessionInUse g a); [done|].
  destruct (cancel_core g p) as [E _]. unfold core in E. injection E as Eo El _ _ _ Em _ _ _ _.
  destruct (negb _); unfold update; cbn; rewrite Eo, ?Em, El; split_and!; try done. intros e [? _]%elem_filter. done.
Qed.

Lemma rekey_parts g k k' a : mg_objects (rekeySession g k k' a) = mg_objects g /\ mg_mutations (rekeySession g k k' a) = mg_mutations g /\
  (forall e, e ∈ mg_sessions (rekeySession g k k' a) -> e ∈ sessions_set (sessions_delete (mg_sessions g) k) k' a).
Proof.
  unfold rekeySession. destruct (cancel_core (cancelIdleClose g k) k') as [E _], (cancel_core g k) as [E' _]. rewrite E' in E. unfold core in E.
  injection E as Eo El _ _ _ Em _ _ _ _. destruct (negb _); [|unfold update; cbn; by rewrite Eo, El, Em].
  match goal with |- context [scheduleIdleClose ?g1 k'] => destruct (schedule_parts g1 k') as (Eo' & Em' & Hl') end.
  unfold update in *. cbn in *. split_and!; [by rewrite Eo'|by rewrite Em'|]. intros e He. rewrite <- El. by apply Hl'.
Qed.

Lemma move_done_ok g i x f t a :
  manager_ok g -> mg_mutations g !! i = Some x -> sm_phase x = MMoving a true -> sm_kind x = MoveSession f t ->
  manager_ok (settle_mutation (rekeySession g f t a) i x false).
Proof.
  intros Hok Hx Eph Ek. pose proof Hok as [Hc Ht]. pose proof (knows_phase _ _ _ Ht Hx) as Hk. rewrite Eph, Ek in Hk. destruct Hk as (Hs & Hs' & Hon & Hlt).
  assert (active x = true /\ is_waiting x = false /\ is_settled x = false) as (Ha & Hw & Hns) by (unfold active, is_waiting, is_settled; by rewrite Eph).
  assert (owns x a t) as Howns by (left; left; split; [done|by exists f]).
  destruct (tb_owns _ _ Ht _ _ _ _ Hx Howns) as (s & Hsa & Hown).
  assert (forall q b, (q, b) ∈ sessions_set (sessions_delete (mg_sessions g) f) t a -> q = t /\ b = a \/ q <> t /\ q <> f /\ (q, b) ∈ mg_sessions g) as Hin.
  { intros q b Hqb. apply elem_rekey in Hqb; [done|apply (tb_keys _ _ Ht)]. }
  destruct (rekey_parts g f t a) as (Eo & Em & Hl).
  assert (manager_ok (rekeySession g f t a)) as Hok'.
  { eapply rekey_ok; try done. intros j y Hy Hay. rewrite (chain_one_active g j y i x Hc Hy Hx Hay Ha) in Hy. rewrite Hx in Hy. injection Hy as <-.
    destruct (tb_mutations _ _ Ht _ _ Hx) as (H1' & H2' & _). split_and!; try done. rewrite Eph, Ek. split_and!; try done.
    - intros q b [[-> ->]|(? & ? & Hb)]%Hin ?; done.
    - intros q b [[-> ->]|(? & ? & Hb)]%Hin ?; done.
    - intros q b [[-> ->]|(? & ? & Hb)]%Hin Eb; [by right|by eapply Hon]. }
  destruct (tb_mutations _ _ Ht _ _ Hx) as (_ & Hm & _). rewrite Eph in Hm. destruct Hm as [Hm Hd].
  apply (settle_ok _ _ i x); try done; rewrite ?Em, ?Ek; try done.
  - unfold before_settled. rewrite Em. by apply (active_before g i x).
  - intros _ v Hv. by apply no_movers in Hv.
  - rewrite Eo. intros k b k' s' Hkb Hs1 [[E _]|(v & Hv & _)]; [|by apply no_movers in Hv]. rewrite Eph in E. injection E as <-.
    rewrite Hsa in Hs1. injection Hs1 as <-. apply Hl, Hin in Hkb as [[-> _]|(Hq1 & Hq2 & Hb)]; [done|]. by destruct (Hon _ _ Hb eq_refl).
Qed.

(** * The sessions of a folder move *)

Lemma moving_folder g i x v :
  table_ok g -> mg_mutations g !! i = Some x -> v ∈ sm_movers x -> sm_diskMove x = Some true ->
  sm_phase x = MCompleting /\ exists f t, sm_kind x = MoveSubtree f t /\ nested f t = false /\ movers_ok (mg_next g) (mg_sessions g) f t (sm_movers x).
Proof.
  intros Ht Hx Hv Hd. destruct (tb_mutations _ _ Ht _ _ Hx) as (_ & Hm & Hk). pose proof (tb_phases _ _ Ht _ _ Hx) as Hf. unfold phase_of_kind in Hf.
  assert (sm_movers x <> []) as Hne by (intros E; rewrite E in Hv; by apply not_elem_of_nil in Hv).
  assert (sm_phase x = MCompleting) as Eph by (destruct (sm_phase x); try done; try (by destruct Hm); by destruct (Hm Hne)).
  split; [done|]. rewrite Eph in Hk, Hf. destruct (sm_kind x) as [| |f t| | | |]; try done. exists f, t. destruct Hk as [Hn Hk].
  destruct (nested f t); [by destruct (Hn eq_refl)|]. auto.
Qed.

Lemma movers_drop n l f t vs a : movers_ok n l f t vs -> movers_ok n l f t (drop_mover vs a).
Proof.
  intros Hm. apply (movers_like n l f t vs); [|intros v [Hv _]%drop_mover_in; eauto|done]. apply drop_mover_nodup. by apply mo_sessions in Hm.
Qed.

Lemma mover_rebinds_ok g i x v a :
  manager_ok g -> mg_mutations g !! i = Some x -> find_mover (sm_movers x) a = Some v -> sm_diskMove x = Some true -> is_Some (mg_objects g !! a) ->
  manager_ok (put_mutation (rebind_object root g a (mv_to v)) i
    (x <| sm_movers := {| mv_from := mv_from v; mv_to := mv_to v; mv_session := a; mv_rebound := true |} :: drop_mover (sm_movers x) a |>)).
Proof.
  intros Hok Hx Hf Hd Ha. pose proof Hok as [Hc Ht]. apply find_mover_in in Hf as [Hv <-].
  destruct (moving_folder _ _ _ _ Ht Hx Hv Hd) as (Eph & f & t & Ek & Hn & Hmv).
  apply (rebind_ok root g i x); try done; try (unfold active, is_waiting, is_settled, update; cbn; by rewrite Eph).
  - unfold mutation_ok, update. cbn. rewrite Eph, Ek, Hd. split_and!; [done|done|]. cbn. split; [by rewrite Hn|]. intros _.
    apply (movers_like _ _ _ _ (sm_movers x)); [|intros w [->|[Hw _]%drop_mover_in]%elem_of_cons; eauto|done].
    cbn. constructor; [|apply drop_mover_nodup; by apply mo_sessions in Hmv]. by intros (w & E & [_ Hw]%drop_mover_in)%list_elem_of_fmap.
  - unfold phase_of_kind, update. cbn. by rewrite Eph, Ek.
  - intros b k [[E _]|(w & Hw & Eb & Hr & Et)]; [by rewrite Eph in E|]. destruct (decide (mv_session w = mv_session v)) as [Ev|Ev].
    + exists (mv_to v). right. eexists. split; [by left|]. cbn. by rewrite <- Ev, Eb.
    + exists k. right. exists w. split; [|done]. right. by apply drop_mover_in.
  - intros b k [[[E _]|(w & Hw & Eb & Hr & Et)]|[E _]]; unfold update in *; cbn in *; try by rewrite Eph in E.
    apply elem_of_cons in Hw as [->|[Hw Hne]%drop_mover_in]; [by left|right]. split; [congruence|]. left. right. by exists w.
  - exists (mv_to v). right. eexists. split; [by left|done].
Qed.

Lemma put_before g i x x' j : mg_mutations g !! i = Some x -> is_settled x' = is_settled x -> before_settled g j -> before_settled (put_mutation g i x') j.
Proof.
  intros Hx Es Hb k y Hy Hlt. unfold put_mutation, update in Hy. cbn in Hy. apply lookup_insert_Some in Hy as [[<- <-]|[_ Hy]]; [|by apply (Hb k)].
  rewrite Es. by apply (Hb i).
Qed.

(** A mover goes, and the mutation with the last. *)
Lemma mover_gone_ok g i x v :
  manager_ok g -> mg_mutations g !! i = Some x -> v ∈ sm_movers x -> before_settled g i ->
  (forall k s, (k, mv_session v) ∈ mg_sessions g -> mg_objects g !! mv_session v = Some s -> mv_rebound v = true -> own_path s k) ->
  let x' := x <| sm_movers := drop_mover (sm_movers x) (mv_session v) |> in
  (sm_diskMove x = Some true -> NoDup (map mv_session (sm_movers x))) ->
  manager_ok (put_mutation g i x') /\
  (is_settled x = false -> sm_phase x = MCompleting -> (drop_mover (sm_movers x) (mv_session v) <> [] -> sm_diskMove x <> Some true) ->
   forall threw, manager_ok (settle_mutation (put_mutation g i x') i x' threw)).
Proof.
  intros Hok Hx Hv Hb Hown x' Hnd. pose proof Hok as [Hc Ht]. destruct (tb_mutations _ _ Ht _ _ Hx) as (Hd & Hm & Hkn).
  assert (forall w, w ∈ sm_movers x' -> w ∈ sm_movers x) as Hsub by (intros w [? _]%drop_mover_in; done).
  assert (forall b k, owns x' b k -> owns x b k) as Hox by (intros b k [[[E Ef]|(w & Hw & ?)]|[E Ef]]; [left; by left|left; right; exists w; auto|by right]).
  assert (sm_movers x <> []) as Hne by (intros E; rewrite E in Hv; by apply not_elem_of_nil in Hv).
  assert (forall k a k' s, (k, a) ∈ mg_sessions g -> mg_objects g !! a = Some s -> rebinds x a k' -> own_path s k \/ exists k'', rebinds x' a k'') as Hreb.
  { intros k a k' s Hka Hs [[E Ef]|(w & Hw & Ew & Hr & Et)]; [right; exists k'; by left|]. destruct (decide (mv_session w = mv_session v)) as [Ev|Ev].
    - left. assert (sm_diskMove x = Some true) as Edm by (destruct (decide (sm_diskMove x = Some true)) as [|Edm]; [done|by rewrite (Hd Edm w Hw) in Hr]).
      pose proof (mover_unique _ _ _ (Hnd Edm) Hw Hv Ev) as ->. subst a. by apply Hown.
    - right. exists k'. right. exists w. split; [|done]. by apply drop_mover_in. }
  assert (manager_ok (put_mutation g i x')) as Hok'.
  { apply (put_mutation_ok root g i x); try done.
    - split_and!; [intros E w Hw; by apply Hd, Hsub| |].
      + unfold x', update. cbn. destruct (sm_phase x); try done; try (by destruct Hm). intros _. by apply Hm.
      + unfold x', update. cbn. unfold knows in *. destruct (sm_phase x), (sm_kind x); try done. destruct Hkn as [? Hkn]. split; [done|].
        intros Hn. by apply movers_drop, Hkn.
    - by apply (tb_phases _ _ Ht i x).
    - intros b k Ho. left. by apply Hox. }
  split; [done|]. intros Hns Eph Hlast threw. apply (settle_ok root _ i x' x'); try done.
  - unfold put_mutation, update. cbn. by rewrite lookup_insert_eq.
  - by apply (put_before g i x).
  - pose proof (tb_phases _ _ Ht _ _ Hx) as Hf. unfold phase_of_kind in Hf. rewrite Eph in Hf. unfold x', update. cbn. by destruct (sm_kind x).
  - intros E w Hw. by apply Hd, Hsub.
  - intros k a k' s Hka Hs [[E _]|(w & Hw & Ew & Hr & Et)]; [by rewrite (Eph : sm_phase x' = MCompleting) in E|].
    assert (drop_mover (sm_movers x) (mv_session v) <> []) as Hne' by (intros E; change (w ∈ drop_mover (sm_movers x) (mv_session v)) in Hw; rewrite E in Hw; by apply not_elem_of_nil in Hw).
    rewrite (Hd (Hlast Hne') w) in Hr; [done|by apply Hsub].
Qed.

Lemma mover_ends_ok g i x v a ok :
  manager_ok g -> mg_mutations g !! i = Some x -> find_mover (sm_movers x) a = Some v -> (ok = true -> mv_rebound v = true) ->
  (ok = false -> sm_diskMove x = Some false) -> manager_ok (mover_ends g i x v ok).
Proof.
  intros Hok Hx Hf Hr Hd. pose proof Hok as [Hc Ht]. apply find_mover_in in Hf as [Hv <-].
  assert (sm_movers x <> []) as Hne by (intros E; rewrite E in Hv; by apply not_elem_of_nil in Hv).
  destruct (tb_mutations _ _ Ht _ _ Hx) as (Hun & Hm & Hk).
  assert (is_waiting x = false) as Hw by (unfold is_waiting; destruct (sm_phase x); try done; by destruct Hm).
  pose proof (active_before _ _ _ Hc Hx Hw) as Hb. destruct ok.
  - specialize (Hr eq_refl). assert (sm_diskMove x = Some true) as Edm.
    { destruct (decide (sm_diskMove x = Some true)) as [|Edm]; [done|]. by rewrite (Hun Edm v Hv) in Hr. }
    destruct (moving_folder _ _ _ _ Ht Hx Hv Edm) as (Eph & f & t & Ek & Hn & Hmv).
    assert (active x = true /\ is_settled x = false) as [Ha Hns] by (unfold active, is_waiting, is_settled; by rewrite Eph).
    destruct (tb_owns _ _ Ht i x (mv_session v) (mv_to v) Hx) as (s & Hs & Hown); [left; right; by exists v|].
    destruct (rekey_parts g (mv_from v) (mv_to v) (mv_session v)) as (Eo & Em & Hl).
    assert (manager_ok (rekeySession g (mv_from v) (mv_to v) (mv_session v))) as Hok1.
    { eapply rekey_ok; try done; [by apply (mo_serves _ _ _ _ _ Hmv)|by apply (mo_free _ _ _ _ _ Hmv)|by apply (mo_only _ _ _ _ _ Hmv)|].
      intros j y Hy Hay. rewrite (chain_one_active g j y i x Hc Hy Hx Hay Ha) in Hy. rewrite Hx in Hy. injection Hy as <-.
      split_and!; [done|done|]. rewrite Eph, Ek. cbn. rewrite Hn. split; [done|]. intros _. apply movers_rekey; try done. apply (tb_keys _ _ Ht). }
    destruct (mover_gone_ok _ i x v Hok1 (eq_trans (f_equal (fun m => m !! i) Em) Hx) Hv) as [Hput Hset].
    + unfold before_settled. by rewrite Em.
    + rewrite Eo. intros k s' Hks Hs' _. rewrite Hs in Hs'. injection Hs' as <-. apply Hl, elem_rekey in Hks as [[-> _]|(Hk1 & Hk2 & Hks)]; [done| |apply (tb_keys _ _ Ht)].
      by destruct (mo_only _ _ _ _ _ Hmv v Hv _ _ Hks eq_refl).
    + intros _. by apply mo_sessions in Hmv.
    + unfold mover_ends. cbn [negb]. destruct (drop_mover (sm_movers x) (mv_session v)) eqn:Ed; unfold update in *; cbn in *; rewrite Eph in *; [|done].
      by apply Hset.
  - specialize (Hd eq_refl). destruct (mover_gone_ok g i x v Hok Hx Hv Hb) as [Hput Hset].
    + intros k s _ _ Hrv. rewrite Hun in Hrv; [done|by rewrite Hd|done].
    + by rewrite Hd.
    + unfold mover_ends. unfold update in *. cbn in *. destruct (sm_phase x) eqn:Eph; try done. apply Hset; [unfold is_settled; by rewrite Eph|done|by rewrite Hd].
Qed.
End goes.
