(* ===== verification/SessionManagerRuns.v ===== *)
(** Every step of the manager keeps its invariants, and what follows for every run. *)
From S2P Require Import Prelude JsString Utf8 NodePath Json Sha256 SessionProtocol DocSession SessionManager SessionManagerProps SessionManagerTable SessionManagerSteps SessionManagerMutations SessionManagerMoves SessionManagerGoes.

Section runs.
Context `{Yjs, FastDiff, JsonHost, Host}.
Context (root defaultContent : jstr).
Implicit Types (g : manager) (a b i j r : nat) (x y : structure_mutation) (l : list (jstr * nat)) (k p f t : jstr) (v w : mover).

Abbreviation table_ok := (SessionManagerTable.table_ok root).
Abbreviation manager_ok := (SessionManagerSteps.manager_ok root).
Abbreviation own_path := (SessionManagerTable.own_path root).

(** * Sessions change, leave and come back *)

Lemma objects_ok g o : objects_like (mg_objects g) o -> manager_ok g -> manager_ok (g <| mg_objects := o |>).
Proof.
  intros Ho [Hc Ht]. split; [by apply (chain_same g)|]. apply (table_less root g _ (fun _ => true)); try done. unfold update. cbn. by rewrite filter_all.
Qed.

Lemma like_deleted s : like s (markDeleted s).
Proof. unfold markDeleted. by destruct (ss_deleted s). Qed.
Lemma marked_deleted s : ss_deleted (markDeleted s) = true.
Proof. unfold markDeleted. by destruct (ss_deleted s) eqn:E. Qed.
Lemma like_closed s : like s (DocSession.closed s).
Proof. done. Qed.
Lemma like_resumed s : like s (resumeAfterCloseFailure s).
Proof. unfold resumeAfterCloseFailure. by destruct (_ || _). Qed.

Lemma deleted_ok g p a :
  manager_ok g -> serves (mg_sessions g) p a ->
  let g1 := forget_session (g <| mg_objects := alter markDeleted a (mg_objects g) |>) a in
  manager_ok (g1 <| mg_sessions := sessions_delete (mg_sessions g1) p |>).
Proof.
  intros Hok Hs g1. assert (manager_ok g1) as Hok1.
  { unfold g1, forget_session. apply filter_ok; [apply objects_ok; [|done]; apply objects_like_alter, like_deleted|].
    intros k b Hkb HP _. cbn in HP. apply negb_false_iff, Nat.eqb_eq in HP as ->. unfold deleted, update. cbn. rewrite lookup_alter_eq.
    destruct (mg_objects g !! a) as [s|]; [apply marked_deleted|done]. }
  apply filter_ok; [done|]. intros k b Hkb HP. exfalso. cbn in HP. apply negb_false_iff, bool_decide_eq_true_1 in HP as ->.
  unfold g1, forget_session, update in Hkb. cbn in Hkb. apply elem_filter in Hkb as [Hkb Hne]. cbn in Hne. apply negb_true_iff, Nat.eqb_neq in Hne. by apply Hne, (Hs p).
Qed.

(** A session whose close has failed comes back. *)
Lemma readd_ok g p a s :
  manager_ok g -> (forall j y, mg_mutations g !! j = Some y -> active y = false) -> (forall b, (p, b) ∉ mg_sessions g) -> (forall k, (k, a) ∉ mg_sessions g) ->
  mg_objects g !! a = Some s -> own_path s p -> manager_ok (g <| mg_sessions := sessions_set (mg_sessions g) p a |>).
Proof.
  intros [Hc [Hk Hv He Ho Hu Hm Hph Hpa Hcl]] Halone Hp Ha Hs Hown. split; [by apply (chain_same g)|].
  assert (forall q b, (q, b) ∈ sessions_set (mg_sessions g) p a <-> q = p /\ b = a \/ q <> p /\ (q, b) ∈ mg_sessions g) as Hin by (intros q b; by apply elem_set).
  split; cbn [mg_sessions mg_objects mg_next mg_mutations mg_closed]; unfold update; cbn [mg_sessions mg_objects mg_next mg_mutations mg_closed]; try done.
  - by apply NoDup_set.
  - intros q q' b [[-> ->]|[_ Hb]]%Hin [[-> Eb]|[_ Hb']]%Hin; try done; [by destruct (Ha q')|subst b; by destruct (Ha q)|by eapply Hv].
  - intros q b [[-> ->]|[_ Hb]]%Hin; [eauto|by eapply He].
  - intros b Hb. destruct (Hu b Hb) as [|[|[q Hq]]]; [auto|auto|]. right. right. exists q. apply Hin. right. split; [|done]. intros ->. by destruct (Hp b).
  - intros i x Hx. eapply mutation_ok_inactive; [by eapply Halone|by eapply Hm].
  - intros q b z [[-> ->]|[_ Hb]]%Hin Hz; [|by apply Hpa]. rewrite Hs in Hz. injection Hz as <-. by left.
Qed.

(** * The manager closes *)

Lemma resume_ok g e : manager_ok g -> manager_ok (resume_session g e).
Proof.
  intros Hok. unfold resume_session. set (g1 := g <| mg_objects := _ |>).
  assert (manager_ok g1) by (apply objects_ok; [apply objects_like_alter, like_resumed|done]). destruct (negb _); [by apply schedule_ok|done].
Qed.

Lemma cancel_promise g k q : cancelIdleClose (g <| mg_closePromise := q |>) k = cancelIdleClose g k <| mg_closePromise := q |>.
Proof. unfold cancelIdleClose. change (mg_idleCloseTimers (g <| mg_closePromise := q |>)) with (mg_idleCloseTimers g). by destruct (mg_idleCloseTimers g !! k). Qed.
Lemma schedule_promise g k q : scheduleIdleClose (g <| mg_closePromise := q |>) k = scheduleIdleClose g k <| mg_closePromise := q |>.
Proof.
  unfold scheduleIdleClose. rewrite cancel_promise. generalize (cancelIdleClose g k). intros g1.
  change (inactive (g <| mg_closePromise := q |>)) with (inactive g). change (get_session (g <| mg_closePromise := q |>) k) with (get_session g k).
  destruct (inactive g); [done|]. destruct (get_session g k) as [a|]; [|done].
  change (isSessionInUse (g <| mg_closePromise := q |>) a) with (isSessionInUse g a). destruct (isSessionInUse g a); [done|].
  change (object_opened (g1 <| mg_closePromise := q |>) a) with (object_opened g1 a). by destruct (object_opened g1 a).
Qed.
Lemma resume_promise g e q : resume_session (g <| mg_closePromise := q |>) e = resume_session g e <| mg_closePromise := q |>.
Proof.
  unfold resume_session. change (g <| mg_closePromise := q |> <| mg_objects := alter resumeAfterCloseFailure e.2 (mg_objects (g <| mg_closePromise := q |>)) |>)
    with (g <| mg_objects := alter resumeAfterCloseFailure e.2 (mg_objects g) |> <| mg_closePromise := q |>).
  generalize (g <| mg_objects := alter resumeAfterCloseFailure e.2 (mg_objects g) |>). intros g1.
  change (isSessionInUse (g1 <| mg_closePromise := q |>) e.2) with (isSessionInUse g1 e.2). destruct (negb _); [apply schedule_promise|done].
Qed.
Lemma resumes_promise es g q : foldl resume_session g es <| mg_closePromise := q |> = foldl resume_session (g <| mg_closePromise := q |>) es.
Proof. revert g. induction es as [|e es IH]; intros g; [done|]. cbn. by rewrite IH, resume_promise. Qed.
Lemma resumes_ok es g : manager_ok g -> manager_ok (foldl resume_session g es).
Proof. revert g. induction es as [|e es IH]; intros g Hok; [done|]. by apply IH, resume_ok. Qed.

Lemma plain_settled g i x n l used threw : plain g i x -> mutation_ok n l used (x <| sm_phase := MSettled threw |>).
Proof. intros [_ _ _ Hm Hd _]. unfold mutation_ok, update. cbn. rewrite Hm, Hd. split_and!; [|done|done]. intros _ v Hv. by apply not_elem_of_nil in Hv. Qed.

(** What the last mutation leaves when it has closed the manager, and when it has not. *)
Definition freed g x := match sm_reservation x with Some r => delete r (mg_reservations g) | None => mg_reservations g end.

Lemma emptied_ok g g' i x :
  manager_ok g -> plain g i x -> sm_kind x = CloseAll ->
  chain_parts g' = (<[i := x <| sm_phase := MSettled false |>]> (mg_mutations g), freed g x, mg_tail g, mg_closing g, mg_closePromise g, true) ->
  mg_objects g' = mg_objects g -> mg_sessions g' = [] -> mg_next g' = mg_next g -> mg_clientCounts g' = ∅ -> mg_operationCounts g' = ∅ -> manager_ok g'.
Proof.
  intros [Hc Ht] Hp Ek E Eo El En Ecc Eoc. pose proof Hp as [Hx Hs Hb _ _ _]. destruct (ch_all _ Hc _ _ Hx Ek Hs) as [Hcl Hpr]. split.
  { apply (chain_settle g i x (x <| sm_phase := MSettled false |>) (mg_closing g) (mg_closePromise g) true); [done..|by rewrite Ek|by rewrite Hcl|exact E|by rewrite En]. }
  unfold chain_parts in E. injection E as Em _ _ _ _ Ed.
  assert (forall b, isSessionInUse g' b = false) as Hu by (intros b; unfold isSessionInUse, hasActiveOperations; by rewrite Ecc, Eoc, !lookup_empty).
  apply (table_general root g g' (fun _ => false)); rewrite ?Eo, ?El, ?En, ?Ed; try done.
  - apply objects_like_refl.
  - by induction (mg_sessions g).
  - intros k b _ _. by rewrite Hu.
  - intros b. by rewrite Hu.
  - intros j y. rewrite Em. intros [[<- <-]|[_ Hy]]%lookup_insert_Some; [split; [by apply (plain_settled g i)|done]|split; [|by apply (tb_phases _ _ Ht j)]].
    eapply mutation_ok_mono; [done| | |by apply (tb_mutations _ _ Ht j)]; [by intros e He; apply not_elem_of_nil in He|]. intros b. by rewrite Hu.
  - intros j y k a k' s _ Hka. by apply not_elem_of_nil in Hka.
  - intros j y a k. rewrite Em. intros [[<- <-]|[_ Hy]]%lookup_insert_Some; [|eauto].
    intros [[[E _]|(v & Hv & _)]|[E _]]; [done| |done]. by apply (no_movers x) in Hv; [|destruct Hp].
Qed.

Lemma reopened_ok g g' i x :
  manager_ok g -> plain g i x -> sm_kind x = CloseAll ->
  chain_parts g' = (<[i := x <| sm_phase := MSettled true |>]> (mg_mutations g), freed g x, mg_tail g, false, None, mg_closed g) ->
  mg_objects g' = mg_objects g -> mg_sessions g' = mg_sessions g -> mg_next g' = mg_next g -> (forall b, isSessionInUse g' b = isSessionInUse g b) -> manager_ok g'.
Proof.
  intros [Hc Ht] Hp Ek E Eo El En Hu. pose proof Hp as [Hx Hs Hb _ _ _]. destruct (ch_all _ Hc _ _ Hx Ek Hs) as [Hcl Hpr].
  destruct (ch_closing _ Hc Hcl) as (j & y & _ & Hpr' & Hy & _ & Hcd). rewrite Hpr in Hpr'. injection Hpr' as <-. rewrite Hx in Hy. injection Hy as <-. rewrite Hs in Hcd. split.
  { apply (chain_settle g i x (x <| sm_phase := MSettled true |>) false None (mg_closed g)); [done..|by rewrite Ek|by rewrite <- Hcd|exact E|by rewrite En]. }
  unfold chain_parts in E. injection E as Em _ _ _ _ Ed. apply (table_put root g g' i x (x <| sm_phase := MSettled true |>)); rewrite ?Ed, ?En; try done.
  - by apply (plain_settled g i).
  - intros k a k' s _ _ Hr. by apply (plain_still g i) in Hr.
  - intros a k [[[E _]|(v & Hv & _)]|[E _]]; [done| |done]. by apply (no_movers x) in Hv; [|destruct Hp].
Qed.

Lemma finish_close_ok g i x rejected : manager_ok g -> plain g i x -> sm_kind x = CloseAll -> manager_ok (finish_close g i x rejected).
Proof.
  intros Hok Hp Ek. unfold finish_close. destruct rejected; [rewrite resumes_promise; apply resumes_ok; by apply (reopened_ok g _ i x)|by apply (emptied_ok g _ i x)].
Qed.

(** * Steps *)

(** Calm leaves out three things that can happen: a session that has taken its new path and then
    fails, because its text or its snapshot cannot be written there; a session of a folder that
    fails although the move of the folder on disk has not; and the success on disk of the move
    of a folder below or above itself, which no file system makes.  [ExampleManager.v] shows the first
    two. *)
Definition calm g (e : manager_event) : bool :=
  match e with
  | MutationGoes i answer =>
      match mg_mutations g !! i with
      | Some x =>
          match answer, sm_phase x with
          | ADone ok, MMoving _ true => ok
          | ADone ok, MCompleting => negb (ok && match sm_kind x with MoveSubtree f t => nested f t | _ => false end)
          | AMoverEnds _ ok, _ => ok || bool_decide (sm_diskMove x = Some false)
          | _, _ => true
          end
      | None => true
      end
  | _ => true
  end.

Lemma plain_phase g i x phase :
  manager_ok g -> mg_mutations g !! i = Some x -> sm_phase x = phase ->
  match phase with MWaiting | MSettled _ | MCompleting | MMoving _ true => False | _ => True end -> plain g i x.
Proof.
  intros Hok Hx <- Hp. apply active_plain with (root := root); try done; [unfold active, is_waiting, is_settled|..]; destruct (sm_phase x); try done.
  - intros c [= -> ->]. done.
Qed.

Lemma goes_rebinds g i x a k g' :
  manager_ok g -> mg_mutations g !! i = Some x -> sm_phase x = MMoving a false -> (exists f, sm_kind x = MoveSession f k) -> is_Some (mg_objects g !! a) ->
  g' = to_phase (rebind_object root g a k) i x (MMoving a true) -> manager_ok g'.
Proof.
  intros Hok Hx Eph [f Ek] Ha ->. pose proof Hok as [Hc Ht]. destruct (plain_phase _ _ _ _ Hok Hx Eph I) as [_ Hs Hb Hm Hd Hun].
  pose proof (knows_phase _ _ _ _ Ht Hx) as Hk. rewrite Eph, Ek in Hk.
  apply (rebind_ok root g i x); try done.
  - unfold active, is_waiting, is_settled. by rewrite Eph.
  - unfold mutation_ok, update. cbn. rewrite Hm, Ek. split; [intros _ v Hv; by apply not_elem_of_nil in Hv|]. split; [done|exact Hk].
  - unfold phase_of_kind, update. cbn. by rewrite Ek.
  - intros b q [[E _]|(v & Hv & _)]; [by rewrite Eph in E|]. by apply no_movers in Hv.
  - intros b q [[[E [f' Ef]]|(v & Hv & _)]|[E _]]; unfold update in *; cbn in *; [|by apply (no_movers x) in Hv|done].
    injection E as ->. rewrite Ek in Ef. injection Ef as -> ->. by left.
  - exists k. left. split; [done|by exists f].
Qed.

Lemma goes_deletes g i x a p rest d invoked :
  manager_ok g -> mg_mutations g !! i = Some x -> sm_phase x = MDeleting a p rest d ->
  let g1 := forget_session (g <| mg_objects := alter markDeleted a (mg_objects g) |>) a in
  manager_ok (delete_next (g1 <| mg_sessions := sessions_delete (mg_sessions g1) p |>) i x rest (d || invoked)).
Proof.
  intros Hok Hx Eph g1. pose proof Hok as [Hc Ht]. pose proof (plain_phase _ _ _ _ Hok Hx Eph I) as Hp.
  pose proof (knows_phase _ _ _ _ Ht Hx) as Hk. pose proof (tb_phases _ _ Ht _ _ Hx) as Hf. unfold phase_of_kind, fits in Hf. rewrite Eph in Hk, Hf.
  apply (delete_next_ok root).
  - apply deleted_ok; [done|]. unfold knows in Hk. destruct (sm_kind x); try (by destruct rest as [|? ?], d); by destruct Hk.
  - by apply (plain_same g).
  - unfold knows in Hk. destruct (sm_kind x); try (by destruct rest as [|? ?], d). destruct Hk as [_ Hr]. by apply Forall_cons in Hr as [_ ?].
Qed.

Lemma goes_closes g i x a ok g' :
  manager_ok g -> mg_mutations g !! i = Some x -> sm_phase x = MClosing a -> mutation_goes root g i x (ADone ok) = Some g' -> manager_ok g'.
Proof.
  intros Hok Hx Eph. pose proof Hok as [Hc Ht]. pose proof (plain_phase _ _ _ _ Hok Hx Eph I) as Hp.
  pose proof (knows_phase _ _ _ _ Ht Hx) as Hk. pose proof (tb_phases _ _ Ht _ _ Hx) as Hf. unfold phase_of_kind, fits in Hf.
  assert (active x = true) as Ha by (unfold active, is_waiting, is_settled; by rewrite Eph).
  unfold mutation_goes. rewrite Eph in *. destruct (sm_kind x) as [| | | | |p|] eqn:Ek; try done. intros [= <-].
  destruct ok; [apply settle_plain; [|by apply (plain_same g)|by rewrite Ek]; apply objects_ok; [apply objects_like_alter, like_closed|done]|].
  assert (forall threw, manager_ok (settle_mutation g i x threw)) as Hset by (intros threw; apply settle_plain; try done; by rewrite Ek).
  destruct (object_failed g a); [|done]. destruct Hk as (Hfree & Hgone & _). destruct (tb_owns _ _ Ht i x a p Hx) as (s & Hs & Hown); [by right|].
  apply (readd_ok (settle_mutation g i x false) p a s); try done. intros j y. unfold settle_mutation, to_phase, put_mutation, update. cbn.
  intros [[<- <-]|[Hne Hy]]%lookup_insert_Some; [done|]. destruct (active y) eqn:Ea; [|done]. destruct Hne. by apply (chain_one_active g i x j y).
Qed.

Lemma goes_prepared g i x es f t :
  manager_ok g -> mg_mutations g !! i = Some x -> sm_phase x = MPreparing es -> sm_kind x = MoveSubtree f t ->
  manager_ok (put_mutation g i (x <| sm_phase := MCompleting |> <| sm_movers := map (mover_of f t) es |>)).
Proof.
  intros Hok Hx Eph Ek. pose proof Hok as [Hc Ht]. pose proof (plain_phase _ _ _ _ Hok Hx Eph I) as Hp. destruct Hp as [_ Hs Hb Hm Hd Hun].
  pose proof (knows_phase _ _ _ _ Ht Hx) as Hk. rewrite Eph, Ek in Hk.
  assert (forall v, v ∈ map (mover_of f t) es -> mv_rebound v = false) as Hnew by by intros v (e & -> & _)%list_elem_of_fmap.
  apply (put_mutation_ok root g i x); try done.
  - unfold mutation_ok, update. cbn. rewrite Ek, Hd. split; [by intros _|]. split; [done|]. split; [done|exact Hk].
  - unfold phase_of_kind, update. cbn. by rewrite Ek.
  - intros k a k' s _ _ [[E _]|(v & Hv & _)]; [by rewrite Eph in E|]. by apply no_movers in Hv.
  - intros a k [[[E _]|(v & Hv & _ & Hr & _)]|[E _]]; [done| |done]. by rewrite Hnew in Hr.
Qed.

Lemma goes_disk_moved g i x ok :
  manager_ok g -> mg_mutations g !! i = Some x -> sm_phase x = MCompleting -> sm_diskMove x = None ->
  (ok = true -> match sm_kind x with MoveSubtree f t => nested f t = false | _ => True end) -> manager_ok (put_mutation g i (x <| sm_diskMove := Some ok |>)).
Proof.
  intros Hok Hx Eph Hd Hn. pose proof Hok as [Hc Ht]. pose proof (knows_phase _ _ _ _ Ht Hx) as Hk. rewrite Eph in Hk.
  destruct (tb_mutations _ _ Ht _ _ Hx) as (Hun & _). rewrite Hd in Hun. specialize (Hun ltac:(done)).
  apply (put_mutation_ok root g i x); try done.
  - apply (active_before g i x); try done. unfold is_waiting. by rewrite Eph.
  - unfold mutation_ok, update. cbn. rewrite Eph. split; [by intros _|]. split; [done|]. unfold knows in *. destruct (sm_kind x) as [| |f t| | | |]; try done.
    destruct Hk as [_ Hk]. split; [|done]. intros Hnest [= ->]. by rewrite Hn in Hnest.
  - by apply (tb_phases _ _ Ht i x).
  - intros k a k' s _ _ [[E _]|(v & Hv & _ & Hr & _)]; [by rewrite Eph in E|]. by rewrite Hun in Hr.
  - intros a k Ho. left. exact Ho.
Qed.

Lemma goes_done g i x ok g' :
  manager_ok g -> mg_mutations g !! i = Some x -> mutation_goes root g i x (ADone ok) = Some g' -> calm g (MutationGoes i (ADone ok)) = true -> manager_ok g'.
Proof.
  intros Hok Hx Hg Hcalm. pose proof Hok as [Hc Ht]. pose proof (tb_phases _ _ Ht _ _ Hx) as Hf. unfold phase_of_kind, fits in Hf.
  cbn [calm] in Hcalm. rewrite Hx in Hcalm. pose proof (knows_phase _ _ _ _ Ht Hx) as Hk.
  destruct (sm_phase x) as [|a|a|a| |a rb|es| |a p rest d|rest|a|c|ops|pe rj|th] eqn:Eph; try (unfold mutation_goes in Hg; by rewrite Eph in Hg);
    try (pose proof (plain_phase _ _ _ _ Hok Hx Eph I) as Hp); try (by eapply goes_closes); unfold mutation_goes in Hg; rewrite Eph in Hg.
  - injection Hg as <-. apply phase_ok; try done; destruct (sm_kind x); try done; by destruct (object_opened g a).
  - injection Hg as <-. apply settle_plain; try done. by destruct (sm_kind x).
  - injection Hg as <-. apply settle_plain; try done. by destruct (sm_kind x).
  - destruct (sm_kind x) as [|f t| | | | |] eqn:Ek; try done. destruct rb.
    + subst ok. injection Hg as <-. by apply move_done_ok.
    + destruct ok; [done|]. injection Hg as <-. apply settle_plain; try done; [by apply (plain_phase _ _ _ _ Hok Hx Eph)|by rewrite Ek].
  - destruct (sm_kind x) as [| |f t| | | |] eqn:Ek; try done. injection Hg as <-. destruct ok; [by eapply goes_prepared|apply settle_plain; try done; by rewrite Ek].
  - destruct (sm_diskMove x) eqn:Ed; [done|]. injection Hg as <-. apply goes_disk_moved; try done. intros ->. destruct (sm_kind x); try done. by apply negb_true_iff in Hcalm.
  - injection Hg as <-. destruct ok; [|apply settle_plain; try done; by destruct (sm_kind x)]. apply (delete_next_ok root); try done. by destruct (sm_kind x).
  - destruct (forallb _ _); [|done]. injection Hg as <-. apply phase_ok; try done; by destruct (sm_kind x).
  - destruct (forallb _ _); [|done]. injection Hg as <-. destruct (sm_kind x) eqn:Ek; try done. unfold close_sessions.
    destruct (mg_sessions g).*2; [by apply finish_close_ok|]. apply phase_ok; try done; by rewrite Ek.
Qed.

Lemma mutation_goes_ok g i x answer g' :
  manager_ok g -> mg_mutations g !! i = Some x -> mutation_goes root g i x answer = Some g' -> calm g (MutationGoes i answer) = true -> manager_ok g'.
Proof.
  intros Hok Hx Hg Hcalm. pose proof Hok as [Hc Ht]. destruct answer as [ok|isFile isDirectory| |invoked ok|a|a ok|a ok].
  - by eapply goes_done.
  - unfold mutation_goes in Hg. destruct (sm_phase x) eqn:Eph; try done. injection Hg as <-. by apply stat_answered_ok.
  - unfold mutation_goes in Hg. destruct (sm_phase x) as [| | | | |a [|]| | | | | | | | |] eqn:Eph; try done. destruct (sm_kind x) as [|f t| | | | |] eqn:Ek; try done.
    destruct (object_deleted g a) eqn:Ed; [done|]. injection Hg as <-. eapply (goes_rebinds g i x a t); try done; [eauto|].
    unfold object_deleted in Ed. by destruct (mg_objects g !! a).
  - unfold mutation_goes in Hg. destruct (sm_phase x) eqn:Eph; try done. injection Hg as <-. destruct ok.
    + by apply goes_deletes.
    + apply settle_plain; [done|by apply (plain_phase _ _ _ _ Hok Hx Eph)|]. pose proof (tb_phases _ _ Ht _ _ Hx) as Hf. unfold phase_of_kind, fits in Hf.
      rewrite Eph in Hf. destruct (sm_kind x); try done; by repeat case_match.
  - assert (mutation_goes root g i x (AMoverRebinds a) = Some g' -> manager_ok g') as Hm; [|by apply Hm]. cbn [mutation_goes].
    destruct (find_mover (sm_movers x) a) as [v|] eqn:Ev; [|done]. cbn [mbind option_bind].
    destruct (bool_decide _ && _ && negb (object_deleted g a)) eqn:E; [|done]. apply andb_true_iff in E as [[Ed%bool_decide_eq_true_1 _]%andb_true_iff Eo%negb_true_iff].
    intros [= <-]. apply mover_rebinds_ok; try done. unfold object_deleted in Eo. by destruct (mg_objects g !! a).
  - cbn [calm] in Hcalm. rewrite Hx in Hcalm. cbn [mutation_goes] in Hg. destruct (find_mover (sm_movers x) a) as [v|] eqn:Ev; [|done].
    cbn [mbind option_bind] in Hg. destruct (ok && negb (mv_rebound v)) eqn:E; [done|]. injection Hg as <-. eapply mover_ends_ok; try done.
    + intros ->. cbn in E. by destruct (mv_rebound v).
    + intros ->. by apply bool_decide_eq_true_1 in Hcalm.
  - unfold mutation_goes in Hg. destruct (sm_phase x) as [| | | | | | | | | | | | |pe rj|] eqn:Eph; try done. case_bool_decide; [|done]. injection Hg as <-.
    pose proof (plain_phase _ _ _ _ Hok Hx Eph I) as Hp. pose proof (tb_phases _ _ Ht _ _ Hx) as Hf. unfold phase_of_kind, fits in Hf. rewrite Eph in Hf.
    assert (sm_kind x = CloseAll) as Ek by by destruct (sm_kind x).
    set (g1 := if ok then _ else g). assert (manager_ok g1 /\ plain g1 i x) as [Hok1 Hp1].
    { unfold g1. destruct ok; [|done]. split; [apply objects_ok; [apply objects_like_alter, like_closed|done]|by apply (plain_same g)]. }
    destruct (List.filter _ pe); [by apply finish_close_ok|]. apply phase_ok; try done; by rewrite Ek.
Qed.

Lemma session_runs_ok g a (s s' : session) :
  manager_ok g -> mg_objects g !! a = Some s -> like s s' -> manager_ok (g <| mg_objects := <[a := s']> (mg_objects g) |>).
Proof.
  intros Hok Hs Hl. apply objects_ok; [|done]. split.
  - intros b z. destruct (decide (a = b)) as [<-|Hne].
    + rewrite lookup_insert_eq. intros [= <-]. eauto.
    + rewrite lookup_insert_ne by done. intros Hz. exists z. split; [done|apply like_refl].
  - intros b [z Hz]. destruct (decide (a = b)) as [<-|Hne]; [rewrite lookup_insert_eq|rewrite lookup_insert_ne by done]; eauto.
Qed.

Lemma manager_step_ok g e g' : manager_ok g -> manager_step root defaultContent g e = Some g' -> calm g e = true -> manager_ok g'.
Proof.
  intros Hok Hstep Hcalm. destruct e as [k o|k kind|i|i|i|kind|i|i answer|i|a s]; cbn [manager_step] in Hstep.
  - injection Hstep as <-. destruct (getSession root defaultContent g k o) as [g1 res] eqn:E. by apply (getSession_ok root defaultContent g k o g1 res).
  - injection Hstep as <-. apply wait_ok. apply (core_ok root g); [done|unfold update; cbn; lia|done].
  - by eapply access_goes_ok.
  - injection Hstep as <-. by apply release_ok.
  - by eapply operation_ends_ok.
  - injection Hstep as <-. by apply call_mutation_ok.
  - destruct (mg_mutations g !! i) as [x|] eqn:Hx; [|done]. cbn [mbind option_bind] in Hstep. destruct (can_start g x) eqn:Hs; [|done].
    injection Hstep as <-. by apply mutation_starts_ok.
  - destruct (mg_mutations g !! i) as [x|] eqn:Hx; [|done]. cbn [mbind option_bind] in Hstep. by eapply mutation_goes_ok.
  - injection Hstep as <-. by apply idle_timer_ok.
  - destruct (mg_objects g !! a) as [old|] eqn:Ho; [|done]. cbn [mbind option_bind] in Hstep.
    case_bool_decide as Hl; [|done]. destruct Hl as (Ef & Ee & _ & Hd). injection Hstep as <-.
    assert (manager_ok (g <| mg_objects := <[a := s]> (mg_objects g) |>)) as Hok1 by by apply (session_runs_ok g a old).
    destruct (ss_deleted s && negb (ss_deleted old)) eqn:E; [|done]. apply andb_true_iff in E as [Es _]. apply filter_ok; [done|].
    intros k b _ HP _. cbn in HP. apply negb_false_iff, Nat.eqb_eq in HP as ->. unfold deleted, update. cbn. by rewrite lookup_insert_eq.
Qed.

(** * Runs *)

Fixpoint calm_run g (es : list manager_event) : option manager :=
  match es with [] => Some g | e :: es => if calm g e then g ← manager_step root defaultContent g e; calm_run g es else None end.

Lemma calm_run_ind (P : manager -> Prop) g es g' :
  P g -> (forall g1 e g2, P g1 -> manager_step root defaultContent g1 e = Some g2 -> calm g1 e = true -> P g2) -> calm_run g es = Some g' -> P g'.
Proof.
  intros Hg Hstep. revert g Hg. induction es as [|e es IH]; intros g Hg; cbn [calm_run]; [by intros [= <-]|].
  destruct (calm g e) eqn:Ec; [|done]. destruct (manager_step root defaultContent g e) as [g1|] eqn:Es; [|done].
  apply IH. by eapply Hstep.
Qed.

Lemma new_manager_ok : manager_ok new_manager.
Proof.
  split; split; intros *; cbn; rewrite ?lookup_empty; try done; try (intros Hin; by apply not_elem_of_nil in Hin). constructor.
Qed.

Lemma calm_run_ok es g : calm_run new_manager es = Some g -> manager_ok g.
Proof. apply calm_run_ind; [apply new_manager_ok|]. intros g1 e g2 Hok Hs Hc. by eapply manager_step_ok. Qed.
End runs.
