(* ===== verification/SessionManagerUses.v ===== *)
(** The counts of clients and operations of the manager are exact. *)
From S2P Require Import Prelude JsString Utf8 NodePath Json Sha256 SessionProtocol DocSession SessionManager.

#[local] Open Scope Z_scope.

Section sizes.
Context {A : Type} (P : nat * A -> Prop) `{!forall e, Decision (P e)}.
Implicit Types (m : gmap nat A) (v : A).

Lemma size_filter_insert m i v :
  m !! i = None -> size (filter P (<[i := v]> m)) = if decide (P (i, v)) then S (size (filter P m)) else size (filter P m).
Proof.
  intros Hi. rewrite map_filter_insert. case_decide.
  - apply map_size_insert_None. apply map_lookup_filter_None. by left.
  - by rewrite delete_id.
Qed.
Lemma size_filter_delete m i v :
  m !! i = Some v -> size (filter P m) = if decide (P (i, v)) then S (size (filter P (delete i m))) else size (filter P (delete i m)).
Proof.
  intros Hi. rewrite <- (insert_delete_id m i v Hi) at 1. rewrite size_filter_insert; [done|]. apply lookup_delete_eq.
Qed.
Lemma size_filter_replace m i v : ~ P (i, v) -> size (filter P (<[i := v]> m)) = size (filter P (delete i m)).
Proof. intros Hv. by rewrite map_filter_insert, decide_False. Qed.
Lemma size_filter_pos m : negb (size (filter P m) =? 0)%nat = true <-> exists i v, m !! i = Some v /\ P (i, v).
Proof.
  rewrite negb_true_iff, Nat.eqb_neq, map_size_ne_0_lookup. split.
  - intros (i & v & Hv). apply map_lookup_filter_Some in Hv. eauto.
  - intros (i & v & Hv). exists i, v. by apply map_lookup_filter_Some.
Qed.
End sizes.

Section uses.
Context `{Yjs, FastDiff, JsonHost, Host}.
Context (root defaultContent : jstr).
Implicit Types (g : manager) (a b i j r : nat) (x : structure_mutation) (k p : jstr) (c : gmap nat Z).

(** A count of [n] uses: no entry for none. *)
Definition exact c a (n : nat) : Prop := c !! a = match n with O => None | S _ => Some (Z.of_nat n) end.

Lemma exact_count c a b n : exact c b n -> exact (count_up c a) b (if decide (a = b) then S n else n).
Proof.
  unfold exact, count_up. intros E. case_decide as Hab; [subst b|by rewrite lookup_insert_ne]. rewrite lookup_insert_eq, E. destruct n; [done|]. cbn. f_equal. lia.
Qed.
Lemma exact_uncount c a b n : exact c b (if decide (a = b) then S n else n) -> exact (uncount c a) b n.
Proof.
  unfold exact, uncount. cbv zeta. intros E. case_decide as Hab.
  - subst b. rewrite E. cbn [default from_option id]. replace (Z.of_nat (S n) - 1) with (Z.of_nat n) by lia. destruct (0 <? Z.of_nat n) eqn:Hl.
    + destruct n; [done|]. by rewrite lookup_insert_eq.
    + destruct n; [by rewrite lookup_delete_eq|done].
  - destruct (_ <? _); [by rewrite lookup_insert_ne|by rewrite lookup_delete_ne].
Qed.
Lemma exact_used c a n : exact c a n -> (0 <? default 0 (c !! a)) = negb (n =? 0)%nat.
Proof. unfold exact. intros ->. by destruct n. Qed.

(** The clients that have not released a session, and the operations that run on it. *)
Definition uses_client a (e : nat * client_session) : Prop := cl_session e.2 = a /\ cl_released e.2 = false.
#[local] Instance uses_client_dec a e : Decision (uses_client a e).
Proof. unfold uses_client. apply _. Defined.
Definition clients_of g a : nat := size (filter (uses_client a) (mg_clients g)).
Definition operations_of g a : nat := size (filter (fun e : nat * session_operation => op_session e.2 = a) (mg_operations g)).

Record uses_ok g : Prop := {
  us_clients : forall i u, mg_clients g !! i = Some u -> (i < mg_next g)%nat;
  us_operations : forall i o, mg_operations g !! i = Some o -> (i < mg_next g)%nat;
  us_counts : mg_closed g = false -> forall a, exact (mg_clientCounts g) a (clients_of g a) /\ exact (mg_operationCounts g) a (operations_of g a)
}.

(** What does not use sessions. *)
Definition uses g := (mg_clientCounts g, mg_operationCounts g, mg_clients g, mg_operations g, mg_closed g).
Definition keeps g g' : Prop := uses g' = uses g /\ (mg_next g <= mg_next g')%nat.

Lemma keeps_refl g : keeps g g.
Proof. done. Qed.
Lemma keeps_trans g g1 g2 : keeps g g1 -> keeps g1 g2 -> keeps g g2.
Proof. intros [E L] [E' L']. split; [congruence|lia]. Qed.
Lemma keeps_ok g g' : keeps g g' -> uses_ok g -> uses_ok g'.
Proof.
  intros [E L] [Hc Ho Hx]. unfold uses in E. injection E as E1 E2 E3 E4 E5. split; unfold clients_of, operations_of; rewrite ?E1, ?E2, ?E3, ?E4, ?E5; try done.
  - intros i u Hi. pose proof (Hc _ _ Hi). lia.
  - intros i o Hi. pose proof (Ho _ _ Hi). lia.
Qed.

Lemma keeps_cancel g p : keeps g (cancelIdleClose g p).
Proof. unfold cancelIdleClose. by destruct (mg_idleCloseTimers g !! p). Qed.
Lemma keeps_schedule g p : keeps g (scheduleIdleClose g p).
Proof.
  unfold scheduleIdleClose. destruct (inactive g); [done|]. destruct (get_session g p) as [a|]; [|done]. destruct (isSessionInUse g a); [done|].
  eapply keeps_trans; [apply (keeps_cancel g p)|]. destruct (negb _); split; try done. unfold update. cbn. lia.
Qed.
Lemma keeps_rekey g p p' a : keeps g (rekeySession g p p' a).
Proof.
  unfold rekeySession. set (g1 := cancelIdleClose (cancelIdleClose g p) p'). assert (keeps g g1) as Hk.
  { eapply keeps_trans; [apply (keeps_cancel g p)|apply keeps_cancel]. }
  eapply keeps_trans; [exact Hk|]. destruct (negb _); [|done]. eapply keeps_trans; [|apply keeps_schedule]. done.
Qed.
Lemma keeps_delete_next g i x rest d : keeps g (delete_next g i x rest d).
Proof. induction rest as [|q rest IH]; cbn; [by destruct d|]. destruct (get_session g q); [done|]. by destruct d. Qed.
Lemma keeps_getSession g p o g' (res : result manager_error nat) : getSession root defaultContent g p o = (g', res) -> keeps g g'.
Proof.
  unfold getSession. intros E. destruct (inactive g); [by injection E as <- _|]. destruct (hasPathReservation g p); [by injection E as <- _|].
  destruct (get_session _ p); injection E as <- _; [apply keeps_cancel|]. eapply keeps_trans; [apply (keeps_cancel g p)|]. split; [done|]. unfold update. cbn. lia.
Qed.
Lemma keeps_wait g i (x : path_access) : keeps g (waitForPathAvailability g i x).
Proof. unfold waitForPathAvailability. by destruct (inactive g). Qed.
Lemma keeps_stat g i x session isFile isDirectory : keeps g (stat_answered g i x session isFile isDirectory).
Proof. unfold stat_answered. repeat (case_match; try done). Qed.
Lemma keeps_mover g i x (v : mover) ok : keeps g (mover_ends g i x v ok).
Proof.
  unfold mover_ends. set (g1 := if ok then _ else g). assert (keeps g g1) by (unfold g1; destruct ok; [apply keeps_rekey|done]).
  eapply keeps_trans; [done|]. repeat (case_match; try done).
Qed.
Lemma keeps_resumes es g : keeps g (foldl resume_session g es).
Proof.
  revert g. induction es as [|e es IH]; intros g; [done|]. eapply keeps_trans; [|apply IH]. unfold resume_session.
  destruct (negb _); [|done]. eapply keeps_trans; [|apply keeps_schedule]. done.
Qed.

Lemma finish_uses g i x rejected : uses_ok g -> uses_ok (finish_close g i x rejected).
Proof.
  unfold finish_close. destruct rejected.
  - match goal with |- context [foldl resume_session ?g1 ?es] => pose proof (keeps_resumes es g1) as Hk end.
    apply keeps_ok. eapply keeps_trans; [|eapply keeps_trans; [exact Hk|done]]. done.
  - intros [Hc Ho _]. split; [exact Hc| |done]. intros j o Ho'. unfold update in Ho'. cbn in Ho'. by rewrite lookup_empty in Ho'.
Qed.

Lemma mutation_starts_uses g i x : keeps g (mutation_starts g i x).
Proof.
  unfold mutation_starts. destruct (sm_kind x); try done; [by apply keeps_delete_next|]. eapply keeps_trans; [apply keeps_cancel|]. repeat (case_match; try done).
Qed.

(** A mutation uses no session; the last may close the manager. *)
Definition goes_on g g' : Prop := keeps g g' \/ exists g1 i x rejected, keeps g g1 /\ g' = finish_close g1 i x rejected.

Lemma mutation_goes_on g i x answer g' : mutation_goes root g i x answer = Some g' -> goes_on g g'.
Proof.
  destruct answer as [ok|isFile isDirectory| |invoked ok|a|a ok|a ok]; cbn [mutation_goes].
  - destruct (sm_phase x) as [|a|a|a| |a rb|es| |a p rest d|rest|a|c|ops|pe rj|th]; try done; try (intros [= <-]; by left).
    + destruct (sm_kind x); try (intros [= <-]; by left). destruct ok; [|intros [= <-]; by left].
      destruct rb; [|done]. intros [= <-]. left. eapply keeps_trans; [apply keeps_rekey|done].
    + destruct (sm_kind x); try done. intros [= <-]. left. by destruct ok.
    + destruct (sm_diskMove x); [done|]. intros [= <-]. by left.
    + intros [= <-]. left. destruct ok; [apply keeps_delete_next|done].
    + intros [= <-]. left. destruct ok; [done|]. destruct (object_failed g a); [|done]. by destruct (sm_kind x).
    + destruct (forallb _ _); [|done]. intros [= <-]. by left.
    + destruct (forallb _ _); [|done]. intros [= <-]. unfold close_sessions. destruct (mg_sessions g).*2; [right; by exists g, i, x, false|by left].
  - destruct (sm_phase x); try done. intros [= <-]. left. apply keeps_stat.
  - destruct (sm_phase x) as [| | | | |a [|]| | | | | | | | |]; try done. destruct (sm_kind x); try done. destruct (object_deleted g a); [done|]. intros [= <-]. by left.
  - destruct (sm_phase x); try done. intros [= <-]. left. destruct ok; [|done]. eapply keeps_trans; [|apply keeps_delete_next]. done.
  - destruct (find_mover _ a); [|done]. cbn [mbind option_bind]. destruct (_ && _); [|done]. intros [= <-]. by left.
  - destruct (find_mover _ a); [|done]. cbn [mbind option_bind]. destruct (_ && _); [done|]. intros [= <-]. left. apply keeps_mover.
  - destruct (sm_phase x); try done. case_bool_decide; [|done]. intros [= <-]. set (g1 := if ok then _ else g).
    assert (keeps g g1) by (unfold g1; by destruct ok). destruct (List.filter _ _); [right; by eexists g1, i, x, _|left]. by eapply keeps_trans.
Qed.

Lemma goes_on_ok g g' : goes_on g g' -> uses_ok g -> uses_ok g'.
Proof. intros [Hk|(g1 & i & x & rejected & Hk & ->)] Hok; [by apply (keeps_ok g)|]. apply finish_uses. by apply (keeps_ok g). Qed.


(** * Clients and operations come and go *)

Lemma attach_uses g a p : uses_ok g ->
  uses_ok (g <| mg_clientCounts := count_up (mg_clientCounts g) a |> <| mg_next := S (mg_next g) |>
             <| mg_clients := <[mg_next g := {| cl_session := a; cl_path := p; cl_released := false |}]> (mg_clients g) |>).
Proof.
  intros [Hc Ho Hx]. split; unfold update; cbn.
  - intros i u [[<- _]|[_ Hi]]%lookup_insert_Some; [lia|]. pose proof (Hc _ _ Hi). lia.
  - intros i o Hi. pose proof (Ho _ _ Hi). lia.
  - intros Hcl b. destruct (Hx Hcl b) as [Hxc Hxo]. split; [|exact Hxo]. apply (exact_count _ a) in Hxc. unfold clients_of in *. cbn. rewrite size_filter_insert.
    + revert Hxc. unfold uses_client. cbn. repeat case_decide; naive_solver.
    + destruct (mg_clients g !! mg_next g) as [u|] eqn:E; [|done]. pose proof (Hc _ _ E). lia.
Qed.

Lemma operate_uses g a p : uses_ok g ->
  uses_ok (g <| mg_operationCounts := count_up (mg_operationCounts g) a |> <| mg_next := S (mg_next g) |>
             <| mg_operations := <[mg_next g := {| op_session := a; op_path := p |}]> (mg_operations g) |>).
Proof.
  intros [Hc Ho Hx]. split; unfold update; cbn.
  - intros i u Hi. pose proof (Hc _ _ Hi). lia.
  - intros i o [[<- _]|[_ Hi]]%lookup_insert_Some; [lia|]. pose proof (Ho _ _ Hi). lia.
  - intros Hcl b. destruct (Hx Hcl b) as [Hxc Hxo]. split; [exact Hxc|]. apply (exact_count _ a) in Hxo. unfold operations_of in *. cbn. rewrite size_filter_insert.
    + revert Hxo. cbn. repeat case_decide; naive_solver.
    + destruct (mg_operations g !! mg_next g) as [u|] eqn:E; [|done]. pose proof (Ho _ _ E). lia.
Qed.

Lemma access_goes_uses g i g' : access_goes root defaultContent g i = Some g' -> uses_ok g -> uses_ok g'.
Proof.
  unfold access_goes. destruct (mg_accesses g !! i) as [x|]; [|done]. cbn [mbind option_bind]. destruct (pa_phase x).
  - destruct (forallb _ _); [|done]. intros [= <-]. apply keeps_ok, keeps_wait.
  - destruct (access_operation root defaultContent g x) as [g1 ok] eqn:E. intros [= <-] Hok. assert (uses_ok g1) as Hok1.
    + unfold access_operation in E. destruct (pa_kind x) as [|o].
      * destruct (getSession _ _ _ _ _) as [g2 [a|e]] eqn:Eg; injection E as <- <-; pose proof (keeps_ok _ _ (keeps_getSession _ _ _ _ _ Eg) Hok) as Hok2; [|done].
        apply (attach_uses (cancelIdleClose g2 (pa_path x))). by apply (keeps_ok _ _ (keeps_cancel g2 (pa_path x))).
      * destruct (getSession _ _ _ _ _) as [g2 [a|e]] eqn:Eg; injection E as <- <-;
          pose proof (keeps_ok _ _ (keeps_trans _ _ _ (keeps_cancel g (pa_path x)) (keeps_getSession _ _ _ _ _ Eg)) Hok) as Hok2; [|done].
        by apply (operate_uses g2).
    + destruct (negb ok && _); [by apply (keeps_ok _ _ (keeps_wait g1 i x))|by apply (keeps_ok g1)].
Qed.

Lemma release_uses g i : uses_ok g -> uses_ok (release g i).
Proof.
  intros Hok. unfold release. destruct (mg_clients g !! i) as [[a p []]|] eqn:Ei; try done.
  match goal with |- context [hasActiveOperations ?g1 a] => set (g2 := g1) end. assert (uses_ok g2) as Hok2.
  { destruct Hok as [Hc Ho Hx]. split; unfold g2, update; cbn.
    - intros j u [[<- _]|[_ Hj]]%lookup_insert_Some; by eapply Hc.
    - exact Ho.
    - intros Hcl b. destruct (Hx Hcl b) as [Hxc Hxo]. split; [|exact Hxo]. unfold clients_of in *. cbn. apply exact_uncount.
      rewrite size_filter_replace by by intros [_ ?]. rewrite (size_filter_delete _ _ _ _ Ei) in Hxc. revert Hxc. unfold uses_client. cbn. repeat case_decide; naive_solver. }
  case_bool_decide; [done|]. destruct (hasActiveOperations g2 a); [done|]. by apply (keeps_ok _ _ (keeps_schedule g2 _)).
Qed.

Lemma operation_ends_uses g i g' : operation_ends g i = Some g' -> uses_ok g -> uses_ok g'.
Proof.
  unfold operation_ends. destruct (mg_operations g !! i) as [x|] eqn:Ei; [|done]. cbn [mbind option_bind]. intros [= <-] Hok.
  match goal with |- context [isSessionInUse ?g1 _] => set (g2 := g1) end. assert (uses_ok g2) as Hok2.
  { destruct Hok as [Hc Ho Hx]. split; unfold g2, update; cbn.
    - exact Hc.
    - intros j u Hj. apply lookup_delete_Some in Hj as [_ Hj]. by eapply Ho.
    - intros Hcl b. destruct (Hx Hcl b) as [Hxc Hxo]. split; [exact Hxc|]. unfold operations_of in *. cbn. apply exact_uncount.
      rewrite (size_filter_delete _ _ _ _ Ei) in Hxo. revert Hxo. cbn. repeat case_decide; naive_solver. }
  destruct (negb _); [by apply (keeps_ok _ _ (keeps_schedule g2 _))|done].
Qed.

Lemma call_uses g kind : keeps g (call_mutation g kind).
Proof.
  assert (forall m, keeps g (reserved_mutation g m kind)) as Hr.
  { intros m. unfold reserved_mutation. destruct (inactive g); [done|]. split; [done|]. unfold update. cbn. lia. }
  unfold call_mutation. destruct kind; cbn [reservation_of]; try done; try apply Hr. unfold call_close. destruct (mg_closePromise g); [done|]. split; [done|]. unfold update. cbn. lia.
Qed.

Lemma manager_step_uses g e g' : manager_step root defaultContent g e = Some g' -> uses_ok g -> uses_ok g'.
Proof.
  destruct e as [k o|k kind|i|i|i|kind|i|i answer|i|a s]; cbn [manager_step].
  - intros [= <-]. destruct (getSession root defaultContent g k o) as [g1 res] eqn:E. by apply keeps_ok, (keeps_getSession g k o g1 res).
  - intros [= <-]. apply keeps_ok. eapply keeps_trans; [|apply keeps_wait]. split; [done|]. unfold update. cbn. lia.
  - apply access_goes_uses.
  - intros [= <-]. apply release_uses.
  - apply operation_ends_uses.
  - intros [= <-]. apply keeps_ok, call_uses.
  - destruct (mg_mutations g !! i) as [x|]; [|done]. cbn [mbind option_bind]. destruct (can_start g x); [|done]. intros [= <-]. apply keeps_ok, mutation_starts_uses.
  - destruct (mg_mutations g !! i) as [x|]; [|done]. intros Hg. by eapply goes_on_ok, mutation_goes_on.
  - intros [= <-]. apply keeps_ok. unfold idle_timer_fires. destruct (mg_timers g !! i); [|done]. set (g1 := g <| mg_timers := _ |>).
    destruct (mg_closing g1); [done|]. destruct (inactive g1); [done|]. split; [done|]. unfold update. cbn. lia.
  - destruct (mg_objects g !! a) as [old|]; [|done]. cbn [mbind option_bind]. case_bool_decide; [|done]. intros [= <-]. apply keeps_ok.
    by destruct (ss_deleted s && negb (ss_deleted old)).
Qed.

Lemma new_manager_uses : uses_ok new_manager.
Proof.
  split; [intros *; cbn; by rewrite lookup_empty..|]. intros _ a. unfold clients_of, operations_of, exact. cbn. by rewrite !map_filter_empty, !map_size_empty, !lookup_empty.
Qed.

(** A session is in use while a client holds it or an operation runs on it. *)
Lemma in_use_spec g a : uses_ok g -> mg_closed g = false ->
  isSessionInUse g a = true <->
  (exists i u, mg_clients g !! i = Some u /\ cl_session u = a /\ cl_released u = false) \/ (exists i o, mg_operations g !! i = Some o /\ op_session o = a).
Proof.
  intros [_ _ Hx] Hcl. destruct (Hx Hcl a) as [Hxc Hxo]. unfold isSessionInUse, hasActiveOperations. rewrite (exact_used _ _ _ Hxc), (exact_used _ _ _ Hxo).
  unfold clients_of, operations_of. by rewrite orb_true_iff, !size_filter_pos.
Qed.
End uses.
