(* ===== verification/SessionManagerServed.v ===== *)
(** What the manager of document sessions promises in every calm run: one in which no session
    fails to move once it has taken its new path, no session of a folder that is moved fails
    unless the move on disk has failed, and no folder moves below or above itself ([calm] of
    [SessionManagerRuns.v]).  Such failures happen, and the runs of [ExampleManager.v] show
    what they break. *)
From S2P Require Import Prelude JsString Utf8 NodePath Json Sha256 SessionProtocol DocSession SessionManager SessionManagerProps SessionManagerTable SessionManagerSteps SessionManagerMutations SessionManagerMoves SessionManagerGoes SessionManagerRuns SessionManagerUses.

Section served.
Context `{Yjs, FastDiff, JsonHost, Host}.
Context (root defaultContent : jstr).
Implicit Types (g : manager) (a b i j r : nat) (x y : structure_mutation) (k p f t : jstr).

Abbreviation table_ok := (SessionManagerTable.table_ok root).
Abbreviation manager_ok := (SessionManagerSteps.manager_ok root).
Abbreviation calm_run := (SessionManagerRuns.calm_run root defaultContent).

Lemma calm_run_uses es g : calm_run new_manager es = Some g -> uses_ok g.
Proof. apply calm_run_ind; [apply new_manager_uses|]. intros g1 e g2 Hok Hs _. by eapply manager_step_uses. Qed.

Lemma get_session_spec g k a : table_ok g -> get_session g k = Some a <-> (k, a) ∈ mg_sessions g.
Proof. intros Ht. split; [apply sessions_get_elem|]. apply sessions_get_in. apply (tb_keys _ _ Ht). Qed.

(** * Sessions that are used *)

(** C7: In every calm run, a session that a client holds, or that an operation runs on, is in the
    table, so that whoever asks for its path next gets the same session: unless its document
    has been deleted, or the manager has closed.  Calm excludes a session that fails to write
    under its new path after it has taken it, a session of a folder that fails to move although
    the move of the folder on disk has not failed, and a folder that moves below or above
    itself: after the first failure of a folder move the other sessions of the folder still
    move, when its paths are no longer reserved. *)
Theorem used_sessions_served es g a :
  calm_run new_manager es = Some g -> mg_closed g = false -> object_deleted g a = false ->
  (exists i u, mg_clients g !! i = Some u /\ cl_session u = a /\ cl_released u = false) \/ (exists i o, mg_operations g !! i = Some o /\ op_session o = a) ->
  exists k, get_session g k = Some a.
Proof.
  intros Hr Hcl Hd Hu. destruct (calm_run_ok _ _ _ _ Hr) as [_ Ht]. pose proof (calm_run_uses _ _ Hr) as Hus.
  apply (in_use_spec g a Hus Hcl) in Hu. destruct (tb_used _ _ Ht a Hu) as [Hc|[Hc|[k Hk]]]; [congruence| |exists k; by apply get_session_spec].
  unfold deleted in Hc. unfold object_deleted in Hd. congruence.
Qed.

(** * The files of sessions *)

Lemma rebinds_serves g i x a k : table_ok g -> mg_mutations g !! i = Some x -> rebinds x a k -> serves (mg_sessions g) k a.
Proof.
  intros Ht Hx [[E [f Ek]]|(v & Hv & <- & Hr & <-)].
  - pose proof (knows_phase root g i x Ht Hx) as Hk. rewrite E, Ek in Hk. by destruct Hk as (_ & ? & _).
  - destruct (tb_mutations _ _ Ht _ _ Hx) as (Hun & _). assert (sm_diskMove x = Some true) as Hd.
    { destruct (decide (sm_diskMove x = Some true)) as [|Hd]; [done|]. by rewrite (Hun Hd v Hv) in Hr. }
    destruct (moving_folder root g i x v Ht Hx Hv Hd) as (_ & f & t & _ & _ & Hmv). by apply (mo_free _ _ _ _ _ Hmv).
Qed.

Lemma rebinds_unique g i x a b k : manager_ok g -> mg_mutations g !! i = Some x -> rebinds x a k -> rebinds x b k -> a = b.
Proof.
  intros [Hc Ht] Hx [[E Ek]|(v & Hv & <- & Hr & Et)] [[E' Ek']|(w & Hw & <- & Hr' & Et')]; [congruence|..];
    destruct (tb_mutations _ _ Ht _ _ Hx) as (Hun & Hm & _).
  - rewrite E in Hm. destruct Hm as [Hm _]. rewrite Hm in Hw. by apply not_elem_of_nil in Hw.
  - rewrite E' in Hm. destruct Hm as [Hm _]. rewrite Hm in Hv. by apply not_elem_of_nil in Hv.
  - assert (sm_diskMove x = Some true) as Hd.
    { destruct (decide (sm_diskMove x = Some true)) as [|Hd]; [done|]. by rewrite (Hun Hd v Hv) in Hr. }
    destruct (moving_folder root g i x v Ht Hx Hv Hd) as (_ & f & t & _ & _ & Hmv).
    destruct (mo_shape _ _ _ _ _ Hmv v Hv) as (rv & Efv & Etv), (mo_shape _ _ _ _ _ Hmv w Hw) as (rw & Efw & Etw).
    apply (mo_paths _ _ _ _ _ Hmv v w Hv Hw). rewrite Etv in Et. rewrite Etw, <- Et in Et'. do 2 apply app_inv_head in Et'. congruence.
Qed.

(** C8: In every calm run (no session fails to move once it has taken its new path, none fails to
    move with its folder unless the move on disk has failed, and no folder moves below or above
    itself), every session of the table
    writes the file of the path it reports, and no two of them report the same path; the path
    is the one it is found under, unless a mutation that runs is moving this very session
    there. *)
Theorem sessions_own_files es g k k' a b (s s' : session) :
  calm_run new_manager es = Some g -> get_session g k = Some a -> get_session g k' = Some b ->
  mg_objects g !! a = Some s -> mg_objects g !! b = Some s' ->
  ss_filePath s = toFilePath root (ss_eventPath s) /\ (ss_eventPath s = ss_eventPath s' -> a = b) /\
  (ss_eventPath s = k \/ exists i x, mg_mutations g !! i = Some x /\ active x = true /\ rebinds x a (ss_eventPath s)).
Proof.
  intros Hr Ha Hb Hs Hs'. pose proof (calm_run_ok _ _ _ _ Hr) as [Hc Ht]. apply get_session_spec in Ha, Hb; [|done..].
  assert (forall q c z, (q, c) ∈ mg_sessions g -> mg_objects g !! c = Some z ->
    ss_filePath z = toFilePath root (ss_eventPath z) /\ (ss_eventPath z = q \/ exists i x, mg_mutations g !! i = Some x /\ rebinds x c (ss_eventPath z))) as Hone.
  { intros q c z Hqc Hz. destruct (tb_paths _ _ Ht _ _ _ Hqc Hz) as [[-> ->]|(i & x & k0 & Hx & Hre)]; [by auto|].
    destruct (tb_owns _ _ Ht i x c k0 Hx (or_introl Hre)) as (z' & Hz' & [E1 E2]). rewrite Hz in Hz'. injection Hz' as <-.
    rewrite E1. split; [done|]. right. eauto. }
  destruct (Hone k a s Ha Hs) as [Hf Hp], (Hone k' b s' Hb Hs') as [Hf' Hp']. split_and!; [done| |].
  - intros E. rewrite <- E in Hp'. destruct Hp as [Hp|(i & x & Hx & Hre)], Hp' as [Hp'|(j & y & Hy & Hre')].
    + subst k k'. by eapply table_keys_unique; [apply (tb_keys _ _ Ht)| |].
    + apply (rebinds_serves g j y b (ss_eventPath s) Ht Hy Hre' k a Ha). done.
    + symmetry. apply (rebinds_serves g i x a (ss_eventPath s) Ht Hx Hre k' b Hb). done.
    + pose proof (rebinds_active _ _ _ _ _ _ (tb_mutations _ _ Ht _ _ Hx) Hre) as Hax. pose proof (rebinds_active _ _ _ _ _ _ (tb_mutations _ _ Ht _ _ Hy) Hre') as Hay.
      rewrite (chain_one_active g i x j y Hc Hx Hy Hax Hay) in Hx. rewrite Hx in Hy. injection Hy as <-. by eapply (rebinds_unique g j x); [done|exact Hx| |].
  - destruct Hp as [Hp|(i & x & Hx & Hre)]; [by left|right]. exists i, x. split; [done|]. split; [|exact Hre]. by eapply rebinds_active, Hre; apply (tb_mutations _ _ Ht i).
Qed.

(** * Idle sessions *)

Lemma reserved_spec g i x m k : chain_ok g -> mg_mutations g !! i = Some x -> is_settled x = false -> reservation_of (sm_kind x) = Some m ->
  matches m k = true -> hasPathReservation g k = true.
Proof.
  intros Hc Hx Hs Hm Hk. destruct (ch_reserved _ Hc _ _ _ Hx Hs Hm) as (r & _ & Hr). unfold hasPathReservation. apply existsb_exists.
  exists (r, m). split; [|done]. apply list_elem_of_In. by apply elem_of_map_to_list.
Qed.

(** C9: In every calm run (no session fails to move once it has taken its new path, none fails to
    move with its folder unless the move on disk has failed, and no folder moves below or above
    itself), a session that is being closed
    because it was idle is used by nobody and can be reached by nobody: it is in the table
    under no path, and its path has no session and is reserved. *)
Theorem idle_close_alone es g i x p a :
  calm_run new_manager es = Some g -> mg_mutations g !! i = Some x -> sm_kind x = CloseIdle p -> sm_phase x = MClosing a ->
  isSessionInUse g a = false /\ (forall k, get_session g k <> Some a) /\ get_session g p = None /\ hasPathReservation g p = true.
Proof.
  intros Hr Hx Ek Eph. destruct (calm_run_ok _ _ _ _ Hr) as [Hc Ht]. pose proof (knows_phase root g i x Ht Hx) as Hk. rewrite Ek, Eph in Hk.
  destruct Hk as (Hp & Ha & Hu & _). split_and!; [done| | |].
  - intros k Hka%sessions_get_elem. by apply (Ha k).
  - destruct (get_session g p) as [b|] eqn:E; [|done]. apply sessions_get_elem in E. by destruct (Hp b).
  - apply (reserved_spec g i x (Exact [p])); try done; [unfold is_settled; by rewrite Eph|by rewrite Ek|]. cbn. rewrite bool_decide_eq_true. by left.
Qed.

(** * Structure mutations *)

(** One that has not settled keeps its paths to itself: no session comes into being there. *)
Theorem reserved_paths_refused es g i x m k override :
  calm_run new_manager es = Some g -> mg_mutations g !! i = Some x -> is_settled x = false -> reservation_of (sm_kind x) = Some m -> matches m k = true ->
  exists e, getSession root defaultContent g k override = (g, Err e).
Proof.
  intros Hr Hx Hs Hm Hk. destruct (calm_run_ok _ _ _ _ Hr) as [Hc _]. unfold getSession. destruct (inactive g); [eauto|].
  rewrite (reserved_spec g i x m k Hc Hx Hs Hm Hk). eauto.
Qed.

(** C10: In every calm run they run one at a time in the order of the calls, and never wait for each other forever: while
    one has not settled, one runs or can start. *)
Theorem mutations_in_order es g i x :
  calm_run new_manager es = Some g -> mg_mutations g !! i = Some x -> is_settled x = false ->
  (is_waiting x = false -> forall j y, mg_mutations g !! j = Some y -> (j < i)%nat -> is_settled y = true) /\
  exists j y, (j <= i)%nat /\ mg_mutations g !! j = Some y /\ (active y = true \/ can_start g y = true).
Proof.
  intros Hr Hx Hs. destruct (calm_run_ok _ _ _ _ Hr) as [Hc _]. split; [intros Hw; by apply (active_before g i x)|].
  revert x Hx Hs. induction (lt_wf i) as [i _ IH]. intros x Hx Hs. destruct (is_waiting x) eqn:Ew; [|exists i, x; unfold active; by rewrite Ew, Hs; auto].
  destruct (can_start g x) eqn:Est; [eauto 10|]. unfold can_start in Est. unfold is_waiting in Ew. destruct (sm_phase x); try done.
  destruct (sm_previous x) as [q|] eqn:Eq; [|done]. destruct (ch_waits _ Hc _ _ _ Hx Eq) as [Hlt [y Hy]]. unfold settled in Est. rewrite Hy in Est.
  destruct (IH q Hlt y Hy) as (j & z & Hj & Hz & Ho); [done|]. exists j, z. split; [lia|done].
Qed.

(** * The manager closes *)

Lemma keeps_closed g g' : keeps g g' -> mg_closed g' = mg_closed g.
Proof. intros [E _]. unfold uses in E. congruence. Qed.

Lemma closed_alone g i x : chain_ok g -> mg_closed g = true -> mg_mutations g !! i = Some x -> is_settled x = true.
Proof.
  intros Hc Hcl Hx. destruct (mg_closing g) eqn:E; [|destruct (ch_promise _ Hc E); congruence].
  destruct (ch_closing _ Hc E) as (t & z & Ht & _ & Hz & _ & Hs). rewrite Hcl in Hs. destruct (ch_tail _ Hc _ _ Hx) as (t' & Ht' & Hle). rewrite Ht in Ht'. injection Ht' as <-.
  destruct (decide (i = t)) as [->|Hne]; [rewrite Hz in Hx; by injection Hx as <-|]. apply (ch_serial _ Hc t z i x Hz Hx); [lia|]. unfold is_settled, is_waiting in *. by destruct (sm_phase z).
Qed.

(** In a closed manager, nothing comes into the table. *)
Lemma goes_settled g i x answer g' :
  table_ok g -> mg_mutations g !! i = Some x -> is_settled x = true -> mutation_goes root g i x answer = Some g' -> mg_sessions g' = mg_sessions g.
Proof.
  intros Ht Hx Hs Hg. destruct (tb_mutations _ _ Ht _ _ Hx) as (Hun & Hm & _). unfold is_settled in Hs. destruct (sm_phase x) eqn:Eph; try done.
  destruct answer; cbn [mutation_goes] in Hg; rewrite ?Eph in Hg; try done; destruct (find_mover (sm_movers x) session) as [v|] eqn:Ev; try done; cbn [mbind option_bind] in Hg;
    apply find_mover_in in Ev as [Hv _].
  - destruct (_ && _); [|done]. by injection Hg as <-.
  - assert (sm_movers x <> []) as Hne by (intros E; rewrite E in Hv; by apply not_elem_of_nil in Hv). rewrite (Hun (Hm Hne) v Hv) in Hg.
    destruct ok; [done|]. injection Hg as <-. unfold mover_ends. change (sm_phase (x <| sm_movers := drop_mover (sm_movers x) (mv_session v) |>)) with (sm_phase x). by rewrite Eph.
Qed.

Lemma schedule_inactive g p : inactive g = true -> scheduleIdleClose g p = g.
Proof. unfold scheduleIdleClose. by intros ->. Qed.
Lemma cancel_sessions g p : mg_sessions (cancelIdleClose g p) = mg_sessions g.
Proof. unfold cancelIdleClose. by destruct (mg_idleCloseTimers g !! p). Qed.
Lemma wait_sessions g i (x : path_access) : mg_sessions (waitForPathAvailability g i x) = mg_sessions g.
Proof. unfold waitForPathAvailability. by destruct (inactive g). Qed.

Lemma getSession_inactive g p o : inactive g = true -> getSession root defaultContent g p o = (g, Err ManagerClosed).
Proof. unfold getSession. by intros ->. Qed.

Lemma closed_step g e g' :
  manager_ok g -> mg_closed g = true -> mg_sessions g = [] -> manager_step root defaultContent g e = Some g' -> mg_sessions g' = [].
Proof.
  intros [Hc Ht] Hcl Hl Hstep. assert (inactive g = true) as Hi by (unfold inactive; by rewrite Hcl, orb_true_r).
  destruct e as [k o|k kind|i|i|i|kind|i|i answer|i|a s]; cbn [manager_step] in Hstep.
  - rewrite getSession_inactive in Hstep by done. by injection Hstep as <-.
  - injection Hstep as <-. unfold call_access. by rewrite wait_sessions.
  - unfold access_goes in Hstep. destruct (mg_accesses g !! i) as [x|]; [|done]. cbn [mbind option_bind] in Hstep. destruct (pa_phase x).
    + destruct (forallb _ _); [|done]. injection Hstep as <-. by rewrite wait_sessions.
    + assert (exists g1, access_operation root defaultContent g x = (g1, false) /\ mg_sessions g1 = []) as (g1 & E & Hl1).
      { unfold access_operation. destruct (pa_kind x); [rewrite getSession_inactive by done; eauto|].
        rewrite getSession_inactive; [eexists; split; [done|by rewrite cancel_sessions]|]. unfold cancelIdleClose. by destruct (mg_idleCloseTimers g !! pa_path x). }
      rewrite E in Hstep. injection Hstep as <-. cbn [negb andb]. destruct (hasPathReservation g1 (pa_path x)); [by rewrite wait_sessions|done].
  - injection Hstep as <-. unfold release. destruct (mg_clients g !! i) as [[a p []]|]; try done. case_bool_decide; [done|].
    destruct (hasActiveOperations _ a); [done|]. by rewrite schedule_inactive.
  - unfold operation_ends in Hstep. destruct (mg_operations g !! i) as [x|]; [|done]. cbn [mbind option_bind] in Hstep. injection Hstep as <-.
    destruct (negb _); [by rewrite schedule_inactive|done].
  - injection Hstep as <-. unfold call_mutation. destruct kind; cbn [reservation_of]; try done; try (unfold reserved_mutation; by rewrite Hi).
    unfold call_close. by destruct (mg_closePromise g).
  - destruct (mg_mutations g !! i) as [x|] eqn:Hx; [|done]. cbn [mbind option_bind] in Hstep. pose proof (closed_alone _ _ _ Hc Hcl Hx) as Hs.
    unfold can_start, is_settled in *. by destruct (sm_phase x).
  - destruct (mg_mutations g !! i) as [x|] eqn:Hx; [|done]. cbn [mbind option_bind] in Hstep. pose proof (closed_alone _ _ _ Hc Hcl Hx) as Hs.
    by rewrite (goes_settled g i x answer g' Ht Hx Hs Hstep).
  - injection Hstep as <-. unfold idle_timer_fires. destruct (mg_timers g !! i); [|done]. set (g1 := g <| mg_timers := _ |>).
    destruct (mg_closing g1); [done|]. by destruct (inactive g1).
  - destruct (mg_objects g !! a) as [old|]; [|done]. cbn [mbind option_bind] in Hstep. case_bool_decide; [|done]. injection Hstep as <-.
    destruct (ss_deleted s && negb (ss_deleted old)); [|done]. unfold forget_session, update. cbn. by rewrite Hl.
Qed.

Lemma step_closes g e g' :
  manager_step root defaultContent g e = Some g' -> mg_closed g' = mg_closed g \/ mg_sessions g' = [].
Proof.
  destruct e as [k o|k kind|i|i|i|kind|i|i answer|i|a s]; cbn [manager_step].
  - intros [= <-]. left. destruct (getSession root defaultContent g k o) as [g1 res] eqn:E. by apply keeps_closed, (keeps_getSession root defaultContent g k o g1 res).
  - intros [= <-]. left. unfold call_access. by rewrite (keeps_closed _ _ (keeps_wait _ _ _)).
  - unfold access_goes. destruct (mg_accesses g !! i) as [x|]; [|done]. cbn [mbind option_bind]. destruct (pa_phase x).
    + destruct (forallb _ _); [|done]. intros [= <-]. left. by rewrite (keeps_closed _ _ (keeps_wait _ _ _)).
    + destruct (access_operation root defaultContent g x) as [g1 ok] eqn:E. intros [= <-]. left. assert (mg_closed g1 = mg_closed g) as Hk.
      * unfold access_operation in E. destruct (pa_kind x); destruct (getSession _ _ _ _ _) as [g2 [a|e]] eqn:Eg; injection E as <- <-;
          pose proof (keeps_closed _ _ (keeps_getSession _ _ _ _ _ _ _ Eg)) as Hk; rewrite ?(keeps_closed _ _ (keeps_cancel g _)) in Hk; try done.
        by rewrite <- Hk, <- (keeps_closed _ _ (keeps_cancel g2 (pa_path x))).
      * destruct (negb ok && _); [by rewrite (keeps_closed _ _ (keeps_wait g1 i x))|done].
  - intros [= <-]. left. unfold release. destruct (mg_clients g !! i) as [[a p []]|]; try done. case_bool_decide; [done|].
    destruct (hasActiveOperations _ a); [done|]. by rewrite (keeps_closed _ _ (keeps_schedule _ _)).
  - unfold operation_ends. destruct (mg_operations g !! i) as [x|]; [|done]. cbn [mbind option_bind]. intros [= <-]. left.
    destruct (negb _); [by rewrite (keeps_closed _ _ (keeps_schedule _ _))|done].
  - intros [= <-]. left. apply keeps_closed, call_uses.
  - destruct (mg_mutations g !! i) as [x|]; [|done]. cbn [mbind option_bind]. destruct (can_start g x); [|done]. intros [= <-]. left. apply keeps_closed, mutation_starts_uses.
  - destruct (mg_mutations g !! i) as [x|]; [|done]. cbn [mbind option_bind]. intros [Hk|(g1 & j & y & rejected & Hk & ->)]%mutation_goes_on; [left; by apply keeps_closed|].
    destruct rejected; [left|by right]. rewrite <- (keeps_closed _ _ Hk). unfold finish_close.
    match goal with |- context [foldl resume_session ?g2 ?es] => change (mg_closed (foldl resume_session g2 es) = mg_closed g1); by rewrite (keeps_closed _ _ (keeps_resumes es g2)) end.
  - intros [= <-]. left. unfold idle_timer_fires. destruct (mg_timers g !! i); [|done]. set (g1 := g <| mg_timers := _ |>).
    destruct (mg_closing g1); [done|]. by destruct (inactive g1).
  - destruct (mg_objects g !! a) as [old|]; [|done]. cbn [mbind option_bind]. case_bool_decide; [|done]. intros [= <-]. left.
    by destruct (ss_deleted s && negb (ss_deleted old)).
Qed.

(** C11: After every calm run (no session fails to move once it has taken its new path, none fails to
    move with its folder unless the move on disk has failed, and no folder moves below or above
    itself) that has closed the manager,
    however long ago, its table is empty, every structure mutation has settled, and it makes
    no session. *)
Theorem closed_manager_empty es g :
  calm_run new_manager es = Some g -> mg_closed g = true ->
  mg_sessions g = [] /\ (forall i x, mg_mutations g !! i = Some x -> is_settled x = true) /\
  forall k override, getSession root defaultContent g k override = (g, Err ManagerClosed).
Proof.
  intros Hr Hcl. assert (manager_ok g /\ (mg_closed g = true -> mg_sessions g = [])) as [[Hc Ht] Hl].
  { revert Hr. apply (calm_run_ind root defaultContent (fun g => manager_ok g /\ (mg_closed g = true -> mg_sessions g = []))); [split; [apply new_manager_ok|done]|]. intros g1 e g2 [Hok Hl] Hs Hca.
    split; [by eapply manager_step_ok|]. intros Hcl2. destruct (step_closes _ _ _ Hs) as [E|]; [|done]. rewrite E in Hcl2. by apply (closed_step g1 e g2 Hok Hcl2 (Hl Hcl2) Hs). }
  split_and!; [by apply Hl|intros i x; by apply closed_alone|]. intros k o. apply getSession_inactive. unfold inactive. by rewrite Hcl, orb_true_r.
Qed.
End served.
