(* ===== verification/HttpAssembler.v ===== *)
(** [ChunkedHttpRequestAssembler] of [packages/tunnel-client/src/index.ts]: HTTP requests of
    the relay that arrive in pieces.

    The envelopes are typed as the code declares them: [decodeTunnelMessage] casts what it
    has read, nothing checks their fields.  [Buffer] is the one of Node, whose base64 is in
    [Base64.v]; sequence numbers and counts are integers. *)
From S2P Require Import Prelude JsString Base64 PendingFrames.

#[local] Open Scope Z_scope.

(** * Data *)

Definition TUNNEL_HTTP_PENDING_BYTE_LIMIT : Z := 8 * 1024 * 1024.

Abbreviation http_headers := (list (jstr * jstr)).

Record TunnelHttpRequestEnvelope := {
  hr_id : jstr;
  hr_method : jstr;
  hr_path : jstr;
  hr_headers : http_headers;
  hr_bodyB64 : option jstr
}.

Record TunnelHttpRequestStartEnvelope := {
  hs_id : jstr;
  hs_method : jstr;
  hs_path : jstr;
  hs_headers : http_headers;
  hs_totalBytes : Z
}.

Record TunnelHttpRequestChunkEnvelope := { hc_id : jstr; hc_sequence : Z; hc_bodyB64 : jstr }.

Record TunnelHttpRequestEndEnvelope := { he_id : jstr; he_chunks : Z }.

(** The chunks by their sequence number. *)
Record ChunkedHttpRequestDraft := {
  dr_start : TunnelHttpRequestStartEnvelope;
  dr_chunks : gmap Z (list N);
  dr_receivedBytes : Z
}.

(** The map [drafts]. *)
Abbreviation ChunkedHttpRequestAssembler := (gmap jstr ChunkedHttpRequestDraft).

Implicit Types (a : ChunkedHttpRequestAssembler) (d : ChunkedHttpRequestDraft).

(** * Methods *)

Definition new_draft (message : TunnelHttpRequestStartEnvelope) : ChunkedHttpRequestDraft :=
  {| dr_start := message; dr_chunks := ∅; dr_receivedBytes := 0 |}.

Definition assembler_start a (message : TunnelHttpRequestStartEnvelope) : ChunkedHttpRequestAssembler :=
  <[hs_id message := new_draft message]> a.

Definition assembler_chunk a (message : TunnelHttpRequestChunkEnvelope) : ChunkedHttpRequestAssembler :=
  match a !! hc_id message with
  | None => a
  | Some d =>
      if bool_decide (is_Some (dr_chunks d !! hc_sequence message)) then a
      else
        let chunk := decodeBase64Bytes (hc_bodyB64 message) in
        if (hs_totalBytes (dr_start d) <? dr_receivedBytes d + byteLength chunk)
           || (TUNNEL_HTTP_PENDING_BYTE_LIMIT <? dr_receivedBytes d + byteLength chunk)
        then delete (hc_id message) a
        else <[hc_id message := {| dr_start := dr_start d; dr_chunks := <[hc_sequence message := chunk]> (dr_chunks d);
                                   dr_receivedBytes := dr_receivedBytes d + byteLength chunk |}]> a
  end.

(** The loop of [end] from [sequence] on, with [n] rounds left. *)
Fixpoint ordered_chunks (chunks : gmap Z (list N)) (n : nat) (sequence : Z) : option (list (list N)) :=
  match n with
  | O => Some []
  | S n => chunk ← chunks !! sequence; rest ← ordered_chunks chunks n (sequence + 1); Some (chunk :: rest)
  end.

Definition assembled (d : ChunkedHttpRequestDraft) (chunks : Z) : option TunnelHttpRequestEnvelope :=
  if negb (Z.of_nat (size (dr_chunks d)) =? chunks) || negb (dr_receivedBytes d =? hs_totalBytes (dr_start d)) then None
  else
    ordered ← ordered_chunks (dr_chunks d) (Z.to_nat chunks) 0;
    let s := dr_start d in
    Some {| hr_id := hs_id s; hr_method := hs_method s; hr_path := hs_path s; hr_headers := hs_headers s;
            hr_bodyB64 := Some (encodeBase64Bytes (concat ordered)) |}.

Definition assembler_end a (message : TunnelHttpRequestEndEnvelope)
  : ChunkedHttpRequestAssembler * option TunnelHttpRequestEnvelope :=
  (delete (he_id message) a, d ← a !! he_id message; assembled d (he_chunks message)).

Definition assembler_cancel a (id : jstr) : ChunkedHttpRequestAssembler := delete id a.

(** * Sequences of messages *)

Inductive assembler_op :=
| AStart (message : TunnelHttpRequestStartEnvelope)
| AChunk (message : TunnelHttpRequestChunkEnvelope)
| AEnd (message : TunnelHttpRequestEndEnvelope)
| ACancel (id : jstr).

Definition op_id (op : assembler_op) : jstr :=
  match op with AStart m => hs_id m | AChunk m => hc_id m | AEnd m => he_id m | ACancel id => id end.

Definition assembler_step a (op : assembler_op) : ChunkedHttpRequestAssembler :=
  match op with
  | AStart m => assembler_start a m
  | AChunk m => assembler_chunk a m
  | AEnd m => (assembler_end a m).1
  | ACancel id => assembler_cancel a id
  end.

Definition assemble (ops : list assembler_op) : ChunkedHttpRequestAssembler := foldl assembler_step ∅ ops.

(** * Specification *)

(** The first chunk of a sequence number among the messages of a request. *)
Fixpoint first_chunk (id : jstr) (sequence : Z) (ops : list assembler_op) : option (list N) :=
  match ops with
  | [] => None
  | AChunk m :: ops =>
      if bool_decide (hc_id m = id /\ hc_sequence m = sequence) then Some (decodeBase64Bytes (hc_bodyB64 m))
      else first_chunk id sequence ops
  | _ :: ops => first_chunk id sequence ops
  end.

(** Of the request, only chunks. *)
Definition only_chunks (id : jstr) (op : assembler_op) : bool :=
  match op with AChunk _ => true | _ => negb (jeqb (op_id op) id) end.

(** A chunk of the request, if it is one, is one of the pieces of the body. *)
Definition piece_of (id : jstr) (parts : list (list N)) (op : assembler_op) : Prop :=
  match op with
  | AChunk m => hc_id m = id -> exists k part, parts !! k = Some part /\ hc_sequence m = Z.of_nat k /\ hc_bodyB64 m = encodeBase64Bytes part
  | _ => True
  end.

(** * The bytes of a map of chunks *)

Definition map_bytes (m : gmap Z (list N)) : Z := total_bytes (map_to_list m).*2.

Lemma total_bytes_perm l k : Permutation l k -> total_bytes l = total_bytes k.
Proof. induction 1; cbn [total_bytes]; lia. Qed.

Lemma total_bytes_nonneg l : 0 <= total_bytes l.
Proof. induction l as [|x l IH]; cbn [total_bytes]; unfold byteLength in *; lia. Qed.

Lemma total_bytes_concat l : total_bytes l = byteLength (concat l).
Proof.
  induction l as [|x l IH]; [done|]. cbn [total_bytes concat]. rewrite IH. unfold byteLength. rewrite length_app. lia.
Qed.

Lemma map_bytes_insert m i c : m !! i = None -> map_bytes (<[i := c]> m) = byteLength c + map_bytes m.
Proof. intros Hi. unfold map_bytes. by rewrite (total_bytes_perm _ _ (fmap_Permutation _ _ _ (map_to_list_insert m i c Hi))). Qed.

Lemma map_bytes_nonneg m : 0 <= map_bytes m.
Proof. apply total_bytes_nonneg. Qed.

Lemma map_bytes_subseteq m m' : m ⊆ m' -> map_bytes m <= map_bytes m'.
Proof.
  revert m'. induction m as [|i c m Hi IH] using map_ind; intros m' Hs.
  { change (map_bytes ∅) with 0. apply map_bytes_nonneg. }
  assert (m' !! i = Some c) as Hc by (eapply lookup_weaken; [apply lookup_insert_eq|done]).
  rewrite <- (insert_delete_id m' i c) by done. rewrite !map_bytes_insert by (done || apply lookup_delete_eq).
  assert (m ⊆ delete i m') as Hd; [|specialize (IH _ Hd); lia].
  apply map_subseteq_spec. intros j x Hj. assert (i <> j) by congruence.
  rewrite lookup_delete_ne by done. eapply lookup_weaken; [|done]. by rewrite lookup_insert_ne.
Qed.

(** The pieces of a body by their numbers. *)
Definition part_map (parts : list (list N)) : gmap Z (list N) :=
  list_to_map (imap (fun k part => (Z.of_nat k, part)) parts).

Lemma numbered_fst (parts : list (list N)) : (imap (fun k part => (Z.of_nat k, part)) parts).*1 = Z.of_nat <$> seq 0 (length parts).
Proof.
  apply list_eq. intros i. rewrite !list_lookup_fmap, list_lookup_imap. destruct (decide (i < length parts)%nat) as [Hi|Hi].
  - rewrite lookup_seq_lt by done. destruct (lookup_lt_is_Some_2 parts i Hi) as [x ->]. done.
  - rewrite lookup_seq_ge, lookup_ge_None_2 by lia. done.
Qed.

Lemma numbered_snd (parts : list (list N)) : (imap (fun k part => (Z.of_nat k, part)) parts).*2 = parts.
Proof. apply list_eq. intros i. rewrite list_lookup_fmap, list_lookup_imap. by destruct (parts !! i). Qed.

Lemma numbered_NoDup (parts : list (list N)) : NoDup (imap (fun k part => (Z.of_nat k, part)) parts).*1.
Proof. rewrite numbered_fst. apply NoDup_fmap_2; [intros x y; lia|apply NoDup_seq]. Qed.

Lemma part_map_bytes parts : map_bytes (part_map parts) = byteLength (concat parts).
Proof.
  unfold map_bytes, part_map. rewrite (total_bytes_perm _ parts); [apply total_bytes_concat|].
  rewrite <- (numbered_snd parts) at 2. apply fmap_Permutation, map_to_list_to_map, numbered_NoDup.
Qed.

Lemma part_map_size parts : size (part_map parts) = length parts.
Proof.
  unfold part_map. rewrite <- (length_map_to_list (list_to_map _)), (Permutation_length (map_to_list_to_map _ (numbered_NoDup parts))).
  by rewrite length_imap.
Qed.

Lemma part_map_lookup parts k c : part_map parts !! k = Some c <-> exists i, k = Z.of_nat i /\ parts !! i = Some c.
Proof.
  unfold part_map. rewrite <- elem_of_list_to_map by apply numbered_NoDup. rewrite elem_of_lookup_imap.
  split; [intros (i & x & [= -> ->] & Hi); eauto|intros (i & -> & Hi); eauto].
Qed.

(** The loop of [end] reads the pieces back. *)
Lemma ordered_parts (chunks : gmap Z (list N)) parts (sequence : nat) :
  (forall i c, parts !! i = Some c -> chunks !! Z.of_nat (sequence + i) = Some c) ->
  ordered_chunks chunks (length parts) (Z.of_nat sequence) = Some parts.
Proof.
  revert sequence. induction parts as [|c parts IH]; intros sequence Hl; [done|]. cbn [length ordered_chunks].
  pose proof (Hl 0%nat c eq_refl) as H0. rewrite Nat.add_0_r in H0. rewrite H0. cbn [mbind option_bind].
  replace (Z.of_nat sequence + 1) with (Z.of_nat (S sequence)) by lia. rewrite IH; [done|].
  intros i x Hi. replace (S sequence + i)%nat with (sequence + S i)%nat by lia. by apply Hl.
Qed.

Lemma ordered_sound chunks n sequence parts :
  ordered_chunks chunks n sequence = Some parts ->
  length parts = n /\ forall i c, parts !! i = Some c -> chunks !! (sequence + Z.of_nat i) = Some c.
Proof.
  revert sequence parts. induction n as [|n IH]; intros sequence parts Ho; cbn [ordered_chunks] in Ho; [by simplify_eq|].
  destruct (chunks !! sequence) as [c|] eqn:Ec; [|done]. cbn [mbind option_bind] in Ho.
  destruct (ordered_chunks chunks n (sequence + 1)) as [rest|] eqn:Er; [|done]. cbn in Ho. injection Ho as <-.
  destruct (IH _ _ Er) as [Hn Hl]. split; [cbn; lia|]. intros [|i] x Hi; cbn in Hi; [simplify_eq; by rewrite Z.add_0_r|].
  replace (sequence + Z.of_nat (S i)) with (sequence + 1 + Z.of_nat i) by lia. by apply Hl.
Qed.

(** * Requests do not disturb each other *)

Lemma step_other a op id : op_id op <> id -> assembler_step a op !! id = a !! id.
Proof.
  destruct op as [m|m|m|i]; cbn [op_id assembler_step]; intros Hid.
  - unfold assembler_start. by rewrite lookup_insert_ne.
  - unfold assembler_chunk. destruct (a !! hc_id m) as [d|]; [|done]. repeat case_match; try done.
    + by rewrite lookup_delete_ne.
    + by rewrite lookup_insert_ne.
  - cbn [assembler_end fst]. by rewrite lookup_delete_ne.
  - unfold assembler_cancel. by rewrite lookup_delete_ne.
Qed.

(** * What a draft holds *)

(** Its chunks are the first ones received of their numbers since the start, and their bytes
    are counted and bounded. *)
Record draft_ok (id : jstr) (mid : list assembler_op) (d : ChunkedHttpRequestDraft) : Prop := {
  do_chunks : forall k, dr_chunks d !! k = first_chunk id k mid;
  do_bytes : dr_receivedBytes d = map_bytes (dr_chunks d);
  do_bound : dr_chunks d = ∅ \/
    dr_receivedBytes d <= hs_totalBytes (dr_start d) /\ dr_receivedBytes d <= TUNNEL_HTTP_PENDING_BYTE_LIMIT
}.

Lemma first_chunk_snoc id k ops op :
  first_chunk id k (ops ++ [op]) =
  match first_chunk id k ops with Some c => Some c | None => first_chunk id k [op] end.
Proof.
  induction ops as [|o ops IH]; [done|]. destruct o as [| m | |]; cbn [app first_chunk]; try done.
  case_bool_decide; done.
Qed.

Lemma first_chunk_other id k op : op_id op <> id -> first_chunk id k [op] = None.
Proof. destruct op as [m|m|m|i]; intros Hid; cbn [first_chunk op_id] in *; try done. rewrite bool_decide_eq_false_2; [done|tauto]. Qed.

(** The draft of a request, if it is there, stems from a start since which only chunks
    of it have come. *)
Definition stems_from (id : jstr) (ops : list assembler_op) (d : ChunkedHttpRequestDraft) : Prop :=
  exists pre s mid, ops = pre ++ AStart s :: mid /\ hs_id s = id /\ dr_start d = s /\
    forallb (only_chunks id) mid = true /\ draft_ok id mid d.

Lemma stems_chunk id ops d m a :
  assemble ops = a -> a !! id = Some d -> stems_from id ops d -> hc_id m = id ->
  match assembler_chunk a m !! id with Some d' => stems_from id (ops ++ [AChunk m]) d' | None => True end.
Proof.
  intros _ Hd (pre & s & mid & -> & Hs & Hst & Hmid & [Hc Hb Hl]) Hid. unfold assembler_chunk. rewrite Hid, Hd.
  assert (forall d', dr_start d' = s -> draft_ok id (mid ++ [AChunk m]) d' -> stems_from id ((pre ++ AStart s :: mid) ++ [AChunk m]) d') as Hmk.
  { intros d' Hd' Hok. exists pre, s, (mid ++ [AChunk m]). split_and!; try done; [by rewrite <- app_assoc|].
    rewrite forallb_app, Hmid. done. }
  case_bool_decide as Hk.
  - rewrite Hd. apply Hmk; [done|]. split; [|done..]. intros k. rewrite first_chunk_snoc, <- Hc.
    destruct (dr_chunks d !! k) eqn:Ek; [done|]. cbn [first_chunk]. rewrite bool_decide_eq_false_2; [done|].
    intros [_ <-]. rewrite Ek in Hk. by destruct Hk.
  - destruct (_ || _) eqn:Eo; [by rewrite lookup_delete_eq|]. rewrite lookup_insert_eq. apply Hmk; [done|].
    apply orb_false_iff in Eo as [E1 E2]. to_prop. rewrite <- eq_None_not_Some in Hk.
    split; cbn [dr_chunks dr_receivedBytes dr_start].
    + intros k. rewrite first_chunk_snoc, <- Hc. cbn [first_chunk]. destruct (decide (hc_sequence m = k)) as [<-|Hne].
      * rewrite lookup_insert_eq, Hk, bool_decide_eq_true_2 by done. done.
      * rewrite lookup_insert_ne by done. destruct (dr_chunks d !! k); [done|]. rewrite bool_decide_eq_false_2; [done|tauto].
    + rewrite map_bytes_insert by done. lia.
    + right. lia.
Qed.

Lemma assembler_drafts ops id d : assemble ops !! id = Some d -> stems_from id ops d.
Proof.
  revert d. induction ops as [|op ops IH] using rev_ind; intros d Hd; [done|].
  unfold assemble in Hd. rewrite foldl_app in Hd. cbn [foldl] in Hd. fold (assemble ops) in Hd.
  destruct (decide (op_id op = id)) as [Hid|Hid].
  - destruct op as [m|m|m|i]; cbn [op_id assembler_step] in *.
    + unfold assembler_start in Hd. rewrite Hid, lookup_insert_eq in Hd. injection Hd as <-.
      exists ops, m, []. split_and!; try done. split; [done|done|by left].
    + destruct (assemble ops !! id) as [d0|] eqn:E0.
      * pose proof (stems_chunk id ops d0 m _ eq_refl E0 (IH d0 eq_refl) Hid) as Hs. by rewrite Hd in Hs.
      * unfold assembler_chunk in Hd. by rewrite Hid, E0, E0 in Hd.
    + cbn [assembler_end fst] in Hd. by rewrite Hid, lookup_delete_eq in Hd.
    + unfold assembler_cancel in Hd. by rewrite Hid, lookup_delete_eq in Hd.
  - rewrite step_other in Hd by done. destruct (IH d Hd) as (pre & s & mid & -> & Hs & Hst & Hmid & [Hc Hb Hl]).
    exists pre, s, (mid ++ [op]). split_and!; try done; [by rewrite <- app_assoc| |].
    + rewrite forallb_app, Hmid. cbn [forallb]. unfold only_chunks. destruct op; try done;
        cbn [op_id] in Hid; unfold jeqb; rewrite bool_decide_eq_false_2 by done; done.
    + split; [|done..]. intros k. rewrite first_chunk_snoc, <- Hc, first_chunk_other by done.
      by destruct (dr_chunks d !! k).
Qed.

(** * A complete request *)

(** The pieces received so far: of the request, the draft holds pieces of the body only, and
    each one that has come. *)
Record partial (s : TunnelHttpRequestStartEnvelope) (parts : list (list N)) (mid : list assembler_op) (d : ChunkedHttpRequestDraft) : Prop := {
  pa_start : dr_start d = s;
  pa_sub : dr_chunks d ⊆ part_map parts;
  pa_bytes : dr_receivedBytes d = map_bytes (dr_chunks d);
  pa_got : forall m, AChunk m ∈ mid -> hc_id m = hs_id s -> is_Some (dr_chunks d !! hc_sequence m)
}.

Section complete.
Context (s : TunnelHttpRequestStartEnvelope) (parts : list (list N)).
Context (Hbytes : Forall (Forall (fun b => is_byte b = true)) parts).
Context (Htotal : hs_totalBytes s = byteLength (concat parts)).
Context (Hlimit : byteLength (concat parts) <= TUNNEL_HTTP_PENDING_BYTE_LIMIT).

Lemma partial_chunk a mid d m :
  a !! hs_id s = Some d -> partial s parts mid d -> hc_id m = hs_id s -> piece_of (hs_id s) parts (AChunk m) ->
  exists d', assembler_chunk a m !! hs_id s = Some d' /\ partial s parts (mid ++ [AChunk m]) d'.
Proof using Hbytes Htotal Hlimit.
  intros Hd [Hst Hsub Hb Hgot] Hid Hp. destruct (Hp Hid) as (k & part & Hk & Hseq & Hbody). unfold assembler_chunk. rewrite Hid, Hd.
  case_bool_decide as Hin.
  { exists d. split; [done|]. split; try done. intros m' [Hm|Hm%list_elem_of_singleton]%elem_of_app Hid'; [by apply Hgot|]. injection Hm as ->. done. }
  rewrite <- eq_None_not_Some in Hin.
  assert (decodeBase64Bytes (hc_bodyB64 m) = part) as Hdec.
  { rewrite Hbody. apply decodeBase64Bytes_encode. rewrite Forall_lookup in Hbytes. by apply (Hbytes k). }
  assert (part_map parts !! hc_sequence m = Some part) as Hpm by (apply part_map_lookup; eauto).
  assert (<[hc_sequence m := part]> (dr_chunks d) ⊆ part_map parts) as Hsub' by by apply insert_subseteq_l.
  pose proof (map_bytes_subseteq _ _ Hsub') as Hle. rewrite map_bytes_insert, part_map_bytes in Hle by done.
  rewrite Hdec, Hst, Htotal, Hb, !(proj2 (Z.ltb_ge _ _)) by lia. cbn [orb].
  eexists. split; [apply lookup_insert_eq|]. split; cbn [dr_start dr_chunks dr_receivedBytes]; try done.
  - rewrite map_bytes_insert by done. lia.
  - intros m' [Hm|Hm%list_elem_of_singleton]%elem_of_app Hid'; [|injection Hm as ->; rewrite lookup_insert_eq; by eexists].
    destruct (Hgot m' Hm Hid') as [c Hc]. destruct (decide (hc_sequence m = hc_sequence m')) as [->|Hne]; [rewrite lookup_insert_eq; by eexists|].
    rewrite lookup_insert_ne by done. by eexists.
Qed.

Lemma partial_run a mid :
  forallb (only_chunks (hs_id s)) mid = true -> Forall (piece_of (hs_id s) parts) mid ->
  exists d, foldl assembler_step (assembler_start a s) mid !! hs_id s = Some d /\ partial s parts mid d.
Proof using Hbytes Htotal Hlimit.
  induction mid as [|op mid IH] using rev_ind; intros Ho Hp.
  { exists (new_draft s). split; [apply lookup_insert_eq|]. split; try done; [apply map_empty_subseteq|].
    intros m Hm. by apply not_elem_of_nil in Hm. }
  rewrite forallb_app in Ho. cbn [forallb] in Ho. to_prop. apply Forall_app in Hp as [Hp1 Hp2]. apply Forall_cons in Hp2 as [Hp2 _].
  destruct IH as (d & Hd & Hpa); [done..|]. rewrite foldl_app. cbn [foldl].
  destruct (decide (op_id op = hs_id s)) as [Hid|Hid].
  - destruct op as [m|m|m|i]; cbn [op_id only_chunks] in *; unfold jeqb in *; to_prop; try congruence.
    cbn [assembler_step]. exact (partial_chunk _ mid d m Hd Hpa Hid Hp2).
  - exists d. rewrite step_other by done. split; [done|]. destruct Hpa as [Hst Hsub Hb Hgot]. split; try done.
    intros m [Hm| <-%list_elem_of_singleton]%elem_of_app Hm'; [by apply Hgot|done].
Qed.

Lemma partial_complete d mid :
  partial s parts mid d -> (forall k, (k < length parts)%nat -> exists m, AChunk m ∈ mid /\ hc_id m = hs_id s /\ hc_sequence m = Z.of_nat k) ->
  dr_chunks d = part_map parts.
Proof using.
  intros [Hst Hsub Hb Hgot] Hall. apply map_eq. intros k. destruct (part_map parts !! k) as [c|] eqn:Ec.
  - pose proof Ec as Ec'. apply part_map_lookup in Ec' as (i & -> & Hi).
    destruct (Hall i) as (m & Hm & Hid & Hseq); [by eapply lookup_lt_Some|].
    destruct (Hgot m Hm Hid) as [c' Hc']. rewrite Hseq in Hc'. rewrite map_subseteq_spec in Hsub.
    pose proof (Hsub _ _ Hc'). congruence.
  - apply eq_None_not_Some. intros [c Hc]. rewrite map_subseteq_spec in Hsub. apply Hsub in Hc. congruence.
Qed.
End complete.

(** C18: A request whose chunks come between its start and its end, each at least once, in any
    order, with repetitions and with messages of other requests between them, is assembled:
    its end answers it with exactly its body, and the draft is gone. *)
Theorem complete_request_assembled (before mid : list assembler_op) s parts (ending : TunnelHttpRequestEndEnvelope) :
  Forall (Forall (fun b => is_byte b = true)) parts ->
  hs_totalBytes s = byteLength (concat parts) -> byteLength (concat parts) <= TUNNEL_HTTP_PENDING_BYTE_LIMIT ->
  forallb (only_chunks (hs_id s)) mid = true -> Forall (piece_of (hs_id s) parts) mid ->
  (forall k, (k < length parts)%nat -> exists m, AChunk m ∈ mid /\ hc_id m = hs_id s /\ hc_sequence m = Z.of_nat k) ->
  he_id ending = hs_id s -> he_chunks ending = Z.of_nat (length parts) ->
  exists a', assembler_end (assemble (before ++ AStart s :: mid)) ending =
    (a', Some {| hr_id := hs_id s; hr_method := hs_method s; hr_path := hs_path s; hr_headers := hs_headers s;
                 hr_bodyB64 := Some (encodeBase64Bytes (concat parts)) |}) /\ a' !! hs_id s = None.
Proof.
  intros Hb Ht Hl Ho Hp Hall Hid Hn. unfold assembler_end. rewrite Hid. eexists. split; [|apply lookup_delete_eq]. f_equal.
  unfold assemble. rewrite foldl_app. cbn [foldl assembler_step].
  destruct (partial_run s parts Hb Ht Hl (foldl assembler_step ∅ before) mid Ho Hp) as (d & -> & Hpa). cbn [mbind option_bind].
  pose proof (partial_complete s parts d mid Hpa Hall) as Hc. destruct Hpa as [Hst _ Hbt _].
  unfold assembled. rewrite Hn, Hbt, Hst, Hc, part_map_size, part_map_bytes, Ht, !Z.eqb_refl, Nat2Z.id. cbn [negb orb].
  rewrite (ordered_parts _ parts 0%nat); [done|]. intros i c Hi. cbn [Nat.add]. apply part_map_lookup. eauto.
Qed.

(** Whatever the messages, a request that an end answers is the one of the last start of
    its id, with the announced number of chunks and bytes, within the limit; its body is the
    concatenation of the first chunks received of the numbers from zero on. *)
Theorem assembled_request_exact ops ending r :
  (assembler_end (assemble ops) ending).2 = Some r ->
  exists pre s mid parts,
    ops = pre ++ AStart s :: mid /\ hs_id s = he_id ending /\ forallb (only_chunks (hs_id s)) mid = true /\
    Z.of_nat (length parts) = he_chunks ending /\ byteLength (concat parts) = hs_totalBytes s /\
    byteLength (concat parts) <= TUNNEL_HTTP_PENDING_BYTE_LIMIT /\
    (forall k part, parts !! k = Some part -> first_chunk (hs_id s) (Z.of_nat k) mid = Some part) /\
    r = {| hr_id := hs_id s; hr_method := hs_method s; hr_path := hs_path s; hr_headers := hs_headers s;
           hr_bodyB64 := Some (encodeBase64Bytes (concat parts)) |}.
Proof.
  cbn [assembler_end snd]. intros He. destruct (assemble ops !! he_id ending) as [d|] eqn:Ed; [|done]. cbn [mbind option_bind] in He.
  destruct (assembler_drafts _ _ _ Ed) as (pre & s & mid & -> & Hs & Hst & Hmid & [Hc Hb Hl]).
  unfold assembled in He. destruct (_ || _) eqn:Eg; [done|]. apply orb_false_iff in Eg as [E1 E2]. to_prop. rewrite Hst in *.
  destruct (ordered_chunks _ _ _) as [parts|] eqn:Eo; [|done]. cbn [mbind option_bind] in He. injection He as <-.
  apply ordered_sound in Eo as [Hn Hk].
  assert (dr_chunks d = part_map parts) as Hpm.
  { symmetry. apply map_subseteq_size_eq; [|rewrite part_map_size; lia].
    apply map_subseteq_spec. intros k c (i & -> & Hi)%part_map_lookup. apply (Hk i c Hi). }
  exists pre, s, mid, parts. rewrite Hs. rewrite Hpm, part_map_bytes in Hb. split_and!; try done; [lia..| |].
  - destruct Hl as [Hem|]; [|lia]. assert (parts = []) as ->; [|done].
    apply nil_length_inv. by rewrite <- part_map_size, <- Hpm, Hem.
  - intros k part Hp. rewrite <- Hc. apply (Hk k part Hp).
Qed.
