(* ===== verification/TunnelPaths.v ===== *)
(** The paths and URLs of [packages/tunnel-client/src/index.ts]: how the daemon's router
    reads a path, and which paths the relay must not reach.

    [decodeURI] is the one of the language.  URLs are those of the platform: their parser
    and their accessors are a parameter. *)
From S2P Require Import Prelude JsString Utf8 Json.

#[local] Open Scope N_scope.

(** * [decodeURI] *)

(** The units whose escapes [decodeURI] keeps: [;/?:@&=+$,#]. *)
Definition preserved (c : N) : bool := bool_decide (c ∈ js ";/?:@&=+$,#").

Definition hex_octet (a b : N) : option N := x ← hex_value a; y ← hex_value b; Some (x * 16 + y).

(** [n] more escaped bytes of a sequence. *)
Fixpoint take_octets (n : nat) (s : jstr) : option (list N * jstr) :=
  match n with
  | O => Some ([], s)
  | S n =>
      match s with
      | 37 :: a :: b :: r => octet ← hex_octet a b; '(octets, r) ← take_octets n r; Some (octet :: octets, r)
      | _ => None
      end
  end.

(** How many bytes follow the first one of a sequence. *)
Definition octets_after (first : N) : option nat :=
  if first <? 192 then None else if first <? 224 then Some 1%nat else if first <? 240 then Some 2%nat
  else if first <? 248 then Some 3%nat else None.

(** The code point of a valid sequence. *)
Definition octets_point (octets : list N) : option N :=
  match decode_points Boundary octets with
  | [v] => if bool_decide (point_bytes v = octets) then Some v else None
  | _ => None
  end.

(** [None] for a [URIError]. *)
Fixpoint decode_uri_loop (fuel : nat) (s : jstr) : option jstr :=
  match fuel with
  | O => Some []
  | S fuel =>
      match s with
      | [] => Some []
      | 37 :: r =>
          match r with
          | a :: b :: r =>
              octet ← hex_octet a b;
              if octet <? 128 then
                rest ← decode_uri_loop fuel r;
                Some ((if preserved octet then [37; a; b] else [octet]) ++ rest)
              else
                n ← octets_after octet;
                '(octets, r) ← take_octets n r;
                v ← octets_point (octet :: octets);
                rest ← decode_uri_loop fuel r;
                Some (point_units v ++ rest)
          | _ => None
          end
      | c :: r => rest ← decode_uri_loop fuel r; Some (c :: rest)
      end
  end.

Definition decodeURI (s : jstr) : option jstr := decode_uri_loop (length s) s.

(** * The router's reading of a path *)

(** [pathname.replace(/%25/gi, "%2525")]. *)
Fixpoint escape_percents (s : jstr) : jstr :=
  match s with
  | [] => []
  | c :: s' =>
      match s with
      | 37 :: 50 :: 53 :: r => js "%2525" ++ escape_percents r
      | _ => c :: escape_percents s'
      end
  end.

Definition is_escape_digit (c : N) : bool := bool_decide (is_Some (hex_value c)).

(** The escapes a text starts with, at most [fuel] of them, and what follows. *)
Fixpoint escape_run (fuel : nat) (s : jstr) : jstr * jstr :=
  match fuel with
  | O => ([], s)
  | S fuel =>
      match s with
      | 37 :: a :: b :: r =>
          if is_escape_digit a && is_escape_digit b
          then let '(run, rest) := escape_run fuel r in (37 :: a :: b :: run, rest) else ([], s)
      | _ => ([], s)
      end
  end.

(** [replace(/(?:%[0-9A-Fa-f]{2})+/g, ...)]: each run is decoded when it can be. *)
Fixpoint decode_runs (fuel : nat) (s : jstr) : jstr :=
  match fuel with
  | O => []
  | S fuel =>
      match escape_run (length s) s with
      | ([], c :: r) => c :: decode_runs fuel r
      | ([], []) => []
      | (run, rest) => default run (decodeURI run) ++ decode_runs fuel rest
      end
  end.

Definition daemonRoutingPath (pathname : jstr) : jstr :=
  let escapedPercentSigns := if includes pathname (js "%25") then escape_percents pathname else pathname in
  match decodeURI escapedPercentSigns with
  | Some path => path
  | None => decode_runs (length escapedPercentSigns) escapedPercentSigns
  end.

Definition PRIVATE_DAEMON_HTTP_PATHS : list jstr := [js "/api/ops/snapshot.zip"].

(** * URLs *)

(** [new URL(path, base)], [None] when it throws; the accessors and setters the code uses. *)
Class UrlHost := {
  url : Type;
  url_resolve : jstr -> url -> option url;
  url_protocol : url -> jstr;
  url_origin : url -> jstr;
  url_pathname : url -> jstr;
  url_set_protocol : url -> jstr -> url;
  url_set_pathname : url -> jstr -> url;
  url_set_search : url -> jstr -> url
}.

Section urls.
Context `{UrlHost}.

(** [pathname.replace(/\/$/, "")]. *)
Definition drop_final_slash (s : jstr) : jstr :=
  match last s with Some 47 => removelast s | _ => s end.

Definition socket_protocol (u : url) : jstr := if jeqb (url_protocol u) (js "https:") then js "wss:" else js "ws:".

Definition relayInternalUrl (relayUrl : url) (internalPath : jstr) : url :=
  let u := url_set_protocol relayUrl (socket_protocol relayUrl) in
  let relayPrefix := drop_final_slash (url_pathname u) in
  let suffix := if starts_with internalPath (js "/") then internalPath else js "/" ++ internalPath in
  url_set_search (url_set_pathname u (relayPrefix ++ suffix)) [].

(** The guard of [proxyHttp]: another origin, or a path kept from the relay. *)
Definition private_url (daemonUrl upstreamUrl : url) : bool :=
  negb (jeqb (url_origin upstreamUrl) (url_origin daemonUrl))
  || bool_decide (daemonRoutingPath (url_pathname upstreamUrl) ∈ PRIVATE_DAEMON_HTTP_PATHS).
End urls.

Example routing_1 : daemonRoutingPath (js "/api/ops/%73napshot%2ezip") = js "/api/ops/snapshot.zip".
Proof. vm_compute. done. Qed.
Example routing_2 : daemonRoutingPath (js "/api/ops%2F%2573/%E2%82%AC%ff") = js "/api/ops%2F%2573/%E2%82%AC%ff".
Proof. vm_compute. done. Qed.
Example routing_3 : daemonRoutingPath (js "/%E2%82%AC/%2573") = js "/" ++ [8364] ++ js "/%2573".
Proof. vm_compute. done. Qed.

(** * Each escape is read once *)

(** The escapes of bytes, with digits of either case. *)
Inductive escapes : list N -> jstr -> Prop :=
| escapes_nil : escapes [] []
| escapes_cons octet a b octets s :
    hex_octet a b = Some octet -> escapes octets s -> escapes (octet :: octets) (37 :: a :: b :: s).

(** How the router should read a path: characters for themselves and the escapes of
    characters for these, but for the escapes that stay: those of the reserved characters
    and of the percent sign. *)
Inductive reads : jstr -> jstr -> Prop :=
| reads_nil : reads [] []
| reads_plain c s t : c <> 37 -> reads s t -> reads (c :: s) (c :: t)
| reads_kept octet e s t : (preserved octet = true \/ octet = 37) -> escapes [octet] e -> reads s t -> reads (e ++ s) (e ++ t)
| reads_escape v e s t :
    is_scalar v = true -> preserved v = false -> v <> 37 -> escapes (point_bytes v) e -> reads s t ->
    reads (e ++ s) (point_units v ++ t).

Lemma hex_octet_bound a b octet : hex_octet a b = Some octet -> octet < 256.
Proof.
  unfold hex_octet, hex_value. intros H. repeat case_match; cbn in H; simplify_eq; to_prop; lia.
Qed.

Lemma hex_octet_percent a b : hex_octet a b = Some 37 <-> a = 50 /\ b = 53.
Proof.
  split; [|by intros [-> ->]]. unfold hex_octet, hex_value. intros H. repeat case_match; cbn in H; simplify_eq; to_prop; lia.
Qed.

Lemma hex_value_plain c d : hex_value c = Some d -> c <> 37.
Proof. by intros H ->. Qed.

Lemma hex_octet_digits a b octet : hex_octet a b = Some octet -> a <> 37 /\ b <> 37.
Proof.
  unfold hex_octet. intros H. destruct (hex_value a) eqn:Ea; [|done]. cbn in H. destruct (hex_value b) eqn:Eb; [|done].
  split; by eapply hex_value_plain.
Qed.

Lemma escape_percents_plain c s : c <> 37 -> escape_percents (c :: s) = c :: escape_percents s.
Proof. intros Hc. cbn [escape_percents]. repeat case_match; simplify_eq; done. Qed.

Lemma escape_percents_escape a b octet s :
  hex_octet a b = Some octet -> octet <> 37 -> escape_percents (37 :: a :: b :: s) = 37 :: a :: b :: escape_percents s.
Proof.
  intros H Hne. destruct (hex_octet_digits _ _ _ H) as [Ha Hb].
  assert (escape_percents (37 :: a :: b :: s) = 37 :: escape_percents (a :: b :: s)) as ->.
  { assert (~ (a = 50 /\ b = 53)) as Hp by (rewrite <- hex_octet_percent; congruence).
    cbn [escape_percents]. repeat case_match; simplify_eq; try done; tauto. }
  by rewrite !escape_percents_plain.
Qed.

Lemma escape_percents_escapes octets e s : escapes octets e -> 37 ∉ octets -> escape_percents (e ++ s) = e ++ escape_percents s.
Proof.
  induction 1 as [|octet a b octets e Ho He IH]; intros Hp; [done|]. apply not_elem_of_cons in Hp as [Hne Hp].
  cbn [app]. rewrite (escape_percents_escape a b octet) by done. by rewrite IH.
Qed.

(** Without an escape of the percent sign there is nothing to replace. *)
Lemma escape_percents_none s : includes s (js "%25") = false -> escape_percents s = s.
Proof.
  unfold includes. intros H%bool_decide_eq_false. induction s as [|c s IH]; [done|].
  change (find_sub (c :: s) (js "%25")) with (if starts_with (c :: s) (js "%25") then Some 0%nat else S <$> find_sub s (js "%25")) in H.
  destruct (starts_with _ _) eqn:E; [destruct H; by eexists|].
  assert (escape_percents (c :: s) = c :: escape_percents s) as ->.
  { cbn [escape_percents]. repeat case_match; simplify_eq; done. }
  rewrite IH; [done|]. intros [n Hn]. rewrite Hn in H. destruct H. by eexists.
Qed.

Lemma take_octets_escapes octets e r : escapes octets e -> take_octets (length octets) (e ++ r) = Some (octets, r).
Proof. induction 1 as [|octet a b octets e Ho He IH]; [done|]. cbn [app length take_octets]. rewrite Ho. cbn [mbind option_bind]. by rewrite IH. Qed.

Lemma octets_point_bytes v : is_scalar v = true -> octets_point (point_bytes v) = Some v.
Proof.
  intros Hv. unfold octets_point. pose proof (decode_points_char v [] Hv) as Hd. rewrite app_nil_r in Hd. rewrite Hd. cbn [decode_points].
  by rewrite bool_decide_eq_true_2.
Qed.

Lemma point_bytes_first v :
  is_scalar v = true -> 128 <= v ->
  exists first rest, point_bytes v = first :: rest /\ 128 <= first /\ octets_after first = Some (length rest) /\ Forall (fun c => 128 <= c) rest.
Proof.
  unfold is_scalar, point_bytes, octets_after. intros Hv Hl.
  destruct (digits64 v) as (q2 & r2 & r1 & r0 & Hd & H0 & H1 & H2 & M0 & D0 & M1 & D1 & M2 & D2). rewrite ?M2, ?M1, ?M0, ?D2, ?D1, ?D0.
  apply orb_true_iff in Hv. rewrite andb_true_iff, !N.ltb_lt, N.leb_le in Hv.
  n_tests; eexists _, _; (split; [reflexivity|]); n_tests; (split_and!; [lia|done|repeat constructor; lia]).
Qed.

Lemma decode_plain fuel c s : c <> 37 -> decode_uri_loop (S fuel) (c :: s) = (rest ← decode_uri_loop fuel s; Some (c :: rest)).
Proof. intros Hc. cbn [decode_uri_loop]. repeat case_match; simplify_eq; done. Qed.

Lemma decode_octet fuel a b octet s :
  hex_octet a b = Some octet -> octet < 128 ->
  decode_uri_loop (S fuel) (37 :: a :: b :: s) =
  (rest ← decode_uri_loop fuel s; Some ((if preserved octet then [37; a; b] else [octet]) ++ rest)).
Proof. intros Ho Hl. cbn [decode_uri_loop]. rewrite Ho. cbn [mbind option_bind]. by rewrite (proj2 (N.ltb_lt _ _)). Qed.

(** The escapes of a character are read as the character. *)
Lemma decode_char fuel v e s :
  is_scalar v = true -> preserved v = false -> escapes (point_bytes v) e ->
  decode_uri_loop (S fuel) (e ++ s) = (rest ← decode_uri_loop fuel s; Some (point_units v ++ rest)).
Proof.
  intros Hv Hp He. destruct (N.ltb_spec v 128) as [Hl|Hl].
  - unfold point_bytes in He. rewrite (proj2 (N.ltb_lt v 0x80)) in He by done.
    inversion He as [|? a b ? ? Ho Hn]; subst. inversion Hn; subst. cbn [app]. rewrite (decode_octet _ _ _ v), Hp by done.
    unfold point_units. by rewrite (proj2 (N.ltb_lt _ _)) by lia.
  - destruct (point_bytes_first v Hv Hl) as (first & rest & Heq & Hf & Hn & _). pose proof (octets_point_bytes v Hv) as Hpt.
    rewrite Heq in *. inversion He as [|? a b ? e' Ho Hr]; subst. cbn [app decode_uri_loop]. rewrite Ho. cbn [mbind option_bind].
    rewrite (proj2 (N.ltb_ge _ _)), Hn by done. cbn [mbind option_bind]. rewrite (take_octets_escapes _ _ _ Hr). cbn [mbind option_bind].
    by rewrite Hpt.
Qed.

Lemma escapes_length octets e : escapes octets e -> length e = (3 * length octets)%nat.
Proof. induction 1 as [|octet a b octets e Ho He IH]; cbn [length]; lia. Qed.

Lemma point_bytes_no_percent v : is_scalar v = true -> v <> 37 -> 37 ∉ point_bytes v.
Proof.
  intros Hv Hne. destruct (N.ltb_spec v 128) as [Hl|Hl].
  - unfold point_bytes. rewrite (proj2 (N.ltb_lt v 0x80)) by done. intros Hin%list_elem_of_singleton. congruence.
  - destruct (point_bytes_first v Hv Hl) as (first & rest & -> & Hf & _ & Hr). rewrite Forall_forall in Hr.
    intros [<-|Hin]%elem_of_cons; [lia|]. apply Hr in Hin. lia.
Qed.

Lemma reads_decoded s t fuel : reads s t -> (length (escape_percents s) <= fuel)%nat -> decode_uri_loop fuel (escape_percents s) = Some t.
Proof.
  intros Hr. revert fuel. induction Hr as [|c s t Hc Hr IH|octet e s t Hk He Hr IH|v e s t Hv Hp Hne He Hr IH]; intros fuel Hf.
  - by destruct fuel.
  - rewrite escape_percents_plain in * by done. destruct fuel as [|fuel]; [cbn in Hf; lia|].
    rewrite decode_plain, IH by (done || (cbn in Hf; lia)). done.
  - inversion He as [|? a b ? ? Ho Hn]; subst. inversion Hn; subst. cbn [app] in *.
    destruct (decide (octet = 37)) as [->|Hne].
    + apply hex_octet_percent in Ho as [-> ->].
      change (escape_percents (37 :: 50 :: 53 :: s)) with (37 :: 50 :: 53 :: 50 :: 53 :: escape_percents s) in *.
      cbn [length] in Hf. do 3 (destruct fuel as [|fuel]; [lia|]). rewrite (decode_octet _ 50 53 37) by done.
      rewrite !decode_plain, IH by (done || lia). done.
    + rewrite (escape_percents_escape a b octet) in * by done. cbn [length] in Hf. destruct fuel as [|fuel]; [lia|].
      destruct Hk as [Hk|]; [|done]. rewrite (decode_octet _ _ _ octet), IH, Hk by (done || lia || (unfold preserved in Hk; to_prop; 
        repeat (apply elem_of_cons in Hk as [->|Hk]; [done|]); by apply not_elem_of_nil in Hk)). done.
  - pose proof (point_bytes_no_percent v Hv Hne) as Hno. rewrite (escape_percents_escapes _ _ _ He Hno) in *.
    rewrite length_app, (escapes_length _ _ He) in Hf. pose proof (point_bytes_length v).
    destruct fuel as [|fuel]; [lia|]. rewrite (decode_char _ v), IH by (done || lia). done.
Qed.

(** The router's path of an encoded one has every escape read once: those of reserved
    characters and of the percent sign stay as they are, however often a path is encoded. *)
Theorem daemonRoutingPath_reads s t : reads s t -> daemonRoutingPath s = t.
Proof.
  intros Hr. unfold daemonRoutingPath.
  assert ((if includes s (js "%25") then escape_percents s else s) = escape_percents s) as ->.
  { destruct (includes _ _) eqn:E; [done|]. by rewrite escape_percents_none. }
  unfold decodeURI. by rewrite (reads_decoded s t).
Qed.

(** A path that the router reads as a private one is refused, however it is escaped. *)
Lemma private_paths_refused `{UrlHost} daemonUrl upstreamUrl p :
  p ∈ PRIVATE_DAEMON_HTTP_PATHS -> reads (url_pathname upstreamUrl) p -> private_url daemonUrl upstreamUrl = true.
Proof.
  intros Hp Hr. unfold private_url. rewrite (daemonRoutingPath_reads _ _ Hr), (bool_decide_eq_true_2 _ Hp). apply orb_true_r.
Qed.
