(* ===== verification/TunnelRpc.v ===== *)
(** The remote procedure calls of the relay in [packages/tunnel-client/src/index.ts]: how a
    request is checked, and which response the outcome of a call gets.

    The calls themselves (the daemon's HTTP API, the MCP client of the SDK) are outside: what
    they came to is an argument. *)
From S2P Require Import Prelude JsString Utf8 Splice Json RelayFrame.

#[local] Open Scope Z_scope.

Definition MCP_RELAY_CLIENT_NAME : jstr := js "kb-1-cloud-relay".
Definition MCP_RELAY_MAX_PAYLOAD_BYTES : Z := 192 * 1024.
Definition MAX_MCP_TOOL_NAME_BYTES : Z := 256.
Definition MAX_MCP_CLIENT_NAME_BYTES : Z := 256.
Definition MAX_ACTOR_HEADER_BYTES : Z := 1024.
Definition TUNNEL_HTTP_REQUEST_TIMEOUT_MS : Z := 15000.

Definition MCP_READ_ONLY_TOOLS : list jstr :=
  [js "list_vaults"; js "vault_info"; js "list_files"; js "list_attachments"; js "read_attachment"; js "get_folder_metadata";
   js "read_note"; js "search"].

Definition read_only (toolName : jstr) : bool := bool_decide (toolName ∈ MCP_READ_ONLY_TOOLS).

Definition relayRpcError (id : jstr) (code : RelayErrorCode) (message : jstr) : RelayFrame :=
  RelayRpcResponseError id {| fe_code := code; fe_message := message; fe_data := None |}.

(** The fields of a request. *)
Record RelayRpcRequest := {
  rq_id : jstr;
  rq_capability : jstr;
  rq_deadlineMs : option Z;
  rq_payload : option RelayPayload;
  rq_context : option RelayJsonObject
}.

Definition request_deadline (request : RelayRpcRequest) : Z := default TUNNEL_HTTP_REQUEST_TIMEOUT_MS (rq_deadlineMs request).

(** * The tool call *)

Definition isRelayJsonObject (v : value) : option RelayJsonObject := isRecord v.

Record McpToolCall := { mc_toolName : jstr; mc_arguments : RelayJsonObject; mc_clientName : jstr; mc_actorHeader : jstr }.

Section rpc.
Context `{JsonHost}.

(** A string that is not empty and within a limit of bytes. *)
Definition short_string (v : value) (limitBytes : Z) : option jstr :=
  match v with
  | VStr s => if (jlen s =? 0) || (limitBytes <? utf8ByteLength s) then None else Some s
  | _ => None
  end.

Definition string_or_missing (v : value) : bool := match v with VUndefined | VStr _ => true | _ => false end.

Definition string_prop (key : jstr) (v : value) : list (jstr * value) := match v with VStr s => [(key, VStr s)] | _ => [] end.

Definition actor_header_value (actor : RelayJsonObject) : value :=
  VObj true ([(js "kind", get actor (js "kind"))] ++ string_prop (js "id") (get actor (js "id"))
             ++ string_prop (js "name") (get actor (js "name")) ++ string_prop (js "client") (get actor (js "client"))).

Definition actor_kind_ok (actor : RelayJsonObject) : bool :=
  is_str (get actor (js "kind")) (js "user") || is_str (get actor (js "kind")) (js "integration").

(** The loop over the keys of the actor: the first one that is not a string. *)
Fixpoint bad_actor_key (actor : RelayJsonObject) (keys : list jstr) : option jstr :=
  match keys with
  | [] => None
  | key :: keys => if string_or_missing (get actor key) then bad_actor_key actor keys else Some key
  end.

Definition parseMcpActor (request : RelayRpcRequest) : result jstr jstr :=
  match isRelayJsonObject (get (default [] (rq_context request)) (js "actor")) with
  | None => Err (js "mcp.tool.call requires an attributed user or integration actor")
  | Some actor =>
      if negb (actor_kind_ok actor) then Err (js "mcp.tool.call requires an attributed user or integration actor")
      else
        match bad_actor_key actor [js "id"; js "name"; js "client"] with
        | Some key => Err (js "mcp.tool.call actor." ++ key ++ js " must be a string when provided")
        | None =>
            let actorHeader := text (actor_header_value actor) in
            if MAX_ACTOR_HEADER_BYTES <? utf8ByteLength actorHeader then Err (js "mcp.tool.call actor must be no larger than 1 KiB")
            else Ok actorHeader
        end
  end.

(** [undefined], or what [read] makes of the value. *)
Definition when_defined {A} (v : value) (read : value -> option A) (message : jstr) : result jstr (option A) :=
  match v with
  | VUndefined => Ok None
  | _ => match read v with Some a => Ok (Some a) | None => Err message end
  end.

Definition parseMcpToolCallRpcRequest (request : RelayRpcRequest) : result jstr McpToolCall :=
  match rq_payload request with
  | Some (RelayJsonPayload (VObj _ payload)) =>
      match short_string (get payload (js "toolName")) MAX_MCP_TOOL_NAME_BYTES with
      | None => Err (js "mcp.tool.call toolName must be a non-empty string no larger than 256 bytes")
      | Some toolName =>
          args ← when_defined (get payload (js "arguments")) isRelayJsonObject
                   (js "mcp.tool.call arguments must be a JSON object when provided");
          requestedClientName ← when_defined (get payload (js "clientName")) (fun v => short_string v MAX_MCP_CLIENT_NAME_BYTES)
            (js "mcp.tool.call clientName must be a non-empty string no larger than 256 bytes when provided");
          actorHeader ← parseMcpActor request;
          Ok {| mc_toolName := toolName; mc_arguments := default [] args;
                mc_clientName := default MCP_RELAY_CLIENT_NAME requestedClientName; mc_actorHeader := actorHeader |}
      end
  | _ => Err (js "mcp.tool.call requires a JSON object payload")
  end.

(** * Responses *)

(** What the fetch of the vault list came to: a status that is not ok, the JSON of the
    body, or an exception with its text. *)
Inductive vault_list_outcome := VaultListStatus (status : Z) | VaultListJson (v : value) | VaultListThrew (error : jstr).

(** The code of a call that failed while the deadline or the relay had aborted it. *)
Definition abort_code (deadline_aborted relay_aborted : bool) : RelayErrorCode :=
  if deadline_aborted then DEADLINE_EXCEEDED else if relay_aborted then CANCELLED else INTERNAL.

Definition vault_list_response (id : jstr) (deadline_aborted relay_aborted : bool) (outcome : vault_list_outcome) : RelayFrame :=
  match outcome with
  | VaultListStatus status => relayRpcError id INTERNAL (js "Daemon vault list failed with status " ++ dec status)
  | VaultListJson v => RelayRpcResponseOk id (RelayJsonPayload v)
  | VaultListThrew error => relayRpcError id (abort_code deadline_aborted relay_aborted) (js "Daemon vault list RPC failed: " ++ error)
  end.

(** What the tool call came to: its result, an object, or an exception with its text. *)
Inductive mcp_outcome := McpResult (result : RelayJsonObject) | McpThrew (error : jstr).

Definition omitted_text (originalSucceeded : bool) : jstr :=
  text (VObj true
    (if originalSucceeded
     then [(js "ok", VBool true); (js "resultOmitted", VBool true);
           (js "message", VStr (js "Mutation completed, but its full result exceeded the one-hop relay limit. Read current state before another mutation."))]
     else [(js "ok", VBool false); (js "error", VStr (js "result_too_large")); (js "resultOmitted", VBool true);
           (js "message", VStr (js "Mutation rejection exceeded the one-hop relay limit. Reconcile current state before retrying."))])).

Definition omitted_result (originalSucceeded : bool) : value :=
  VObj true ((if originalSucceeded then [] else [(js "isError", VBool true)])
    ++ [(js "content", VArr [VObj true [(js "type", VStr (js "text")); (js "text", VStr (omitted_text originalSucceeded))]])]).

(** [result.isError !== true]. *)
Definition result_succeeded (result : RelayJsonObject) : bool :=
  match get result (js "isError") with VBool true => false | _ => true end.

Definition mcp_response (id toolName : jstr) (deadline_aborted relay_aborted toolCallDispatched : bool) (outcome : mcp_outcome) : RelayFrame :=
  match outcome with
  | McpResult result =>
      if MCP_RELAY_MAX_PAYLOAD_BYTES <? utf8ByteLength (text (VObj true result)) then
        if negb (read_only toolName) then RelayRpcResponseOk id (RelayJsonPayload (omitted_result (result_succeeded result)))
        else relayRpcError id PAYLOAD_TOO_LARGE (js "Daemon MCP tool result is too large for one-hop relay RPC")
      else RelayRpcResponseOk id (RelayJsonPayload (VObj true result))
  | McpThrew error =>
      let aborted := deadline_aborted || relay_aborted in
      let mutationOutcomeIsIndeterminate := aborted && toolCallDispatched && negb (read_only toolName) in
      relayRpcError id
        (if mutationOutcomeIsIndeterminate then INDETERMINATE else abort_code deadline_aborted relay_aborted)
        (if mutationOutcomeIsIndeterminate
         then js "Daemon MCP mutation outcome is indeterminate after relay cancellation; reconcile state before retrying: " ++ error
         else js "Daemon MCP tool RPC failed: " ++ error)
  end.
End rpc.

(** What can abort a request of the MCP transport: the operation (its deadline or the relay), the
    transport itself, or a timeout of the cleanup or of the notice of cancellation. *)
Inductive abort_source := AbortOperation | AbortTransport | AbortCleanupTimeout | AbortCancellationTimeout.

Definition mcp_fetch_signals (cleaningUp operation_aborted has_transport_signal : bool) : list abort_source :=
  let transport := if has_transport_signal then [AbortTransport] else [] in
  if cleaningUp then [AbortCleanupTimeout]
  else if operation_aborted then AbortCancellationTimeout :: transport
  else AbortOperation :: transport.

Definition MCP_SESSION_CLEANUP_TIMEOUT_MS : Z := 1000.

(** * Properties *)

Section properties.
Context `{JsonHost}.
Implicit Types (request : RelayRpcRequest) (call : McpToolCall).

(** A string of the payload: it is not empty and has at most [limitBytes] bytes. *)
Definition name_ok (limitBytes : Z) (s : jstr) : Prop := s <> [] /\ utf8ByteLength s <= limitBytes.

Lemma short_string_spec v limitBytes s : short_string v limitBytes = Some s <-> v = VStr s /\ name_ok limitBytes s.
Proof.
  unfold short_string, name_ok. destruct v as [| | | |t| | |]; try (split; [done|by intros [? _]]).
  destruct (_ || _) eqn:E; split; try done.
  - intros [[= ->] [Hne Hl]]. apply orb_true_iff in E as [E|E]; to_prop; [|lia]. destruct s; [done|unfold jlen in E; cbn in E; lia].
  - intros [= ->]. apply orb_false_iff in E as [E1 E2]. to_prop. split; [done|]. split; [|lia]. by intros ->.
  - by intros [[= ->] _].
Qed.

Lemma when_defined_ok {A} v (read : value -> option A) message o :
  when_defined v read message = Ok o <-> v = VUndefined /\ o = None \/ v <> VUndefined /\ exists a, read v = Some a /\ o = Some a.
Proof.
  assert (v = VUndefined \/ v <> VUndefined /\ when_defined v read message = match read v with Some a => Ok (Some a) | None => Err message end) as [->|[Hv ->]].
  { by destruct v; [left|right..]. }
  - cbn. split; [intros [= <-]; by left|]. by intros [[_ ->]|[]].
  - destruct (read v) as [a|]; split.
    + intros [= <-]. right. eauto.
    + by intros [[]|[_ (? & [= ->] & ->)]].
    + done.
    + by intros [[]|[_ (? & ? & _)]].
Qed.

(** An actor the call can be attributed to. *)
Record actor_ok (actor : RelayJsonObject) (header : jstr) : Prop := {
  ac_kind : get actor (js "kind") = VStr (js "user") \/ get actor (js "kind") = VStr (js "integration");
  ac_strings : Forall (fun key => string_or_missing (get actor key) = true) [js "id"; js "name"; js "client"];
  ac_header : header = text (actor_header_value actor);
  ac_size : utf8ByteLength header <= MAX_ACTOR_HEADER_BYTES
}.

Lemma bad_actor_key_none actor keys :
  bad_actor_key actor keys = None <-> Forall (fun key => string_or_missing (get actor key) = true) keys.
Proof.
  induction keys as [|key keys IH]; cbn [bad_actor_key]; [done|]. rewrite Forall_cons.
  destruct (string_or_missing (get actor key)); [tauto|]. split; [done|by intros [? _]].
Qed.

Lemma is_str_spec v s : is_str v s = true <-> v = VStr s.
Proof. destruct v; cbn; try done. unfold jeqb. rewrite bool_decide_eq_true. split; [by intros ->|by intros [= ->]]. Qed.

Lemma parseMcpActor_ok request header :
  parseMcpActor request = Ok header <->
  exists b actor, get (default [] (rq_context request)) (js "actor") = VObj b actor /\ actor_ok actor header.
Proof.
  unfold parseMcpActor. destruct (get _ (js "actor")) as [| | | | | |b actor|]; cbn [isRelayJsonObject isRecord];
    try (split; [done|by intros (? & ? & ? & _)]).
  assert (actor_kind_ok actor = true <-> get actor (js "kind") = VStr (js "user") \/ get actor (js "kind") = VStr (js "integration")) as Hk.
  { unfold actor_kind_ok. by rewrite orb_true_iff, !is_str_spec. }
  split.
  - intros Hp. destruct (actor_kind_ok actor) eqn:Ek; [|done]. cbn [negb] in Hp. destruct (bad_actor_key _ _) eqn:Eb; [done|].
    apply bad_actor_key_none in Eb. destruct (Z.ltb_spec MAX_ACTOR_HEADER_BYTES (utf8ByteLength (text (actor_header_value actor)))); [done|].
    injection Hp as <-. exists b, actor. split; [done|]. split; [tauto|done..].
  - intros (b' & actor' & [= <- <-] & [Ha Hs -> Hz]). rewrite (proj2 Hk Ha). cbn [negb].
    rewrite (proj2 (bad_actor_key_none _ _) Hs). by rewrite (proj2 (Z.ltb_ge _ _)).
Qed.

(** A tool call is accepted exactly when its payload names a tool, its arguments are an
    object or left out, its client's name is a short string or left out, and its actor is a
    user or an integration described by strings within one kilobyte; the call is then what
    the payload says, with the defaults for what is left out. *)
Theorem mcp_call_accepted request call :
  parseMcpToolCallRpcRequest request = Ok call <->
  exists plain payload plain' actor,
    rq_payload request = Some (RelayJsonPayload (VObj plain payload)) /\
    get (default [] (rq_context request)) (js "actor") = VObj plain' actor /\
    actor_ok actor (mc_actorHeader call) /\
    get payload (js "toolName") = VStr (mc_toolName call) /\ name_ok MAX_MCP_TOOL_NAME_BYTES (mc_toolName call) /\
    (get payload (js "arguments") = VUndefined /\ mc_arguments call = [] \/
     exists b, get payload (js "arguments") = VObj b (mc_arguments call)) /\
    (get payload (js "clientName") = VUndefined /\ mc_clientName call = MCP_RELAY_CLIENT_NAME \/
     get payload (js "clientName") = VStr (mc_clientName call) /\ name_ok MAX_MCP_CLIENT_NAME_BYTES (mc_clientName call)).
Proof.
  unfold parseMcpToolCallRpcRequest. split.
  - destruct (rq_payload request) as [[[| | | | | |b payload|]|]|]; try done.
    destruct (short_string _ _) as [toolName|] eqn:Et; [|done]. apply short_string_spec in Et as [Et Hn].
    intros (args & Ha & (name & Hc & (header & Hh & Hcall)%bind_ok_inv)%bind_ok_inv)%bind_ok_inv.
    injection Hcall as <-. cbn [mc_toolName mc_arguments mc_clientName mc_actorHeader].
    apply parseMcpActor_ok in Hh as (b' & actor & Hactor & Hok). exists b, payload, b', actor. split_and!; try done.
    + apply when_defined_ok in Ha as [[? ->]|[Hu (o & Ho & ->)]]; [by left|right]. by destruct (get payload (js "arguments")); cbn in Ho; simplify_eq; eexists.
    + apply when_defined_ok in Hc as [[? ->]|[Hu (o & [Ho Hno]%short_string_spec & ->)]]; [by left|by right].
  - intros (b & payload & b' & actor & -> & Hactor & Hok & Ht & Hn & Ha & Hc).
    rewrite (proj2 (short_string_spec _ _ _) (conj Ht Hn)).
    assert (exists o, when_defined (get payload (js "arguments")) isRelayJsonObject (js "mcp.tool.call arguments must be a JSON object when provided")
                      = Ok o /\ default [] o = mc_arguments call) as (o1 & -> & Ho1).
    { destruct Ha as [[-> Ha]|[b0 Ha]]; [by exists None|]. rewrite Ha. by exists (Some (mc_arguments call)). }
    rewrite bind_ok.
    assert (exists o, when_defined (get payload (js "clientName")) (fun v => short_string v MAX_MCP_CLIENT_NAME_BYTES)
                        (js "mcp.tool.call clientName must be a non-empty string no larger than 256 bytes when provided") = Ok o /\
                      default MCP_RELAY_CLIENT_NAME o = mc_clientName call) as (o2 & -> & Ho2).
    { destruct Hc as [[-> Hc]|[Hc Hno]]; [by exists None|]. exists (Some (mc_clientName call)). split; [|done].
      apply when_defined_ok. right. rewrite Hc. split; [done|]. exists (mc_clientName call). split; [|done]. by apply short_string_spec. }
    rewrite bind_ok. rewrite (proj2 (parseMcpActor_ok request (mc_actorHeader call))) by eauto. rewrite bind_ok.
    destruct call. cbn in *. by subst.
Qed.

Lemma string_prop_cases key v :
  string_prop key v = [] \/ exists s, v = VStr s /\ string_prop key v = [(key, VStr s)].
Proof. destruct v; cbn; eauto. Qed.

(** The header an actor is sent in is read back as its kind and its strings. *)
Lemma actor_header_round_trip actor header :
  actor_ok actor header -> (forall key s, get actor key = VStr s -> is_jstr s = true) ->
  json_parse header = Some (actor_header_value actor).
Proof.
  intros [Hk _ -> _] Hj. apply json_parse_stringify; [|apply json_ok_text]; unfold actor_header_value.
  all: assert (json_ok (get actor (js "kind")) = true) as Hkind by (by destruct Hk as [-> | ->]).
  all: destruct (string_prop_cases (js "id") (get actor (js "id"))) as [-> | (s1 & E1 & ->)];
    destruct (string_prop_cases (js "name") (get actor (js "name"))) as [-> | (s2 & E2 & ->)];
    destruct (string_prop_cases (js "client") (get actor (js "client"))) as [-> | (s3 & E3 & ->)];
    cbn [json_ok app]; cbn [forallb fst snd json_ok]; rewrite Hkind;
    rewrite ?(Hj _ _ E1), ?(Hj _ _ E2), ?(Hj _ _ E3); vm_compute; done.
Qed.

Lemma omitted_result_small b : utf8ByteLength (text (omitted_result b)) <= MCP_RELAY_MAX_PAYLOAD_BYTES.
Proof. apply Z.leb_le. destruct b; vm_compute; done. Qed.

(** C19: The response to a tool call answers its request; a result it carries is within the
    limit (the text of an error is not bounded); a code that says that the call did not happen
    (deadline exceeded, cancelled) is given only when the call was not dispatched or cannot
    change anything; a mutation that was dispatched and then aborted is indeterminate; one
    that throws without having been aborted is internal, whether it was dispatched or not;
    and a mutation that returned is never answered with an error. *)
Theorem mcp_response_sound id toolName deadline_aborted relay_aborted dispatched outcome :
  match mcp_response id toolName deadline_aborted relay_aborted dispatched outcome with
  | RelayRpcResponseOk id' (RelayJsonPayload v) =>
      id' = id /\ utf8ByteLength (text v) <= MCP_RELAY_MAX_PAYLOAD_BYTES /\ exists result, outcome = McpResult result /\
      (v = VObj true result \/
       read_only toolName = false /\ v = omitted_result (result_succeeded result) /\
       MCP_RELAY_MAX_PAYLOAD_BYTES < utf8ByteLength (text (VObj true result)))
  | RelayRpcResponseError id' e =>
      id' = id /\
      match fe_code e with
      | DEADLINE_EXCEEDED => deadline_aborted = true /\ (dispatched = false \/ read_only toolName = true)
      | CANCELLED => relay_aborted = true /\ (dispatched = false \/ read_only toolName = true)
      | INDETERMINATE => (deadline_aborted = true \/ relay_aborted = true) /\ dispatched = true /\ read_only toolName = false
      | INTERNAL => deadline_aborted = false /\ relay_aborted = false
      | PAYLOAD_TOO_LARGE => read_only toolName = true
      | _ => False
      end /\
      ((exists error, outcome = McpThrew error) \/ read_only toolName = true)
  | _ => False
  end.
Proof.
  unfold mcp_response. destruct outcome as [result|error].
  - destruct (Z.ltb_spec MCP_RELAY_MAX_PAYLOAD_BYTES (utf8ByteLength (text (VObj true result)))) as [Hl|Hl].
    + destruct (read_only toolName) eqn:Er; cbn [negb relayRpcError fe_code].
      * split_and!; try done. by right.
      * split_and!; [done|apply omitted_result_small|]. exists result. split; [done|]. by right.
    + split_and!; [done..|]. exists result. split; [done|]. by left.
  - unfold relayRpcError, abort_code. cbn [fe_code].
    destruct deadline_aborted, relay_aborted, dispatched, (read_only toolName); cbn; split_and!; eauto.
Qed.
End properties.
