(* ===== verification/TunnelMessages.v ===== *)
(** The messages the tunnel client sends over its control socket, in
    [packages/tunnel-client/src/index.ts] and [packages/tunnel-protocol/src/index.ts]: their
    JSON, the size of the pieces of a response, the headers that are passed on, and the delay
    before a reconnect. *)
From Stdlib Require Import DecimalFacts DecimalN QArith Qround Qminmax.
From S2P Require Import Prelude JsString Utf8 Base64 Json SessionMessages PendingFrames DocStream StreamMux RelayFrame HttpAssembler.

#[local] Open Scope Z_scope.

(** * Data *)

Definition TUNNEL_PROTOCOL_VERSION : Z := 3.
Definition CONTROL_REPLACED : Z := 4000.

Inductive TunnelFeature :=
| RELAY_FRAMES_V1 | VAULT_CONTENT_EVENTS_V1 | VAULT_CONTENT_EVENTS_V2 | MCP_TOOL_CALL_BOUNDED_RESULTS_V1
| HTTP_RESPONSE_CHUNK_ACKS_V1 | SNAPSHOT_STREAM_V1.

#[export] Instance feature_eq_dec : EqDecision TunnelFeature.
Proof. solve_decision. Defined.

Definition TUNNEL_FEATURES (f : TunnelFeature) : jstr :=
  match f with
  | RELAY_FRAMES_V1 => js "relay.frame.v1"
  | VAULT_CONTENT_EVENTS_V1 => js "relay.vault-content-events.v1"
  | VAULT_CONTENT_EVENTS_V2 => js "relay.vault-content-events.v2"
  | MCP_TOOL_CALL_BOUNDED_RESULTS_V1 => js "relay.mcp-tool-call.bounded-results.v1"
  | HTTP_RESPONSE_CHUNK_ACKS_V1 => js "relay.http-response-chunk-acks.v1"
  | SNAPSHOT_STREAM_V1 => js "relay.snapshot-stream.v1"
  end.

(** The parts of [TunnelClientConfig] that are data. *)
Record TunnelClientConfig := {
  cf_token : jstr;
  cf_daemonVersion : option jstr;
  cf_daemonBuild : option jstr;
  cf_daemonInstanceId : jstr
}.

Record TunnelHttpResponseEnvelope := {
  hp_id : jstr;
  hp_status : Z;
  hp_headers : http_headers;
  hp_bodyB64 : option jstr
}.

(** What is given to [control.send]; [CtlPing] is a text frame or a binary one. *)
Inductive control_message :=
| CtlHello (config : TunnelClientConfig) (vaultMutationEpoch : Z)
| CtlPing (binary : bool)
| CtlResponse (r : TunnelHttpResponseEnvelope)
| CtlResponseStart (id : jstr) (status : Z) (headers : http_headers) (totalBytes : Z)
| CtlResponseChunk (id : jstr) (sequence : Z) (bodyB64 : jstr)
| CtlResponseEnd (id : jstr) (chunks : Z)
| CtlFrame (frame : RelayFrame)
| CtlMux (m : mux_message).

(** * JSON *)

Definition headers_value (headers : http_headers) : value := VObj true (map (fun kv => (kv.1, VStr kv.2)) headers).

(** [...(s ? { key: s } : {})]. *)
Definition truthy_prop (key : jstr) (s : option jstr) : list (jstr * value) :=
  match s with Some [] | None => [] | Some s => [(key, VStr s)] end.

Definition mux_message_value (m : mux_message) : value :=
  VObj true
    match m with
    | MData frame => [(js "type", VStr (js "ws.data")); (js "streamId", VStr (wd_streamId frame)); (js "seq", VNum (Int (wd_seq frame)));
                      (js "bytesB64", VStr (wd_bytesB64 frame)); (js "fin", VBool (wd_fin frame))]
    | MAck ack => [(js "type", VStr (js "ws.data.ack")); (js "streamId", VStr (wa_streamId ack)); (js "seq", VNum (Int (wa_seq ack)))]
    | MClose streamId code reason => [(js "type", VStr (js "ws.close")); (js "streamId", VStr streamId); (js "code", VNum (Int code));
                                      (js "reason", VStr reason)]
    end.

Definition chunk_value (id : jstr) (sequence : Z) (bodyB64 : jstr) : value :=
  VObj true [(js "type", VStr (js "http.response.chunk")); (js "id", VStr id); (js "sequence", VNum (Int sequence));
             (js "bodyB64", VStr bodyB64)].

Definition message_value (m : control_message) : value :=
  match m with
  | CtlHello config epoch => VObj true
      ([(js "type", VStr (js "control.hello")); (js "version", VNum (Int TUNNEL_PROTOCOL_VERSION)); (js "token", VStr (cf_token config))]
       ++ truthy_prop (js "daemonVersion") (cf_daemonVersion config) ++ truthy_prop (js "daemonBuild") (cf_daemonBuild config)
       ++ [(js "daemonInstanceId", VStr (cf_daemonInstanceId config)); (js "vaultMutationEpoch", VNum (Int epoch));
           (js "features", VArr (map (fun f => VStr (TUNNEL_FEATURES f))
              [RELAY_FRAMES_V1; VAULT_CONTENT_EVENTS_V1; VAULT_CONTENT_EVENTS_V2; MCP_TOOL_CALL_BOUNDED_RESULTS_V1;
               HTTP_RESPONSE_CHUNK_ACKS_V1; SNAPSHOT_STREAM_V1]))])
  | CtlPing _ => VObj true [(js "type", VStr (js "control.ping"))]
  | CtlResponse r => VObj true [(js "type", VStr (js "http.response")); (js "id", VStr (hp_id r)); (js "status", VNum (Int (hp_status r)));
                                (js "headers", headers_value (hp_headers r)); (js "bodyB64", from_option VStr VNull (hp_bodyB64 r))]
  | CtlResponseStart id status headers totalBytes => VObj true
      [(js "type", VStr (js "http.response.start")); (js "id", VStr id); (js "status", VNum (Int status));
       (js "headers", headers_value headers); (js "totalBytes", VNum (Int totalBytes))]
  | CtlResponseChunk id sequence bodyB64 => chunk_value id sequence bodyB64
  | CtlResponseEnd id chunks => VObj true
      [(js "type", VStr (js "http.response.end")); (js "id", VStr id); (js "chunks", VNum (Int chunks))]
  | CtlFrame frame => VObj true [(js "type", VStr (js "relay.frame")); (js "frame", frame_value frame)]
  | CtlMux m => mux_message_value m
  end.

Definition encodeJsonBytes `{JsonHost} (m : control_message) : list N := encode (text (message_value m)).

(** * Headers *)

Definition hopByHopHeaders : list jstr :=
  [js "connection"; js "content-length"; js "expect"; js "host"; js "keep-alive"; js "proxy-authenticate"; js "proxy-authorization";
   js "te"; js "trailer"; js "transfer-encoding"; js "upgrade"].
Definition responseBodyTransformHeaders : list jstr := [js "content-encoding"].

(** [output[name] = value]. *)
Fixpoint header_set (headers : http_headers) (name v : jstr) : http_headers :=
  match headers with
  | [] => [(name, v)]
  | (n, w) :: headers => if jeqb n name then (n, v) :: headers else (n, w) :: header_set headers name v
  end.

Section headers.
Context `{Host}.

Definition serializableResponseHeaders (headers : http_headers) : http_headers :=
  foldl (fun output '(name, v) =>
    let lowerName := to_lower name in
    if negb (bool_decide (lowerName ∈ hopByHopHeaders)) && negb (bool_decide (lowerName ∈ responseBodyTransformHeaders))
    then header_set output name v else output) [] headers.

Definition withoutHopByHop (headers : http_headers) : http_headers :=
  header_set
    (foldl (fun output '(name, v) => if negb (bool_decide (to_lower name ∈ hopByHopHeaders)) then header_set output name v else output)
       [] headers)
    (js "accept-encoding") (js "identity").
End headers.

(** * The delay before a reconnect *)

Definition DEFAULT_BACKOFF_BASE_MS : Z := 250.
Definition DEFAULT_BACKOFF_MAX_MS : Z := 10000.
Definition DEFAULT_BACKOFF_JITTER_RATIO : Q := 1 # 4.

(** [baseMs], [maxMs] and [jitterRatio]. *)
Record BackoffOptions := { bo_baseMs : option Z; bo_maxMs : option Z; bo_jitterRatio : option Q }.

(** With rational numbers: the products of the code are rounded to a double, which moves a
    delay by less than a millisecond.  [Math.round] takes the greater of two neighbours. *)
Definition math_round (q : Q) : Z := Qfloor (q + (1 # 2)).

Definition createBackoffDelay (attempt : Z) (options : BackoffOptions) (random : Q) : Z :=
  let baseMs := default DEFAULT_BACKOFF_BASE_MS (bo_baseMs options) in
  let maxMs := default DEFAULT_BACKOFF_MAX_MS (bo_maxMs options) in
  let jitterRatio := default DEFAULT_BACKOFF_JITTER_RATIO (bo_jitterRatio options) in
  let exponential := Z.min maxMs (baseMs * 2 ^ Z.max 0 attempt) in
  let jitter := (inject_Z exponential * jitterRatio * random)%Q in
  math_round (Qmin (inject_Z maxMs) (inject_Z exponential + jitter)).

Definition no_backoff_options : BackoffOptions := {| bo_baseMs := None; bo_maxMs := None; bo_jitterRatio := None |}.

(** * The pieces of a response *)

Section pieces.
Context `{JsonHost}.

(** The bytes of the body in a chunk: what fits beside the rest of the message. *)
Definition chunk_room (id : jstr) (sequence : Z) : Z :=
  (TUNNEL_WS_FRAME_BYTE_LIMIT - byteLength (encodeJsonBytes (CtlResponseChunk id sequence []))) / 4 * 3.

Definition body_chunk (id : jstr) (body : list N) (offset : nat) (sequence : Z) : list N :=
  take (Z.to_nat (chunk_room id sequence)) (drop offset body).

(** The chunks the loop of [sendHttpResponse] sends from [offset] on; [None] when it throws. *)
Fixpoint chunk_plan (fuel : nat) (id : jstr) (body : list N) (offset : nat) (sequence : Z) : option (list control_message) :=
  match fuel with
  | O => Some []
  | S fuel =>
      if (offset <? length body)%nat then
        if chunk_room id sequence <=? 0 then None
        else
          let chunk := body_chunk id body offset sequence in
          rest ← chunk_plan fuel id body (offset + length chunk) (sequence + 1);
          Some (CtlResponseChunk id sequence (encodeBase64Bytes chunk) :: rest)
      else Some []
  end.
End pieces.

(** * The size of a chunk *)

Lemma double_digits d : (Decimal.nb_digits (Decimal.Little.double d) <= S (Decimal.nb_digits d))%nat /\
  (Decimal.nb_digits (Decimal.Little.succ_double d) <= S (Decimal.nb_digits d))%nat.
Proof. induction d; cbn; lia. Qed.

Lemma pos_digits p : (Decimal.nb_digits (Pos.to_little_uint p) <= Pos.size_nat p)%nat.
Proof.
  induction p as [p IH|p IH|]; cbn [Pos.to_little_uint Pos.size_nat]; [..|done].
  - pose proof (proj2 (double_digits (Pos.to_little_uint p))). lia.
  - pose proof (proj1 (double_digits (Pos.to_little_uint p))). lia.
Qed.

Lemma uint_units_digits d : length (uint_units d) = Decimal.nb_digits d.
Proof. induction d; cbn; congruence. Qed.

Lemma size_nat_bound p n : Zpos p < 2 ^ Z.of_nat n -> (Pos.size_nat p <= n)%nat.
Proof.
  revert n. induction p as [p IH|p IH|]; intros n Hn; (destruct n as [|n]; [cbn in Hn; lia|]);
    rewrite Nat2Z.inj_succ, Z.pow_succ_r in Hn by lia; cbn [Pos.size_nat]; [specialize (IH n); lia..|lia].
Qed.

Lemma dec_length z : 0 <= z <= 2 ^ 53 -> (length (dec z) <= 54)%nat.
Proof.
  intros Hz. unfold dec. destruct z as [|p|p]; [cbn; lia| |lia]. unfold dec_N. rewrite uint_units_digits.
  cbn [Z.to_N N.to_uint]. unfold Pos.to_uint. rewrite nb_digits_rev. pose proof (pos_digits p).
  pose proof (size_nat_bound p 54). lia.
Qed.

Section sizes.
Context `{JsonHost}.

Lemma text_str s : text (VStr s) = json_quote s.
Proof. done. Qed.

Lemma text_int z : small_int z = true -> text (VNum (Int z)) = dec z.
Proof. intros Hz. unfold text. cbn [stringify number_text]. by rewrite Hz. Qed.

(** A chunk's text around its bytes. *)
Definition chunk_head (id : jstr) (sequence : Z) : jstr :=
  js "{" ++ json_quote (js "type") ++ js ":" ++ json_quote (js "http.response.chunk") ++ js ","
  ++ json_quote (js "id") ++ js ":" ++ json_quote id ++ js ","
  ++ json_quote (js "sequence") ++ js ":" ++ dec sequence ++ js ","
  ++ json_quote (js "bodyB64") ++ js ":" ++ [34%N].
Definition chunk_tail : jstr := [34%N] ++ js "}".

Lemma chunk_text id sequence b :
  is_jstr id = true -> is_jstr b = true -> small_int sequence = true ->
  text (chunk_value id sequence b) = chunk_head id sequence ++ quote_body b ++ chunk_tail.
Proof.
  intros Hid Hb Hs. unfold chunk_value. rewrite stringify_obj.
  2:{ repeat constructor; cbn [fst snd json_ok]; rewrite ?Hid, ?Hb, ?Hs; done. }
  unfold chunk_head, chunk_tail, member_text. cbn [map join fst snd]. rewrite !text_str, (text_int _ Hs).
  rewrite (eq_refl : json_quote b = [34%N] ++ quote_body b ++ [34%N]). by rewrite <- !app_assoc.
Qed.

Lemma quote_plain s : Forall (fun c => 32 <= c < 127 /\ c <> 34 /\ c <> 92)%N s -> quote_body s = s.
Proof.
  induction 1 as [|c s [Hc Hn] Hf IH]; [done|]. cbn [quote_body]. unfold is_high, is_low, quote_unit.
  n_tests. cbn [andb]. by rewrite IH.
Qed.

Lemma b64_char_range v : (v < 64)%N -> (32 <= b64_char v < 127 /\ b64_char v <> 34 /\ b64_char v <> 92)%N.
Proof. intros Hv. unfold b64_char. n_tests. Qed.

Lemma btoa_plain bytes :
  Forall (fun b => is_byte b = true) bytes -> Forall (fun c => 32 <= c < 127 /\ c <> 34 /\ c <> 92)%N (btoa bytes).
Proof.
  intros Hb. rewrite btoa_split. apply Forall_app. split.
  - eapply Forall_impl; [by apply btoa_body_chars|]. intros c (v & Hv & ->). by apply b64_char_range.
  - apply Forall_forall. intros c Hc. apply list_elem_of_In, repeat_spec in Hc. by subst.
Qed.

Lemma chunk_head_proper id sequence : is_jstr id = true -> proper (chunk_head id sequence) = true.
Proof.
  intros Hid. unfold chunk_head. repeat (apply proper_app; [first [by apply json_quote_proper | by apply proper_ascii, dec_ascii | done]|]). done.
Qed.

(** The bytes of a chunk: those of an empty one and its base64 text. *)
Lemma chunk_message_size id sequence data :
  is_jstr id = true -> small_int sequence = true -> Forall (fun b => is_byte b = true) data ->
  byteLength (encodeJsonBytes (CtlResponseChunk id sequence (encodeBase64Bytes data))) =
  byteLength (encodeJsonBytes (CtlResponseChunk id sequence [])) + Z.of_nat (length (btoa data)).
Proof.
  intros Hid Hs Hd. unfold encodeJsonBytes, byteLength, encodeBase64Bytes. cbn [message_value].
  pose proof (btoa_plain _ Hd) as Hp.
  assert (is_jstr (btoa data) = true) as Hj.
  { apply forallb_Forall. eapply Forall_impl; [exact Hp|]. intros c Hc. cbv beta in Hc. unfold is_unit. n_tests. }
  rewrite !chunk_text by done. rewrite (quote_plain _ Hp). cbn [quote_body app].
  pose proof (chunk_head_proper id sequence Hid) as Hh. unfold proper in Hh. to_prop.
  rewrite !encode_app, !length_app by done.
  assert (forallb is_ascii (btoa data) = true) as Ha.
  { apply forallb_Forall. eapply Forall_impl; [exact Hp|]. intros c Hc. cbv beta in Hc. unfold is_ascii. n_tests. }
  rewrite encode_app, length_app, (ascii_encode _ Ha) by by apply ascii_well_formed.
  rewrite (encode_app _ chunk_tail), length_app by done. lia.
Qed.

(** A chunk of a response fits in a frame. *)
Theorem response_chunk_fits id body offset sequence :
  is_jstr id = true -> small_int sequence = true -> Forall (fun b => is_byte b = true) body -> 0 < chunk_room id sequence ->
  byteLength (encodeJsonBytes (CtlResponseChunk id sequence (encodeBase64Bytes (body_chunk id body offset sequence))))
    <= TUNNEL_WS_FRAME_BYTE_LIMIT.
Proof.
  intros Hid Hs Hb Hr. rewrite chunk_message_size by (done || by apply Forall_take, Forall_drop).
  rewrite btoa_count. unfold body_chunk. rewrite length_take. unfold chunk_room in *.
  set (n := byteLength _) in *. set (m := length (drop offset body)).
  pose proof (Z.mul_div_le (TUNNEL_WS_FRAME_BYTE_LIMIT - n) 4 ltac:(lia)) as Hle.
  set (k := (TUNNEL_WS_FRAME_BYTE_LIMIT - n) / 4) in *. set (r := (Z.to_nat (k * 3) `min` m + 2)%nat).
  assert (Z.of_nat (r / 3) <= k) as Hk; [|lia].
  rewrite Nat2Z.inj_div. apply Z.lt_succ_r, Z.div_lt_upper_bound; lia.
Qed.
End sizes.

(** * The pieces make up the body *)

Section whole.
Context `{JsonHost}.

(** An id short enough to leave room for bytes. *)
Definition short_id (id : jstr) : Prop := is_jstr id = true /\ byteLength (encode (json_quote id)) <= 100000.

Lemma room_positive id sequence : short_id id -> 0 <= sequence <= 2 ^ 53 -> 0 < chunk_room id sequence.
Proof.
  intros [Hid Hq] Hs. unfold chunk_room.
  assert (byteLength (encodeJsonBytes (CtlResponseChunk id sequence [])) <= 150000) as Hn.
  { unfold encodeJsonBytes. cbn [message_value]. rewrite chunk_text by (done || unfold small_int; apply Z.leb_le; lia).
    cbn [quote_body app]. unfold chunk_head.
    pose proof (json_quote_proper id Hid) as Hw. unfold proper in Hw. to_prop. pose proof (dec_length sequence Hs) as Hd.
    pose proof (dec_ascii sequence) as Ha. unfold byteLength in *. rewrite <- !app_assoc.
    repeat (rewrite encode_app by first [done | by apply ascii_well_formed]). rewrite (ascii_encode _ Ha), !length_app.
    repeat match goal with |- context [length (encode (js ?s))] =>
      let n := eval vm_compute in (length (encode (js s))) in change (length (encode (js s))) with n end.
    repeat match goal with |- context [length (encode (json_quote (js ?s)))] =>
      let n := eval vm_compute in (length (encode (json_quote (js s)))) in change (length (encode (json_quote (js s)))) with n end.
    change (length (encode [34%N])) with 1%nat. change (length (encode chunk_tail)) with 2%nat.
    lia. }
  unfold TUNNEL_WS_FRAME_BYTE_LIMIT. set (n := byteLength (encodeJsonBytes _)) in *.
  pose proof (Z.div_le_lower_bound (256 * 1024 - n) 4 1 ltac:(lia)). lia.
Qed.

(** The chunk messages of pieces, numbered from [sequence] on. *)
Definition piece_messages (id : jstr) (sequence : Z) (parts : list (list N)) : list control_message :=
  imap (fun k part => CtlResponseChunk id (sequence + Z.of_nat k) (encodeBase64Bytes part)) parts.

Lemma piece_messages_cons id sequence part parts :
  piece_messages id sequence (part :: parts) =
  CtlResponseChunk id sequence (encodeBase64Bytes part) :: piece_messages id (sequence + 1) parts.
Proof.
  unfold piece_messages. cbn [imap]. f_equal; [f_equal; lia|]. apply imap_ext. intros i x _. cbn. f_equal. lia.
Qed.

Lemma take_drop_length {A} n (l : list A) : take n l ++ drop (length (take n l)) l = l.
Proof.
  rewrite length_take. destruct (Nat.min_spec n (length l)) as [[Hn ->]|[Hn ->]]; [apply take_drop|].
  by rewrite take_ge, drop_all, app_nil_r.
Qed.

(** The loop that sends a body ends, does not throw, and sends it whole: pieces that are
    not empty, numbered in order, whose concatenation is the body. *)
Theorem chunk_plan_whole fuel id body offset sequence :
  short_id id -> 0 <= sequence -> sequence + byteLength body <= 2 ^ 53 + Z.of_nat offset -> (length body < offset + fuel)%nat ->
  exists parts, chunk_plan fuel id body offset sequence = Some (piece_messages id sequence parts) /\
    concat parts = drop offset body /\ Forall (fun part => part <> []) parts.
Proof.
  intros Hid. revert offset sequence. induction fuel as [|fuel IH]; intros offset sequence Hs Hl Hf.
  { exists []. split_and!; [done| |done]. symmetry. apply drop_ge. lia. }
  cbn [chunk_plan]. destruct (Nat.ltb_spec offset (length body)) as [Ho|Ho].
  2:{ exists []. split_and!; [done| |done]. symmetry. by apply drop_ge. }
  unfold byteLength in *. pose proof (room_positive id sequence Hid ltac:(lia)) as Hr. rewrite (proj2 (Z.leb_gt _ _)) by done.
  set (chunk := body_chunk id body offset sequence).
  assert (length chunk = Z.to_nat (chunk_room id sequence) `min` (length body - offset))%nat as Hc.
  { unfold chunk, body_chunk. by rewrite length_take, length_drop. }
  destruct (IH (offset + length chunk)%nat (sequence + 1)) as (parts & -> & Hp & Hne); [lia..|].
  exists (chunk :: parts). rewrite piece_messages_cons. split_and!; [done| |].
  - cbn [concat]. rewrite Hp, <- drop_drop. apply take_drop_length.
  - constructor; [|done]. intros Hn. rewrite Hn in Hc. cbn in Hc. lia.
Qed.
End whole.

(** * The delay *)

Lemma math_round_le p q : (p <= q)%Q -> math_round p <= math_round q.
Proof. intros Hq. unfold math_round. apply Qfloor_resp_le. by apply Qplus_le_l. Qed.

Lemma math_round_Z z : math_round (inject_Z z) = z.
Proof. unfold math_round, Qfloor, inject_Z, Qplus. cbn -[Z.div]. change (Z.pos (1 * 2)) with 2. symmetry. apply Z.div_unique with 1; lia. Qed.

(** With the default options a delay is between the exponential one, which is at least the
    base, and the maximum. *)
Theorem backoff_delay_bounds attempt random :
  0 <= attempt -> (0 <= random)%Q ->
  let delay := createBackoffDelay attempt no_backoff_options random in
  Z.min DEFAULT_BACKOFF_MAX_MS (DEFAULT_BACKOFF_BASE_MS * 2 ^ attempt) <= delay <= DEFAULT_BACKOFF_MAX_MS.
Proof.
  intros Ha Hr delay. unfold delay, createBackoffDelay, no_backoff_options. cbn [bo_baseMs bo_maxMs bo_jitterRatio default].
  rewrite Z.max_r by done. set (e := Z.min _ _). assert (0 <= e <= DEFAULT_BACKOFF_MAX_MS) as He.
  { unfold e, DEFAULT_BACKOFF_BASE_MS, DEFAULT_BACKOFF_MAX_MS. pose proof (Z.pow_nonneg 2 attempt). lia. }
  split.
  - rewrite <- (math_round_Z e) at 1. apply math_round_le, Q.min_glb; [rewrite <- Zle_Qle; lia|].
    rewrite <- (Qplus_0_r (inject_Z e)) at 1. apply Qplus_le_r. repeat apply Qmult_le_0_compat; [change 0%Q with (inject_Z 0); rewrite <- Zle_Qle; lia|done..].
  - rewrite <- (math_round_Z DEFAULT_BACKOFF_MAX_MS) at 2. apply math_round_le, Q.le_min_l.
Qed.
