(* ===== verification/TunnelClient.v ===== *)
(** [TunnelClient] of [packages/tunnel-client/src/index.ts]: the reconnecting client of the
    relay, as a state machine.

    The control sockets, the timers, the requests under way and the streams of the daemon are
    objects with an address; the fields of the client hold addresses.  A step is something
    that happens to the client: a call of a method, an event of a socket, a timer that fires,
    or an answer of the daemon to an asynchronous function that waits for it.  Time is the
    order of the steps: a timer fires at any moment after it was set.  What is given to
    [send] on a socket that is not open is dropped, as the WebSocket library does; messages
    only come on sockets that have opened, so that [send] does not throw.  Log entries are
    left out. *)
From Stdlib Require Import QArith.
From S2P Require Import Prelude JsString Utf8 Splice Base64 Json PendingFrames PendingRequests DocStream StreamMux RelayFrame HttpAssembler TunnelPaths TunnelRpc TunnelMessages.

#[local] Open Scope Z_scope.

(** * Data *)

Definition CONTROL_HEARTBEAT_INTERVAL_MS : Z := 15000.
Definition CONTROL_HEARTBEAT_TIMEOUT_MS : Z := 12000.
Definition CONTROL_HEARTBEAT_MISSES_BEFORE_RECONNECT : nat := 4.
Definition CONTROL_DURABLE_LIVENESS_INTERVAL_MS : Z := 30000.

Definition WS_CONNECTING : Z := 0.
Definition WS_CLOSING : Z := 2.
Definition WS_CLOSED : Z := 3.

(** A control socket: its [readyState], what was sent, and whether it was terminated. *)
Record ControlSocket := { cs_readyState : Z; cs_sent : list control_message; cs_terminated : bool }.

#[export] Instance control_rebuild : Rebuild ControlSocket := fun s =>
  {| cs_readyState := cs_readyState s; cs_sent := cs_sent s; cs_terminated := cs_terminated s |}.

(** What the callback of a timer has captured. *)
Inductive timer :=
| ReconnectTimer (delayMs : Z)
| HeartbeatInterval (control : nat) (durableLivenessElapsedMs : Z)
| HeartbeatDeadline (control : nat)
| FetchTimer (pending : nat)
| ChunkAckTimer (id : jstr)
| RpcTimer (job : nat).

Record PendingDaemonHttpRequest := { pd_canceled : bool; pd_aborted : bool }.

(** An acknowledgement that is waited for, and the job that waits. *)
Record PendingHttpResponseChunkAck := { pa_sequence : Z; pa_job : nat; pa_timeout : nat }.

(** The promise a chunk waits for. *)
Inductive awaiting := Awaiting | Resolved | Rejected (error : jstr).

(** What follows [sendHttpResponse]: the end of [proxyAndSendHttpResponse] with its
    [pending], the refusal of a snapshot, or the two responses of a snapshot that does not
    stream. *)
Inductive after_send :=
| AfterProxy (pending : option nat)
| AfterUnavailable
| AfterFallback (pending : nat)
| AfterFailure (pending : nat).

(** The awaits of the asynchronous functions that answer HTTP requests. *)
Inductive http_job :=
| ProxyFetching (control : nat) (request : TunnelHttpRequestEnvelope) (pending timeout : nat)
| Responding (control : nat) (response : TunnelHttpResponseEnvelope) (body : list N) (offset : nat) (sequence : Z)
    (ack : awaiting) (after : after_send)
| SnapshotFetching (control : nat) (id : jstr) (pending : nat)
| StreamReading (control : nat) (id : jstr) (pending : nat) (totalBytes sentBytes chunks : Z)
| StreamSending (control : nat) (id : jstr) (pending : nat) (totalBytes sentBytes chunks : Z) (piece : list N) (offset : nat)
    (ack : awaiting)
| StreamCancelling (control : nat) (id : jstr) (pending : nat) (chunks : Z) (threw : bool).

(** The awaits of [handleRelayRpcRequest]. *)
Inductive rpc_phase :=
| RpcVaultList
| RpcToolCall (call : McpToolCall) (toolCallDispatched : bool)
| RpcAnswer (frame : RelayFrame).

Record rpc_job := {
  rj_control : nat;
  rj_request : RelayRpcRequest;
  rj_relay_aborted : bool;           (* the signal of the relay's [AbortController] *)
  rj_deadline_aborted : bool;
  rj_timeout : option nat;
  rj_phase : rpc_phase
}.

#[export] Instance rpc_job_rebuild : Rebuild rpc_job := fun j =>
  {| rj_control := rj_control j; rj_request := rj_request j; rj_relay_aborted := rj_relay_aborted j;
     rj_deadline_aborted := rj_deadline_aborted j; rj_timeout := rj_timeout j; rj_phase := rj_phase j |}.

(** A request made to the daemon: the origin and path of its URL, and whether it is the one of
    the snapshot. *)
Record daemon_fetch := { df_origin : jstr; df_pathname : jstr; df_snapshot : bool; df_headers : http_headers; df_body : option (list N) }.

(** A loopback socket that was opened. *)
Record loopback_open := { lo_protocol : jstr; lo_origin : jstr; lo_pathname : jstr; lo_headers : http_headers }.

Record TunnelClient := {
  tc_next : nat;                                  (* the next free address *)
  tc_sockets : gmap nat ControlSocket;
  tc_timers : gmap nat timer;
  tc_pendings : gmap nat PendingDaemonHttpRequest;
  tc_jobs : gmap nat http_job;
  tc_rpcs : gmap nat rpc_job;
  tc_control : option nat;
  tc_reconnectTimer : option nat;
  tc_heartbeatInterval : option nat;
  tc_heartbeatDeadline : option nat;
  tc_heartbeatMisses : nat;
  tc_assembler : ChunkedHttpRequestAssembler;
  tc_pendingHttp : gmap jstr nat;                 (* [pendingHttpRequests] *)
  tc_acks : gmap jstr PendingHttpResponseChunkAck;
  tc_pendingRpc : gmap jstr nat;                  (* [pendingRelayRpcRequests] *)
  tc_stopped : bool;
  tc_hasStarted : bool;
  tc_reconnectAttempt : Z;
  tc_supportsAcks : bool;                         (* [relaySupportsHttpResponseChunkAcks] *)
  tc_epoch : Z;                                   (* [vaultMutationEpoch] *)
  tc_mux : StreamMux;
  tc_fetches : list daemon_fetch;
  tc_loopbacks : list loopback_open
}.

#[export] Instance client_rebuild : Rebuild TunnelClient := fun c =>
  {| tc_next := tc_next c; tc_sockets := tc_sockets c; tc_timers := tc_timers c; tc_pendings := tc_pendings c; tc_jobs := tc_jobs c;
     tc_rpcs := tc_rpcs c; tc_control := tc_control c; tc_reconnectTimer := tc_reconnectTimer c;
     tc_heartbeatInterval := tc_heartbeatInterval c; tc_heartbeatDeadline := tc_heartbeatDeadline c;
     tc_heartbeatMisses := tc_heartbeatMisses c; tc_assembler := tc_assembler c; tc_pendingHttp := tc_pendingHttp c;
     tc_acks := tc_acks c; tc_pendingRpc := tc_pendingRpc c; tc_stopped := tc_stopped c; tc_hasStarted := tc_hasStarted c;
     tc_reconnectAttempt := tc_reconnectAttempt c; tc_supportsAcks := tc_supportsAcks c; tc_epoch := tc_epoch c; tc_mux := tc_mux c;
     tc_fetches := tc_fetches c; tc_loopbacks := tc_loopbacks c |}.

Implicit Types (c : TunnelClient) (a t j p : nat) (id : jstr).

Definition new_client : TunnelClient :=
  {| tc_next := 0; tc_sockets := ∅; tc_timers := ∅; tc_pendings := ∅; tc_jobs := ∅; tc_rpcs := ∅; tc_control := None;
     tc_reconnectTimer := None; tc_heartbeatInterval := None; tc_heartbeatDeadline := None; tc_heartbeatMisses := 0;
     tc_assembler := ∅; tc_pendingHttp := ∅; tc_acks := ∅; tc_pendingRpc := ∅; tc_stopped := true; tc_hasStarted := false;
     tc_reconnectAttempt := 0; tc_supportsAcks := false; tc_epoch := 0; tc_mux := new_mux; tc_fetches := []; tc_loopbacks := [] |}.

(** * Objects *)

(** [setTimeout], [setInterval]: the client and the timer. *)
Definition set_timer c (x : timer) : TunnelClient * nat :=
  (c <| tc_timers := <[tc_next c := x]> (tc_timers c) |> <| tc_next := S (tc_next c) |>, tc_next c).
(** [clearTimeout], [clearInterval]. *)
Definition clear_timer c t : TunnelClient := c <| tc_timers := delete t (tc_timers c) |>.
Definition clear_timer_field c (field : option nat) : TunnelClient := match field with Some t => clear_timer c t | None => c end.

Definition ready_state c a : Z := match tc_sockets c !! a with Some s => cs_readyState s | None => WS_CLOSED end.
Definition set_socket c a (s : ControlSocket) : TunnelClient := c <| tc_sockets := <[a := s]> (tc_sockets c) |>.

(** [control.send(message)]. *)
Definition control_send c a (m : control_message) : TunnelClient :=
  match tc_sockets c !! a with
  | Some s => if cs_readyState s =? WS_OPEN then set_socket c a (s <| cs_sent := cs_sent s ++ [m] |>) else c
  | None => c
  end.

(** [control.close(code, reason)] and [control.terminate()]: an ended socket stays ended. *)
Definition socket_end (terminated : bool) (s : ControlSocket) : ControlSocket :=
  if cs_readyState s =? WS_CLOSED then s
  else s <| cs_readyState := WS_CLOSING |> <| cs_terminated := cs_terminated s || terminated |>.
Definition control_close c a : TunnelClient :=
  match tc_sockets c !! a with Some s => set_socket c a (socket_end false s) | None => c end.
Definition control_terminate c a : TunnelClient :=
  match tc_sockets c !! a with Some s => set_socket c a (socket_end true s) | None => c end.

Definition job_set c j (x : http_job) : TunnelClient := c <| tc_jobs := <[j := x]> (tc_jobs c) |>.
Definition job_end c j : TunnelClient := c <| tc_jobs := delete j (tc_jobs c) |>.

Definition pending_canceled c p : bool := match tc_pendings c !! p with Some d => pd_canceled d | None => false end.
(** [pending.canceled = true; pending.abort.abort(...)]. *)
Definition pending_cancel (d : PendingDaemonHttpRequest) : PendingDaemonHttpRequest := {| pd_canceled := true; pd_aborted := true |}.
Definition pending_abort (d : PendingDaemonHttpRequest) : PendingDaemonHttpRequest := {| pd_canceled := pd_canceled d; pd_aborted := true |}.

(** [this.pendingHttpRequests.get(id)?.canceled]. *)
Definition request_canceled c id : bool := match tc_pendingHttp c !! id with Some p => pending_canceled c p | None => false end.

(** [if (this.pendingHttpRequests.get(id) === pending) this.pendingHttpRequests.delete(id)]. *)
Definition drop_pending c id p : TunnelClient :=
  if bool_decide (tc_pendingHttp c !! id = Some p) then c <| tc_pendingHttp := delete id (tc_pendingHttp c) |> else c.

(** What the code takes from Node: [gunzipSync], [None] when it throws, and [Number]. *)
Class TunnelHost := {
  gunzipSync : list N -> option (list N);
  gunzip_error : jstr;
  to_number : jstr -> number
}.

Section client.
Context `{JsonHost, Host, UrlHost, TunnelHost, MuxHost}.
Context (config : TunnelClientConfig) (daemonUrl : url).

(** * Acknowledgements of chunks *)

(** The promise of a job's chunk settles, if it waits for one. *)
Definition settle_ack c j (r : awaiting) : TunnelClient :=
  match tc_jobs c !! j with
  | Some (Responding control response body offset sequence Awaiting after) =>
      job_set c j (Responding control response body offset sequence r after)
  | Some (StreamSending control id pending totalBytes sentBytes chunks piece offset Awaiting) =>
      job_set c j (StreamSending control id pending totalBytes sentBytes chunks piece offset r)
  | _ => c
  end.

Definition rejectPendingHttpResponseChunkAck c id (error : jstr) : TunnelClient :=
  match tc_acks c !! id with
  | None => c
  | Some pending =>
      settle_ack (clear_timer c (pa_timeout pending) <| tc_acks := delete id (tc_acks c) |>) (pa_job pending) (Rejected error)
  end.

Definition resolveHttpResponseChunkAck c id (sequence : Z) : TunnelClient :=
  match tc_acks c !! id with
  | None => c
  | Some pending =>
      if negb (pa_sequence pending =? sequence)
      then rejectPendingHttpResponseChunkAck c id (js "Error: Relay acknowledged an unexpected HTTP response chunk")
      else settle_ack (clear_timer c (pa_timeout pending) <| tc_acks := delete id (tc_acks c) |>) (pa_job pending) Resolved
  end.

Definition abortPendingHttpResponseChunkAcks c (reason : jstr) : TunnelClient :=
  foldl (fun c id => rejectPendingHttpResponseChunkAck c id (js "Error: " ++ reason)) c (map_to_list (tc_acks c)).*1.

(** [sendHttpResponseChunk] up to its await: the promise is registered before the chunk is sent. *)
Definition sendHttpResponseChunk c j (control : nat) id (sequence : Z) (m : control_message) : result jstr TunnelClient :=
  if bool_decide (is_Some (tc_acks c !! id))
  then Err (js "Error: HTTP response chunk acknowledgement is already pending")
  else
    let '(c, t) := set_timer c (ChunkAckTimer id) in
    let c := c <| tc_acks := <[id := {| pa_sequence := sequence; pa_job := j; pa_timeout := t |}]> (tc_acks c) |> in
    Ok (control_send c control m).

(** * Sending a response *)

(** How a part of an asynchronous function ends: a return, an exception, or an await. *)
Inductive part := Returned | Threw (error : jstr) | Waits (x : http_job).

Definition metadata_error : jstr := js "Error: HTTP response chunk metadata exceeded tunnel frame cap".

(** The loop of [sendHttpResponse] from [offset] on.  A round sends at least one byte, so that
    the length of the body is enough fuel. *)
Fixpoint response_loop (fuel : nat) c j (control : nat) (response : TunnelHttpResponseEnvelope) (body : list N) (offset : nat)
    (sequence : Z) (after : after_send) : TunnelClient * part :=
  let id := hp_id response in
  match fuel with
  | O => (c, Returned)
  | S fuel =>
      if request_canceled c id then (c, Returned)
      else if (offset <? length body)%nat then
        if chunk_room id sequence <=? 0 then (c, Threw metadata_error)
        else
          let chunk := body_chunk id body offset sequence in
          let m := CtlResponseChunk id sequence (encodeBase64Bytes chunk) in
          if tc_supportsAcks c then
            match sendHttpResponseChunk c j control id sequence m with
            | Err e => (c, Threw e)
            | Ok c => (c, Waits (Responding control response body offset sequence Awaiting after))
            end
          else response_loop fuel (control_send c control m) j control response body (offset + length chunk) (sequence + 1) after
      else (control_send c control (CtlResponseEnd id sequence), Returned)
  end.

Definition response_fuel (body : list N) : nat := S (length body).

(** [sendHttpResponse] up to its first await. *)
Definition sendHttpResponse c j (control : nat) (response : TunnelHttpResponseEnvelope) (after : after_send) : TunnelClient * part :=
  match hp_bodyB64 response with
  | None | Some [] => (control_send c control (CtlResponse response), Returned)
  | Some bodyB64 =>
      let without := CtlResponse {| hp_id := hp_id response; hp_status := hp_status response; hp_headers := hp_headers response;
                                    hp_bodyB64 := Some [] |} in
      if byteLength (encodeJsonBytes without) + jlen bodyB64 <=? TUNNEL_WS_FRAME_BYTE_LIMIT
      then (control_send c control (CtlResponse response), Returned)
      else
        let body := decodeBase64Bytes bodyB64 in
        if request_canceled c (hp_id response) then (c, Returned)
        else
          let c := control_send c control (CtlResponseStart (hp_id response) (hp_status response) (hp_headers response) (byteLength body)) in
          response_loop (response_fuel body) c j control response body 0 0 after
  end.

Definition text_headers : http_headers := [(js "content-type", js "text/plain; charset=utf-8")].

Definition text_response id (status : Z) (body : jstr) : TunnelHttpResponseEnvelope :=
  {| hp_id := id; hp_status := status; hp_headers := text_headers; hp_bodyB64 := Some (encodeBase64Bytes (encode body)) |}.

Definition LF_text : jstr := [10%N].
Definition not_found_response id : TunnelHttpResponseEnvelope := text_response id 404 (js "Not found" ++ LF_text).
Definition bad_gateway_response id (error : jstr) : TunnelHttpResponseEnvelope :=
  text_response id 502 (js "Tunnel client failed to reach daemon: " ++ error ++ LF_text).

(** What is left of the function once [sendHttpResponse] is over, but for the second response
    of a snapshot. *)
Definition close_send c j id (after : after_send) : TunnelClient :=
  job_end
    match after with
    | AfterProxy None => c <| tc_pendingHttp := delete id (tc_pendingHttp c) |>
    | AfterProxy (Some p) | AfterFallback p | AfterFailure p => drop_pending c id p
    | AfterUnavailable => c
    end j.

(** The part goes on: it waits, it is over, or a snapshot's first response has failed and is
    answered by a second one. *)
Definition continue_send (r : TunnelClient * part) j (control : nat) id (after : after_send) : TunnelClient :=
  match r with
  | (c, Waits x) => job_set c j x
  | (c, Returned) => close_send c j id after
  | (c, Threw error) =>
      match after with
      | AfterFallback p =>
          if pending_canceled c p then close_send c j id after
          else
            match sendHttpResponse c j control (bad_gateway_response id error) (AfterFailure p) with
            | (c, Waits x) => job_set c j x
            | (c, _) => close_send c j id (AfterFailure p)
            end
      | _ => close_send c j id after
      end
  end.

(** The promise of the chunk of a job has settled. *)
Definition resume_response c j : TunnelClient :=
  match tc_jobs c !! j with
  | Some (Responding control response body offset sequence Resolved after) =>
      let sent := length (body_chunk (hp_id response) body offset sequence) in
      continue_send (response_loop (response_fuel body) c j control response body (offset + sent) (sequence + 1) after)
        j control (hp_id response) after
  | Some (Responding control response body offset sequence (Rejected error) after) =>
      continue_send (c, Threw error) j control (hp_id response) after
  | _ => c
  end.

(** * Proxied requests *)

(** What a fetch came to: a response with its bytes, or an exception with its text. *)
Inductive fetch_outcome := FetchOk (status : Z) (headers : http_headers) (body : list N) | FetchThrew (error : jstr).

(** [materializedResponseBody]: a body that looks compressed is decompressed. *)
Definition materializedResponseBody (body : list N) : option (list N) :=
  match body with 0x1f :: 0x8b :: _ => gunzipSync body | _ => Some body end%N.

Definition truthy_body (bodyB64 : option jstr) : option (list N) :=
  match bodyB64 with None | Some [] => None | Some b => Some (decodeBase64Bytes b) end.

Definition log_fetch c (u : url) (snapshot : bool) (headers : http_headers) (body : option (list N)) : TunnelClient :=
  c <| tc_fetches := tc_fetches c ++ [{| df_origin := url_origin u; df_pathname := url_pathname u; df_snapshot := snapshot;
                                         df_headers := headers; df_body := body |}] |>.

(** A fresh entry of [pendingHttpRequests]. *)
Definition add_pending c id : TunnelClient * nat :=
  let p := tc_next c in
  (c <| tc_pendings := <[p := {| pd_canceled := false; pd_aborted := false |}]> (tc_pendings c) |>
     <| tc_pendingHttp := <[id := p]> (tc_pendingHttp c) |> <| tc_next := S p |>, p).

(** A fresh job. *)
Definition new_job c : TunnelClient * nat := (c <| tc_next := S (tc_next c) |>, tc_next c).

(** [proxyAndSendHttpResponse] once [proxyHttp] has answered. *)
Definition send_proxied c j (control : nat) id (response : option TunnelHttpResponseEnvelope) : TunnelClient :=
  let pending := tc_pendingHttp c !! id in
  match response with
  | Some response =>
      if request_canceled c id then close_send c j id (AfterProxy pending)
      else continue_send (sendHttpResponse c j control response (AfterProxy pending)) j control id (AfterProxy pending)
  | None => close_send c j id (AfterProxy pending)
  end.

(** [proxyAndSendHttpResponse] up to the fetch of [proxyHttp].  When the URL does not parse,
    [proxyHttp] throws before it has an entry. *)
Definition proxyAndSendHttpResponse c (control : nat) (envelope : TunnelHttpRequestEnvelope) : TunnelClient :=
  let '(c, j) := new_job c in
  match url_resolve (hr_path envelope) daemonUrl with
  | None => close_send c j (hr_id envelope) (AfterProxy None)
  | Some upstreamUrl =>
      if private_url daemonUrl upstreamUrl
      then send_proxied c j control (hr_id envelope) (Some (not_found_response (hr_id envelope)))
      else
        let '(c, p) := add_pending c (hr_id envelope) in
        let '(c, t) := set_timer c (FetchTimer p) in
        let c := log_fetch c upstreamUrl false (withoutHopByHop (hr_headers envelope)) (truthy_body (hr_bodyB64 envelope)) in
        job_set c j (ProxyFetching control envelope p t)
  end.

(** What [proxyHttp] answers. *)
Definition proxy_response c id p (outcome : fetch_outcome) : option TunnelHttpResponseEnvelope :=
  let failed error := if pending_canceled c p then None else Some (bad_gateway_response id error) in
  match outcome with
  | FetchOk status headers body =>
      match materializedResponseBody body with
      | Some body => Some {| hp_id := id; hp_status := status; hp_headers := serializableResponseHeaders headers;
                             hp_bodyB64 := Some (encodeBase64Bytes body) |}
      | None => failed gunzip_error
      end
  | FetchThrew error => failed error
  end.

Definition proxy_fetched c j (outcome : fetch_outcome) : TunnelClient :=
  match tc_jobs c !! j with
  | Some (ProxyFetching control envelope p t) =>
      let response := proxy_response c (hr_id envelope) p outcome in
      send_proxied (clear_timer c t) j control (hr_id envelope) response
  | _ => c
  end.

(** * Snapshots *)

Definition SNAPSHOT_PATH : jstr := js "/api/ops/snapshot.zip".

Definition unavailable_response id : TunnelHttpResponseEnvelope :=
  text_response id 503 (js "Snapshot streaming requires relay chunk acknowledgements." ++ LF_text).

(** [proxyAndSendSnapshotResponse], and [proxyAndSendStreamingHttpResponse] up to its fetch. *)
Definition proxyAndSendSnapshotResponse c (control : nat) id : TunnelClient :=
  let '(c, j) := new_job c in
  if negb (tc_supportsAcks c)
  then continue_send (sendHttpResponse c j control (unavailable_response id) AfterUnavailable) j control id AfterUnavailable
  else
    match url_resolve SNAPSHOT_PATH daemonUrl with
    | None => c
    | Some upstreamUrl =>
        let '(c, p) := add_pending c id in
        let c := log_fetch c upstreamUrl true (withoutHopByHop []) None in
        job_set c j (SnapshotFetching control id p)
    end.

Definition end_stream c j id p : TunnelClient := job_end (drop_pending c id p) j.

(** [abort.abort(...)]. *)
Definition abort_pending c p : TunnelClient := c <| tc_pendings := alter pending_abort p (tc_pendings c) |>.

(** The inner [finally] of a stream that did not complete: the request is aborted, the reader
    cancelled. *)
Definition stream_stops c j (control : nat) id p (chunks : Z) (threw : bool) : TunnelClient :=
  job_set (abort_pending c p) j (StreamCancelling control id p chunks threw).

(** The [catch] once the response has started, and the [finally]. *)
Definition stream_cancelled c j : TunnelClient :=
  match tc_jobs c !! j with
  | Some (StreamCancelling control id p chunks threw) =>
      let c := if threw && negb (pending_canceled c p) then control_send c control (CtlResponseEnd id chunks) else c in
      end_stream c j id p
  | _ => c
  end.

(** The loop over a piece that was read, from [offset] on. *)
Fixpoint stream_loop (fuel : nat) c j (control : nat) id p (totalBytes sentBytes chunks : Z) (piece : list N) (offset : nat) : TunnelClient :=
  match fuel with
  | O => job_set c j (StreamReading control id p totalBytes sentBytes chunks)
  | S fuel =>
      if (offset <? length piece)%nat then
        if pending_canceled c p then stream_stops c j control id p chunks false
        else if chunk_room id chunks <=? 0 then stream_stops c j control id p chunks true
        else
          let chunk := body_chunk id piece offset chunks in
          if totalBytes <? sentBytes + byteLength chunk then stream_stops c j control id p chunks true
          else
            let m := CtlResponseChunk id chunks (encodeBase64Bytes chunk) in
            if tc_supportsAcks c then
              match sendHttpResponseChunk c j control id chunks m with
              | Err _ => stream_stops c j control id p chunks true
              | Ok c => job_set c j (StreamSending control id p totalBytes sentBytes chunks piece offset Awaiting)
              end
            else
              stream_loop fuel (control_send c control m) j control id p totalBytes (sentBytes + byteLength chunk) (chunks + 1) piece
                (offset + length chunk)
      else job_set c j (StreamReading control id p totalBytes sentBytes chunks)
  end.

(** [reader.read()] answers: bytes, the end, or an exception. *)
Inductive read_outcome := ReadBytes (bytes : list N) | ReadEnd | ReadFailed.

Definition stream_read c j (outcome : read_outcome) : TunnelClient :=
  match tc_jobs c !! j with
  | Some (StreamReading control id p totalBytes sentBytes chunks) =>
      match outcome with
      | ReadBytes bytes => stream_loop (response_fuel bytes) c j control id p totalBytes sentBytes chunks bytes 0
      | ReadEnd =>
          if negb (sentBytes =? totalBytes) then stream_stops c j control id p chunks true
          else
            let c := if pending_canceled c p then c else control_send c control (CtlResponseEnd id chunks) in
            end_stream c j id p
      | ReadFailed => stream_stops c j control id p chunks true
      end
  | _ => c
  end.

(** The promise of a chunk of a stream has settled. *)
Definition resume_stream c j : TunnelClient :=
  match tc_jobs c !! j with
  | Some (StreamSending control id p totalBytes sentBytes chunks piece offset Resolved) =>
      let chunk := body_chunk id piece offset chunks in
      stream_loop (response_fuel piece) c j control id p totalBytes (sentBytes + byteLength chunk) (chunks + 1) piece (offset + length chunk)
  | Some (StreamSending control id p totalBytes sentBytes chunks piece offset (Rejected _)) => stream_stops c j control id p chunks true
  | _ => c
  end.

(** [headers.get("content-length")] as a number of bytes. *)
Definition content_length (headers : http_headers) : number :=
  match list_find (fun kv => to_lower kv.1 = js "content-length") headers with
  | Some (_, (_, text)) => to_number text
  | None => Int 0
  end.

(** A response that can be streamed: its total bytes. *)
Definition streamable (status : Z) (has_body : bool) (headers : http_headers) : option Z :=
  match content_length headers with
  | Int totalBytes =>
      if (200 <=? status) && (status <=? 299) && has_body && (Z.abs totalBytes <=? 2 ^ 53 - 1) && (0 <? totalBytes) then Some totalBytes else None
  | _ => None
  end.

(** What the fetch of a snapshot came to: a response, with its bytes in case it is not
    streamed, or an exception. *)
Inductive snapshot_outcome := SnapshotOk (status : Z) (headers : http_headers) (has_body : bool) (body : list N) | SnapshotThrew (error : jstr).

Definition snapshot_fetched c j (outcome : snapshot_outcome) : TunnelClient :=
  match tc_jobs c !! j with
  | Some (SnapshotFetching control id p) =>
      match outcome with
      | SnapshotOk status headers has_body body =>
          match streamable status has_body headers with
          | Some totalBytes =>
              let c := control_send c control (CtlResponseStart id status (serializableResponseHeaders headers) totalBytes) in
              job_set c j (StreamReading control id p totalBytes 0 0)
          | None =>
              match materializedResponseBody body with
              | Some body =>
                  continue_send (sendHttpResponse c j control
                    {| hp_id := id; hp_status := status; hp_headers := serializableResponseHeaders headers;
                       hp_bodyB64 := Some (encodeBase64Bytes body) |} (AfterFallback p)) j control id (AfterFallback p)
              | None => continue_send (c, Threw gunzip_error) j control id (AfterFallback p)
              end
          end
      | SnapshotThrew error => continue_send (c, Threw error) j control id (AfterFallback p)
      end
  | _ => c
  end.

(** * Cancellation *)

Definition cancelHttpRequest c id (reason : option jstr) : TunnelClient :=
  let c := c <| tc_assembler := assembler_cancel (tc_assembler c) id |> in
  let c := rejectPendingHttpResponseChunkAck c id (js "Error: " ++ default (js "relay cancelled HTTP response") reason) in
  match tc_pendingHttp c !! id with
  | None => c
  | Some p => c <| tc_pendings := alter pending_cancel p (tc_pendings c) |>
  end.

Definition abortPendingHttpRequests c : TunnelClient :=
  c <| tc_pendings := foldr (fun p => alter pending_cancel p) (tc_pendings c) (map_to_list (tc_pendingHttp c)).*2 |>
    <| tc_pendingHttp := ∅ |>.

(** * Remote procedure calls *)

Definition rpc_set c j (x : rpc_job) : TunnelClient := c <| tc_rpcs := <[j := x]> (tc_rpcs c) |>.

Definition abort_rpc (x : rpc_job) : rpc_job := x <| rj_relay_aborted := true |>.

Definition abortPendingRelayRpcRequests c : TunnelClient :=
  c <| tc_rpcs := foldr (fun j => alter abort_rpc j) (tc_rpcs c) (map_to_list (tc_pendingRpc c)).*2 |>
    <| tc_pendingRpc := ∅ |>.

(** [handleRelayRpcRequest] up to its await. *)
Definition handleRelayRpcRequest c j (request : RelayRpcRequest) : TunnelClient * option nat * rpc_phase :=
  if jeqb (rq_capability request) (js "vault.list") then let '(c, t) := set_timer c (RpcTimer j) in (c, Some t, RpcVaultList)
  else if jeqb (rq_capability request) (js "mcp.tool.call") then
    match parseMcpToolCallRpcRequest request with
    | Err message => (c, None, RpcAnswer (relayRpcError (rq_id request) BAD_MESSAGE message))
    | Ok call => let '(c, t) := set_timer c (RpcTimer j) in (c, Some t, RpcToolCall call false)
    end
  else (c, None, RpcAnswer (relayRpcError (rq_id request) UNKNOWN_CAPABILITY (js "Unknown relay capability: " ++ rq_capability request))).

Definition in_flight_error id : RelayFrame :=
  relayRpcError id BACKPRESSURE (js "Relay RPC request " ++ id ++ js " is already in flight").
Definition concurrency_error id : RelayFrame :=
  relayRpcError id BACKPRESSURE (js "Relay RPC concurrency limit of " ++ dec RELAY_PENDING_REQUEST_LIMIT ++ js " reached").

(** [handleRelayFrame] up to its await. *)
Definition handleRelayFrame c (control : nat) (frame : RelayFrame) : TunnelClient :=
  match frame with
  | RelayCancelFrame (CancelRpc id) _ =>
      match tc_pendingRpc c !! id with Some j => c <| tc_rpcs := alter abort_rpc j (tc_rpcs c) |> | None => c end
  | RelayRpcRequestFrame id capability deadlineMs payload context =>
      if bool_decide (is_Some (tc_pendingRpc c !! id)) then control_send c control (CtlFrame (in_flight_error id))
      else if RELAY_PENDING_REQUEST_LIMIT <=? Z.of_nat (size (tc_pendingRpc c)) then control_send c control (CtlFrame (concurrency_error id))
      else
        let request := {| rq_id := id; rq_capability := capability; rq_deadlineMs := deadlineMs; rq_payload := payload; rq_context := context |} in
        let '(c, j) := new_job c in
        let c := c <| tc_pendingRpc := <[id := j]> (tc_pendingRpc c) |> in
        let '(c, t, phase) := handleRelayRpcRequest c j request in
        rpc_set c j {| rj_control := control; rj_request := request; rj_relay_aborted := false; rj_deadline_aborted := false;
                       rj_timeout := t; rj_phase := phase |}
  | _ => c
  end.

(** The call has come to its response: the [finally] clears the timeout. *)
Definition rpc_answered c j (x : rpc_job) (frame : RelayFrame) : TunnelClient :=
  rpc_set (clear_timer_field c (rj_timeout x)) j (x <| rj_timeout := None |> <| rj_phase := RpcAnswer frame |>).

Definition vault_list_answered c j (outcome : vault_list_outcome) : TunnelClient :=
  match tc_rpcs c !! j with
  | Some x =>
      match rj_phase x with
      | RpcVaultList => rpc_answered c j x (vault_list_response (rq_id (rj_request x)) (rj_deadline_aborted x) (rj_relay_aborted x) outcome)
      | _ => c
      end
  | None => c
  end.

(** [client.connect(transport)] has returned: the call is dispatched. *)
Definition mcp_connected c j : TunnelClient :=
  match tc_rpcs c !! j with
  | Some x => match rj_phase x with RpcToolCall call false => rpc_set c j (x <| rj_phase := RpcToolCall call true |>) | _ => c end
  | None => c
  end.

(** [client.connect] throws, or [client.callTool] answers or throws. *)
Definition mcp_answered c j (outcome : mcp_outcome) : TunnelClient :=
  match tc_rpcs c !! j with
  | Some x =>
      match rj_phase x, outcome with
      | RpcToolCall call false, McpResult _ => c
      | RpcToolCall call dispatched, _ =>
          rpc_answered c j x
            (mcp_response (rq_id (rj_request x)) (mc_toolName call) (rj_deadline_aborted x) (rj_relay_aborted x) dispatched outcome)
      | _, _ => c
      end
  | None => c
  end.

(** The response is sent, and the [finally] of [handleRelayFrame]. *)
Definition rpc_send c j : TunnelClient :=
  match tc_rpcs c !! j with
  | Some x =>
      match rj_phase x with
      | RpcAnswer frame =>
          let c := control_send c (rj_control x) (CtlFrame frame) in
          let c := if bool_decide (tc_pendingRpc c !! rq_id (rj_request x) = Some j)
                   then c <| tc_pendingRpc := delete (rq_id (rj_request x)) (tc_pendingRpc c) |> else c in
          c <| tc_rpcs := delete j (tc_rpcs c) |>
      | _ => c
      end
  | None => c
  end.
(** The promise of the chunk of a job has settled. *)
Definition job_runs c j : TunnelClient :=
  match tc_jobs c !! j with
  | Some (Responding _ _ _ _ _ _ _) => resume_response c j
  | Some (StreamSending _ _ _ _ _ _ _ _ _) => resume_stream c j
  | _ => c
  end.

(** * The heartbeat *)

Definition clearControlHeartbeatDeadline c : TunnelClient :=
  clear_timer_field c (tc_heartbeatDeadline c) <| tc_heartbeatDeadline := None |>.

Definition clearControlHeartbeat c : TunnelClient :=
  let c := clear_timer_field c (tc_heartbeatInterval c) <| tc_heartbeatInterval := None |> in
  clearControlHeartbeatDeadline c <| tc_heartbeatMisses := 0%nat |>.

Definition startControlHeartbeat c (control : nat) : TunnelClient :=
  let '(c, t) := set_timer (clearControlHeartbeat c) (HeartbeatInterval control 0) in
  c <| tc_heartbeatInterval := Some t |>.

(** The callback of the interval. *)
Definition heartbeat_probe c t (control : nat) (durableLivenessElapsedMs : Z) : TunnelClient :=
  if negb (bool_decide (tc_control c = Some control)) || tc_stopped c || negb (ready_state c control =? WS_OPEN) then c
  else
    let c := clearControlHeartbeatDeadline c in
    let elapsed := durableLivenessElapsedMs + CONTROL_HEARTBEAT_INTERVAL_MS in
    let c := control_send c control (CtlPing false) in
    let due := CONTROL_DURABLE_LIVENESS_INTERVAL_MS <=? elapsed in
    let c := if due then control_send c control (CtlPing true) else c in
    let c := c <| tc_timers := <[t := HeartbeatInterval control (if due then 0 else elapsed)]> (tc_timers c) |> in
    let '(c, d) := set_timer c (HeartbeatDeadline control) in
    c <| tc_heartbeatDeadline := Some d |>.

(** The callback of the deadline. *)
Definition heartbeat_missed c (control : nat) : TunnelClient :=
  if negb (bool_decide (tc_control c = Some control)) || tc_stopped c then c
  else
    let c := c <| tc_heartbeatDeadline := None |> <| tc_heartbeatMisses := S (tc_heartbeatMisses c) |> in
    if (tc_heartbeatMisses c <? CONTROL_HEARTBEAT_MISSES_BEFORE_RECONNECT)%nat then c else control_terminate c control.

(** * The streams *)

(** [sendControlJson]. *)
Definition sendControlJson c (m : control_message) : TunnelClient :=
  match tc_control c with
  | Some control => if ready_state c control =? WS_OPEN then control_send c control m else c
  | None => c
  end.

(** An event of the mux; what it sends goes to the control socket.  [None] when it does not return. *)
Definition mux_do c (e : mux_event) : option TunnelClient :=
  x ← mux_step {| md_chunkBytes := None; md_windowBytes := None |} (tc_mux c) e;
  let sent := drop (length (mx_sent (tc_mux c))) (mx_sent x) in
  Some (foldl (fun c m => sendControlJson c (CtlMux m)) (c <| tc_mux := x |>) sent).

(** [openDocumentLoopback], the socket of a stream that [handleOpen] registers. *)
Definition ws_open c id (path : jstr) (headers : http_headers) : option TunnelClient :=
  if bool_decide (is_Some (streams_get (mx_streams (tc_mux c)) id)) then Some c
  else
    match url_resolve path daemonUrl with
    | None => Some c
    | Some u =>
        let daemonWsUrl := url_set_protocol u (socket_protocol u) in
        let c := c <| tc_loopbacks := tc_loopbacks c ++
          [{| lo_protocol := url_protocol daemonWsUrl; lo_origin := url_origin daemonWsUrl; lo_pathname := url_pathname daemonWsUrl;
              lo_headers := withoutHopByHop headers |}] |> in
        mux_do c (EvOpen id WS_CONNECTING)
    end.

(** * The control connection *)

(** The socket is made; [controlUrl] only goes to it. *)
Definition connectControl c : TunnelClient :=
  if tc_stopped c then c
  else
    let a := tc_next c in
    c <| tc_supportsAcks := false |>
      <| tc_sockets := <[a := {| cs_readyState := WS_CONNECTING; cs_sent := []; cs_terminated := false |}]> (tc_sockets c) |>
      <| tc_control := Some a |> <| tc_next := S a |>.

Definition start c : TunnelClient :=
  if negb (tc_stopped c) then c
  else
    let c := if tc_hasStarted c then c <| tc_epoch := tc_epoch c + 1 |> else c <| tc_hasStarted := true |> in
    connectControl (c <| tc_stopped := false |> <| tc_reconnectAttempt := 0 |>).

(** What both [stop] and the close of the control socket abort. *)
Definition abort_all c (reason : jstr) : TunnelClient :=
  let c := abortPendingHttpRequests (clearControlHeartbeat c) in
  abortPendingRelayRpcRequests (abortPendingHttpResponseChunkAcks c reason <| tc_supportsAcks := false |>).

Definition stop c : option TunnelClient :=
  let c := clear_timer_field (c <| tc_stopped := true |>) (tc_reconnectTimer c) <| tc_reconnectTimer := None |> in
  let c := abort_all c (js "Tunnel client stopping") in
  let c := match tc_control c with Some control => control_close c control | None => c end <| tc_control := None |> in
  mux_do c (EvDispose (js "Tunnel client stopped")).

Record TunnelClientStatus := { st_started : bool; st_controlConnected : bool; st_reconnectScheduled : bool }.

Definition status c : TunnelClientStatus :=
  {| st_started := negb (tc_stopped c);
     st_controlConnected := match tc_control c with Some a => ready_state c a =? WS_OPEN | None => false end;
     st_reconnectScheduled := bool_decide (is_Some (tc_reconnectTimer c)) |}.

Record TunnelRelayEventInput := {
  ri_topic : jstr;
  ri_id : option jstr;
  ri_payload : option value;
  ri_resource : option RelayJsonObject
}.

Definition is_vault_mutation (event : TunnelRelayEventInput) : bool :=
  jeqb (ri_topic event) (js "vault.tree.changed") || jeqb (ri_topic event) (js "vault.content.changed").

Definition sendRelayEvent c (event : TunnelRelayEventInput) : TunnelClient * bool :=
  let isVaultMutation := is_vault_mutation event in
  let c := if isVaultMutation then c <| tc_epoch := tc_epoch c + 1 |> else c in
  let resource := if isVaultMutation then Some (prop_set (default [] (ri_resource event)) (js "vaultMutationEpoch") (VStr (dec (tc_epoch c))))
                  else ri_resource event in
  match tc_control c with
  | Some control =>
      if ready_state c control =? WS_OPEN
      then (control_send c control (CtlFrame (RelayEventFrame (ri_topic event) (ri_id event) (RelayJsonPayload <$> ri_payload event) resource)), true)
      else (c, false)
  | None => (c, false)
  end.

(** The socket's ["open"]. *)
Definition control_opened c (control : nat) : TunnelClient :=
  startControlHeartbeat (control_send c control (CtlHello config (tc_epoch c))) control.

(** The socket's ["close"]. *)
Definition control_closed c (control : nat) (code : Z) (random : Q) : TunnelClient :=
  let c := if bool_decide (tc_control c = Some control)
           then abort_all (c <| tc_control := None |>) (js "Relay control disconnected") else c in
  if tc_stopped c then c
  else if code =? CONTROL_REPLACED then c <| tc_stopped := true |>
  else
    let delayMs := createBackoffDelay (tc_reconnectAttempt c) no_backoff_options random in
    let '(c, t) := set_timer (c <| tc_reconnectAttempt := tc_reconnectAttempt c + 1 |>) (ReconnectTimer delayMs) in
    c <| tc_reconnectTimer := Some t |>.

(** * The messages of the relay *)

Inductive TunnelControlServerMessage :=
| SrvReady (features : option (list jstr))
| SrvPong
| SrvError (code message : jstr)
| SrvFrame (frame : value)
| SrvRequest (envelope : TunnelHttpRequestEnvelope)
| SrvSnapshot (id : jstr)
| SrvStart (message : TunnelHttpRequestStartEnvelope)
| SrvChunk (message : TunnelHttpRequestChunkEnvelope)
| SrvEnd (message : TunnelHttpRequestEndEnvelope)
| SrvCancel (id : jstr) (reason : option jstr)
| SrvChunkAck (id : jstr) (sequence : Z)
| SrvOpen (streamId path : jstr) (headers : http_headers)
| SrvData (frame : TunnelWebSocketDataEnvelope)
| SrvDataAck (ack : TunnelWebSocketDataAckEnvelope)
| SrvClose (streamId reason : jstr).

Definition handleControlMessage c (control : nat) (message : TunnelControlServerMessage) : option TunnelClient :=
  match message with
  | SrvReady features =>
      Some (c <| tc_reconnectAttempt := 0 |>
              <| tc_supportsAcks := match features with
                                    | Some fs => bool_decide (TUNNEL_FEATURES HTTP_RESPONSE_CHUNK_ACKS_V1 ∈ fs)
                                    | None => false
                                    end |>)
  | SrvPong => Some (clearControlHeartbeatDeadline c <| tc_heartbeatMisses := 0%nat |>)
  | SrvError _ _ => Some c
  | SrvFrame frame => match parseRelayFrame frame with Ok frame => Some (handleRelayFrame c control frame) | Err _ => Some c end
  | SrvRequest envelope => Some (proxyAndSendHttpResponse c control envelope)
  | SrvSnapshot id => Some (proxyAndSendSnapshotResponse c control id)
  | SrvStart m => Some (c <| tc_assembler := assembler_start (tc_assembler c) m |>)
  | SrvChunk m => Some (c <| tc_assembler := assembler_chunk (tc_assembler c) m |>)
  | SrvEnd m =>
      let '(assembler, assembled) := assembler_end (tc_assembler c) m in
      let c := c <| tc_assembler := assembler |> in
      Some match assembled with Some envelope => proxyAndSendHttpResponse c control envelope | None => c end
  | SrvCancel id reason => Some (cancelHttpRequest c id reason)
  | SrvChunkAck id sequence => Some (resolveHttpResponseChunkAck c id sequence)
  | SrvOpen id path headers => ws_open c id path headers
  | SrvData frame => mux_do c (EvData frame)
  | SrvDataAck ack => mux_do c (EvAck ack)
  | SrvClose id reason => mux_do c (EvClose id reason)
  end.

(** * Timers *)

Definition ack_timeout_error : jstr := js "Error: Timed out waiting for HTTP response chunk acknowledgement".

(** A timeout is over once it fires, an interval stays. *)
Definition timer_fires c t : TunnelClient :=
  match tc_timers c !! t with
  | None => c
  | Some (ReconnectTimer _) => connectControl (clear_timer c t <| tc_reconnectTimer := None |>)
  | Some (HeartbeatInterval control elapsed) => heartbeat_probe c t control elapsed
  | Some (HeartbeatDeadline control) => heartbeat_missed (clear_timer c t) control
  | Some (FetchTimer p) => abort_pending (clear_timer c t) p
  | Some (ChunkAckTimer id) => rejectPendingHttpResponseChunkAck (clear_timer c t) id ack_timeout_error
  | Some (RpcTimer j) => clear_timer c t <| tc_rpcs := alter (fun x => x <| rj_deadline_aborted := true |>) j (tc_rpcs c) |>
  end.

(** * Runs *)

Inductive tunnel_event :=
| CallStart
| CallStop
| CallSendRelayEvent (event : TunnelRelayEventInput)
| SocketOpens (a : nat)
| SocketMessage (a : nat) (message : TunnelControlServerMessage)
| SocketCloses (a : nat) (code : Z) (random : Q)
| TimerFires (t : nat)
| Loopback (e : mux_event)
| Fetched (j : nat) (outcome : fetch_outcome)
| SnapshotFetched (j : nat) (outcome : snapshot_outcome)
| SnapshotRead (j : nat) (outcome : read_outcome)
| ReaderCancelled (j : nat)
| JobRuns (j : nat)
| VaultListAnswers (j : nat) (outcome : vault_list_outcome)
| McpConnected (j : nat)
| McpAnswers (j : nat) (outcome : mcp_outcome)
| RpcRuns (j : nat).

Definition set_ready_state c a (readyState : Z) : TunnelClient :=
  match tc_sockets c !! a with Some s => set_socket c a (s <| cs_readyState := readyState |>) | None => c end.

Definition tunnel_step c (e : tunnel_event) : option TunnelClient :=
  match e with
  | CallStart => Some (start c)
  | CallStop => stop c
  | CallSendRelayEvent event => Some (sendRelayEvent c event).1
  | SocketOpens a => Some (control_opened (set_ready_state c a WS_OPEN) a)
  | SocketMessage a message => handleControlMessage c a message
  | SocketCloses a code random => Some (control_closed (set_ready_state c a WS_CLOSED) a code random)
  | TimerFires t => Some (timer_fires c t)
  | Loopback e => mux_do c e
  | Fetched j outcome => Some (proxy_fetched c j outcome)
  | SnapshotFetched j outcome => Some (snapshot_fetched c j outcome)
  | SnapshotRead j outcome => Some (stream_read c j outcome)
  | ReaderCancelled j => Some (stream_cancelled c j)
  | JobRuns j => Some (job_runs c j)
  | VaultListAnswers j outcome => Some (vault_list_answered c j outcome)
  | McpConnected j => Some (mcp_connected c j)
  | McpAnswers j outcome => Some (mcp_answered c j outcome)
  | RpcRuns j => Some (rpc_send c j)
  end.

(** What a WebSocket does: it opens once, has messages once it has opened, and closes once.  The
    events of the mux that the relay causes come as messages. *)
Definition tunnel_event_ok c (e : tunnel_event) : Prop :=
  match e with
  | SocketOpens a => ready_state c a = WS_CONNECTING
  | SocketMessage a _ => ready_state c a = WS_OPEN \/ ready_state c a = WS_CLOSING
  | SocketCloses a _ _ => ready_state c a <> WS_CLOSED
  | Loopback (EvLoopbackOpen _ | EvLoopbackMessage _ _ | EvLoopbackClose _ _ _ | EvLoopbackError _ | EvReady _ _) => True
  | Loopback _ => False
  | _ => True
  end.

Inductive tunnel_runs : list tunnel_event -> TunnelClient -> Prop :=
| tunnel_new : tunnel_runs [] new_client
| tunnel_more es c e c' : tunnel_runs es c -> tunnel_event_ok c e -> tunnel_step c e = Some c' -> tunnel_runs (es ++ [e]) c'.

(** Several steps, for concrete runs: [None] when one is not possible. *)
Fixpoint tunnel_steps c (es : list tunnel_event) : option TunnelClient :=
  match es with [] => Some c | e :: es => c ← tunnel_step c e; tunnel_steps c es end.
End client.
