(* ===== verification/TunnelEffects.v ===== *)
(** The steps of [TunnelClient.v] as sequences of small effects: what the invariants of the
    client are proved over. *)
From stdpp Require Import relations.
From S2P Require Import Prelude JsString Utf8 Splice Base64 Json PendingFrames PendingRequests DocStream StreamMux RelayFrame HttpAssembler TunnelPaths TunnelRpc TunnelMessages TunnelClient.

#[local] Open Scope Z_scope.

Section effects.
Context `{JsonHost, Host, UrlHost, TunnelHost, MuxHost}.
Context (config : TunnelClientConfig) (daemonUrl : url) (snap : bool).
Implicit Types (c : TunnelClient) (a t j p : nat) (id : jstr).

(** The timer of a request to the daemon or of a call. *)
Definition call_timer (x : timer) : bool := match x with FetchTimer _ | RpcTimer _ => true | _ => false end.

(** A request the daemon may be made: one of its own that is not private, or a snapshot where
    one is asked for ([snap]). *)
Definition fetch_ok (f : daemon_fetch) : Prop :=
  snap = true /\ df_snapshot f = true \/
  df_snapshot f = false /\ df_origin f = url_origin daemonUrl /\ daemonRoutingPath (df_pathname f) ∉ PRIVATE_DAEMON_HTTP_PATHS.

(** Jobs that hold no timer and wait for no acknowledgement. *)
Definition waiting (x : http_job) : bool :=
  match x with Responding _ _ _ _ _ Awaiting _ | StreamSending _ _ _ _ _ _ _ _ Awaiting => true | _ => false end.
Definition free_job (x : http_job) : bool := match x with ProxyFetching _ _ _ _ => false | _ => negb (waiting x) end.

(** It waits for the acknowledgement of the chunk [sequence] of [id], whose message is [m], sent
    to [control]. *)
Definition awaits (x : http_job) (control : nat) id (sequence : Z) (m : control_message) : Prop :=
  match x with
  | Responding control' response body offset sequence' Awaiting _ =>
      control' = control /\ hp_id response = id /\ sequence' = sequence /\
      m = CtlResponseChunk id sequence (encodeBase64Bytes (body_chunk id body offset sequence))
  | StreamSending control' id' _ totalBytes sentBytes chunks piece offset Awaiting =>
      control' = control /\ id' = id /\ chunks = sequence /\
      m = CtlResponseChunk id sequence (encodeBase64Bytes (body_chunk id piece offset chunks))
  | _ => False
  end.

(** The job may be replaced: it exists or is free, and does not wait. *)
Definition idle c j : Prop := (j < tc_next c)%nat /\ forall x, tc_jobs c !! j = Some x -> waiting x = false.

(** A chunk is registered, then sent. *)
Definition wait_for_ack c j (control : nat) id (sequence : Z) (m : control_message) (x : http_job) : TunnelClient :=
  let t := tc_next c in
  job_set (control_send (c <| tc_timers := <[t := ChunkAckTimer id]> (tc_timers c) |> <| tc_next := S t |>
    <| tc_acks := <[id := {| pa_sequence := sequence; pa_job := j; pa_timeout := t |}]> (tc_acks c) |>) control m) j x.

Definition settle c id (pending : PendingHttpResponseChunkAck) (r : awaiting) : TunnelClient :=
  settle_ack (clear_timer c (pa_timeout pending) <| tc_acks := delete id (tc_acks c) |>) (pa_job pending) r.

Inductive effect : TunnelClient -> TunnelClient -> Prop :=
| ef_send c a m : effect c (control_send c a m)
| ef_next c : effect c (c <| tc_next := S (tc_next c) |>)
| ef_fetch c f : fetch_ok f -> effect c (c <| tc_fetches := tc_fetches c ++ [f] |>)
| ef_pending c id : effect c (add_pending c id).1
| ef_cancel c p : effect c (c <| tc_pendings := alter pending_cancel p (tc_pendings c) |>)
| ef_abort c p : effect c (abort_pending c p)
| ef_cancel_all c : effect c (abortPendingHttpRequests c)
| ef_drop c id : effect c (c <| tc_pendingHttp := delete id (tc_pendingHttp c) |>)
| ef_proxy c j control envelope p :
    idle c j -> (p < tc_next c)%nat -> effect c (job_set (set_timer c (FetchTimer p)).1 j (ProxyFetching control envelope p (tc_next c)))
| ef_fetched c j control envelope p t : tc_jobs c !! j = Some (ProxyFetching control envelope p t) -> effect c (clear_timer c t)
| ef_job c j x : idle c j -> free_job x = true -> effect c (job_set c j x)
| ef_end c j : idle c j -> effect c (job_end c j)
| ef_wait c j control id sequence m x :
    tc_acks c !! id = None -> awaits x control id sequence m ->
    idle c j -> effect c (wait_for_ack c j control id sequence m x)
| ef_settle c id pending r : tc_acks c !! id = Some pending -> r <> Awaiting -> effect c (settle c id pending r)
| ef_expire c t x : tc_timers c !! t = Some x -> call_timer x = true -> effect c (clear_timer c t)
| ef_assembler c x : effect c (c <| tc_assembler := x |>)
| ef_call c control id capability deadlineMs payload context :
    tc_pendingRpc c !! id = None -> Z.of_nat (size (tc_pendingRpc c)) < RELAY_PENDING_REQUEST_LIMIT ->
    effect c (handleRelayFrame c control (RelayRpcRequestFrame id capability deadlineMs payload context))
| ef_answered c j x frame : tc_rpcs c !! j = Some x -> (forall f, rj_phase x <> RpcAnswer f) -> effect c (rpc_answered c j x frame)
| ef_connected c j x call : tc_rpcs c !! j = Some x -> rj_phase x = RpcToolCall call false -> effect c (rpc_set c j (x <| rj_phase := RpcToolCall call true |>))
| ef_abort_rpc c j : effect c (c <| tc_rpcs := alter abort_rpc j (tc_rpcs c) |>)
| ef_deadline c j : effect c (c <| tc_rpcs := alter (fun x => x <| rj_deadline_aborted := true |>) j (tc_rpcs c) |>)
| ef_abort_rpcs c : effect c (abortPendingRelayRpcRequests c)
| ef_rpc_send c j : effect c (rpc_send c j)
| ef_mux c x : effect c (c <| tc_mux := x |>)
| ef_loopback c l : effect c (c <| tc_loopbacks := tc_loopbacks c ++ [l] |>)
| ef_attempt c n : effect c (c <| tc_reconnectAttempt := n |>)
| ef_supports c b : effect c (c <| tc_supportsAcks := b |>)
| ef_misses c : effect c (c <| tc_heartbeatMisses := 0%nat |>)
| ef_no_deadline c : effect c (clearControlHeartbeatDeadline c)
| ef_no_interval c : effect c (clear_timer_field c (tc_heartbeatInterval c) <| tc_heartbeatInterval := None |>).

Abbreviation effects := (rtc effect).

(** * Addresses *)

(** No object has an address that is not given out yet. *)
Record fresh c : Prop := {
  fr_sockets : forall a, (tc_next c <= a)%nat -> tc_sockets c !! a = None;
  fr_timers : forall t, (tc_next c <= t)%nat -> tc_timers c !! t = None;
  fr_pendings : forall p, (tc_next c <= p)%nat -> tc_pendings c !! p = None;
  fr_jobs : forall j, (tc_next c <= j)%nat -> tc_jobs c !! j = None;
  fr_rpcs : forall j, (tc_next c <= j)%nat -> tc_rpcs c !! j = None
}.

(** Fields of the client through the operations that leave them. *)
Lemma control_send_next c a m : tc_next (control_send c a m) = tc_next c.
Proof. unfold control_send. by repeat case_match. Qed.
Lemma control_send_timers c a m : tc_timers (control_send c a m) = tc_timers c.
Proof. unfold control_send. by repeat case_match. Qed.
Lemma control_send_jobs c a m : tc_jobs (control_send c a m) = tc_jobs c.
Proof. unfold control_send. by repeat case_match. Qed.
Lemma control_send_pendings c a m : tc_pendings (control_send c a m) = tc_pendings c.
Proof. unfold control_send. by repeat case_match. Qed.
Lemma control_send_rpcs c a m : tc_rpcs (control_send c a m) = tc_rpcs c.
Proof. unfold control_send. by repeat case_match. Qed.
Lemma control_send_sockets c a m b : tc_sockets (control_send c a m) !! b =
  (fun s => if bool_decide (a = b) && (cs_readyState s =? WS_OPEN) then s <| cs_sent := cs_sent s ++ [m] |> else s) <$> tc_sockets c !! b.
Proof.
  unfold control_send. destruct (decide (a = b)) as [<-|Hne].
  - rewrite bool_decide_eq_true_2 by done. destruct (tc_sockets c !! a) as [s|] eqn:E; [|by rewrite E].
    cbn [fmap option_fmap option_map andb]. destruct (_ =? _); [|done]. unfold set_socket, update. cbn [tc_sockets]. by rewrite lookup_insert_eq.
  - rewrite bool_decide_eq_false_2 by done. cbn [andb]. assert (forall o : option ControlSocket, (fun s => s) <$> o = o) as Hid by by intros [].
    rewrite Hid. repeat case_match; try done. unfold set_socket, update. cbn [tc_sockets]. by rewrite lookup_insert_ne.
Qed.

Lemma idle_same c c' j : tc_next c = tc_next c' -> tc_jobs c = tc_jobs c' -> idle c j -> idle c' j.
Proof. unfold idle. by intros -> ->. Qed.
Lemma foldr_alter_None {A} (f : A -> A) (l : list nat) (m : gmap nat A) q : foldr (fun p => alter f p) m l !! q = None <-> m !! q = None.
Proof. induction l as [|p l IH]; [done|]. cbn [foldr]. by rewrite lookup_alter_None. Qed.

Lemma clear_timer_field_next c o : tc_next (clear_timer_field c o) = tc_next c.
Proof. by destruct o. Qed.

(** Only the timers change. *)
Lemma fresh_clear_timer c t : fresh c -> fresh (clear_timer c t).
Proof. intros [? Ht ? ? ?]. split; try done. intros t' Hle. apply lookup_delete_None. right. by apply Ht. Qed.
Lemma fresh_clear_timer_field c o : fresh c -> fresh (clear_timer_field c o).
Proof. destruct o; [apply fresh_clear_timer|done]. Qed.

Lemma fresh_set_timer c x : fresh c -> fresh (set_timer c x).1.
Proof.
  intros [Hs Ht Hp Hj Hr]. split; intros k Hle; unfold set_timer, update in *; cbn in *;
    [apply Hs; lia| |apply Hp; lia|apply Hj; lia|apply Hr; lia]. rewrite lookup_insert_ne by lia. apply Ht. lia.
Qed.

Lemma fresh_job_set c j x : (j < tc_next c)%nat -> fresh c -> fresh (job_set c j x).
Proof.
  intros Hlt [Hs Ht Hp Hj Hr]. split; try done. intros k Hle. unfold job_set, update in *; cbn in *. rewrite lookup_insert_ne by lia. by apply Hj.
Qed.

Lemma fresh_rpc_set c j x : (j < tc_next c)%nat -> fresh c -> fresh (rpc_set c j x).
Proof.
  intros Hlt [Hs Ht Hp Hj Hr]. split; try done. intros k Hle. unfold rpc_set, update in *; cbn in *. rewrite lookup_insert_ne by lia. by apply Hr.
Qed.

Lemma fresh_send c a m : fresh c -> fresh (control_send c a m).
Proof.
  intros [Hs Ht Hp Hj Hr]. split; intros k; rewrite control_send_next; intros Hle.
  - rewrite control_send_sockets. by rewrite Hs.
  - rewrite control_send_timers. by apply Ht.
  - rewrite control_send_pendings. by apply Hp.
  - rewrite control_send_jobs. by apply Hj.
  - rewrite control_send_rpcs. by apply Hr.
Qed.

Lemma settle_ack_next c j r : tc_next (settle_ack c j r) = tc_next c.
Proof. unfold settle_ack. by repeat case_match. Qed.

Lemma fresh_settle_ack c j r : fresh c -> fresh (settle_ack c j r).
Proof.
  intros Hf. unfold settle_ack. destruct (tc_jobs c !! j) as [x|] eqn:E; [|done].
  assert (j < tc_next c)%nat by (destruct (decide (tc_next c <= j)%nat) as [Hle|]; [|lia]; by rewrite (fr_jobs _ Hf _ Hle) in E).
  repeat case_match; try done; by apply fresh_job_set.
Qed.

Lemma fresh_next c : fresh c -> fresh (c <| tc_next := S (tc_next c) |>).
Proof.
  intros [Hs Ht Hp Hj Hr]. split; intros k Hle; unfold update in *; cbn in *; [apply Hs|apply Ht|apply Hp|apply Hj|apply Hr]; lia.
Qed.

(** A map of objects whose domain does not grow. *)
Lemma fresh_pendings c (m : gmap nat PendingDaemonHttpRequest) : (forall p, tc_pendings c !! p = None -> m !! p = None) -> fresh c -> fresh (c <| tc_pendings := m |>).
Proof. intros Hm [Hs Ht Hp Hj Hr]. split; try done. intros p Hle. by apply Hm, Hp. Qed.
Lemma fresh_rpcs c (m : gmap nat rpc_job) : (forall p, tc_rpcs c !! p = None -> m !! p = None) -> fresh c -> fresh (c <| tc_rpcs := m |>).
Proof. intros Hm [Hs Ht Hp Hj Hr]. split; try done. intros p Hle. by apply Hm, Hr. Qed.

(** The rest of the state does not matter. *)
Lemma fresh_same c c' :
  tc_next c = tc_next c' -> tc_sockets c = tc_sockets c' -> tc_timers c = tc_timers c' -> tc_pendings c = tc_pendings c' ->
  tc_jobs c = tc_jobs c' -> tc_rpcs c = tc_rpcs c' -> fresh c -> fresh c'.
Proof. intros En Es Et Ep Ej Er [Hs Ht Hp Hj Hr]. split; rewrite <- ?En, <- ?Es, <- ?Et, <- ?Ep, <- ?Ej, <- ?Er; done. Qed.

(** What an accepted call does: a job, its entry, its timer if it waits. *)
Lemma call_shape c control id capability deadlineMs payload context :
  tc_pendingRpc c !! id = None -> Z.of_nat (size (tc_pendingRpc c)) < RELAY_PENDING_REQUEST_LIMIT ->
  let j := tc_next c in
  let c1 := c <| tc_next := S j |> <| tc_pendingRpc := <[id := j]> (tc_pendingRpc c) |> in
  exists request phase, rq_id request = id /\
    (handleRelayFrame c control (RelayRpcRequestFrame id capability deadlineMs payload context) =
       rpc_set c1 j {| rj_control := control; rj_request := request; rj_relay_aborted := false; rj_deadline_aborted := false;
                       rj_timeout := None; rj_phase := phase |} \/
     handleRelayFrame c control (RelayRpcRequestFrame id capability deadlineMs payload context) =
       rpc_set (set_timer c1 (RpcTimer j)).1 j {| rj_control := control; rj_request := request; rj_relay_aborted := false; rj_deadline_aborted := false;
                       rj_timeout := Some (S j); rj_phase := phase |}).
Proof.
  intros Hn Hs j c1. unfold handleRelayFrame. rewrite Hn, bool_decide_eq_false_2 by (by intros [? ?]). rewrite (proj2 (Z.leb_gt _ _)) by done.
  cbn [new_job]. fold j. fold c1. unfold handleRelayRpcRequest.
  destruct (jeqb _ _); [do 2 eexists; split; [|right; reflexivity]; done|].
  destruct (jeqb _ _); [|do 2 eexists; split; [|left; reflexivity]; done].
  destruct (parseMcpToolCallRpcRequest _); do 2 eexists; (split; [|first [right; reflexivity | left; reflexivity]]); done.
Qed.

Lemma effect_fresh c c' : effect c c' -> fresh c -> fresh c'.
Proof.
  destruct 1 as [c a m|c|c f Hok|c id|c p|c p|c|c id|c j control envelope p [Hj _] Hp|c j control envelope p t Hj|c j x [Hj _] Hx|c j [Hj _]
    |c j control id sequence m x Hn Hw [Hj _]|c id pending r Hp Hr|c t x Ht Hx|c x|c control id capability deadlineMs payload context Hn Hs
    |c j x frame Hj Hx|c j x call Hj Hx|c j|c j|c|c j|c x|c l|c n|c b|c|c|c]; intros Hf.
  - by apply fresh_send.
  - by apply fresh_next.
  - by apply (fresh_same c).
  - unfold add_pending, update. destruct Hf as [Hs Ht Hp Hj Hr]. split; intros k Hle; cbn in *; [apply Hs; lia|apply Ht; lia| |apply Hj; lia|apply Hr; lia].
    rewrite lookup_insert_ne by lia. apply Hp. lia.
  - apply fresh_pendings; [|done]. intros q Hq. by apply lookup_alter_None.
  - apply fresh_pendings; [|done]. intros q Hq. by apply lookup_alter_None.
  - unfold abortPendingHttpRequests. eapply (fresh_same (c <| tc_pendings := _ |>)); [reflexivity..|].
    apply fresh_pendings; [|done]. intros q Hq. by apply foldr_alter_None.
  - by apply (fresh_same c).
  - apply fresh_job_set; [unfold set_timer, update; cbn; lia|by apply fresh_set_timer].
  - by apply fresh_clear_timer.
  - by apply fresh_job_set.
  - destruct Hf as [Hs Ht Hp Hj' Hr]. split; try done. intros k Hle. apply lookup_delete_None. right. by apply Hj'.
  - unfold wait_for_ack. apply fresh_job_set; [rewrite control_send_next; unfold update; cbn; lia|]. apply fresh_send.
    eapply (fresh_same (set_timer c (ChunkAckTimer id)).1); [reflexivity..|]. by apply fresh_set_timer.
  - unfold settle. apply fresh_settle_ack. eapply (fresh_same (clear_timer c _)); [reflexivity..|]. by apply fresh_clear_timer.
  - by apply fresh_clear_timer.
  - by apply (fresh_same c).
  - destruct (call_shape c control id capability deadlineMs payload context Hn Hs) as (rq & ph & _ & [-> | ->]).
    + apply fresh_rpc_set; [unfold update; cbn; lia|]. eapply (fresh_same (c <| tc_next := S (tc_next c) |>)); [reflexivity..|]. by apply fresh_next.
    + apply fresh_rpc_set; [unfold set_timer, update; cbn; lia|]. apply fresh_set_timer.
      eapply (fresh_same (c <| tc_next := S (tc_next c) |>)); [reflexivity..|]. by apply fresh_next.
  - unfold rpc_answered. apply fresh_rpc_set; [|by apply fresh_clear_timer_field]. rewrite clear_timer_field_next.
    destruct (decide (tc_next c <= j)%nat) as [Hle|]; [|lia]. by rewrite (fr_rpcs _ Hf _ Hle) in Hj.
  - apply fresh_rpc_set; [|done]. destruct (decide (tc_next c <= j)%nat) as [Hle|]; [|lia]. by rewrite (fr_rpcs _ Hf _ Hle) in Hj.
  - apply fresh_rpcs; [|done]. intros q Hq. by apply lookup_alter_None.
  - apply fresh_rpcs; [|done]. intros q Hq. by apply lookup_alter_None.
  - unfold abortPendingRelayRpcRequests. eapply (fresh_same (c <| tc_rpcs := _ |>)); [reflexivity..|].
    apply fresh_rpcs; [|done]. intros q Hq. by apply foldr_alter_None.
  - unfold rpc_send. destruct (tc_rpcs c !! j) as [x|] eqn:E; [|done]. destruct (rj_phase x); try done.
    match goal with |- fresh ((if ?b then ?c1 else ?c2) <| tc_rpcs := _ |>) => set (b0 := b); set (c0 := if b0 then c1 else c2) end.
    assert (fresh c0) as Hc0 by (pose proof (fresh_send c (rj_control x) (CtlFrame frame) Hf); unfold c0; destruct b0; [by apply (fresh_same (control_send c (rj_control x) (CtlFrame frame)))|done]).
    apply fresh_rpcs; [|done]. intros q Hq. apply lookup_delete_None. by right.
  - by apply (fresh_same c).
  - by apply (fresh_same c).
  - by apply (fresh_same c).
  - by apply (fresh_same c).
  - by apply (fresh_same c).
  - unfold clearControlHeartbeatDeadline. eapply (fresh_same (clear_timer_field c _)); [reflexivity..|]. by apply fresh_clear_timer_field.
  - eapply (fresh_same (clear_timer_field c _)); [reflexivity..|]. by apply fresh_clear_timer_field.
Qed.

Lemma effects_fresh c c' : effects c c' -> fresh c -> fresh c'.
Proof. induction 1 as [|c c1 c2 He _ IH]; [done|]. intros Hf. by apply IH, (effect_fresh c). Qed.
(** * Sending *)

Lemma effects_send c c' a m : effects c c' -> effects c (control_send c' a m).
Proof. intros He. eapply rtc_r; [exact He|constructor]. Qed.

(** What the parts of the sending functions do: the job, which does not wait, is not touched
    before it waits. *)
Definition part_ok c j (r : TunnelClient * part) : Prop :=
  match r with
  | (c', Waits x) => effects c (job_set c' j x)
  | (c', _) => effects c c' /\ tc_jobs c' = tc_jobs c /\ (tc_next c <= tc_next c')%nat
  end.

Lemma idle_after c c' j : tc_jobs c' = tc_jobs c -> (tc_next c <= tc_next c')%nat -> idle c j -> idle c' j.
Proof. intros Ej En [Hj Hi]. split; [lia|]. by rewrite Ej. Qed.

Lemma part_ok_before c c1 j r : effects c c1 -> tc_jobs c1 = tc_jobs c -> (tc_next c <= tc_next c1)%nat -> part_ok c1 j r -> part_ok c j r.
Proof.
  destruct r as [c' r]. intros He Ej En. unfold part_ok. destruct r as [|e|x].
  - intros (H1' & H2' & H3'). split_and!; [by etrans|by etrans|lia].
  - intros (H1' & H2' & H3'). split_and!; [by etrans|by etrans|lia].
  - intros H1'. by etrans.
Qed.

Lemma part_ok_send c a m j r : part_ok (control_send c a m) j r -> part_ok c j r.
Proof.
  apply part_ok_before; [by apply effects_send|apply control_send_jobs|by rewrite control_send_next].
Qed.

Lemma sendHttpResponseChunk_ok c j control id sequence m x :
  idle c j -> awaits x control id sequence m ->
  match sendHttpResponseChunk c j control id sequence m with Ok c' => effects c (job_set c' j x) | Err _ => True end.
Proof.
  intros Hi Hw. unfold sendHttpResponseChunk. case_bool_decide as Ha; [done|]. rewrite <- eq_None_not_Some in Ha.
  apply rtc_once. apply (ef_wait c j control id sequence m x Ha Hw Hi).
Qed.

Lemma response_loop_ok fuel c j control response body offset sequence after :
  idle c j -> part_ok c j (response_loop fuel c j control response body offset sequence after).
Proof.
  revert c offset sequence. induction fuel as [|fuel IH]; intros c offset sequence Hi; cbn [response_loop]; [done|].
  destruct (request_canceled c _); [done|]. destruct (_ <? _)%nat.
  2:{ apply part_ok_send with control (CtlResponseEnd (hp_id response) sequence). done. }
  destruct (_ <=? _); [done|]. destruct (tc_supportsAcks c).
  - set (m := CtlResponseChunk _ _ _). set (x := Responding _ _ _ _ _ _ _).
    pose proof (sendHttpResponseChunk_ok c j control (hp_id response) sequence m x Hi) as Hs.
    destruct (sendHttpResponseChunk c j control (hp_id response) sequence m) as [c'|e]; [|done]. apply Hs. by split_and!.
  - eapply part_ok_send, IH. by apply (idle_same c); [rewrite control_send_next|rewrite control_send_jobs|].
Qed.

Lemma sendHttpResponse_ok c j control response after : idle c j -> part_ok c j (sendHttpResponse c j control response after).
Proof.
  intros Hi. unfold sendHttpResponse. destruct (hp_bodyB64 response) as [[|b bs]|]; [by apply part_ok_send with control (CtlResponse response)| |by apply part_ok_send with control (CtlResponse response)].
  destruct (_ <=? _); [by apply part_ok_send with control (CtlResponse response)|]. destruct (request_canceled c _); [done|].
  eapply part_ok_send, response_loop_ok. by apply (idle_same c); [rewrite control_send_next|rewrite control_send_jobs|].
Qed.

Lemma drop_pending_effects c id p : effects c (drop_pending c id p).
Proof. unfold drop_pending. case_bool_decide; [apply rtc_once; constructor|done]. Qed.

Lemma drop_pending_jobs c id p : tc_jobs (drop_pending c id p) = tc_jobs c /\ tc_next (drop_pending c id p) = tc_next c.
Proof. unfold drop_pending. by case_bool_decide. Qed.

Lemma end_stream_effects c j id p : idle c j -> effects c (end_stream c j id p).
Proof.
  intros Hi. unfold end_stream. eapply rtc_r; [apply drop_pending_effects|]. constructor. destruct (drop_pending_jobs c id p) as [E1 E2].
  by apply (idle_same c).
Qed.

Lemma close_send_effects c j id after : idle c j -> effects c (close_send c j id after).
Proof.
  intros Hi. unfold close_send. destruct after as [[p|]| |p|p]; try by apply end_stream_effects.
  - eapply rtc_l; [apply ef_drop|]. apply rtc_once. by constructor.
  - apply rtc_once. by constructor.
Qed.

Lemma continue_send_effects c r j control id after : idle c j -> part_ok c j r -> effects c (continue_send r j control id after).
Proof.
  intros Hi. destruct r as [c' r]. unfold part_ok, continue_send. destruct r as [|e|x]; [| |done].
  - intros (He & Ej & En). etrans; [exact He|]. by apply close_send_effects, (idle_after c).
  - intros (He & Ej & En). assert (idle c' j) as Hi' by by apply (idle_after c).
    destruct after as [p| |p|p]; try (etrans; [exact He|]; by apply close_send_effects).
    destruct (pending_canceled c' p); [etrans; [exact He|]; by apply close_send_effects|].
    pose proof (sendHttpResponse_ok c' j control (bad_gateway_response id e) (AfterFailure p) Hi') as Hs.
    destruct (sendHttpResponse c' j control _ _) as [c2 [|e2|x]]; unfold part_ok in Hs.
    + destruct Hs as (He2 & Ej2 & En2). etrans; [exact He|]. etrans; [exact He2|]. by apply close_send_effects, (idle_after c').
    + destruct Hs as (He2 & Ej2 & En2). etrans; [exact He|]. etrans; [exact He2|]. by apply close_send_effects, (idle_after c').
    + by etrans.
Qed.

(** A job that exists and does not wait is idle. *)
Lemma idle_job c j x : fresh c -> tc_jobs c !! j = Some x -> waiting x = false -> idle c j.
Proof.
  intros Hf Hj Hw. split; [|intros y Hy; by simplify_eq]. destruct (decide (tc_next c <= j)%nat) as [Hle|]; [|lia].
  by rewrite (fr_jobs _ Hf _ Hle) in Hj.
Qed.

Lemma idle_new c : fresh c -> idle (c <| tc_next := S (tc_next c) |>) (tc_next c).
Proof. intros Hf. split; [unfold update; cbn; lia|]. intros x Hx. cbn in Hx. by rewrite (fr_jobs _ Hf) in Hx. Qed.

Lemma resume_response_effects c j : fresh c -> effects c (resume_response c j).
Proof.
  intros Hf. unfold resume_response. destruct (tc_jobs c !! j) as [x|] eqn:E; [|done].
  destruct x as [| control response body offset sequence [| |e] after| | | |]; try done; assert (idle c j) as Hi by by eapply idle_job.
  - by apply continue_send_effects, response_loop_ok.
  - by apply continue_send_effects.
Qed.

Lemma send_proxied_effects c j control id response : idle c j -> effects c (send_proxied c j control id response).
Proof.
  intros Hi. unfold send_proxied. destruct response as [response|]; [|by apply close_send_effects].
  destruct (request_canceled c id); [by apply close_send_effects|]. by apply continue_send_effects, sendHttpResponse_ok.
Qed.

Lemma proxy_effects c control envelope : fresh c -> effects c (proxyAndSendHttpResponse daemonUrl c control envelope).
Proof.
  intros Hf. unfold proxyAndSendHttpResponse. cbn [new_job]. set (j := tc_next c). set (c1 := c <| tc_next := S j |>).
  assert (effect c c1) as He by constructor. pose proof (idle_new c Hf) as Hi. fold j c1 in Hi. apply (rtc_l _ _ _ _ He).
  destruct (url_resolve _ _) as [u|]; [|by apply close_send_effects]. destruct (private_url daemonUrl u) eqn:Ep; [by apply send_proxied_effects|].
  assert (effect c1 (add_pending c1 (hr_id envelope)).1) as He2 by constructor. apply (rtc_l _ _ _ _ He2).
  set (c2 := (add_pending c1 (hr_id envelope)).1) in *. set (f := {| df_origin := url_origin u; df_pathname := url_pathname u; df_snapshot := false;
    df_headers := withoutHopByHop (hr_headers envelope); df_body := truthy_body (hr_bodyB64 envelope) |}).
  assert (fetch_ok f) as Hok.
  { right. unfold private_url in Ep. apply orb_false_iff in Ep as [E1 E2]. to_prop. split_and!; [done| |done]. unfold jeqb in E1. by to_prop. }
  apply (rtc_l _ _ _ _ (ef_fetch c2 f Hok)). apply rtc_once.
  refine (ef_proxy (c2 <| tc_fetches := tc_fetches c2 ++ [f] |>) j control envelope (tc_next c1) _ _).
  - destruct Hi as [Hj Hi]. split; [unfold c2, add_pending, update in *; cbn in *; lia|]. exact Hi.
  - unfold c2, add_pending, update. cbn. lia.
Qed.

Lemma proxy_fetched_effects c j outcome : fresh c -> effects c (proxy_fetched c j outcome).
Proof.
  intros Hf. unfold proxy_fetched. destruct (tc_jobs c !! j) as [x|] eqn:E; [|done]. destruct x as [control envelope p t| | | | |]; try done.
  eapply rtc_l; [by eapply ef_fetched|]. apply send_proxied_effects. by apply (idle_same c), (idle_job _ _ _ Hf E).
Qed.

(** * Snapshots *)

Lemma snapshot_effects c control id : snap = true -> fresh c -> effects c (proxyAndSendSnapshotResponse daemonUrl c control id).
Proof.
  intros Hsnap Hf. unfold proxyAndSendSnapshotResponse. cbn [new_job]. set (j := tc_next c). set (c1 := c <| tc_next := S j |>).
  assert (effect c c1) as He by constructor. pose proof (idle_new c Hf) as Hi. fold j c1 in Hi. apply (rtc_l _ _ _ _ He).
  destruct (negb _); [by apply continue_send_effects, sendHttpResponse_ok|]. destruct (url_resolve _ _) as [u|]; [|done].
  assert (effect c1 (add_pending c1 id).1) as He2 by constructor. apply (rtc_l _ _ _ _ He2). set (c2 := (add_pending c1 id).1) in *.
  set (f := {| df_origin := url_origin u; df_pathname := url_pathname u; df_snapshot := true; df_headers := withoutHopByHop []; df_body := None |}).
  assert (fetch_ok f) as Hok by by left. apply (rtc_l _ _ _ _ (ef_fetch c2 f Hok)). apply rtc_once.
  apply (ef_job (c2 <| tc_fetches := tc_fetches c2 ++ [f] |>)); [|done].
  destruct Hi as [Hj Hi]. split; [unfold c2, add_pending, update in *; cbn in *; lia|]. exact Hi.
Qed.

Lemma stream_stops_effects c j control id p chunks threw : idle c j -> effects c (stream_stops c j control id p chunks threw).
Proof. intros Hi. unfold stream_stops. eapply rtc_l; [apply (ef_abort c p)|]. apply rtc_once. by apply ef_job; [apply (idle_same c)|]. Qed.

Lemma stream_loop_effects fuel c j control id p totalBytes sentBytes chunks piece offset :
  idle c j -> effects c (stream_loop fuel c j control id p totalBytes sentBytes chunks piece offset).
Proof.
  revert c sentBytes chunks offset. induction fuel as [|fuel IH]; intros c sentBytes chunks offset Hi; cbn [stream_loop].
  { apply rtc_once. by apply ef_job. }
  destruct (_ <? _)%nat; [|apply rtc_once; by apply ef_job]. destruct (pending_canceled c p); [by apply stream_stops_effects|].
  destruct (_ <=? _); [by apply stream_stops_effects|]. destruct (_ <? _); [by apply stream_stops_effects|]. destruct (tc_supportsAcks c).
  - set (m := CtlResponseChunk _ _ _). set (x := StreamSending _ _ _ _ _ _ _ _ _).
    pose proof (sendHttpResponseChunk_ok c j control id chunks m x Hi) as Hs.
    destruct (sendHttpResponseChunk c j control id chunks m) as [c'|e]; [|by apply stream_stops_effects]. apply Hs. by split_and!.
  - eapply rtc_l; [apply ef_send|]. apply IH. by apply (idle_same c); [rewrite control_send_next|rewrite control_send_jobs|].
Qed.

Lemma stream_cancelled_effects c j : fresh c -> effects c (stream_cancelled c j).
Proof.
  intros Hf. unfold stream_cancelled. destruct (tc_jobs c !! j) as [x|] eqn:E; [|done]. destruct x; try done.
  assert (idle c j) as Hi by by eapply idle_job. destruct (_ && _); [|by apply end_stream_effects].
  eapply rtc_l; [apply ef_send|]. apply end_stream_effects. by apply (idle_same c); [rewrite control_send_next|rewrite control_send_jobs|].
Qed.

Lemma stream_read_effects c j outcome : fresh c -> effects c (stream_read c j outcome).
Proof.
  intros Hf. unfold stream_read. destruct (tc_jobs c !! j) as [x|] eqn:E; [|done]. destruct x; try done.
  assert (idle c j) as Hi by by eapply idle_job. destruct outcome as [bytes| |]; [by apply stream_loop_effects| |by apply stream_stops_effects].
  destruct (negb _); [by apply stream_stops_effects|]. destruct (pending_canceled c _); [by apply end_stream_effects|].
  eapply rtc_l; [apply ef_send|]. apply end_stream_effects. by apply (idle_same c); [rewrite control_send_next|rewrite control_send_jobs|].
Qed.

Lemma resume_stream_effects c j : fresh c -> effects c (resume_stream c j).
Proof.
  intros Hf. unfold resume_stream. destruct (tc_jobs c !! j) as [x|] eqn:E; [|done].
  destruct x as [| | | |control id p totalBytes sentBytes chunks piece offset [| |e]|]; try done; assert (idle c j) as Hi by by eapply idle_job.
  - by apply stream_loop_effects.
  - by apply stream_stops_effects.
Qed.

Lemma job_runs_effects c j : fresh c -> effects c (job_runs c j).
Proof.
  intros Hf. unfold job_runs. destruct (tc_jobs c !! j) as [x|]; [|done]. destruct x; try done; [by apply resume_response_effects|by apply resume_stream_effects].
Qed.

Lemma snapshot_fetched_effects c j outcome : fresh c -> effects c (snapshot_fetched c j outcome).
Proof.
  intros Hf. unfold snapshot_fetched. destruct (tc_jobs c !! j) as [x|] eqn:E; [|done]. destruct x; try done.
  assert (idle c j) as Hi by by eapply idle_job. destruct outcome as [status headers has_body body|error]; [|by apply continue_send_effects].
  destruct (streamable _ _ _) as [n|].
  - eapply rtc_l; [apply ef_send|]. apply rtc_once. apply ef_job; [|done]. by apply (idle_same c); [rewrite control_send_next|rewrite control_send_jobs|].
  - destruct (materializedResponseBody body); [by apply continue_send_effects, sendHttpResponse_ok|by apply continue_send_effects].
Qed.

(** * The rest *)

Lemma reject_effects c id error : effects c (rejectPendingHttpResponseChunkAck c id error).
Proof.
  unfold rejectPendingHttpResponseChunkAck. destruct (tc_acks c !! id) as [pending|] eqn:E; [|done].
  apply rtc_once. by apply (ef_settle c id pending (Rejected error)).
Qed.

Lemma abort_acks_effects c reason : effects c (abortPendingHttpResponseChunkAcks c reason).
Proof.
  unfold abortPendingHttpResponseChunkAcks. generalize (map_to_list (tc_acks c)).*1. intros l. revert c.
  induction l as [|id l IH]; intros c; [done|]. cbn [foldl]. etrans; [apply reject_effects|apply IH].
Qed.

Lemma resolve_effects c id sequence : effects c (resolveHttpResponseChunkAck c id sequence).
Proof.
  unfold resolveHttpResponseChunkAck. destruct (tc_acks c !! id) as [pending|] eqn:E; [|done]. destruct (negb _); [apply reject_effects|].
  apply rtc_once. by apply (ef_settle c id pending Resolved).
Qed.

Lemma cancel_effects c id reason : effects c (cancelHttpRequest c id reason).
Proof.
  unfold cancelHttpRequest. eapply rtc_l; [apply (ef_assembler c (assembler_cancel (tc_assembler c) id))|].
  etrans; [apply (reject_effects _ id (js "Error: " ++ default (js "relay cancelled HTTP response") reason))|].
  destruct (tc_pendingHttp _ !! id) as [p|]; [|done]. apply rtc_once. apply ef_cancel.
Qed.

Lemma heartbeat_effects c : effects c (clearControlHeartbeat c).
Proof.
  unfold clearControlHeartbeat. eapply rtc_l; [apply ef_no_interval|]. eapply rtc_l; [apply ef_no_deadline|]. apply rtc_once. apply ef_misses.
Qed.

Lemma abort_all_effects c reason : effects c (abort_all c reason).
Proof.
  unfold abort_all. etrans; [apply heartbeat_effects|]. eapply rtc_l; [apply ef_cancel_all|]. etrans; [apply (abort_acks_effects _ reason)|].
  eapply rtc_l; [apply (ef_supports _ false)|]. apply rtc_once. apply ef_abort_rpcs.
Qed.

Lemma sendControlJson_effects c m : effects c (sendControlJson c m).
Proof. unfold sendControlJson. repeat case_match; try done. apply rtc_once. constructor. Qed.

Lemma mux_effects c e c' : mux_do c e = Some c' -> effects c c'.
Proof.
  unfold mux_do. destruct (mux_step _ _ _) as [x|]; [|done]. cbn [mbind option_bind]. intros [= <-].
  eapply rtc_l; [apply (ef_mux c x)|]. generalize (drop (length (mx_sent (tc_mux c))) (mx_sent x)). intros l.
  generalize (c <| tc_mux := x |>). induction l as [|m l IH]; intros c1; [done|]. cbn [foldl]. etrans; [apply sendControlJson_effects|apply IH].
Qed.

Lemma ws_open_effects c id path headers c' : ws_open daemonUrl c id path headers = Some c' -> effects c c'.
Proof.
  unfold ws_open. case_bool_decide; [by intros [= <-]|]. destruct (url_resolve _ _) as [u|]; [|by intros [= <-]].
  intros Hm. eapply rtc_l; [|eapply mux_effects, Hm]. apply ef_loopback.
Qed.

Lemma frame_effects c control frame : effects c (handleRelayFrame c control frame).
Proof.
  destruct frame as [id capability deadlineMs payload context|id p|id e|s cap p ctx|s q p|s code r|t i p r|[id|id] reason|e t]; try done.
  - destruct (tc_pendingRpc c !! id) as [j|] eqn:E.
    { unfold handleRelayFrame. rewrite E, bool_decide_eq_true_2 by done. apply rtc_once. constructor. }
    destruct (Z.leb_spec RELAY_PENDING_REQUEST_LIMIT (Z.of_nat (size (tc_pendingRpc c)))) as [Hl|Hl].
    { unfold handleRelayFrame. rewrite E, bool_decide_eq_false_2 by (by intros [? ?]). rewrite (proj2 (Z.leb_le _ _)) by done. apply rtc_once. constructor. }
    apply rtc_once. by apply ef_call.
  - cbn [handleRelayFrame]. destruct (tc_pendingRpc c !! id); [|done]. apply rtc_once. apply ef_abort_rpc.
Qed.

Lemma vault_list_effects c j outcome : effects c (vault_list_answered c j outcome).
Proof.
  unfold vault_list_answered. destruct (tc_rpcs c !! j) as [x|] eqn:E; [|done]. destruct (rj_phase x) eqn:Ep; try done.
  apply rtc_once. apply ef_answered; [done|congruence].
Qed.

Lemma connected_effects c j : effects c (mcp_connected c j).
Proof.
  unfold mcp_connected. destruct (tc_rpcs c !! j) as [x|] eqn:E; [|done]. destruct (rj_phase x) as [|call []|] eqn:Ep; try done.
  apply rtc_once. by apply ef_connected.
Qed.

Lemma mcp_effects c j outcome : effects c (mcp_answered c j outcome).
Proof.
  unfold mcp_answered. destruct (tc_rpcs c !! j) as [x|] eqn:E; [|done]. destruct (rj_phase x) as [|call d|] eqn:Ep; try done.
  assert (forall frame, effects c (rpc_answered c j x frame)) as Ha by (intros frame; apply rtc_once, ef_answered; [done|congruence]).
  destruct d, outcome; done.
Qed.

Lemma message_effects c control message c' :
  fresh c -> (forall id, message = SrvSnapshot id -> snap = true) -> handleControlMessage daemonUrl c control message = Some c' -> effects c c'.
Proof.
  intros Hf Hsnap. destruct message; cbn [handleControlMessage].
  - intros [= <-]. eapply rtc_l; [apply (ef_attempt c 0)|]. apply rtc_once. apply ef_supports.
  - intros [= <-]. eapply rtc_l; [apply ef_no_deadline|]. apply rtc_once. apply ef_misses.
  - by intros [= <-].
  - destruct (parseRelayFrame frame); intros [= <-]; [apply frame_effects|done].
  - intros [= <-]. by apply proxy_effects.
  - intros [= <-]. apply snapshot_effects; [by eapply Hsnap|done].
  - intros [= <-]. apply rtc_once. apply ef_assembler.
  - intros [= <-]. apply rtc_once. apply ef_assembler.
  - destruct (assembler_end _ _) as [x [envelope|]]; intros [= <-]; (eapply rtc_l; [apply (ef_assembler c x)|]); [|done].
    apply proxy_effects. by apply (fresh_same c).
  - intros [= <-]. apply cancel_effects.
  - intros [= <-]. apply resolve_effects.
  - apply ws_open_effects.
  - apply mux_effects.
  - apply mux_effects.
  - apply mux_effects.
Qed.

(** The steps that do not change the connection. *)
Definition working (e : tunnel_event) : bool :=
  match e with
  | CallStart | CallStop | CallSendRelayEvent _ | SocketOpens _ | SocketCloses _ _ _ | TimerFires _ => false
  | _ => true
  end.

(** A snapshot is asked for. *)
Definition asks_snapshot (e : tunnel_event) : bool := match e with SocketMessage _ (SrvSnapshot _) => true | _ => false end.

Lemma step_effects c e c' : fresh c -> working e = true -> (asks_snapshot e = true -> snap = true) -> tunnel_step config daemonUrl c e = Some c' -> effects c c'.
Proof.
  intros Hf Hw Hs. destruct e; try done; cbn [tunnel_step].
  - apply message_effects; [done|]. intros id ->. by apply Hs.
  - apply mux_effects.
  - intros [= <-]. by apply proxy_fetched_effects.
  - intros [= <-]. by apply snapshot_fetched_effects.
  - intros [= <-]. by apply stream_read_effects.
  - intros [= <-]. by apply stream_cancelled_effects.
  - intros [= <-]. by apply job_runs_effects.
  - intros [= <-]. apply vault_list_effects.
  - intros [= <-]. apply connected_effects.
  - intros [= <-]. apply mcp_effects.
  - intros [= <-]. apply rtc_once. apply ef_rpc_send.
Qed.
End effects.
