(* ===== verification/TunnelClientProps.v ===== *)
(** What holds of the tunnel client whatever happens to it: a client that is started has a
    control socket or a reconnect that is scheduled, the relay reaches no private path of the
    daemon, the calls under way are bounded, every chunk that waits for its acknowledgement
    has a timeout, and a control socket is only given up after four missed heartbeats. *)
From stdpp Require Import relations.
From S2P Require Import Prelude JsString Utf8 Splice Base64 Json PendingFrames PendingRequests DocStream StreamMux RelayFrame HttpAssembler TunnelPaths TunnelRpc TunnelMessages TunnelClient TunnelEffects.

#[local] Open Scope Z_scope.

Section props.
Context `{JsonHost, Host, UrlHost, TunnelHost, MuxHost}.
Context (config : TunnelClientConfig) (daemonUrl : url) (snap : bool).
Implicit Types (c : TunnelClient) (a t j p : nat) (id : jstr).

Abbreviation effect := (TunnelEffects.effect daemonUrl snap).
Abbreviation effects := (rtc effect).

(** * The connection *)

(** What the effects leave alone. *)
Definition connection c :=
  (tc_control c, tc_stopped c, tc_hasStarted c, tc_epoch c, tc_reconnectTimer c,
   (fun s => (cs_readyState s, cs_terminated s)) <$> tc_sockets c).

Lemma send_connection c a m : connection (control_send c a m) = connection c.
Proof.
  unfold control_send. destruct (tc_sockets c !! a) as [s|] eqn:E; [|done]. destruct (_ =? _); [|done].
  unfold connection, set_socket, update. cbn. f_equal. rewrite fmap_insert. apply insert_id. by rewrite lookup_fmap, E.
Qed.

Lemma settle_ack_connection c j r : connection (settle_ack c j r) = connection c.
Proof. unfold settle_ack. by repeat case_match. Qed.

Lemma clear_field_connection c o : connection (clear_timer_field c o) = connection c.
Proof. by destruct o. Qed.

Lemma call_connection c control id capability deadlineMs payload context :
  tc_pendingRpc c !! id = None -> Z.of_nat (size (tc_pendingRpc c)) < RELAY_PENDING_REQUEST_LIMIT ->
  connection (handleRelayFrame c control (RelayRpcRequestFrame id capability deadlineMs payload context)) = connection c.
Proof. intros Hn Hs. by destruct (call_shape c control id capability deadlineMs payload context Hn Hs) as (rq & ph & _ & [-> | ->]). Qed.

Lemma effect_connection c c' : effect c c' -> connection c' = connection c.
Proof.
  destruct 1; try done.
  - apply send_connection.
  - unfold wait_for_ack. exact (send_connection _ _ _).
  - unfold settle. exact (settle_ack_connection _ _ _).
  - by apply call_connection.
  - unfold rpc_answered. destruct (rj_timeout x); done.
  - unfold rpc_send. repeat case_match; try done; exact (send_connection c _ _).
  - unfold clearControlHeartbeatDeadline. exact (clear_field_connection c _).
  - exact (clear_field_connection c _).
Qed.

Lemma effects_connection c c' : effects c c' -> connection c' = connection c.
Proof. induction 1 as [|c c1 c2 He _ IH]; [done|]. rewrite IH. by apply effect_connection. Qed.

(** * Timers *)

Definition is_reconnect (x : timer) : bool := match x with ReconnectTimer _ => true | _ => false end.
Definition is_interval (x : timer) : bool := match x with HeartbeatInterval _ _ => true | _ => false end.
Definition is_deadline (x : timer) : bool := match x with HeartbeatDeadline _ => true | _ => false end.
Definition is_fetch (x : timer) : bool := match x with FetchTimer _ => true | _ => false end.
Definition is_ack (x : timer) : bool := match x with ChunkAckTimer _ => true | _ => false end.
Definition is_rpc (x : timer) : bool := match x with RpcTimer _ => true | _ => false end.

(** A timer that was set as one of a kind: it is of this kind, or over. *)
Definition kind c t (P : timer -> bool) : Prop := (t < tc_next c)%nat /\ forall x, tc_timers c !! t = Some x -> P x = true.

(** What holds a timer holds one of its kind. *)
Record timers_ok c : Prop := {
  to_reconnect : forall t, tc_reconnectTimer c = Some t -> kind c t is_reconnect;
  to_interval : forall t, tc_heartbeatInterval c = Some t -> kind c t is_interval;
  to_deadline : forall t, tc_heartbeatDeadline c = Some t -> kind c t is_deadline;
  to_acks : forall id pending, tc_acks c !! id = Some pending -> kind c (pa_timeout pending) is_ack;
  to_jobs : forall j control envelope p t, tc_jobs c !! j = Some (ProxyFetching control envelope p t) -> kind c t is_fetch;
  to_rpcs : forall j x t, tc_rpcs c !! j = Some x -> rj_timeout x = Some t -> kind c t is_rpc
}.

(** The timers of before are the same or over. *)
Definition later c c' : Prop :=
  (tc_next c <= tc_next c')%nat /\ forall t, (t < tc_next c)%nat -> tc_timers c' !! t = tc_timers c !! t \/ tc_timers c' !! t = None.

Lemma later_kind c c' t P : later c c' -> kind c t P -> kind c' t P.
Proof.
  intros [Hn Ht] [Hlt Hk]. split; [lia|]. intros x Hx. destruct (Ht t Hlt) as [E|E]; rewrite E in Hx; [by apply Hk|done].
Qed.

Lemma later_refl c : later c c.
Proof. split; [done|]. by left. Qed.

Lemma later_same c c' : tc_next c' = tc_next c -> tc_timers c' = tc_timers c -> later c c'.
Proof. intros En Et. split; [by rewrite En|]. left. by rewrite Et. Qed.

Lemma later_clear c t c' : tc_next c' = tc_next c -> tc_timers c' = delete t (tc_timers c) -> later c c'.
Proof.
  intros En Et. split; [by rewrite En|]. intros t' _. rewrite Et. destruct (decide (t = t')) as [->|Hne]; [right; apply lookup_delete_eq|left].
  by apply lookup_delete_ne.
Qed.

Lemma later_set c x c' : (tc_next c < tc_next c')%nat -> tc_timers c' = <[tc_next c := x]> (tc_timers c) -> later c c'.
Proof. intros En Et. split; [lia|]. intros t Ht. left. rewrite Et. apply lookup_insert_ne. lia. Qed.

Lemma later_next c c' : (tc_next c <= tc_next c')%nat -> tc_timers c' = tc_timers c -> later c c'.
Proof. intros En Et. split; [done|]. left. by rewrite Et. Qed.

Lemma later_clear_field c o c' : tc_next c' = tc_next c -> tc_timers c' = tc_timers (clear_timer_field c o) -> later c c'.
Proof. destruct o as [t|]; [by apply later_clear|by apply later_same]. Qed.

Lemma kind_set c x c' P : (tc_next c < tc_next c')%nat -> tc_timers c' = <[tc_next c := x]> (tc_timers c) -> P x = true -> kind c' (tc_next c) P.
Proof. intros En Et HP. split; [done|]. intros y. rewrite Et, lookup_insert_eq. by intros [= <-]. Qed.

(** Each holder of a timer is one of before, or holds a timer of its kind. *)
Lemma timers_ok_later c c' :
  later c c' ->
  (forall t, tc_reconnectTimer c' = Some t -> tc_reconnectTimer c = Some t \/ kind c' t is_reconnect) ->
  (forall t, tc_heartbeatInterval c' = Some t -> tc_heartbeatInterval c = Some t \/ kind c' t is_interval) ->
  (forall t, tc_heartbeatDeadline c' = Some t -> tc_heartbeatDeadline c = Some t \/ kind c' t is_deadline) ->
  (forall id pending, tc_acks c' !! id = Some pending -> tc_acks c !! id = Some pending \/ kind c' (pa_timeout pending) is_ack) ->
  (forall j control envelope p t, tc_jobs c' !! j = Some (ProxyFetching control envelope p t) ->
    tc_jobs c !! j = Some (ProxyFetching control envelope p t) \/ kind c' t is_fetch) ->
  (forall j x t, tc_rpcs c' !! j = Some x -> rj_timeout x = Some t ->
    (exists y, tc_rpcs c !! j = Some y /\ rj_timeout y = Some t) \/ kind c' t is_rpc) ->
  timers_ok c -> timers_ok c'.
Proof.
  intros Hl Hre Hi Hd Ha Hj Hr [Kre Ki Kd Ka Kj Kr]. split.
  - intros t Ht. destruct (Hre t Ht); [|done]. by eapply later_kind, Kre.
  - intros t Ht. destruct (Hi t Ht); [|done]. by eapply later_kind, Ki.
  - intros t Ht. destruct (Hd t Ht); [|done]. by eapply later_kind, Kd.
  - intros id pending Hp. destruct (Ha id pending Hp); [|done]. by eapply later_kind, Ka.
  - intros j control envelope p t Ht. destruct (Hj j control envelope p t Ht); [|done]. by eapply later_kind, Kj.
  - intros j x t Hx Ht. destruct (Hr j x t Hx Ht) as [(y & Hy & Ey)|]; [|done]. by eapply later_kind, Kr.
Qed.

Ltac keep := solve [ intros; simplify_eq; eauto ].

Lemma alter_rpcs (f : rpc_job -> rpc_job) (m : gmap nat rpc_job) j k x t :
  (forall y, rj_timeout (f y) = rj_timeout y) -> alter f j m !! k = Some x -> rj_timeout x = Some t ->
  exists y, m !! k = Some y /\ rj_timeout y = Some t.
Proof.
  intros Hf Hx Ht. destruct (decide (j = k)) as [->|Hne].
  - rewrite lookup_alter_eq in Hx. destruct (m !! k) as [y|]; [|done]. cbn in Hx. simplify_eq. rewrite Hf in Ht. eauto.
  - rewrite lookup_alter_ne in Hx by done. eauto.
Qed.

Lemma foldr_alter_rpcs (f : rpc_job -> rpc_job) (l : list nat) (m : gmap nat rpc_job) k x t :
  (forall y, rj_timeout (f y) = rj_timeout y) -> foldr (fun j => alter f j) m l !! k = Some x -> rj_timeout x = Some t ->
  exists y, m !! k = Some y /\ rj_timeout y = Some t.
Proof.
  intros Hf. revert x t. induction l as [|j l IH]; intros x t Hx Ht; [eauto|]. cbn [foldr] in Hx.
  destruct (alter_rpcs f _ j k x t Hf Hx Ht) as (y & Hy & Hyt). by apply (IH y t).
Qed.

(** Jobs change where they do not hold a timer. *)
Lemma settle_ack_jobs c j r k control envelope p t :
  tc_jobs (settle_ack c j r) !! k = Some (ProxyFetching control envelope p t) -> tc_jobs c !! k = Some (ProxyFetching control envelope p t).
Proof.
  unfold settle_ack. destruct (tc_jobs c !! j) as [x|] eqn:E; [|done]. repeat case_match; try done; subst; unfold job_set, update; cbn;
    (destruct (decide (j = k)) as [->|Hne]; [by rewrite lookup_insert_eq|by rewrite lookup_insert_ne]).
Qed.

Lemma settle_ack_timers c j r : tc_timers (settle_ack c j r) = tc_timers c.
Proof. unfold settle_ack. by repeat case_match. Qed.
Lemma settle_ack_acks c j r : tc_acks (settle_ack c j r) = tc_acks c.
Proof. unfold settle_ack. by repeat case_match. Qed.
Lemma settle_ack_rpcs c j r : tc_rpcs (settle_ack c j r) = tc_rpcs c.
Proof. unfold settle_ack. by repeat case_match. Qed.
Lemma settle_ack_reconnect c j r : tc_reconnectTimer (settle_ack c j r) = tc_reconnectTimer c.
Proof. unfold settle_ack. by repeat case_match. Qed.
Lemma settle_ack_interval c j r : tc_heartbeatInterval (settle_ack c j r) = tc_heartbeatInterval c.
Proof. unfold settle_ack. by repeat case_match. Qed.
Lemma settle_ack_deadline c j r : tc_heartbeatDeadline (settle_ack c j r) = tc_heartbeatDeadline c.
Proof. unfold settle_ack. by repeat case_match. Qed.
Lemma settle_ack_misses c j r : tc_heartbeatMisses (settle_ack c j r) = tc_heartbeatMisses c.
Proof. unfold settle_ack. by repeat case_match. Qed.

(** Sending changes no more than the socket. *)
Definition besides_sockets c :=
  (tc_next c, tc_timers c, tc_jobs c, tc_rpcs c, tc_acks c, tc_pendingRpc c, (tc_heartbeatInterval c, tc_heartbeatDeadline c, tc_heartbeatMisses c),
   (tc_reconnectTimer c, tc_fetches c, tc_pendings c, tc_pendingHttp c, tc_supportsAcks c)).

Lemma send_besides c a m : besides_sockets (control_send c a m) = besides_sockets c.
Proof. unfold control_send. by repeat case_match. Qed.

Ltac unsend c a m := pose proof (send_besides c a m); unfold besides_sockets in *; simplify_eq.

Lemma timers_ok_same c c' :
  tc_next c' = tc_next c -> tc_timers c' = tc_timers c -> tc_reconnectTimer c' = tc_reconnectTimer c -> tc_heartbeatInterval c' = tc_heartbeatInterval c ->
  tc_heartbeatDeadline c' = tc_heartbeatDeadline c -> tc_acks c' = tc_acks c -> tc_jobs c' = tc_jobs c -> tc_rpcs c' = tc_rpcs c ->
  timers_ok c -> timers_ok c'.
Proof.
  intros En Et Ere Ei Ed Ea Ej Er. apply timers_ok_later; rewrite ?Ere, ?Ei, ?Ed, ?Ea, ?Ej, ?Er; try (by left). by apply later_same.
  intros; left; eauto.
Qed.

Lemma timers_ok_send c a m : timers_ok c -> timers_ok (control_send c a m).
Proof. pose proof (send_besides c a m) as E. unfold besides_sockets in E. simplify_eq. by apply timers_ok_same. Qed.
Lemma clear_field_fields c o :
  tc_next (clear_timer_field c o) = tc_next c /\ tc_reconnectTimer (clear_timer_field c o) = tc_reconnectTimer c /\ tc_heartbeatInterval (clear_timer_field c o) = tc_heartbeatInterval c /\
  tc_heartbeatDeadline (clear_timer_field c o) = tc_heartbeatDeadline c /\ tc_acks (clear_timer_field c o) = tc_acks c /\
  tc_jobs (clear_timer_field c o) = tc_jobs c /\ tc_rpcs (clear_timer_field c o) = tc_rpcs c.
Proof. by destruct o. Qed.

(** A timer is cleared, and its holder may forget it. *)
Lemma timers_ok_clear c o c' :
  tc_next c' = tc_next c -> tc_timers c' = tc_timers (clear_timer_field c o) ->
  (tc_reconnectTimer c' = tc_reconnectTimer c \/ tc_reconnectTimer c' = None) ->
  (tc_heartbeatInterval c' = tc_heartbeatInterval c \/ tc_heartbeatInterval c' = None) ->
  (tc_heartbeatDeadline c' = tc_heartbeatDeadline c \/ tc_heartbeatDeadline c' = None) ->
  tc_acks c' = tc_acks c -> tc_jobs c' = tc_jobs c -> tc_rpcs c' = tc_rpcs c -> timers_ok c -> timers_ok c'.
Proof.
  intros En Et Ere Ei Ed Ea Ej Er. apply timers_ok_later; rewrite ?Ea, ?Ej, ?Er; try (by left).
  - by eapply later_clear_field.
  - intros t Ht. destruct Ere as [E|E]; rewrite E in Ht; [by left|done].
  - intros t Ht. destruct Ei as [E|E]; rewrite E in Ht; [by left|done].
  - intros t Ht. destruct Ed as [E|E]; rewrite E in Ht; [by left|done].
  - intros; left; eauto.
Qed.

Lemma job_set_job c j x k y : tc_jobs (job_set c j x) !! k = Some y -> tc_jobs c !! k = Some y \/ k = j /\ y = x.
Proof.
  unfold job_set, update. cbn. destruct (decide (j = k)) as [->|Hne].
  - rewrite lookup_insert_eq. intros [= <-]. by right.
  - rewrite lookup_insert_ne by done. by left.
Qed.

Lemma rpc_set_rpc c j x k y : tc_rpcs (rpc_set c j x) !! k = Some y -> tc_rpcs c !! k = Some y \/ k = j /\ y = x.
Proof.
  unfold rpc_set, update. cbn. destruct (decide (j = k)) as [->|Hne].
  - rewrite lookup_insert_eq. intros [= <-]. by right.
  - rewrite lookup_insert_ne by done. by left.
Qed.

Lemma timers_ok_jobs c j x : (forall control envelope p t, x <> ProxyFetching control envelope p t) -> timers_ok c -> timers_ok (job_set c j x).
Proof.
  intros Hx. apply timers_ok_later; try (by left); [by apply later_same| |intros; left; eauto].
  intros k control envelope p t Hk. apply job_set_job in Hk as [Hk|[_ Hk]]; [by left|by destruct (Hx control envelope p t)].
Qed.

Lemma timers_ok_wait c j control id sequence m x :
  awaits x control id sequence m -> timers_ok c -> timers_ok (wait_for_ack c j control id sequence m x).
Proof.
  intros Hx Hk. unfold wait_for_ack. apply timers_ok_jobs; [by intros ? ? ? ? ->|]. apply timers_ok_send. revert Hk.
  set (c' := _ <| tc_acks := _ |>).
  apply timers_ok_later; try (by left); [by eapply (later_set _ (ChunkAckTimer id)); unfold c', update; cbn; [lia|]| |intros; left; eauto].
  intros id' pending Hp. unfold c', update in Hp. cbn in Hp. destruct (decide (id = id')) as [->|Hne].
  - rewrite lookup_insert_eq in Hp. injection Hp as <-. right. by apply (kind_set c (ChunkAckTimer id')); unfold c', update; cbn; [lia|..].
  - rewrite lookup_insert_ne in Hp by done. by left.
Qed.

Lemma timers_ok_settle c id pending r : timers_ok c -> timers_ok (settle c id pending r).
Proof.
  unfold settle. apply timers_ok_later; rewrite ?settle_ack_reconnect, ?settle_ack_interval, ?settle_ack_deadline, ?settle_ack_acks, ?settle_ack_rpcs; try (by left).
  - eapply (later_clear _ (pa_timeout pending)); [by rewrite settle_ack_next|by rewrite settle_ack_timers].
  - intros id' q Hq. left. unfold update in Hq. cbn in Hq. by apply lookup_delete_Some in Hq as [_ Hq].
  - intros k control envelope p t Hk. left. by apply settle_ack_jobs in Hk.
  - intros; left; eauto.
Qed.

Lemma timers_ok_rpc_set c j x :
  (forall t, rj_timeout x = Some t -> (exists y, tc_rpcs c !! j = Some y /\ rj_timeout y = Some t) \/ kind c t is_rpc) ->
  timers_ok c -> timers_ok (rpc_set c j x).
Proof.
  intros Hx. apply timers_ok_later; try (by left); [by apply later_same|].
  intros k y t Hy Ht. apply rpc_set_rpc in Hy as [Hy|[-> ->]]; [left; eauto|]. by apply Hx.
Qed.

Lemma timers_ok_call c control id capability deadlineMs payload context :
  tc_pendingRpc c !! id = None -> Z.of_nat (size (tc_pendingRpc c)) < RELAY_PENDING_REQUEST_LIMIT ->
  timers_ok c -> timers_ok (handleRelayFrame c control (RelayRpcRequestFrame id capability deadlineMs payload context)).
Proof.
  intros Hn Hs Hk. destruct (call_shape c control id capability deadlineMs payload context Hn Hs) as (rq & ph & _ & [-> | ->]).
  - apply timers_ok_rpc_set; [done|]. revert Hk. apply timers_ok_later; try (by left); [|intros; left; eauto].
    apply later_next; unfold update; cbn; [lia|done].
  - apply timers_ok_rpc_set.
    + intros t [= <-]. right. split; unfold set_timer, update; cbn; [lia|]. intros y. rewrite lookup_insert_eq. by intros [= <-].
    + revert Hk. apply timers_ok_later; try (by left); [|intros; left; eauto].
      unfold later, set_timer, update. cbn. split; [lia|]. intros t Ht. left. by rewrite lookup_insert_ne by lia.
Qed.

Lemma timers_ok_answered c j x frame : tc_rpcs c !! j = Some x -> timers_ok c -> timers_ok (rpc_answered c j x frame).
Proof.
  intros Hj Hk. unfold rpc_answered. apply timers_ok_rpc_set; [done|]. revert Hk.
  destruct (clear_field_fields c (rj_timeout x)) as (En & Ere & Ei & Ed & Ea & Ej & Er). eapply timers_ok_clear; auto.
Qed.

Lemma timers_ok_rpcs c (m : gmap nat rpc_job) :
  (forall k x t, m !! k = Some x -> rj_timeout x = Some t -> exists y, tc_rpcs c !! k = Some y /\ rj_timeout y = Some t) ->
  timers_ok c -> timers_ok (c <| tc_rpcs := m |>).
Proof.
  intros Hm. apply timers_ok_later; try (by left); [by apply later_same|]. intros k x t Hx Ht. left. by apply (Hm k x t).
Qed.

Lemma timers_ok_rpc_send c j : timers_ok c -> timers_ok (rpc_send c j).
Proof.
  intros Hk. unfold rpc_send. destruct (tc_rpcs c !! j) as [x|] eqn:E; [|done]. destruct (rj_phase x) as [| |frame]; try done.
  pose proof (timers_ok_send c (rj_control x) (CtlFrame frame) Hk) as Hk'. revert Hk'. generalize (control_send c (rj_control x) (CtlFrame frame)).
  intros c1 Hk1. case_bool_decide.
  - apply timers_ok_rpcs; [|by apply (timers_ok_same c1)]. intros k y t [_ Hy]%lookup_delete_Some Ht. eauto.
  - apply timers_ok_rpcs; [|done]. intros k y t [_ Hy]%lookup_delete_Some Ht. eauto.
Qed.

Lemma effect_timers_ok c c' : effect c c' -> timers_ok c -> timers_ok c'.
Proof.
  destruct 1 as [c a m|c|c f Hok|c id|c p|c p|c|c id|c j control envelope p Hj Hp|c j control envelope p t Hj|c j x Hj Hx|c j Hj
    |c j control id sequence m x Hn Hw Hj|c id pending r Hp Hr|c t x Ht Hx|c x|c control id capability deadlineMs payload context Hn Hs
    |c j x frame Hj Hx|c j x call Hj Hx|c j|c j|c|c j|c x|c l|c n|c b|c|c|c]; intros Hk.
  - by apply timers_ok_send.
  - revert Hk. apply timers_ok_later; try (by left); [|intros; left; eauto]. apply later_next; unfold update; cbn; [lia|done].
  - by apply (timers_ok_same c).
  - revert Hk. unfold add_pending. apply timers_ok_later; try (by left); [|intros; left; eauto]. apply later_next; unfold update; cbn; [lia|done].
  - by apply (timers_ok_same c).
  - by apply (timers_ok_same c).
  - by apply (timers_ok_same c).
  - by apply (timers_ok_same c).
  - revert Hk. apply timers_ok_later; try (by left); [|intros k control' envelope' p' t' Hk|intros; left; eauto].
    + by eapply (later_set _ (FetchTimer p)); unfold set_timer, job_set, update; cbn; [lia|].
    + apply job_set_job in Hk as [Hk|[_ Hk]]; [by left|right]. injection Hk as -> -> -> ->.
      by apply (kind_set c (FetchTimer p)); unfold set_timer, job_set, update; cbn; [lia|..].
  - revert Hk. apply (timers_ok_clear c (Some t)); auto.
  - apply timers_ok_jobs; [|done]. by intros control envelope p t ->.
  - revert Hk. apply timers_ok_later; try (by left); [by apply later_same| |intros; left; eauto].
    intros k control envelope p t Hy. unfold job_end, update in Hy. cbn in Hy. apply lookup_delete_Some in Hy as [_ Hy]. by left.
  - by apply timers_ok_wait.
  - by apply timers_ok_settle.
  - revert Hk. apply (timers_ok_clear c (Some t)); auto.
  - by apply (timers_ok_same c).
  - by apply timers_ok_call.
  - by apply timers_ok_answered.
  - apply timers_ok_rpc_set; [|done]. intros t Ht. left. eauto.
  - apply timers_ok_rpcs; [|done]. intros k x t. by apply alter_rpcs.
  - apply timers_ok_rpcs; [|done]. intros k x t. by apply alter_rpcs.
  - unfold abortPendingRelayRpcRequests. match goal with |- timers_ok (?c1 <| tc_pendingRpc := _ |>) => apply (timers_ok_same c1); try done end.
    apply timers_ok_rpcs; [|done]. intros k x t. by apply foldr_alter_rpcs.
  - by apply timers_ok_rpc_send.
  - by apply (timers_ok_same c).
  - by apply (timers_ok_same c).
  - by apply (timers_ok_same c).
  - by apply (timers_ok_same c).
  - by apply (timers_ok_same c).
  - revert Hk. unfold clearControlHeartbeatDeadline. destruct (clear_field_fields c (tc_heartbeatDeadline c)) as (En & Ere & Ei & Ed & Ea & Ej & Er).
    apply (timers_ok_clear c (tc_heartbeatDeadline c)); auto.
  - revert Hk. destruct (clear_field_fields c (tc_heartbeatInterval c)) as (En & Ere & Ei & Ed & Ea & Ej & Er).
    apply (timers_ok_clear c (tc_heartbeatInterval c)); auto.
Qed.
(** A reconnect that is scheduled stays so. *)
Lemma effect_reconnect c c' t d :
  effect c c' -> fresh c -> timers_ok c -> tc_timers c !! t = Some (ReconnectTimer d) -> tc_timers c' !! t = Some (ReconnectTimer d).
Proof.
  intros He Hf Hk Ht.
  assert (forall t' P, kind c t' P -> P (ReconnectTimer d) = false -> t' <> t) as Hne.
  { intros t' P [_ HP] Hd ->. by rewrite (HP _ Ht) in Hd. }
  assert (t < tc_next c)%nat as Hlt.
  { destruct (decide (tc_next c <= t)%nat) as [Hle|]; [|lia]. by rewrite (fr_timers _ Hf _ Hle) in Ht. }
  assert (forall o c1, (forall t', o = Some t' -> t' <> t) -> tc_timers c1 = tc_timers (clear_timer_field c o) ->
    tc_timers c1 !! t = Some (ReconnectTimer d)) as Hclear.
  { intros o c1 Ho ->. destruct o as [t'|]; [|done]. cbn. rewrite lookup_delete_ne by by apply Ho. done. }
  destruct He as [c a m|c|c f Hok|c id|c p|c p|c|c id|c j control envelope p Hj Hp|c j control envelope p t' Hj|c j x Hj Hx|c j Hj
    |c j control id sequence m x Hn Hw Hj|c id pending r Hp Hr|c t' x Ht' Hx|c x|c control id capability deadlineMs payload context Hn Hs
    |c j x frame Hj Hx|c j x call Hj Hx|c j|c j|c|c j|c x|c l|c n|c b|c|c|c]; try done.
  - by rewrite control_send_timers.
  - unfold set_timer, job_set, update. cbn. by rewrite lookup_insert_ne by lia.
  - apply (Hclear (Some t')); [|done]. intros t2 [= <-]. eapply Hne; [by eapply to_jobs|done].
  - unfold wait_for_ack, job_set, update. cbn. rewrite control_send_timers. cbn. by rewrite lookup_insert_ne by lia.
  - unfold settle. rewrite settle_ack_timers. apply (Hclear (Some (pa_timeout pending))); [|done]. intros t2 [= <-]. eapply Hne; [by eapply to_acks|done].
  - apply (Hclear (Some t')); [|done]. intros t2 [= <-] ->. by simplify_eq.
  - destruct (call_shape c control id capability deadlineMs payload context Hn Hs) as (rq & ph & _ & [-> | ->]); [done|].
    unfold rpc_set, set_timer, update. cbn. by rewrite lookup_insert_ne by lia.
  - apply (Hclear (rj_timeout x)); [|done]. intros t2 Ht2. eapply Hne; [by eapply to_rpcs|done].
  - unfold rpc_send. repeat case_match; try done; cbn; by rewrite control_send_timers.
  - apply (Hclear (tc_heartbeatDeadline c)); [|done]. intros t2 Ht2. eapply Hne; [by eapply to_deadline|done].
  - apply (Hclear (tc_heartbeatInterval c)); [|done]. intros t2 Ht2. eapply Hne; [by eapply to_interval|done].
Qed.

(** * The client's connection *)

(** The control socket has not closed; without one, a client that is started will reconnect. *)
Record connected c : Prop := {
  co_control : forall a, tc_control c = Some a -> exists s, tc_sockets c !! a = Some s /\ cs_readyState s <> WS_CLOSED;
  co_started : tc_stopped c = false -> is_Some (tc_control c) \/ exists t d, tc_timers c !! t = Some (ReconnectTimer d)
}.

Record client_ok c : Prop := { ok_fresh : fresh c; ok_timers : timers_ok c; ok_connected : connected c }.

Lemma connected_same c c' :
  connection c' = connection c -> (forall t d, tc_timers c !! t = Some (ReconnectTimer d) -> tc_timers c' !! t = Some (ReconnectTimer d)) ->
  connected c -> connected c'.
Proof.
  unfold connection. intros E Ht [Hc Hs]. injection E as Ec Es _ _ _ Ek. split.
  - intros a. rewrite Ec. intros Ha. destruct (Hc a Ha) as (s & Hl & Hn). apply (f_equal (fun m => m !! a)) in Ek. rewrite !lookup_fmap, Hl in Ek.
    destruct (tc_sockets c' !! a) as [s'|]; [|done]. cbn in Ek. injection Ek as E1 _. exists s'. split; [done|]. by rewrite E1.
  - rewrite Ec, Es. intros Hst. destruct (Hs Hst) as [|(t & d & Hd)]; [by left|right]. eauto.
Qed.

Lemma effect_client_ok c c' : effect c c' -> client_ok c -> client_ok c'.
Proof.
  intros He [Hf Hk Hc]. split; [by eapply effect_fresh|by eapply effect_timers_ok|].
  apply (connected_same c); [by apply effect_connection| |done]. intros t d. by apply (effect_reconnect c c').
Qed.

Lemma effects_client_ok c c' : effects c c' -> client_ok c -> client_ok c'.
Proof. induction 1 as [|c c1 c2 He _ IH]; [done|]. intros Hok. by apply IH, (effect_client_ok c). Qed.

(** Two of the three suffice where the connection changes. *)
Definition base_ok c : Prop := fresh c /\ timers_ok c.
Lemma effects_base_ok c c' : effects c c' -> base_ok c -> base_ok c'.
Proof.
  induction 1 as [|c c1 c2 He _ IH]; [done|]. intros [Hf Hk]. apply IH. split; [by eapply effect_fresh|by eapply effect_timers_ok].
Qed.

Lemma base_same c c' :
  tc_next c' = tc_next c -> tc_timers c' = tc_timers c -> tc_pendings c' = tc_pendings c -> tc_jobs c' = tc_jobs c -> tc_rpcs c' = tc_rpcs c ->
  tc_acks c' = tc_acks c -> tc_reconnectTimer c' = tc_reconnectTimer c -> tc_heartbeatInterval c' = tc_heartbeatInterval c -> tc_heartbeatDeadline c' = tc_heartbeatDeadline c ->
  (forall a, tc_sockets c !! a = None -> tc_sockets c' !! a = None) -> base_ok c -> base_ok c'.
Proof.
  intros En Et Ep Ej Er Ea Ere Ei Ed Es [[Hs Ht Hp Hj Hr] Hk]. split; [|by apply (timers_ok_same c)].
  split; rewrite ?En, ?Et, ?Ep, ?Ej, ?Er; try done. intros a Ha. by apply Es, Hs.
Qed.

Lemma base_socket c a s : is_Some (tc_sockets c !! a) -> base_ok c -> base_ok (set_socket c a s).
Proof.
  intros Ha. apply base_same; try done. intros b Hb. unfold set_socket, update. cbn. rewrite lookup_insert_ne; [done|]. intros ->. by rewrite Hb in Ha; destruct Ha.
Qed.

Lemma base_end c a (terminated : bool) : base_ok c ->
  base_ok (match tc_sockets c !! a with Some s => set_socket c a (socket_end terminated s) | None => c end).
Proof. intros Hb. destruct (tc_sockets c !! a) as [s|] eqn:E; [|done]. apply base_socket; [by rewrite E|done]. Qed.

Lemma base_ready c a r : base_ok c -> base_ok (set_ready_state c a r).
Proof. intros Hb. unfold set_ready_state. destruct (tc_sockets c !! a) as [s|] eqn:E; [|done]. apply base_socket; [by rewrite E|done]. Qed.

Lemma base_clear_field c o c' :
  tc_next c' = tc_next c -> tc_timers c' = tc_timers (clear_timer_field c o) -> tc_pendings c' = tc_pendings c -> tc_jobs c' = tc_jobs c ->
  tc_rpcs c' = tc_rpcs c -> tc_acks c' = tc_acks c -> tc_sockets c' = tc_sockets c ->
  (tc_reconnectTimer c' = tc_reconnectTimer c \/ tc_reconnectTimer c' = None) ->
  (tc_heartbeatInterval c' = tc_heartbeatInterval c \/ tc_heartbeatInterval c' = None) ->
  (tc_heartbeatDeadline c' = tc_heartbeatDeadline c \/ tc_heartbeatDeadline c' = None) -> base_ok c -> base_ok c'.
Proof.
  intros En Et Ep Ej Er Ea Es Ere Ei Ed [Hf Hk]. split; [|by apply (timers_ok_clear c o)].
  apply (fresh_same (clear_timer_field c o)); destruct o; try done; by apply fresh_clear_timer.
Qed.

(** A timer of the connection is set, and its field, if it has one. *)
Lemma base_set c x c' :
  tc_next c' = S (tc_next c) -> tc_timers c' = <[tc_next c := x]> (tc_timers c) -> tc_pendings c' = tc_pendings c -> tc_jobs c' = tc_jobs c ->
  tc_rpcs c' = tc_rpcs c -> tc_acks c' = tc_acks c -> tc_sockets c' = tc_sockets c ->
  (tc_reconnectTimer c' = tc_reconnectTimer c \/ tc_reconnectTimer c' = Some (tc_next c) /\ is_reconnect x = true) ->
  (tc_heartbeatInterval c' = tc_heartbeatInterval c \/ tc_heartbeatInterval c' = Some (tc_next c) /\ is_interval x = true) ->
  (tc_heartbeatDeadline c' = tc_heartbeatDeadline c \/ tc_heartbeatDeadline c' = Some (tc_next c) /\ is_deadline x = true) ->
  base_ok c -> base_ok c'.
Proof.
  intros En Et Ep Ej Er Ea Es Ere Ei Ed [Hf Hk]. split.
  - apply (fresh_same (set_timer c x).1); try done. by apply fresh_set_timer.
  - revert Hk. apply timers_ok_later; rewrite ?Ea, ?Ej, ?Er; try (by left).
    + apply (later_set c x); [lia|done].
    + intros t Ht. destruct Ere as [E|[E Hi]]; rewrite E in Ht; [by left|right]. injection Ht as <-. apply (kind_set c x); [lia|done..].
    + intros t Ht. destruct Ei as [E|[E Hi]]; rewrite E in Ht; [by left|right]. injection Ht as <-. apply (kind_set c x); [lia|done..].
    + intros t Ht. destruct Ed as [E|[E Hi]]; rewrite E in Ht; [by left|right]. injection Ht as <-. apply (kind_set c x); [lia|done..].
    + intros; left; eauto.
Qed.

Lemma base_no_control c : base_ok c -> base_ok (c <| tc_control := None |>).
Proof. by apply base_same. Qed.

Lemma connect_ok c : tc_stopped c = false -> base_ok c -> client_ok (connectControl c).
Proof.
  intros Hst [[Hs Ht Hp Hj Hr] Hk]. unfold connectControl. rewrite Hst. split.
  - split; intros k Hle; unfold update in *; cbn in *; [|apply Ht; lia|apply Hp; lia|apply Hj; lia|apply Hr; lia].
    rewrite lookup_insert_ne by lia. apply Hs. lia.
  - revert Hk. apply timers_ok_later; try (by left); [apply later_next; unfold update; cbn; [lia|done]|intros; left; eauto].
  - split; unfold update; cbn; [|by left]. intros a [= <-]. eexists. split; [apply lookup_insert_eq|done].
Qed.

Lemma connect_stopped c : tc_stopped c = true -> connectControl c = c.
Proof. unfold connectControl. by intros ->. Qed.

Lemma start_ok c : client_ok c -> client_ok (start c).
Proof.
  intros Hok. unfold start. destruct (tc_stopped c) eqn:Es; [|done]. cbn [negb].
  apply connect_ok; [by destruct (tc_hasStarted c)|]. destruct Hok as [Hf Hk _]. apply (base_same c); destruct (tc_hasStarted c); done.
Qed.

Lemma abort_all_base c reason : base_ok c -> base_ok (abort_all c reason).
Proof. apply effects_base_ok, abort_all_effects. Qed.

Lemma effects_fields c c' : effects c c' -> tc_control c' = tc_control c /\ tc_stopped c' = tc_stopped c.
Proof. intros He. pose proof (effects_connection c c' He) as E. unfold connection in E. by injection E as -> -> _ _ _ _. Qed.

Lemma stopped_ok c : base_ok c -> tc_stopped c = true -> tc_control c = None -> client_ok c.
Proof. intros [Hf Hk] Hs Hc. split; [done..|]. split; [by rewrite Hc|by rewrite Hs]. Qed.

Lemma close_control_ok c : base_ok c -> tc_stopped c = true ->
  client_ok (match tc_control c with Some control => control_close c control | None => c end <| tc_control := None |>).
Proof.
  intros Hb Hs. apply stopped_ok; [apply base_no_control| |done].
  - destruct (tc_control c) as [a|]; [|done]. by apply (base_end c a false).
  - unfold control_close. repeat case_match; done.
Qed.

Lemma stop_ok c c' : client_ok c -> stop c = Some c' -> client_ok c'.
Proof.
  intros [Hf Hk _]. unfold stop. set (c1 := clear_timer_field (c <| tc_stopped := true |>) (tc_reconnectTimer c) <| tc_reconnectTimer := None |>).
  assert (base_ok c1 /\ tc_stopped c1 = true) as [B1 S1].
  { split; [|unfold c1; by destruct (tc_reconnectTimer c)].
    apply (base_clear_field c (tc_reconnectTimer c)); unfold c1; destruct (tc_reconnectTimer c); auto; by split. }
  pose proof (effects_fields _ _ (abort_all_effects daemonUrl snap c1 (js "Tunnel client stopping"))) as [_ S2].
  pose proof (abort_all_base c1 (js "Tunnel client stopping") B1) as B2. rewrite S1 in S2. revert B2 S2.
  generalize (abort_all c1 (js "Tunnel client stopping")). intros c2 B2 S2 Hm.
  eapply effects_client_ok; [by eapply mux_effects|]. by apply close_control_ok.
Qed.

Lemma relay_event_ok c event : client_ok c -> client_ok (sendRelayEvent c event).1.
Proof.
  intros Hok. unfold sendRelayEvent. set (c1 := if is_vault_mutation event then _ else c).
  assert (client_ok c1) as H1'.
  { destruct Hok as [Hf Hk [Hc Hs]]. unfold c1. destruct (is_vault_mutation event); [|by split; [..|split]].
    split; [by apply (fresh_same c)|by apply (timers_ok_same c)|by split]. }
  destruct (tc_control c1) as [a|]; [|done]. destruct (_ =? _); [|done]. cbn [fst].
  eapply effects_client_ok; [|exact H1']. apply rtc_once. constructor.
Qed.

Lemma ready_state_lookup c a r : ready_state c a = r -> r <> WS_CLOSED -> exists s, tc_sockets c !! a = Some s /\ cs_readyState s = r.
Proof. unfold ready_state. destruct (tc_sockets c !! a) as [s|]; [eauto|]. by intros <-. Qed.

Lemma opened_ok c a : client_ok c -> ready_state c a = WS_CONNECTING -> client_ok (control_opened config (set_ready_state c a WS_OPEN) a).
Proof.
  intros [Hf Hk Hc] Hr. apply ready_state_lookup in Hr as (s & Hs & _); [|done]. set (c1 := set_ready_state c a WS_OPEN).
  assert (client_ok c1) as H1'.
  { destruct (base_ready c a WS_OPEN (conj Hf Hk)) as [F1 K1]. split; [done..|]. unfold c1, set_ready_state. rewrite Hs.
    destruct Hc as [Hc Hst]. split; [|done]. intros b Hb. unfold set_socket, update in *. cbn in *. destruct (decide (a = b)) as [->|Hne].
    - rewrite lookup_insert_eq. eexists. split; [done|]. by unfold update.
    - rewrite lookup_insert_ne by done. by apply Hc. }
  unfold control_opened, startControlHeartbeat. set (c2 := clearControlHeartbeat (control_send c1 a (CtlHello config (tc_epoch c1)))).
  assert (client_ok c2) as H2'.
  { eapply effects_client_ok; [|exact H1']. eapply rtc_l; [apply ef_send|]. apply heartbeat_effects. }
  cbn [set_timer]. destruct H2' as [F2 K2 C2].
  destruct (base_set c2 (HeartbeatInterval a 0) ((set_timer c2 (HeartbeatInterval a 0)).1 <| tc_heartbeatInterval := Some (tc_next c2) |>)) as [F3 K3];
    try done; [by left|by right|by left|].
  split; [done..|]. destruct C2 as [Hc2 Hs2]. split; [done|]. intros Hst. destruct (Hs2 Hst) as [|(t & d & Ht)]; [by left|right].
  exists t, d. unfold set_timer, update. cbn. rewrite lookup_insert_ne; [done|]. intros <-. by rewrite (fr_timers _ F2) in Ht.
Qed.

Lemma closed_ok c a code random : client_ok c -> client_ok (control_closed (set_ready_state c a WS_CLOSED) a code random).
Proof.
  intros [Hf Hk [Hc Hst]]. set (c1 := set_ready_state c a WS_CLOSED).
  assert (base_ok c1) as B1 by by apply base_ready.
  assert (tc_control c1 = tc_control c /\ tc_stopped c1 = tc_stopped c) as [Ec1 Es1].
  { unfold c1, set_ready_state. by destruct (tc_sockets c !! a). }
  unfold control_closed. set (c2 := if bool_decide (tc_control c1 = Some a) then _ else c1).
  assert (base_ok c2 /\ (forall b, tc_control c2 = Some b -> b <> a /\ exists s, tc_sockets c2 !! b = Some s /\ cs_readyState s <> WS_CLOSED)) as [B2 C2].
  { unfold c2. case_bool_decide as Ha.
    - assert (base_ok (c1 <| tc_control := None |>)) as B by by apply base_no_control.
      split; [by apply abort_all_base|]. intros b.
      by rewrite (proj1 (effects_fields _ _ (abort_all_effects daemonUrl snap _ _))).
    - split; [done|]. intros b Hb. assert (b <> a) as Hne by congruence. split; [done|]. rewrite Ec1 in Hb. destruct (Hc b Hb) as (s & Hs & Hn).
      exists s. split; [|done]. unfold c1, set_ready_state. destruct (tc_sockets c !! a); [|done]. unfold set_socket, update. cbn.
      by rewrite lookup_insert_ne by done. }
  destruct B2 as [F2 K2]. destruct (tc_stopped c2) eqn:Es2.
  { split; [done..|]. split; [|by rewrite Es2]. intros b Hb. by apply C2. }
  destruct (code =? CONTROL_REPLACED).
  { split; [by apply (fresh_same c2)|by apply (timers_ok_same c2)|]. split; [|done]. intros b Hb. by apply C2. }
  cbn [set_timer]. match goal with |- client_ok ?x => set (c3 := x) end.
  destruct (base_set c2 (ReconnectTimer (createBackoffDelay (tc_reconnectAttempt c2) no_backoff_options random)) c3) as [F3 K3]; try done; [by right|by left..|].
  split; [done..|]. split; [intros b Hb; by apply C2|]. intros _. right. eexists _, _. apply lookup_insert_eq.
Qed.

Lemma kind_interval_kept c t x c' :
  tc_timers c !! t = Some x -> is_interval x = true -> forall elapsed a,
  tc_next c' = tc_next c -> tc_timers c' = <[t := HeartbeatInterval a elapsed]> (tc_timers c) -> forall t' P,
  P (HeartbeatInterval a elapsed) = P x -> kind c t' P -> kind c' t' P.
Proof.
  intros Ht Hx elapsed a En Et t' P HP [Hlt Hk]. split; [lia|]. intros y. rewrite Et. destruct (decide (t = t')) as [->|Hne].
  - rewrite lookup_insert_eq. intros [= <-]. rewrite HP. by apply Hk.
  - rewrite lookup_insert_ne by done. apply Hk.
Qed.

Lemma probe_ok c t a elapsed : tc_timers c !! t = Some (HeartbeatInterval a elapsed) -> client_ok c -> client_ok (heartbeat_probe c t a elapsed).
Proof.
  intros Ht Hok. unfold heartbeat_probe. destruct (_ || _); [done|].
  set (c1 := clearControlHeartbeatDeadline c). set (due := (_ <=? _)).
  assert (effects c c1) as E1 by (apply rtc_once; apply ef_no_deadline).
  set (c2 := if due then control_send (control_send c1 a (CtlPing false)) a (CtlPing true) else control_send c1 a (CtlPing false)).
  assert (effects c c2) as E2.
  { etrans; [exact E1|]. unfold c2. eapply rtc_l; [apply (ef_send _ _ c1 a (CtlPing false))|]. destruct due; [|done]. apply rtc_once. apply ef_send. }
  pose proof (effects_client_ok _ _ E2 Hok) as [F2 K2 [C2 S2]].
  assert (tc_timers c2 !! t = Some (HeartbeatInterval a elapsed)) as Ht2.
  { assert (tc_timers c2 = tc_timers c1) as -> by (unfold c2; destruct due; by rewrite !control_send_timers).
    destruct Hok as [_ Hk _]. unfold c1, clearControlHeartbeatDeadline. cbn. destruct (tc_heartbeatDeadline c) as [d|] eqn:Ed; [|done].
    cbn. rewrite lookup_delete_ne; [done|]. intros ->. destruct (to_deadline _ Hk _ Ed) as [_ Hd]. by specialize (Hd _ Ht). }
  set (x := HeartbeatInterval a (if due then 0 else elapsed + CONTROL_HEARTBEAT_INTERVAL_MS)).
  set (c3 := c2 <| tc_timers := <[t := x]> (tc_timers c2) |>).
  assert (t < tc_next c2)%nat as Hlt.
  { destruct (decide (tc_next c2 <= t)%nat) as [Hle|]; [|lia]. by rewrite (fr_timers _ F2 _ Hle) in Ht2. }
  assert (base_ok c3) as B3.
  { split.
    - destruct F2 as [Hs Htm Hp Hj Hr]. split; try done. intros t' Hle. unfold c3, update in *. cbn in *. rewrite lookup_insert_ne by lia. by apply Htm.
    - destruct K2 as [Kre Ki Kd Ka Kj Kr].
      split; intros; (eapply (kind_interval_kept c2 t _ c3 Ht2 eq_refl); [reflexivity|reflexivity|reflexivity|]); eauto. }
  cbn [set_timer]. fold c2 c3. match goal with |- client_ok ?y => set (c4 := y) end.
  destruct (base_set c3 (HeartbeatDeadline a) c4) as [F4 K4]; try done; [by left|by left|by right|]. split; [done..|]. split; [done|].
  intros Hs. destruct (S2 Hs) as [|(t' & d & Ht')]; [by left|right]. exists t', d. unfold c4, c3, set_timer, update. cbn.
  rewrite lookup_insert_ne by (intros <-; by rewrite (fr_timers _ F2) in Ht'). rewrite lookup_insert_ne; [done|]. intros <-. by rewrite Ht2 in Ht'.
Qed.

Lemma missed_ok c t a : tc_timers c !! t = Some (HeartbeatDeadline a) -> client_ok c -> client_ok (heartbeat_missed (clear_timer c t) a).
Proof.
  intros Ht [Hf Hk [Hc Hs]]. set (c1 := clear_timer c t).
  assert (base_ok c1) as [F1 K1] by (apply (base_clear_field c (Some t)); auto; by split).
  assert (connected c1) as [C1 S1].
  { split; [done|]. intros Hst. destruct (Hs Hst) as [|(t' & d & Ht')]; [by left|right]. exists t', d. unfold c1, clear_timer, update. cbn.
    rewrite lookup_delete_ne; [done|]. intros ->. by rewrite Ht in Ht'. }
  unfold heartbeat_missed. destruct (_ || _); [by split; [..|split]|].
  set (c2 := c1 <| tc_heartbeatDeadline := None |> <| tc_heartbeatMisses := S (tc_heartbeatMisses c1) |>).
  assert (client_ok c2) as Hok2.
  { split; [by apply (fresh_same c1)| |by split]. destruct K1 as [Kre Ki Kd Ka Kj Kr]. by split. }
  destruct (_ <? _)%nat; [done|]. destruct Hok2 as [F2 K2 [C2 S2]]. destruct (base_end c2 a true (conj F2 K2)) as [F3 K3].
  unfold control_terminate. split; [done..|]. destruct (tc_sockets c2 !! a) as [s|] eqn:E; [|by split]. split; [|done].
  intros b Hb. unfold set_socket, update. cbn. destruct (decide (a = b)) as [->|Hne].
  - rewrite lookup_insert_eq. eexists. split; [done|]. destruct (C2 b Hb) as (s' & Hs' & Hn). rewrite E in Hs'. injection Hs' as <-.
    unfold socket_end. rewrite (proj2 (Z.eqb_neq _ _) Hn). by unfold update.
  - rewrite lookup_insert_ne by done. by apply C2.
Qed.

Lemma fires_ok c t : client_ok c -> client_ok (timer_fires c t).
Proof.
  intros Hok. unfold timer_fires. destruct (tc_timers c !! t) as [x|] eqn:Et; [|done]. destruct x as [d|a e|a|p|id|j].
  - assert (base_ok (clear_timer c t <| tc_reconnectTimer := None |>)) as B.
    { destruct Hok as [Hf Hk _]. apply (base_clear_field c (Some t)); auto. by split. }
    destruct (tc_stopped c) eqn:Es; [|by apply connect_ok]. rewrite connect_stopped by done.
    destruct Hok as [_ _ [Hc _]]. destruct B as [F K]. split; [done..|]. split; [done|]. by intros Hst; cbn in Hst; rewrite Es in Hst.
  - by apply probe_ok.
  - by apply missed_ok.
  - eapply effects_client_ok; [|exact Hok]. eapply rtc_l; [by eapply ef_expire|]. apply rtc_once. apply ef_abort.
  - assert (client_ok (clear_timer c t)) as Hok1.
    { destruct Hok as [Hf Hk [Hc Hs]]. assert (base_ok (clear_timer c t)) as [F K] by (apply (base_clear_field c (Some t)); auto; by split).
      split; [done..|]. split; [done|]. intros Hst. destruct (Hs Hst) as [|(t' & d & Ht')]; [by left|right]. exists t', d. unfold clear_timer, update. cbn.
      rewrite lookup_delete_ne; [done|]. intros ->. by rewrite Et in Ht'. }
    eapply effects_client_ok; [|exact Hok1]. apply reject_effects.
  - eapply effects_client_ok; [|exact Hok]. eapply rtc_l; [by eapply ef_expire|]. apply rtc_once. exact (ef_deadline daemonUrl snap (clear_timer c t) j).
Qed.

Lemma new_client_ok : client_ok new_client.
Proof. split; [by split|by split|]. split; done. Qed.
End props.

Section runs.
Context `{JsonHost, Host, UrlHost, TunnelHost, MuxHost}.
Context (config : TunnelClientConfig) (daemonUrl : url).

Lemma client_step_ok c e c' : client_ok c -> tunnel_event_ok c e -> tunnel_step config daemonUrl c e = Some c' -> client_ok c'.
Proof.
  intros Hok He Hs. destruct (working e) eqn:Ew.
  { eapply (effects_client_ok daemonUrl true); [|exact Hok]. eapply step_effects; [by apply ok_fresh|done|done|exact Hs]. }
  destruct e; try done; cbn [tunnel_step] in Hs.
  - injection Hs as <-. by apply start_ok.
  - by apply (stop_ok daemonUrl true c).
  - injection Hs as <-. by apply (relay_event_ok daemonUrl true).
  - injection Hs as <-. by apply (opened_ok config daemonUrl true).
  - injection Hs as <-. by apply (closed_ok daemonUrl true).
  - injection Hs as <-. by apply (fires_ok daemonUrl true).
Qed.

Lemma runs_ok es c : tunnel_runs config daemonUrl es c -> client_ok c.
Proof. induction 1 as [|es c e c' _ IH He Hs]; [apply new_client_ok|by eapply client_step_ok]. Qed.

(** C14: Whatever happens, a client that is started has a control socket that has not closed,
    or a timer that will make one: its connection is never forgotten. *)
Theorem started_client_connects es c :
  tunnel_runs config daemonUrl es c -> tc_stopped c = false ->
  (exists a s, tc_control c = Some a /\ tc_sockets c !! a = Some s /\ cs_readyState s <> WS_CLOSED) \/
  exists t delayMs, tc_timers c !! t = Some (ReconnectTimer delayMs).
Proof.
  intros Hr Hst. destruct (runs_ok _ _ Hr) as [_ _ [Hc Hs]]. destruct (Hs Hst) as [[a Ha]|]; [left|by right].
  destruct (Hc a Ha) as (s & ? & ?). eauto.
Qed.
End runs.
