(* ===== verification/TunnelClientWork.v ===== *)
(** The work of the tunnel client, whatever happens to it: the requests it makes to the daemon,
    the calls of the relay under way, and the chunks that wait for their acknowledgement. *)
From stdpp Require Import relations.
From S2P Require Import Prelude JsString Utf8 Splice Base64 Json PendingFrames PendingRequests DocStream StreamMux RelayFrame HttpAssembler TunnelPaths TunnelRpc TunnelMessages TunnelClient TunnelEffects TunnelClientProps.

#[local] Open Scope Z_scope.

Section work.
Context `{JsonHost, Host, UrlHost, TunnelHost, MuxHost}.
Context (config : TunnelClientConfig) (daemonUrl : url) (snap : bool).
Implicit Types (c : TunnelClient) (a t j p : nat) (id : jstr).

Abbreviation effect := (TunnelEffects.effect daemonUrl snap).
Abbreviation effects := (rtc effect).

(** * Every step is a sequence of effects and of changes of the connection *)

Definition work c := (tc_fetches c, tc_rpcs c, tc_pendingRpc c, tc_acks c, tc_jobs c).

(** The timers of chunks stay. *)
Definition ack_timers c c' : Prop := forall t id, tc_timers c' !! t = Some (ChunkAckTimer id) <-> tc_timers c !! t = Some (ChunkAckTimer id).

Inductive micro : TunnelClient -> TunnelClient -> Prop :=
| mi_effect c c' : effect c c' -> micro c c'
| mi_connection c c' : work c' = work c -> ack_timers c c' -> (tc_next c <= tc_next c')%nat -> base_ok c' -> micro c c'
| mi_timeout c t id error : tc_timers c !! t = Some (ChunkAckTimer id) ->
    micro c (rejectPendingHttpResponseChunkAck (clear_timer c t) id error).

Abbreviation micros := (rtc micro).

Lemma effects_micros c c' : effects c c' -> micros c c'.
Proof. apply rtc_subrel. intros x y. apply mi_effect. Qed.

Lemma ack_timers_same c c' : tc_timers c' = tc_timers c -> ack_timers c c'.
Proof. intros E t id. by rewrite E. Qed.

Lemma ack_timers_clear c t P c' : kind c t P -> (forall id, P (ChunkAckTimer id) = false) -> tc_timers c' = delete t (tc_timers c) -> ack_timers c c'.
Proof.
  intros [_ Hk] HP E t' id. rewrite E. destruct (decide (t = t')) as [->|Hne]; [|by rewrite lookup_delete_ne].
  rewrite lookup_delete_eq. split; [done|]. intros Ht. specialize (HP id). by rewrite (Hk _ Ht) in HP.
Qed.

Lemma ack_timers_field c o P c' : (forall t, o = Some t -> kind c t P) -> (forall id, P (ChunkAckTimer id) = false) ->
  tc_timers c' = tc_timers (clear_timer_field c o) -> ack_timers c c'.
Proof. intros Ho HP E. destruct o as [t|]; [by eapply ack_timers_clear; [apply Ho| |]|by apply ack_timers_same]. Qed.

Lemma ack_timers_insert c t x c' :
  tc_timers c' = <[t := x]> (tc_timers c) -> (forall id, x <> ChunkAckTimer id) -> (forall id, tc_timers c !! t <> Some (ChunkAckTimer id)) -> ack_timers c c'.
Proof.
  intros E Hx Ht t' id. rewrite E. destruct (decide (t = t')) as [->|Hne]; [|by rewrite lookup_insert_ne].
  rewrite lookup_insert_eq. split; [intros [= ->]; by destruct (Hx id)|]. intros Ht'. by destruct (Ht id).
Qed.

Lemma ack_timers_trans c c1 c2 : ack_timers c c1 -> ack_timers c1 c2 -> ack_timers c c2.
Proof. intros H1' H2' t id. by rewrite (H2' t id). Qed.
Lemma base_clear c t : base_ok c -> base_ok (clear_timer c t).
Proof. apply (base_clear_field c (Some t)); auto. Qed.

Lemma micro_base c c' : micro c c' -> base_ok c -> base_ok c'.
Proof.
  destruct 1 as [c c' He|c c' _ _ _ Hb|c t id error Ht]; intros Hok; [|done|].
  - eapply effects_base_ok; [by apply rtc_once|done].
  - eapply (effects_base_ok daemonUrl snap); [apply reject_effects|]. by apply base_clear.
Qed.

Lemma micros_base c c' : micros c c' -> base_ok c -> base_ok c'.
Proof. induction 1 as [|c c1 c2 Hm _ IH]; [done|]. intros Hb. by apply IH, (micro_base c). Qed.

(** A step is cut after each of its parts. *)
Lemma micros_then c c1 c2 : base_ok c -> micros c c1 -> (base_ok c1 -> micros c1 c2) -> micros c c2.
Proof. intros Hb H1' H2'. etrans; [exact H1'|]. apply H2'. by eapply micros_base. Qed.

Lemma micros_change c c' : work c' = work c -> ack_timers c c' -> (tc_next c <= tc_next c')%nat -> base_ok c' -> micros c c'.
Proof. intros. apply rtc_once. by apply mi_connection. Qed.

Lemma micros_plain c c' : work c' = work c -> tc_timers c' = tc_timers c -> (tc_next c <= tc_next c')%nat -> base_ok c' -> micros c c'.
Proof. intros. apply micros_change; try done. by apply ack_timers_same. Qed.

Lemma set_socket_micros c a s : is_Some (tc_sockets c !! a) -> base_ok c -> micros c (set_socket c a s).
Proof. intros Ha Hb. apply micros_plain; try done. by apply base_socket. Qed.

Lemma ready_micros c a r : base_ok c -> micros c (set_ready_state c a r).
Proof.
  intros Hb. unfold set_ready_state. destruct (tc_sockets c !! a) as [s|] eqn:E; [|done]. apply set_socket_micros; [by rewrite E|done].
Qed.

Lemma connect_micros c : base_ok c -> micros c (connectControl c).
Proof.
  intros Hb. destruct (tc_stopped c) eqn:Es; [by rewrite connect_stopped|]. destruct (connect_ok c Es Hb) as [Hf Hk _].
  unfold connectControl in *. rewrite Es in *. apply micros_plain; try done; first [by split | unfold update; cbn; lia].
Qed.

Lemma start_micros c : base_ok c -> micros c (start c).
Proof.
  intros Hb. unfold start. destruct (negb _); [done|]. set (c1 := if tc_hasStarted c then _ else _).
  assert (base_ok (c1 <| tc_stopped := false |> <| tc_reconnectAttempt := 0 |>)) as B1.
  { unfold c1. apply (base_same c); destruct (tc_hasStarted c); done. }
  apply (micros_then c (c1 <| tc_stopped := false |> <| tc_reconnectAttempt := 0 |>)); [done| |apply connect_micros].
  apply micros_plain; unfold c1; destruct (tc_hasStarted c); done.
Qed.

Lemma end_micros c a (terminated : bool) : base_ok c ->
  micros c (match tc_sockets c !! a with Some s => set_socket c a (socket_end terminated s) | None => c end).
Proof. intros Hb. destruct (tc_sockets c !! a) as [s|] eqn:E; [|done]. apply set_socket_micros; [by rewrite E|done]. Qed.

Lemma no_control_micros c : base_ok c -> micros c (c <| tc_control := None |>).
Proof. intros Hb. apply micros_plain; try done. by apply base_no_control. Qed.

Lemma stop_micros c c' : base_ok c -> stop c = Some c' -> micros c c'.
Proof.
  intros Hb. unfold stop. set (c1 := clear_timer_field (c <| tc_stopped := true |>) (tc_reconnectTimer c) <| tc_reconnectTimer := None |>).
  assert (base_ok c1) as B1.
  { apply (base_clear_field c (tc_reconnectTimer c)); unfold c1; destruct (tc_reconnectTimer c); auto. }
  assert (micros c c1) as M1.
  { apply micros_change; [by unfold c1; destruct (tc_reconnectTimer c)| |by unfold c1; destruct (tc_reconnectTimer c)|done].
    apply (ack_timers_field c (tc_reconnectTimer c) is_reconnect); [by apply to_reconnect, Hb|done|]. unfold c1. by destruct (tc_reconnectTimer c). }
  pose proof (effects_micros _ _ (abort_all_effects daemonUrl snap c1 (js "Tunnel client stopping"))) as M2.
  revert M2. generalize (abort_all c1 (js "Tunnel client stopping")). intros c2 M2 Hm.
  apply (micros_then c c1); [done..|]. intros _. apply (micros_then c1 c2); [done..|]. intros B2.
  eapply micros_then; [exact B2| |intros _; eapply effects_micros, mux_effects, Hm].
  eapply micros_then; [exact B2| |apply no_control_micros]. destruct (tc_control c2) as [a|]; [|done]. by apply (end_micros c2 a false).
Qed.

Lemma relay_event_micros c event : base_ok c -> micros c (sendRelayEvent c event).1.
Proof.
  intros Hb. unfold sendRelayEvent. set (c1 := if is_vault_mutation event then _ else c).
  assert (micros c c1) as M1.
  { unfold c1. destruct (is_vault_mutation event); [|done]. apply micros_plain; try done. by apply (base_same c). }
  destruct (tc_control c1) as [a|]; [|done]. destruct (_ =? _); [|done]. cbn [fst]. etrans; [exact M1|]. apply effects_micros, rtc_once. constructor.
Qed.

Lemma opened_micros c a : base_ok c -> micros c (control_opened config (set_ready_state c a WS_OPEN) a).
Proof.
  intros Hb. set (c1 := set_ready_state c a WS_OPEN). apply (micros_then c c1); [done|by apply ready_micros|]. intros B1.
  unfold control_opened, startControlHeartbeat. set (c2 := clearControlHeartbeat (control_send c1 a (CtlHello config (tc_epoch c1)))).
  apply (micros_then c1 c2); [done| |].
  { apply effects_micros. eapply rtc_l; [apply ef_send|]. apply heartbeat_effects. }
  intros B2. cbn [set_timer]. set (c3 := (set_timer c2 (HeartbeatInterval a 0)).1 <| tc_heartbeatInterval := Some (tc_next c2) |>).
  change (micros c2 c3). apply micros_change; [done| |unfold c3, set_timer, update; cbn; lia|].
  - apply (ack_timers_insert c2 (tc_next c2) (HeartbeatInterval a 0)); [done..|]. intros id. by rewrite (fr_timers _ (proj1 B2)).
  - apply (base_set c2 (HeartbeatInterval a 0)); try done; [by left|by right|by left].
Qed.

Lemma closed_micros c a code random : base_ok c -> micros c (control_closed (set_ready_state c a WS_CLOSED) a code random).
Proof.
  intros Hb. set (c1 := set_ready_state c a WS_CLOSED). apply (micros_then c c1); [done|by apply ready_micros|]. intros B1.
  unfold control_closed. set (c2 := if bool_decide (tc_control c1 = Some a) then _ else c1).
  assert (micros c1 c2) as M2.
  { unfold c2. case_bool_decide; [|done]. etrans; [by apply no_control_micros|]. apply effects_micros, abort_all_effects. }
  apply (micros_then c1 c2); [done..|]. intros B2. destruct (tc_stopped c2); [done|].
  destruct (code =? CONTROL_REPLACED); [apply micros_plain; try done; by apply (base_same c2)|].
  cbn [set_timer]. match goal with |- rtc _ _ ?x => set (c3 := x) end.
  apply micros_change; [done| |unfold c3, set_timer, update; cbn; lia|].
  - eapply (ack_timers_insert c2 (tc_next c2)); [reflexivity|done|]. intros id. by rewrite (fr_timers _ (proj1 B2)).
  - eapply (base_set c2); try done; [by right|by left..].
Qed.

Lemma probe_micros c t a elapsed : client_ok c -> tc_timers c !! t = Some (HeartbeatInterval a elapsed) -> micros c (heartbeat_probe c t a elapsed).
Proof.
  intros Hok Ht. pose proof (probe_ok daemonUrl snap c t a elapsed Ht Hok) as [F K _]. unfold heartbeat_probe in *. destruct (_ || _); [done|].
  set (c1 := clearControlHeartbeatDeadline c) in *. set (due := (_ <=? _)) in *.
  set (c2 := if due then control_send (control_send c1 a (CtlPing false)) a (CtlPing true) else control_send c1 a (CtlPing false)) in *.
  assert (micros c c2) as M2.
  { apply effects_micros. eapply rtc_l; [apply ef_no_deadline|]. unfold c2. eapply rtc_l; [apply (ef_send _ _ c1 a (CtlPing false))|].
    destruct due; [|done]. apply rtc_once. apply ef_send. }
  apply (micros_then c c2); [by destruct Hok|done|]. intros [F2 K2]. cbn [set_timer] in *.
  match goal with |- rtc _ _ ?x => set (c3 := x) in * end.
  apply micros_change; [done| |unfold c3, set_timer, update; cbn; lia|by split].
  assert (forall id, tc_timers c2 !! t <> Some (ChunkAckTimer id)) as Hne.
  { intros id. assert (tc_timers c2 = tc_timers c1) as -> by (unfold c2; destruct due; by rewrite !control_send_timers).
    unfold c1, clearControlHeartbeatDeadline. cbn. destruct (tc_heartbeatDeadline c) as [d|]; cbn; [|by rewrite Ht].
    destruct (decide (d = t)) as [->|Hd]; [by rewrite lookup_delete_eq|by rewrite lookup_delete_ne, Ht]. }
  set (c4 := c2 <| tc_timers := <[t := HeartbeatInterval a (if due then 0 else elapsed + CONTROL_HEARTBEAT_INTERVAL_MS)]> (tc_timers c2) |>) in *.
  apply (ack_timers_trans _ c4); [by apply (ack_timers_insert c2 t (HeartbeatInterval a (if due then 0 else elapsed + CONTROL_HEARTBEAT_INTERVAL_MS)))|].
  apply (ack_timers_insert c4 (tc_next c2) (HeartbeatDeadline a)); [reflexivity|done|]. intros id. unfold c4, update. cbn.
  rewrite lookup_insert_ne; [by rewrite (fr_timers _ F2)|]. intros ->. 
  assert (tc_timers c !! tc_next c2 = None) as Hn; [|by rewrite Hn in Ht].
  apply (fr_timers _ (ok_fresh _ Hok)). unfold c2. destruct due; rewrite !control_send_next; unfold c1, clearControlHeartbeatDeadline; cbn;
    by rewrite clear_timer_field_next.
Qed.

Lemma missed_micros c t a : client_ok c -> tc_timers c !! t = Some (HeartbeatDeadline a) -> micros c (heartbeat_missed (clear_timer c t) a).
Proof.
  intros Hok Ht. pose proof (missed_ok c t a Ht Hok) as [F K _]. unfold heartbeat_missed in *.
  assert (ack_timers c (clear_timer c t)) as Hack.
  { apply (ack_timers_clear c t is_deadline); [|done..]. split; [|intros x Hx; by simplify_eq].
    destruct (decide (tc_next c <= t)%nat) as [Hle|]; [|lia]. by rewrite (fr_timers _ (ok_fresh _ Hok) _ Hle) in Ht. }
  destruct (_ || _); [apply micros_change; try done; by split|]. destruct (_ <? _)%nat; [apply micros_change; try done; by split|].
  unfold control_terminate in *. destruct (tc_sockets _ !! a); apply micros_change; try done; by split.
Qed.

Lemma fires_micros c t : client_ok c -> micros c (timer_fires c t).
Proof.
  intros Hok. unfold timer_fires. destruct (tc_timers c !! t) as [x|] eqn:Et; [|done]. assert (base_ok c) as Hb by by destruct Hok.
  assert (forall P, P x = true -> kind c t P) as Hkind.
  { intros P HP. split; [|intros y Hy; by simplify_eq]. destruct (decide (tc_next c <= t)%nat) as [Hle|]; [|lia].
    by rewrite (fr_timers _ (proj1 Hb) _ Hle) in Et. }
  destruct x as [d|a e|a|p|id|j].
  - apply (micros_then c (clear_timer c t <| tc_reconnectTimer := None |>)); [done| |apply connect_micros].
    apply micros_change; [done|by apply (ack_timers_clear c t is_reconnect); [apply Hkind|..]|done|].
    apply (base_clear_field c (Some t)); auto.
  - by apply probe_micros.
  - by apply missed_micros.
  - apply effects_micros. eapply rtc_l; [by eapply ef_expire|]. apply rtc_once. apply ef_abort.
  - apply rtc_once. by apply mi_timeout.
  - apply effects_micros. eapply rtc_l; [by eapply ef_expire|]. apply rtc_once. exact (ef_deadline daemonUrl snap (clear_timer c t) j).
Qed.

Lemma step_micros c e c' :
  client_ok c -> (asks_snapshot e = true -> snap = true) -> tunnel_step config daemonUrl c e = Some c' -> micros c c'.
Proof.
  intros Hok Hsnap Hs. assert (base_ok c) as Hb by by destruct Hok. destruct (working e) eqn:Ew.
  { apply effects_micros. by apply (step_effects config daemonUrl snap c e c' (ok_fresh _ Hok) Ew). }
  destruct e; try done; cbn [tunnel_step] in Hs.
  - injection Hs as <-. by apply start_micros.
  - by apply stop_micros.
  - injection Hs as <-. by apply relay_event_micros.
  - injection Hs as <-. by apply opened_micros.
  - injection Hs as <-. by apply closed_micros.
  - injection Hs as <-. by apply fires_micros.
Qed.
(** * Requests to the daemon *)

Lemma settle_ack_fetches c j r : tc_fetches (settle_ack c j r) = tc_fetches c.
Proof. unfold settle_ack. by repeat case_match. Qed.
Lemma control_send_fetches c a m : tc_fetches (control_send c a m) = tc_fetches c.
Proof. unfold control_send. by repeat case_match. Qed.

Lemma reject_fetches c id error : tc_fetches (rejectPendingHttpResponseChunkAck c id error) = tc_fetches c.
Proof. unfold rejectPendingHttpResponseChunkAck. destruct (tc_acks c !! id); [|done]. by rewrite settle_ack_fetches. Qed.

Lemma effect_fetches c c' : effect c c' -> Forall (fetch_ok daemonUrl snap) (tc_fetches c) -> Forall (fetch_ok daemonUrl snap) (tc_fetches c').
Proof.
  destruct 1 as [c a m|c|c f Hok|c id|c p|c p|c|c id|c j control envelope p Hj Hp|c j control envelope p t Hj|c j x Hj Hx|c j Hj
    |c j control id sequence m x Hn Hw Hj|c id pending r Hp Hr|c t x Ht Hx|c x|c control id capability deadlineMs payload context Hn Hs
    |c j x frame Hj Hx|c j x call Hj Hx|c j|c j|c|c j|c x|c l|c n|c b|c|c|c]; intros Hf; try done.
  - by rewrite control_send_fetches.
  - unfold update. cbn. apply Forall_app. split; [done|by constructor].
  - unfold wait_for_ack, job_set, update. cbn. by rewrite control_send_fetches.
  - unfold settle. by rewrite settle_ack_fetches.
  - by destruct (call_shape c control id capability deadlineMs payload context Hn Hs) as (rq & ph & _ & [-> | ->]).
  - unfold rpc_answered. by destruct (rj_timeout x).
  - unfold rpc_send. repeat case_match; try done; cbn; by rewrite control_send_fetches.
  - unfold clearControlHeartbeatDeadline. by destruct (tc_heartbeatDeadline c).
  - by destruct (tc_heartbeatInterval c).
Qed.

Lemma micros_fetches c c' : micros c c' -> Forall (fetch_ok daemonUrl snap) (tc_fetches c) -> Forall (fetch_ok daemonUrl snap) (tc_fetches c').
Proof.
  induction 1 as [|c c1 c2 Hm _ IH]; [done|]. intros Hf. apply IH. destruct Hm as [c c1 He|c c1 Hw _ _ _|c t id error _].
  - by eapply effect_fetches.
  - unfold work in Hw. injection Hw as -> _ _ _ _. done.
  - by rewrite reject_fetches.
Qed.

(** * Calls of the relay *)

(** The relay still waits for the call: neither has it cancelled it nor has its control
    socket closed. *)
Definition live (x : rpc_job) : Prop := rj_relay_aborted x = false.
#[export] Instance live_dec x : Decision (live x) := decide (rj_relay_aborted x = false).

(** The table of calls: bounded, each entry the one of a call under way, and each live call
    in it. *)
Record calls_ok c : Prop := {
  cl_bound : Z.of_nat (size (tc_pendingRpc c)) <= RELAY_PENDING_REQUEST_LIMIT;
  cl_entry : forall id j, tc_pendingRpc c !! id = Some j -> exists x, tc_rpcs c !! j = Some x /\ rq_id (rj_request x) = id;
  cl_live : forall j x, tc_rpcs c !! j = Some x -> live x -> tc_pendingRpc c !! rq_id (rj_request x) = Some j
}.

(** Calls whose numbers are all in the table are no more than its entries. *)
Lemma live_bound (m : gmap nat rpc_job) (t : gmap jstr nat) :
  (forall j x, m !! j = Some x -> t !! rq_id (rj_request x) = Some j) -> (size m <= size t)%nat.
Proof.
  intros Hin. set (ids := map (fun jx => rq_id (rj_request jx.2)) (map_to_list m)).
  assert (size m = length ids) as -> by (unfold ids; by rewrite length_map, length_map_to_list).
  assert (size t = length (map_to_list t).*1) as -> by by rewrite length_fmap, length_map_to_list.
  apply submseteq_length, NoDup_submseteq.
  - unfold ids. apply (NoDup_fmap_2_strong (fun jx : nat * rpc_job => rq_id (rj_request jx.2))); [|apply NoDup_map_to_list].
    intros [j x] [k y] Hx%elem_of_map_to_list Hy%elem_of_map_to_list Heq. cbn in Heq.
    pose proof (Hin j x Hx) as H1x. pose proof (Hin k y Hy) as H1y. rewrite Heq in H1x. simplify_eq. done.
  - intros id Hid. unfold ids in Hid. apply list_elem_of_fmap in Hid as ([j x] & -> & Hx%elem_of_map_to_list).
    apply list_elem_of_fmap. exists (rq_id (rj_request x), j). split; [done|]. by apply elem_of_map_to_list, Hin.
Qed.

Lemma calls_same c c' : tc_pendingRpc c' = tc_pendingRpc c -> tc_rpcs c' = tc_rpcs c -> calls_ok c -> calls_ok c'.
Proof. intros Ep Er [Hb He Hl]. split; by rewrite ?Ep, ?Er. Qed.

(** The same calls with the same requests, none of which is live again. *)
Definition kept (m m' : gmap nat rpc_job) : Prop := forall j,
  match m !! j, m' !! j with
  | Some x, Some y => rj_request y = rj_request x /\ (live y -> live x)
  | None, None => True
  | _, _ => False
  end.

Lemma kept_refl m : kept m m.
Proof. intros j. by destruct (m !! j). Qed.

Lemma kept_insert m j x y : m !! j = Some x -> rj_request y = rj_request x -> (live y -> live x) -> kept m (<[j := y]> m).
Proof.
  intros Hj Hr Hl k. destruct (decide (j = k)) as [<-|Hne].
  - by rewrite lookup_insert_eq, Hj.
  - rewrite lookup_insert_ne by done. apply kept_refl.
Qed.

Lemma kept_alter (f : rpc_job -> rpc_job) m j :
  (forall y, rj_request (f y) = rj_request y /\ (live (f y) -> live y)) -> kept m (alter f j m).
Proof.
  intros Hf k. destruct (decide (j = k)) as [<-|Hne].
  - rewrite lookup_alter_eq. destruct (m !! j); [apply Hf|done].
  - rewrite lookup_alter_ne by done. apply kept_refl.
Qed.

Lemma calls_kept c c' : tc_pendingRpc c' = tc_pendingRpc c -> kept (tc_rpcs c) (tc_rpcs c') -> calls_ok c -> calls_ok c'.
Proof.
  intros Ep Er [Hb He Hl]. split; rewrite Ep; [done|..].
  - intros id j Hj. destruct (He id j Hj) as (x & Hx & Hid). specialize (Er j). rewrite Hx in Er.
    destruct (tc_rpcs c' !! j) as [y|]; [|done]. destruct Er as [Er _]. exists y. by rewrite Er.
  - intros j y Hy Hlive. specialize (Er j). rewrite Hy in Er. destruct (tc_rpcs c !! j) as [x|] eqn:Ex; [|done].
    destruct Er as [-> Hx]. by apply Hl, Hx.
Qed.

(** Every call of the table is aborted, so none is live once it is cleared. *)
Lemma aborted_all (m : gmap nat rpc_job) l j y :
  (foldr (fun j => alter abort_rpc j) m l : gmap nat rpc_job) !! j = Some y -> live y -> (j ∉ l) /\ m !! j = Some y.
Proof.
  induction l as [|k l IH]; cbn; [intros Hy _; split; [by intros ?%elem_of_nil|done]|]. destruct (decide (k = j)) as [<-|Hne].
  - rewrite lookup_alter_eq. intros Hy Hl. destruct (foldr _ m l !! k); [|done]. injection Hy as <-. done.
  - rewrite lookup_alter_ne by done. intros Hy Hl. destruct (IH Hy Hl) as [Hn Hm]. split; [|done]. by rewrite not_elem_of_cons.
Qed.

Lemma abort_all_calls c : calls_ok c -> calls_ok (abortPendingRelayRpcRequests c).
Proof.
  intros [_ _ Hl]. unfold abortPendingRelayRpcRequests. split; unfold update; cbn.
  - rewrite map_size_empty. by vm_compute.
  - intros id j Hj. by rewrite lookup_empty in Hj.
  - intros j y Hy Hlive. destruct (aborted_all _ _ _ _ Hy Hlive) as [Hn Hm]. destruct Hn.
    apply list_elem_of_fmap. exists (rq_id (rj_request y), j). split; [done|]. apply elem_of_map_to_list. by apply Hl.
Qed.

Lemma clear_field_rpcs c o : tc_rpcs (clear_timer_field c o) = tc_rpcs c /\ tc_pendingRpc (clear_timer_field c o) = tc_pendingRpc c.
Proof. by destruct o. Qed.

Lemma call_calls c control id capability deadlineMs payload context :
  fresh c -> tc_pendingRpc c !! id = None -> Z.of_nat (size (tc_pendingRpc c)) < RELAY_PENDING_REQUEST_LIMIT ->
  calls_ok c -> calls_ok (handleRelayFrame c control (RelayRpcRequestFrame id capability deadlineMs payload context)).
Proof.
  intros Hf Hn Hs [Hb He Hl]. destruct (call_shape c control id capability deadlineMs payload context Hn Hs) as (rq & ph & Hid & Hsh).
  set (c' := handleRelayFrame _ _ _) in *.
  assert (tc_pendingRpc c' = <[id := tc_next c]> (tc_pendingRpc c) /\
    exists y, tc_rpcs c' = <[tc_next c := y]> (tc_rpcs c) /\ rj_request y = rq) as (Ep & y & Er & Hy).
  { destruct Hsh as [-> | ->]; (split; [done|]); eexists; done. }
  assert (tc_rpcs c !! tc_next c = None) as Hfresh by by apply (fr_rpcs _ Hf).
  split; rewrite Ep, ?Er.
  - rewrite map_size_insert_None by done. lia.
  - intros id' j. destruct (decide (id = id')) as [<-|Hne].
    + rewrite lookup_insert_eq. intros [= <-]. exists y. rewrite lookup_insert_eq, Hy. done.
    + rewrite lookup_insert_ne by done. intros Hj. destruct (He id' j Hj) as (x & Hx & Hxid). exists x. split; [|done]. rewrite lookup_insert_ne; [done|].
      intros <-. by rewrite Hfresh in Hx.
  - intros j x. destruct (decide (tc_next c = j)) as [<-|Hne].
    + rewrite lookup_insert_eq. intros [= <-] _. by rewrite Hy, Hid, lookup_insert_eq.
    + rewrite lookup_insert_ne by done. intros Hx Hlive. pose proof (Hl j x Hx Hlive) as Ht.
      rewrite lookup_insert_ne; [done|]. intros ->. congruence.
Qed.

Lemma rpc_send_calls c j : calls_ok c -> calls_ok (rpc_send c j).
Proof.
  intros [Hb He Hl]. unfold rpc_send. destruct (tc_rpcs c !! j) as [x|] eqn:E; [|done]. destruct (rj_phase x) as [| |frame]; try done.
  set (c1 := control_send c (rj_control x) (CtlFrame frame)).
  assert (tc_pendingRpc c1 = tc_pendingRpc c /\ tc_rpcs c1 = tc_rpcs c) as [Ep Er] by (unfold c1, control_send; by repeat case_match).
  case_bool_decide as Hd; split; unfold update; cbn; rewrite ?Ep, ?Er in *.
  - rewrite map_size_delete_Some by by rewrite Hd. lia.
  - intros id k [Hne Hk]%lookup_delete_Some. destruct (He id k Hk) as (y & Hy & Hid). exists y. split; [|done].
    rewrite lookup_delete_ne; [done|]. intros ->. by simplify_eq.
  - intros k y [Hne Hy]%lookup_delete_Some Hlive. pose proof (Hl k y Hy Hlive) as Ht. rewrite lookup_delete_ne; [done|]. congruence.
  - done.
  - intros id k Hk. destruct (He id k Hk) as (y & Hy & Hid). exists y. split; [|done]. rewrite lookup_delete_ne; [done|]. intros ->. by simplify_eq.
  - intros k y [Hne Hy]%lookup_delete_Some Hlive. by apply Hl.
Qed.

Lemma effect_calls c c' : effect c c' -> fresh c -> calls_ok c -> calls_ok c'.
Proof.
  destruct 1 as [c a m|c|c f Hok|c id|c p|c p|c|c id|c j control envelope p Hj Hp|c j control envelope p t Hj|c j x Hj Hx|c j Hj
    |c j control id sequence m x Hn Hw Hj|c id pending r Hp Hr|c t x Ht Hx|c x|c control id capability deadlineMs payload context Hn Hs
    |c j x frame Hj Hx|c j x call Hj Hx|c j|c j|c|c j|c x|c l|c n|c b|c|c|c]; intros Hf Hc; try (by apply (calls_same c)).
  - apply (calls_same c); [|apply control_send_rpcs|done]. unfold control_send. by repeat case_match.
  - apply (calls_same c); [| |done]; unfold wait_for_ack, job_set, control_send; repeat case_match; done.
  - apply (calls_same c); [| |done]; unfold settle, settle_ack; repeat case_match; done.
  - by apply call_calls.
  - destruct (clear_field_rpcs c (rj_timeout x)) as [E1 E2]. apply (calls_kept c); [exact E2| |done]. unfold rpc_answered, rpc_set, update. cbn. rewrite E1. by apply (kept_insert _ j x).
  - apply (calls_kept c); [done| |done]. by apply (kept_insert _ j x).
  - apply (calls_kept c); [done| |done]. by apply kept_alter.
  - apply (calls_kept c); [done| |done]. by apply kept_alter.
  - by apply abort_all_calls.
  - by apply rpc_send_calls.
  - destruct (clear_field_rpcs c (tc_heartbeatDeadline c)) as [E1 E2]. by apply (calls_same c).
  - destruct (clear_field_rpcs c (tc_heartbeatInterval c)) as [E1 E2]. by apply (calls_same c).
Qed.

Lemma micros_calls c c' : micros c c' -> base_ok c -> calls_ok c -> calls_ok c'.
Proof.
  induction 1 as [|c c1 c2 Hm _ IH]; [done|]. intros Hb Hc. apply IH; [by eapply micro_base|]. destruct Hm as [c c1 He|c c1 Hw _ _ _|c t id error _].
  - by eapply effect_calls; [|apply Hb|].
  - unfold work in Hw. injection Hw as _ Er Ep _ _. by apply (calls_same c).
  - apply (calls_same c); [| |done]; unfold rejectPendingHttpResponseChunkAck, settle_ack; repeat case_match; done.
Qed.

(** * Chunks that wait *)

(** The acknowledgements that are waited for, the jobs that wait and the timeouts belong to
    each other. *)
Record acks_ok c : Prop := {
  ak_job : forall id pending, tc_acks c !! id = Some pending ->
    (exists x control m, tc_jobs c !! pa_job pending = Some x /\ awaits x control id (pa_sequence pending) m) /\
    tc_timers c !! pa_timeout pending = Some (ChunkAckTimer id);
  ak_waiting : forall j x, tc_jobs c !! j = Some x -> waiting x = true -> exists id pending, tc_acks c !! id = Some pending /\ pa_job pending = j;
  ak_timer : forall t id, tc_timers c !! t = Some (ChunkAckTimer id) -> exists pending, tc_acks c !! id = Some pending /\ pa_timeout pending = t
}.

Lemma acks_same c c' : tc_acks c' = tc_acks c -> tc_jobs c' = tc_jobs c -> ack_timers c c' -> acks_ok c -> acks_ok c'.
Proof.
  intros Ea Ej Et [Hj Hw Ht]. split; rewrite ?Ea, ?Ej; [|done|].
  - intros id pending Hp. destruct (Hj id pending Hp) as [Hx Htm]. split; [done|by apply Et].
  - intros t id Hi. by apply Ht, Et.
Qed.

Lemma awaits_waiting x control id sequence m : awaits x control id sequence m -> waiting x = true.
Proof. destruct x as [|control' r b o s [] a| | |control' id' p tb sb ch pc o []|]; done. Qed.

Lemma waiting_awaits x : waiting x = true -> exists control id sequence m, awaits x control id sequence m.
Proof.
  destruct x as [|control r b o s [] a| | |control id p tb sb ch pc o []|]; intros Hw; try done.
  - exists control, (hp_id r), s. eexists. by split_and!.
  - exists control, id, ch. eexists. by split_and!.
Qed.

Lemma awaits_id x control id sequence m control' id' sequence' m' : awaits x control id sequence m -> awaits x control' id' sequence' m' -> id = id'.
Proof.
  destruct x as [|c0 r b o s [] a| | |c0 i p tb sb ch pc o []|]; cbn; try done.
  - intros (_ & <- & _) (_ & <- & _). done.
  - intros (_ & <- & _) (_ & <- & _). done.
Qed.

(** A job that does not wait is replaced by another, or ends. *)
Lemma acks_job c c' j :
  tc_acks c' = tc_acks c -> ack_timers c c' -> (forall x, tc_jobs c !! j = Some x -> waiting x = false) ->
  (forall x, tc_jobs c' !! j = Some x -> waiting x = false) -> (forall k, k <> j -> tc_jobs c' !! k = tc_jobs c !! k) -> acks_ok c -> acks_ok c'.
Proof.
  intros Ea Et Hi Hi' Hk [Hj Hw Ht]. split; rewrite ?Ea.
  - intros id pending Hp. destruct (Hj id pending Hp) as [(x & control & m & Hx & Hx') Htm]. split; [|by apply Et].
    exists x, control, m. split; [|done]. rewrite Hk; [done|]. intros E. rewrite E in Hx. apply awaits_waiting in Hx'. by rewrite (Hi _ Hx) in Hx'.
  - intros k x Hx Hwx. destruct (decide (k = j)) as [->|Hne]; [by rewrite (Hi' _ Hx) in Hwx|]. rewrite Hk in Hx by done. by apply Hw with x.
  - intros t id Hi2. by apply Ht, Et.
Qed.

Lemma acks_wait c j control id sequence m x :
  fresh c -> tc_acks c !! id = None -> awaits x control id sequence m -> idle c j -> acks_ok c -> acks_ok (wait_for_ack c j control id sequence m x).
Proof.
  intros Hf Hn Hw [Hlt Hi] [Hj Hwt Ht]. set (c' := wait_for_ack c j control id sequence m x).
  assert (tc_acks c' = <[id := {| pa_sequence := sequence; pa_job := j; pa_timeout := tc_next c |}]> (tc_acks c) /\
    tc_jobs c' = <[j := x]> (tc_jobs c) /\ tc_timers c' = <[tc_next c := ChunkAckTimer id]> (tc_timers c)) as (Ea & Ej & Et).
  { unfold c', wait_for_ack, job_set, update. cbn. rewrite control_send_jobs, control_send_timers. split_and!; try done.
    unfold control_send. by repeat case_match. }
  split; rewrite Ea, ?Ej, ?Et.
  - intros id' pending. destruct (decide (id = id')) as [<-|Hne].
    + rewrite lookup_insert_eq. intros [= <-]. cbn. rewrite !lookup_insert_eq. split; [|done]. by exists x, control, m.
    + rewrite lookup_insert_ne by done. intros Hp. destruct (Hj id' pending Hp) as [(y & control' & m' & Hy & Hy') Htm]. split.
      * exists y, control', m'. split; [|done]. rewrite lookup_insert_ne; [done|]. intros E. rewrite <- E in Hy. apply awaits_waiting in Hy'. by rewrite (Hi _ Hy) in Hy'.
      * rewrite lookup_insert_ne; [done|]. intros E. rewrite <- E in Htm. by rewrite (fr_timers _ Hf) in Htm.
  - intros k y. destruct (decide (j = k)) as [<-|Hne].
    + intros _ _. exists id. eexists. by rewrite lookup_insert_eq.
    + rewrite lookup_insert_ne by done. intros Hy Hwy. destruct (Hwt k y Hy Hwy) as (id' & pending & Hp & Hpj). exists id', pending. split; [|done].
      rewrite lookup_insert_ne; [done|]. intros <-. by rewrite Hn in Hp.
  - intros t id'. destruct (decide (tc_next c = t)) as [<-|Hne].
    + rewrite lookup_insert_eq. intros [= <-]. eexists. by rewrite lookup_insert_eq.
    + rewrite lookup_insert_ne by done. intros Hti. destruct (Ht t id' Hti) as (pending & Hp & Hpt). exists pending. split; [|done].
      rewrite lookup_insert_ne; [done|]. intros <-. by rewrite Hn in Hp.
Qed.

(** The job that waited has its promise settled. *)
Lemma settle_ack_lookup c j r x control id sequence m :
  tc_jobs c !! j = Some x -> awaits x control id sequence m -> r <> Awaiting ->
  exists y, tc_jobs (settle_ack c j r) = <[j := y]> (tc_jobs c) /\ waiting y = false.
Proof.
  intros Hj Hx Hr. unfold settle_ack. rewrite Hj. destruct x as [|c0 rs b o s [] a| | |c0 i p tb sb ch pc o []|]; try done;
    (eexists; split; [reflexivity|]); by destruct r.
Qed.

Lemma acks_settle c c' id pending r :
  tc_acks c !! id = Some pending -> r <> Awaiting -> tc_acks c' = delete id (tc_acks c) -> tc_jobs c' = tc_jobs (settle_ack c (pa_job pending) r) ->
  tc_timers c' = delete (pa_timeout pending) (tc_timers c) -> acks_ok c -> acks_ok c'.
Proof.
  intros Hp Hr Ea Ej Et [Hj Hw Ht]. destruct (Hj id pending Hp) as [(x & control & m & Hx & Hx') Htm].
  destruct (settle_ack_lookup c (pa_job pending) r x control id (pa_sequence pending) m Hx Hx' Hr) as (y & Ey & Hy). rewrite Ey in Ej.
  assert (forall id' q, tc_acks c !! id' = Some q -> id' <> id -> pa_job q <> pa_job pending) as Hjobs.
  { intros id' q Hq Hne E. destruct (Hj id' q Hq) as [(z & control' & m' & Hz & Hz') _]. rewrite E in Hz. rewrite Hx in Hz. injection Hz as <-.
    apply Hne. by eapply awaits_id. }
  split; rewrite Ea, ?Ej, ?Et.
  - intros id' q [Hne Hq]%lookup_delete_Some. destruct (Hj id' q Hq) as [(z & control' & m' & Hz & Hz') Htq]. split.
    + exists z, control', m'. split; [|done]. rewrite lookup_insert_ne; [done|]. intros E. apply (Hjobs id' q Hq); [congruence|done].
    + rewrite lookup_delete_ne; [done|]. intros E. rewrite E in Htm. rewrite Htm in Htq. by injection Htq.
  - intros k z. destruct (decide (pa_job pending = k)) as [<-|Hne].
    + rewrite lookup_insert_eq. intros [= <-]. by rewrite Hy.
    + rewrite lookup_insert_ne by done. intros Hz Hwz. destruct (Hw k z Hz Hwz) as (id' & q & Hq & Hqk). exists id', q. split; [|done].
      rewrite lookup_delete_ne; [done|]. intros <-. rewrite Hp in Hq. by injection Hq as <-.
  - intros t id' [Hne Hi]%lookup_delete_Some. destruct (Ht t id' Hi) as (q & Hq & Hqt). exists q. split; [|done].
    rewrite lookup_delete_ne; [done|]. intros <-. rewrite Hp in Hq. by injection Hq as <-.
Qed.

(** Timers of other kinds come and go. *)
Lemma acks_kind c c' o P :
  tc_acks c' = tc_acks c -> tc_jobs c' = tc_jobs c -> (forall t, o = Some t -> kind c t P) -> (forall id, P (ChunkAckTimer id) = false) ->
  tc_timers c' = tc_timers (clear_timer_field c o) -> acks_ok c -> acks_ok c'.
Proof. intros Ea Ej Ho HP Et. apply acks_same; [done..|]. by eapply ack_timers_field. Qed.

Lemma acks_set c c' t x : tc_acks c' = tc_acks c -> tc_jobs c' = tc_jobs c -> fresh c -> (tc_next c <= t)%nat -> tc_timers c' = <[t := x]> (tc_timers c) ->
  (forall id, x <> ChunkAckTimer id) -> acks_ok c -> acks_ok c'.
Proof.
  intros Ea Ej Hf Hn Et Hx. apply acks_same; [done..|]. apply (ack_timers_insert c t x); [done..|]. intros id. by rewrite (fr_timers _ Hf).
Qed.

Lemma effect_acks c c' : effect c c' -> base_ok c -> acks_ok c -> acks_ok c'.
Proof.
  destruct 1 as [c a m|c|c f Hok|c id|c p|c p|c|c id|c j control envelope p Hj Hp|c j control envelope p t Hj|c j x Hj Hx|c j Hj
    |c j control id sequence m x Hn Hw Hj|c id pending r Hp Hr|c t x Ht Hx|c x|c control id capability deadlineMs payload context Hn Hs
    |c j x frame Hj Hx|c j x call Hj Hx|c j|c j|c|c j|c x|c l|c n|c b|c|c|c]; intros [Hf Hk] Ha;
    try (apply (acks_same c); [done|done|by apply ack_timers_same|done]).
  - apply (acks_same c); [|apply control_send_jobs|apply ack_timers_same, control_send_timers|done]. unfold control_send. by repeat case_match.
  - apply (acks_job c _ j); try done.
    + apply (ack_timers_insert c (tc_next c) (FetchTimer p)); [done..|]. intros id. by rewrite (fr_timers _ Hf).
    + apply Hj.
    + intros x. unfold job_set, update. cbn. rewrite lookup_insert_eq. by intros [= <-].
    + intros k Hne. unfold job_set, update. cbn. by rewrite lookup_insert_ne.
  - apply (acks_kind c _ (Some t) is_fetch); try done. intros t' [= <-]. by eapply to_jobs.
  - apply (acks_job c _ j); try done; [apply Hj| |].
    + intros y. unfold job_set, update. cbn. rewrite lookup_insert_eq. intros [= <-]. destruct x; try done; by apply negb_true_iff.
    + intros k Hne. unfold job_set, update. cbn. by rewrite lookup_insert_ne.
  - apply (acks_job c _ j); try done; [apply Hj| |].
    + intros y. unfold job_end, update. cbn. by rewrite lookup_delete_eq.
    + intros k Hne. unfold job_end, update. cbn. by rewrite lookup_delete_ne.
  - by apply acks_wait.
  - apply (acks_settle c _ id pending r); try done; unfold settle.
    + by rewrite settle_ack_acks.
    + unfold settle_ack, clear_timer, update. cbn. destruct (tc_jobs c !! pa_job pending) as [[]|]; try done; by repeat case_match.
    + by rewrite settle_ack_timers.
  - apply (acks_kind c _ (Some t) call_timer); try done. intros t' [= <-]. split; [|intros y Hy; by simplify_eq].
    destruct (decide (tc_next c <= t)%nat) as [Hle|]; [|lia]. by rewrite (fr_timers _ Hf _ Hle) in Ht.
  - destruct (call_shape c control id capability deadlineMs payload context Hn Hs) as (rq & ph & _ & [-> | ->]).
    + apply (acks_same c); [done|done|by apply ack_timers_same|done].
    + apply (acks_set c _ (S (tc_next c)) (RpcTimer (tc_next c))); try done. lia.
  - destruct (clear_field_fields c (rj_timeout x)) as (_ & _ & _ & _ & Ea & Ej & _). apply (acks_kind c _ (rj_timeout x) is_rpc); try done.
    intros t Ht. by eapply to_rpcs.
  - unfold rpc_send. repeat case_match; try done; (apply (acks_same c); [| | |done]); cbn;
      try apply control_send_jobs; try (apply ack_timers_same, control_send_timers); unfold control_send; by repeat case_match.
  - destruct (clear_field_fields c (tc_heartbeatDeadline c)) as (_ & _ & _ & _ & Ea & Ej & _).
    apply (acks_kind c _ (tc_heartbeatDeadline c) is_deadline); try done. intros t Ht. by apply (to_deadline _ Hk).
  - destruct (clear_field_fields c (tc_heartbeatInterval c)) as (_ & _ & _ & _ & Ea & Ej & _).
    apply (acks_kind c _ (tc_heartbeatInterval c) is_interval); try done. intros t Ht. by apply (to_interval _ Hk).
Qed.

Lemma timeout_acks c t id error :
  tc_timers c !! t = Some (ChunkAckTimer id) -> acks_ok c -> acks_ok (rejectPendingHttpResponseChunkAck (clear_timer c t) id error).
Proof.
  intros Ht Ha. destruct (ak_timer _ Ha _ _ Ht) as (pending & Hp & <-). unfold rejectPendingHttpResponseChunkAck.
  assert (tc_acks (clear_timer c (pa_timeout pending)) !! id = Some pending) as -> by done.
  apply (acks_settle c _ id pending (Rejected error)); try done.
  - by rewrite settle_ack_acks.
  - unfold settle_ack, clear_timer, update. cbn. destruct (tc_jobs c !! pa_job pending) as [[]|]; try done; by repeat case_match.
  - rewrite settle_ack_timers. unfold clear_timer, update. cbn. apply delete_id, lookup_delete_eq.
Qed.

Lemma micros_acks c c' : micros c c' -> base_ok c -> acks_ok c -> acks_ok c'.
Proof.
  induction 1 as [|c c1 c2 Hm _ IH]; [done|]. intros Hb Ha. apply IH; [by eapply micro_base|]. destruct Hm as [c c1 He|c c1 Hw Ht _ _|c t id error Ht].
  - by eapply effect_acks.
  - unfold work in Hw. injection Hw as _ _ _ Ea Ej. by apply (acks_same c).
  - by apply timeout_acks.
Qed.
End work.
