(* ===== verification/TunnelClientRuns.v ===== *)
(** What holds after any run of the tunnel client: the requests the relay can have made to the
    daemon, its calls under way, the chunks that wait, and when a control socket is given up. *)
From stdpp Require Import relations.
From S2P Require Import Prelude JsString Utf8 Splice Base64 Json PendingFrames PendingRequests DocStream StreamMux RelayFrame HttpAssembler TunnelPaths TunnelRpc TunnelMessages TunnelClient TunnelEffects TunnelClientProps TunnelClientWork.

#[local] Open Scope Z_scope.

Section runs.
Context `{JsonHost, Host, UrlHost, TunnelHost, MuxHost}.
Context (config : TunnelClientConfig) (daemonUrl : url).
Implicit Types (c : TunnelClient) (a t j p : nat) (id : jstr).

Lemma runs_base es c : tunnel_runs config daemonUrl es c -> base_ok c.
Proof. intros Hr. by destruct (runs_ok _ _ _ _ Hr). Qed.

(** * Requests to the daemon *)

Lemma fetch_ok_weaken b f : fetch_ok daemonUrl false f -> fetch_ok daemonUrl b f.
Proof. intros [[? _]|?]; [done|by right]. Qed.

Lemma fetch_ok_mono (b b' : bool) f : (b = true -> b' = true) -> fetch_ok daemonUrl b f -> fetch_ok daemonUrl b' f.
Proof. intros Hb [[? ?]|?]; [left; auto|by right]. Qed.

(** C13: Whatever the relay sends, the daemon is only asked for its own URLs, none of which its
    router reads as a private path; but for the snapshot, when a [snapshot.request] asks for
    it. *)
Theorem relay_reaches_no_private_path es c f :
  tunnel_runs config daemonUrl es c -> f ∈ tc_fetches c ->
  existsb asks_snapshot es = true /\ df_snapshot f = true \/
  df_snapshot f = false /\ df_origin f = url_origin daemonUrl /\ daemonRoutingPath (df_pathname f) ∉ PRIVATE_DAEMON_HTTP_PATHS.
Proof.
  intros Hr. revert f. apply Forall_forall. change (Forall (fetch_ok daemonUrl (existsb asks_snapshot es)) (tc_fetches c)).
  induction Hr as [|es c e c' Hr IH Hev Hs]; [constructor|]. rewrite existsb_app. cbn [existsb]. rewrite orb_false_r.
  eapply micros_fetches; [eapply step_micros; [by eapply runs_ok| |exact Hs]; by intros ->; apply orb_true_r|].
  eapply Forall_impl; [exact IH|]. intros f. apply fetch_ok_mono. by intros ->.
Qed.

(** * Calls *)

Lemma runs_calls es c : tunnel_runs config daemonUrl es c -> calls_ok c.
Proof.
  induction 1 as [|es c e c' Hr IH Hev Hs].
  - split; [by vm_compute|done|]. intros j x Hx. cbn in Hx. by rewrite lookup_empty in Hx.
  - eapply (micros_calls daemonUrl true); [eapply step_micros; [by eapply runs_ok|done|exact Hs]|by eapply runs_base|done].
Qed.

(** C16: The calls under way that the relay still waits for, those it has not cancelled and whose
    control socket has not closed, are at most as many as the limit, and so is the table of
    calls, in which each of them has its entry; an entry of the table is always that of a call
    that is still to be answered: no entry is left behind. Calls that are aborted when the
    control socket closes leave the table at once and are not counted. *)
Theorem relay_calls_bounded es c :
  tunnel_runs config daemonUrl es c ->
  Z.of_nat (size (filter (fun jx => live jx.2) (tc_rpcs c))) <= RELAY_PENDING_REQUEST_LIMIT /\
  Z.of_nat (size (tc_pendingRpc c)) <= RELAY_PENDING_REQUEST_LIMIT /\
  (forall j x, tc_rpcs c !! j = Some x -> live x -> tc_pendingRpc c !! rq_id (rj_request x) = Some j) /\
  forall id j, tc_pendingRpc c !! id = Some j -> exists x, tc_rpcs c !! j = Some x /\ rq_id (rj_request x) = id.
Proof.
  intros Hr. destruct (runs_calls _ _ Hr) as [Hb He Hl]. split_and!; try done.
  etrans; [|exact Hb]. apply inj_le, live_bound. intros j x [Hx Hlive]%map_lookup_filter_Some. by apply Hl.
Qed.

(** * Chunks *)

Lemma runs_acks es c : tunnel_runs config daemonUrl es c -> acks_ok c.
Proof.
  induction 1 as [|es c e c' Hr IH Hev Hs]; [by split|].
  eapply (micros_acks daemonUrl true); [eapply step_micros; [by eapply runs_ok|done|exact Hs]|by eapply runs_base|done].
Qed.

Lemma settled_goes_on c j r x control id sequence m :
  tc_jobs c !! j = Some x -> awaits x control id sequence m -> r <> Awaiting ->
  exists y, tc_jobs (settle_ack c j r) !! j = Some y /\ waiting y = false.
Proof.
  intros Hj Haw Hr. destruct (settle_ack_lookup c j r x control id sequence m Hj Haw Hr) as (y & Ey & Hy).
  exists y. split; [|done]. rewrite Ey. apply lookup_insert_eq.
Qed.

(** C15: A response that waits for the acknowledgement of a chunk never waits for ever: its
    timeout is set, and lets it go on with an error when it fires; the acknowledgement of the
    chunk it has sent lets it go on with the next one. *)
Theorem waiting_chunk_ends es c j x :
  tunnel_runs config daemonUrl es c -> tc_jobs c !! j = Some x -> waiting x = true ->
  exists id pending control m,
    tc_acks c !! id = Some pending /\ pa_job pending = j /\ awaits x control id (pa_sequence pending) m /\
    (exists c' y, tunnel_step config daemonUrl c (TimerFires (pa_timeout pending)) = Some c' /\ tc_jobs c' !! j = Some y /\ waiting y = false) /\
    (forall a, exists c' y, tunnel_step config daemonUrl c (SocketMessage a (SrvChunkAck id (pa_sequence pending))) = Some c' /\
      tc_jobs c' !! j = Some y /\ waiting y = false).
Proof.
  intros Hr Hj Hw. pose proof (runs_acks _ _ Hr) as Ha. destruct (ak_waiting _ Ha _ _ Hj Hw) as (id & pending & Hp & <-).
  destruct (ak_job _ Ha _ _ Hp) as [(x' & control & m & Hx' & Haw) Ht]. rewrite Hj in Hx'. injection Hx' as <-.
  exists id, pending, control, m. split_and!; try done.
  - cbn [tunnel_step]. unfold timer_fires. rewrite Ht. unfold rejectPendingHttpResponseChunkAck.
    assert (tc_acks (clear_timer c (pa_timeout pending)) !! id = Some pending) as -> by done.
    match goal with |- context [settle_ack ?c1 ?j1 ?r] => destruct (settled_goes_on c1 j1 r _ _ _ _ _ Hj Haw ltac:(done)) as (y & Ey & Hy) end.
    by eexists _, y.
  - intros a. cbn [tunnel_step handleControlMessage]. unfold resolveHttpResponseChunkAck. rewrite Hp, Z.eqb_refl. cbn [negb].
    match goal with |- context [settle_ack ?c1 ?j1 ?r] => destruct (settled_goes_on c1 j1 r _ _ _ _ _ Hj Haw ltac:(done)) as (y & Ey & Hy) end.
    by eexists _, y.
Qed.

(** * The heartbeat *)

(** The relay has not answered a probe in time. *)
Definition misses_heartbeat c (e : tunnel_event) : bool :=
  match e with
  | TimerFires t =>
      match tc_timers c !! t with
      | Some (HeartbeatDeadline a) => bool_decide (tc_control c = Some a) && negb (tc_stopped c)
      | _ => false
      end
  | _ => false
  end.
Definition resets_heartbeat (e : tunnel_event) : bool := match e with SocketMessage _ SrvPong | SocketOpens _ => true | _ => false end.

(** The heartbeats missed since the last pong of a run, or since a control socket opened. *)
Definition count_missed (s : option (TunnelClient * nat)) (e : tunnel_event) : option (TunnelClient * nat) :=
  '(c, n) ← s; c' ← tunnel_step config daemonUrl c e;
  Some (c', if misses_heartbeat c e then S n else if resets_heartbeat e then 0%nat else n).
Definition missed_heartbeats (es : list tunnel_event) : option (TunnelClient * nat) := foldl count_missed (Some (new_client, 0%nat)) es.

Lemma effect_misses c c' : TunnelEffects.effect daemonUrl true c c' -> tc_heartbeatMisses c' = 0%nat \/ tc_heartbeatMisses c' = tc_heartbeatMisses c.
Proof.
  destruct 1 as [c a m|c|c f Hok|c id|c p|c p|c|c id|c j control envelope p Hj Hp|c j control envelope p t Hj|c j x Hj Hx|c j Hj
    |c j control id sequence m x Hn Hw Hj|c id pending r Hp Hr|c t x Ht Hx|c x|c control id capability deadlineMs payload context Hn Hs
    |c j x frame Hj Hx|c j x call Hj Hx|c j|c j|c|c j|c x|c l|c n|c b|c|c|c]; try (by right); try (by left); right.
  - unfold control_send. by repeat case_match.
  - unfold wait_for_ack, job_set, control_send. by repeat case_match.
  - unfold settle, settle_ack. by repeat case_match.
  - by destruct (call_shape c control id capability deadlineMs payload context Hn Hs) as (rq & ph & _ & [-> | ->]).
  - unfold rpc_answered. by destruct (rj_timeout x).
  - unfold rpc_send, control_send. repeat case_match; done.
  - unfold clearControlHeartbeatDeadline. by destruct (tc_heartbeatDeadline c).
  - by destruct (tc_heartbeatInterval c).
Qed.

Lemma effects_misses c c' : rtc (TunnelEffects.effect daemonUrl true) c c' -> tc_heartbeatMisses c' = 0%nat \/ tc_heartbeatMisses c' = tc_heartbeatMisses c.
Proof.
  induction 1 as [|c c1 c2 He _ IH]; [by right|]. destruct (effect_misses _ _ He) as [E|E]; destruct IH as [E'|E']; rewrite ?E', ?E; auto.
Qed.

(** The flags of the sockets that were terminated. *)
Definition terminated c a : bool := match tc_sockets c !! a with Some s => cs_terminated s | None => false end.

Lemma effects_terminated c c' a : rtc (TunnelEffects.effect daemonUrl true) c c' -> terminated c' a = terminated c a.
Proof.
  intros He. pose proof (effects_connection _ _ _ _ He) as E. unfold connection in E. injection E as _ _ _ _ _ E.
  apply (f_equal (fun m => m !! a)) in E. rewrite !lookup_fmap in E. unfold terminated.
  destruct (tc_sockets c !! a), (tc_sockets c' !! a); cbn in E; simplify_eq; done.
Qed.

(** Nothing is missed, nothing is terminated. *)
Definition still c c' : Prop := (tc_heartbeatMisses c' <= tc_heartbeatMisses c)%nat /\ forall a, terminated c' a = true -> terminated c a = true.

Lemma still_refl c : still c c.
Proof. by split. Qed.
Lemma still_trans c c1 c2 : still c c1 -> still c1 c2 -> still c c2.
Proof. intros [Hm Ht] [Hm' Ht']. split; [lia|auto]. Qed.
Lemma still_effects c c' : rtc (TunnelEffects.effect daemonUrl true) c c' -> still c c'.
Proof. intros He. split; [destruct (effects_misses _ _ He); lia|]. intros a. by rewrite (effects_terminated _ _ _ He). Qed.
Lemma still_same c c' : tc_heartbeatMisses c' = tc_heartbeatMisses c -> tc_sockets c' = tc_sockets c -> still c c'.
Proof. intros Hm Hs. split; [lia|]. intros a. unfold terminated. by rewrite Hs. Qed.
Lemma still_set_socket c a s s' : tc_sockets c !! a = Some s -> cs_terminated s' = cs_terminated s -> still c (set_socket c a s').
Proof.
  intros Hs Ht. split; [done|]. intros b. unfold terminated, set_socket, update. cbn. destruct (decide (a = b)) as [<-|Hne].
  - by rewrite lookup_insert_eq, Hs, Ht.
  - by rewrite lookup_insert_ne by done.
Qed.

Lemma still_ready c a r : still c (set_ready_state c a r).
Proof. unfold set_ready_state. destruct (tc_sockets c !! a) as [s|] eqn:E; [by eapply still_set_socket|apply still_refl]. Qed.

Lemma still_close c a : still c (control_close c a).
Proof.
  unfold control_close. destruct (tc_sockets c !! a) as [s|] eqn:E; [|apply still_refl]. eapply still_set_socket; [exact E|].
  unfold socket_end. destruct (_ =? _); [done|]. apply orb_false_r.
Qed.

Lemma still_connect c : still c (connectControl c).
Proof.
  unfold connectControl. destruct (tc_stopped c); [apply still_refl|]. split; [done|]. intros a. unfold terminated, update. cbn.
  destruct (decide (tc_next c = a)) as [<-|Hne]; [by rewrite lookup_insert_eq|by rewrite lookup_insert_ne by done].
Qed.

Lemma still_abort_all c reason : still c (abort_all c reason).
Proof. apply still_effects, abort_all_effects. Qed.

Lemma still_stop c c' : stop c = Some c' -> still c c'.
Proof.
  unfold stop. set (c1 := clear_timer_field (c <| tc_stopped := true |>) (tc_reconnectTimer c) <| tc_reconnectTimer := None |>).
  assert (still c c1) as Q1 by (unfold c1; destruct (tc_reconnectTimer c); by apply still_same).
  pose proof (still_abort_all c1 (js "Tunnel client stopping")) as Q2. revert Q2. generalize (abort_all c1 (js "Tunnel client stopping")). intros c2 Q2 Hm.
  eapply still_trans; [exact Q1|]. eapply still_trans; [exact Q2|]. eapply still_trans; [|by eapply still_effects, mux_effects].
  destruct (tc_control c2) as [a|]; [|by apply still_same]. eapply still_trans; [apply (still_close c2 a)|by apply still_same].
Qed.

Lemma still_relay_event c event : still c (sendRelayEvent c event).1.
Proof.
  unfold sendRelayEvent. set (c1 := if is_vault_mutation event then _ else c).
  assert (still c c1) as Q by (unfold c1; destruct (is_vault_mutation event); by apply still_same).
  destruct (tc_control c1) as [a|]; [|done]. destruct (_ =? _); [|done]. cbn [fst]. eapply still_trans; [exact Q|].
  apply still_effects, rtc_once. constructor.
Qed.

Lemma still_opened c a : still c (control_opened config c a) /\ tc_heartbeatMisses (control_opened config c a) = 0%nat.
Proof.
  split; [|done]. unfold control_opened, startControlHeartbeat. cbn [set_timer].
  eapply still_trans; [apply still_effects, rtc_once, (ef_send daemonUrl true c a (CtlHello config (tc_epoch c)))|].
  eapply still_trans; [apply still_effects, heartbeat_effects|]. by apply still_same.
Qed.

Lemma still_closed c a code random : still c (control_closed c a code random).
Proof.
  unfold control_closed. set (c2 := if bool_decide (tc_control c = Some a) then _ else c).
  assert (still c c2) as Q.
  { unfold c2. case_bool_decide; [|apply still_refl]. eapply still_trans; [|apply still_abort_all]. by apply still_same. }
  destruct (tc_stopped c2); [done|]. destruct (code =? CONTROL_REPLACED); (eapply still_trans; [exact Q|]); by apply still_same.
Qed.

Lemma still_probe c t a elapsed : still c (heartbeat_probe c t a elapsed).
Proof.
  unfold heartbeat_probe. destruct (_ || _); [apply still_refl|]. set (c1 := clearControlHeartbeatDeadline c). set (due := (_ <=? _)).
  set (c2 := if due then control_send (control_send c1 a (CtlPing false)) a (CtlPing true) else control_send c1 a (CtlPing false)).
  assert (still c c2) as Q.
  { apply still_effects. eapply rtc_l; [apply ef_no_deadline|]. unfold c2. eapply rtc_l; [apply (ef_send _ _ c1 a (CtlPing false))|].
    destruct due; [|done]. apply rtc_once. apply ef_send. }
  cbn [set_timer]. fold c2. eapply still_trans; [exact Q|]. by apply still_same.
Qed.

(** A deadline that passes: one more is missed, and the fourth gives the socket up. *)
Lemma missed_step c t a :
  tc_timers c !! t = Some (HeartbeatDeadline a) ->
  let c' := heartbeat_missed (clear_timer c t) a in
  (tc_heartbeatMisses c' <= if misses_heartbeat c (TimerFires t) then S (tc_heartbeatMisses c) else tc_heartbeatMisses c)%nat /\
  forall b, terminated c' b = true ->
    terminated c b = true \/ tc_control c' = Some b /\ misses_heartbeat c (TimerFires t) = true /\ (CONTROL_HEARTBEAT_MISSES_BEFORE_RECONNECT <= tc_heartbeatMisses c')%nat.
Proof.
  intros Ht. cbn zeta. unfold misses_heartbeat. rewrite Ht. unfold heartbeat_missed. change (tc_control (clear_timer c t)) with (tc_control c).
  change (tc_stopped (clear_timer c t)) with (tc_stopped c). case_bool_decide as Ea; cbn [negb orb andb]; [|split; [done|by left]].
  destruct (tc_stopped c); [split; [done|by left]|]. cbn [negb].
  set (c2 := clear_timer c t <| tc_heartbeatDeadline := None |> <| tc_heartbeatMisses := S (tc_heartbeatMisses (clear_timer c t)) |>).
  destruct (Nat.ltb_spec (tc_heartbeatMisses c2) CONTROL_HEARTBEAT_MISSES_BEFORE_RECONNECT) as [Hl|Hl]; [by split; [|by left]|].
  assert (tc_heartbeatMisses (control_terminate c2 a) = tc_heartbeatMisses c2 /\ tc_control (control_terminate c2 a) = tc_control c) as [Em ->]
    by (unfold control_terminate; by destruct (tc_sockets c2 !! a)).
  rewrite Em. split; [done|]. intros b. destruct (decide (a = b)) as [<-|Hne]; [by right|]. unfold control_terminate, terminated.
  destruct (tc_sockets c2 !! a); [|by left]. unfold set_socket, update. cbn. rewrite lookup_insert_ne by done. by left.
Qed.

Lemma fires_step c t :
  let c' := timer_fires c t in
  (tc_heartbeatMisses c' <= if misses_heartbeat c (TimerFires t) then S (tc_heartbeatMisses c) else tc_heartbeatMisses c)%nat /\
  forall b, terminated c' b = true ->
    terminated c b = true \/ tc_control c' = Some b /\ misses_heartbeat c (TimerFires t) = true /\ (CONTROL_HEARTBEAT_MISSES_BEFORE_RECONNECT <= tc_heartbeatMisses c')%nat.
Proof.
  cbn zeta. destruct (tc_timers c !! t) as [x|] eqn:Et.
  2:{ unfold timer_fires, misses_heartbeat. rewrite Et. split; [done|by left]. }
  destruct (decide (is_deadline x = true)) as [Hd|Hd].
  { destruct x; try done. unfold timer_fires. rewrite Et. by apply missed_step. }
  assert (misses_heartbeat c (TimerFires t) = false) as -> by (unfold misses_heartbeat; rewrite Et; by destruct x).
  enough (still c (timer_fires c t)) as [Hm Hq] by (split; [done|]; intros b Hb; left; by apply Hq).
  unfold timer_fires. rewrite Et. destruct x as [d|a e|a|p|id|j]; [| |by destruct Hd| | |].
  - eapply still_trans; [|apply still_connect]. by apply still_same.
  - apply still_probe.
  - by apply still_same.
  - eapply still_trans; [by apply (still_same c (clear_timer c t))|]. apply still_effects, reject_effects.
  - by apply still_same.
Qed.

Lemma heartbeat_step c e c' : client_ok c -> tunnel_step config daemonUrl c e = Some c' ->
  (tc_heartbeatMisses c' <= if misses_heartbeat c e then S (tc_heartbeatMisses c) else if resets_heartbeat e then 0 else tc_heartbeatMisses c)%nat /\
  forall b, terminated c' b = true ->
    terminated c b = true \/ tc_control c' = Some b /\ misses_heartbeat c e = true /\ (CONTROL_HEARTBEAT_MISSES_BEFORE_RECONNECT <= tc_heartbeatMisses c')%nat.
Proof.
  intros Hok Hs. assert ((exists t, e = TimerFires t) \/ forall t, e <> TimerFires t) as [[t ->]|Hn] by (destruct e; eauto; by right).
  { cbn [tunnel_step] in Hs. injection Hs as <-. apply fires_step. }
  assert (misses_heartbeat c e = false) as -> by (destruct e; try done; by edestruct Hn).
  enough (still c c' /\ (resets_heartbeat e = true -> tc_heartbeatMisses c' = 0%nat)) as [[Hm Hq] H0'].
  { split; [|intros b Hb; left; by apply Hq]. destruct (resets_heartbeat e); [by rewrite H0'|done]. }
  destruct (working e) eqn:Ew.
  { assert (rtc (TunnelEffects.effect daemonUrl true) c c') as He
      by (eapply step_effects; [by apply ok_fresh|exact Ew|done|exact Hs]).
    split; [by apply still_effects|]. destruct e as [| | | |a []| | | | | | | | | | | |]; try done. cbn [tunnel_step handleControlMessage] in Hs.
    by injection Hs as <-. }
  destruct e; try discriminate Ew; (split; [cbn [tunnel_step] in Hs|]); try (intros Hx; discriminate Hx).
  - injection Hs as <-. unfold start. destruct (negb _); [apply still_refl|].
    destruct (tc_hasStarted c); (eapply still_trans; [|apply still_connect]); by apply still_same.
  - by apply still_stop.
  - injection Hs as <-. apply still_relay_event.
  - injection Hs as <-. eapply still_trans; [apply (still_ready c a WS_OPEN)|apply still_opened].
  - cbn [tunnel_step] in Hs. injection Hs as <-. intros _. apply still_opened.
  - injection Hs as <-. eapply still_trans; [apply (still_ready c a WS_CLOSED)|apply still_closed].
  - by edestruct Hn.
Qed.

Lemma missed_misses es c : tunnel_runs config daemonUrl es c -> exists n, missed_heartbeats es = Some (c, n) /\ (tc_heartbeatMisses c <= n)%nat.
Proof.
  induction 1 as [|es c e c' Hr (n & En & Hle) Hev Hs]; [by exists 0%nat|]. unfold missed_heartbeats in *. rewrite foldl_app, En.
  cbn [foldl count_missed mbind option_bind]. rewrite Hs. cbn [mbind option_bind]. eexists. split; [reflexivity|].
  destruct (heartbeat_step c e c' (runs_ok _ _ _ _ Hr) Hs) as [Hm _]. destruct (misses_heartbeat c e); [lia|]. destruct (resets_heartbeat e); lia.
Qed.

(** C17: A control socket is only given up after four probes of the heartbeat without an answer:
    no pong has come since the first of them, and no other control socket has opened. *)
Theorem control_terminated_after_misses es c a :
  tunnel_runs config daemonUrl es c -> terminated c a = true ->
  exists es1 es2 c1 n, es = es1 ++ es2 /\ tunnel_runs config daemonUrl es1 c1 /\ missed_heartbeats es1 = Some (c1, n) /\
    (CONTROL_HEARTBEAT_MISSES_BEFORE_RECONNECT <= n)%nat /\ terminated c1 a = true /\ tc_control c1 = Some a.
Proof.
  induction 1 as [|es c e c' Hr IH Hev Hs]; [done|]. intros Ht'.
  destruct (heartbeat_step c e c' (runs_ok _ _ _ _ Hr) Hs) as [_ Hq]. destruct (Hq _ Ht') as [Ht|(Hc & Hmiss & Hle)].
  - destruct (IH Ht) as (es1 & es2 & c1 & n & -> & ?). exists es1, (es2 ++ [e]), c1, n. by rewrite <-app_assoc.
  - assert (tunnel_runs config daemonUrl (es ++ [e]) c') as Hr' by by econstructor.
    destruct (missed_misses _ _ Hr') as (n & En & Hn). exists (es ++ [e]), [], c', n. rewrite app_nil_r. split_and!; try done; lia.
Qed.
End runs.
