(* ===== verification/TunnelClientDeaf.v ===== *)
(** What a client that has stopped does: it makes no connection until it is started again.  A
    client whose older socket is replaced by the relay stops although its own is open, so that
    it never connects again. *)
From stdpp Require Import relations.
From S2P Require Import Prelude JsString Utf8 Splice Base64 Json PendingFrames PendingRequests DocStream StreamMux RelayFrame HttpAssembler TunnelPaths TunnelRpc TunnelMessages TunnelClient TunnelEffects TunnelClientProps TunnelClientWork TunnelClientRuns.

#[local] Open Scope Z_scope.

Section deaf.
Context `{JsonHost, Host, UrlHost, TunnelHost, MuxHost}.
Context (config : TunnelClientConfig) (daemonUrl : url).
Implicit Types (c : TunnelClient) (a b t : nat) (id : jstr).

(** * A stopped client stays where it is *)

(** Once stopped it stays so, takes no other control socket, and makes none. *)
Definition stays c c' : Prop :=
  tc_stopped c = true ->
  tc_stopped c' = true /\ (tc_control c' = tc_control c \/ tc_control c' = None) /\
  forall a, tc_sockets c !! a = None -> tc_sockets c' !! a = None.

#[local] Instance stays_preorder : PreOrder stays.
Proof.
  split; [by intros c Hc; split_and!; [|left|]|]. intros c1 c2 c3 H12 H23 Hs. destruct (H12 Hs) as (S2 & C2 & A2).
  destruct (H23 S2) as (S3 & C3 & A3). split_and!; [done| |intros a Ha; by apply A3, A2].
  destruct C3 as [-> | ->]; [done|by right].
Qed.

Lemma stays_same c c' : connection c' = connection c -> stays c c'.
Proof.
  intros E Hs. unfold connection in E. injection E as E1 E2 _ _ _ E6. split_and!; [congruence|by left|].
  intros a Ha. assert (((fun s => (cs_readyState s, cs_terminated s)) <$> tc_sockets c') !! a = None) as Hn; [|by rewrite lookup_fmap, fmap_None in Hn].
  by rewrite E6, lookup_fmap, Ha.
Qed.

Lemma stays_effects c c' : rtc (TunnelEffects.effect daemonUrl true) c c' -> stays c c'.
Proof. intros He. apply stays_same. by eapply effects_connection. Qed.

Lemma stays_fields c c' :
  tc_stopped c' = tc_stopped c -> tc_control c' = tc_control c \/ tc_control c' = None -> tc_sockets c' = tc_sockets c -> stays c c'.
Proof. intros Es Ec Ea Hs. rewrite Es, Ea. by split_and!. Qed.

Lemma stays_set_socket c a s : is_Some (tc_sockets c !! a) -> stays c (set_socket c a s).
Proof.
  intros Ha Hs. split_and!; [done|by left|]. intros d Hd. unfold set_socket, update. cbn.
  rewrite lookup_insert_ne; [done|]. intros ->. rewrite Hd in Ha. by destruct Ha.
Qed.

Lemma stays_ready c a r : stays c (set_ready_state c a r).
Proof. unfold set_ready_state. destruct (tc_sockets c !! a) eqn:E; [|reflexivity]. by apply stays_set_socket; rewrite E. Qed.

Lemma stays_end c a (terminated : bool) : stays c (match tc_sockets c !! a with Some s => set_socket c a (socket_end terminated s) | None => c end).
Proof. destruct (tc_sockets c !! a) eqn:E; [|reflexivity]. by apply stays_set_socket; rewrite E. Qed.

Lemma stays_connect c : stays c (connectControl c).
Proof. intros Hs. rewrite connect_stopped by done. by apply stays_same. Qed.

Lemma stays_field c c' o : c' = clear_timer_field c o -> stays c c'.
Proof. intros ->. apply stays_same, clear_field_connection. Qed.

Lemma stays_stop c c' : stop c = Some c' -> stays c c'.
Proof.
  unfold stop. set (c1 := clear_timer_field (c <| tc_stopped := true |>) (tc_reconnectTimer c) <| tc_reconnectTimer := None |>).
  assert (stays c c1) as S1.
  { intros Hs. unfold c1. destruct (tc_reconnectTimer c); (split_and!; [done|by left|done]). }
  pose proof (stays_effects _ _ (abort_all_effects daemonUrl true c1 (js "Tunnel client stopping"))) as S2.
  revert S2. generalize (abort_all c1 (js "Tunnel client stopping")). intros c2 S2 Hm.
  etrans; [exact S1|]. etrans; [exact S2|]. etrans; [|eapply stays_effects, mux_effects, Hm].
  destruct (tc_control c2) as [a|]; [|by apply stays_fields; [|right|]].
  etrans; [apply (stays_end c2 a false)|]. by apply stays_fields; [|right|].
Qed.

Lemma stays_relay_event c event : stays c (sendRelayEvent c event).1.
Proof.
  unfold sendRelayEvent. set (c1 := if is_vault_mutation event then _ else c).
  assert (stays c c1) as S1 by (unfold c1; destruct (is_vault_mutation event); [by apply stays_fields; [|left|]|reflexivity]).
  destruct (tc_control c1) as [a|]; [|done]. destruct (_ =? _); [|done]. cbn [fst]. etrans; [exact S1|]. apply stays_same, send_connection.
Qed.

Lemma stays_opened c a : stays c (control_opened config (set_ready_state c a WS_OPEN) a).
Proof.
  etrans; [apply stays_ready|]. set (c1 := set_ready_state c a WS_OPEN). unfold control_opened, startControlHeartbeat.
  etrans; [apply stays_same, (send_connection c1 a (CtlHello config (tc_epoch c1)))|].
  etrans; [eapply stays_effects, heartbeat_effects|]. by apply stays_fields; [|left|].
Qed.

Lemma stays_closed c a code random : stays c (control_closed (set_ready_state c a WS_CLOSED) a code random).
Proof.
  etrans; [apply (stays_ready c a WS_CLOSED)|]. set (c1 := set_ready_state c a WS_CLOSED). unfold control_closed.
  set (c2 := if bool_decide (tc_control c1 = Some a) then _ else c1).
  assert (stays c1 c2) as S2.
  { unfold c2. case_bool_decide; [|reflexivity]. etrans; [|eapply stays_effects, abort_all_effects]. by apply stays_fields; [|right|]. }
  intros Hs. destruct (S2 Hs) as (Hst & Hrest). rewrite Hst. by split.
Qed.

Lemma stays_probe c t a elapsed : stays c (heartbeat_probe c t a elapsed).
Proof.
  unfold heartbeat_probe. destruct (_ || _); [reflexivity|]. set (c1 := clearControlHeartbeatDeadline c). set (due := (_ <=? _)).
  set (c2 := if due then control_send (control_send c1 a (CtlPing false)) a (CtlPing true) else control_send c1 a (CtlPing false)).
  assert (stays c c2) as S2.
  { etrans; [eapply stays_effects, rtc_once, ef_no_deadline|]. apply stays_same. unfold c2. destruct due; by rewrite !send_connection. }
  etrans; [exact S2|]. by apply stays_fields; [|left|].
Qed.

Lemma stays_missed c t a : stays c (heartbeat_missed (clear_timer c t) a).
Proof.
  unfold heartbeat_missed. assert (stays c (clear_timer c t)) as S1 by by apply stays_fields; [|left|].
  destruct (_ || _); [done|]. set (c2 := clear_timer c t <| tc_heartbeatDeadline := None |> <| tc_heartbeatMisses := _ |>).
  assert (stays c c2) as S2 by (etrans; [exact S1|]; by apply stays_fields; [|left|]).
  destruct (_ <? _)%nat; [done|]. etrans; [exact S2|]. apply (stays_end c2 a true).
Qed.

Lemma stays_fires c t : stays c (timer_fires c t).
Proof.
  unfold timer_fires. destruct (tc_timers c !! t) as [[d|a e|a|p|id|j]|]; [..|reflexivity].
  - etrans; [|apply stays_connect]. by apply stays_fields; [|left|].
  - apply stays_probe.
  - apply stays_missed.
  - etrans; [|eapply stays_effects, rtc_once, ef_abort]. by apply stays_fields; [|left|].
  - etrans; [|eapply stays_effects, reject_effects]. by apply stays_fields; [|left|].
  - by apply stays_fields; [|left|].
Qed.

Lemma stays_step c e c' : fresh c -> e <> CallStart -> tunnel_step config daemonUrl c e = Some c' -> stays c c'.
Proof.
  intros Hf He Hs. destruct (working e) eqn:Ew; [by eapply stays_effects, step_effects|].
  destruct e; try done; cbn [tunnel_step] in Hs.
  - by apply stays_stop.
  - injection Hs as <-. apply stays_relay_event.
  - injection Hs as <-. apply stays_opened.
  - injection Hs as <-. apply stays_closed.
  - injection Hs as <-. apply stays_fires.
Qed.

(** The last step of a run, and that a run is given by its events. *)
Lemma runs_last es e c : tunnel_runs config daemonUrl (es ++ [e]) c ->
  exists c0, tunnel_runs config daemonUrl es c0 /\ tunnel_event_ok c0 e /\ tunnel_step config daemonUrl c0 e = Some c.
Proof.
  intros Hr. inversion Hr as [Hnil|es0 c0 e0 c1 Hr0 Hev Hstep Heq]; [by destruct es|].
  apply app_inj_tail in Heq as [-> ->]. by exists c0.
Qed.

Lemma runs_det es c c' : tunnel_runs config daemonUrl es c -> tunnel_runs config daemonUrl es c' -> c = c'.
Proof.
  intros Hr. revert c'. induction Hr as [|es c e c1 Hr IH Hev Hs]; intros c'.
  - inversion 1 as [|es0 c0 e0 c1 _ _ _ Heq]; [done|]. by destruct es0.
  - intros (c0 & Hr0 & _ & Hs0)%runs_last. rewrite (IH _ Hr0) in Hs. congruence.
Qed.

(** A run goes on from where it is. *)
Lemma stays_runs es es' c c' :
  tunnel_runs config daemonUrl es c -> tunnel_runs config daemonUrl (es ++ es') c' -> Forall (fun e => e <> CallStart) es' -> stays c c'.
Proof.
  intros Hr. revert c'. induction es' as [|e es' IH] using rev_ind; intros c' Hr' Hall.
  - rewrite app_nil_r in Hr'. by rewrite (runs_det _ _ _ Hr Hr').
  - rewrite app_assoc in Hr'. apply Forall_app in Hall as [Hall [He _]%Forall_cons].
    apply runs_last in Hr' as (c1 & Hr1 & _ & Hstep). etrans; [by apply IH|]. eapply stays_step; [|done|exact Hstep].
    by apply (runs_base config daemonUrl _ _ Hr1).
Qed.

(** * The older socket is replaced *)

(** C20: When the relay replaces a socket of a started client that is not the client's own control
    socket, and that one is open, the client stops although it is connected; however it goes
    on without being started again, it stays stopped and makes no socket, so that once its
    control socket is gone it is connected to none for good. *)
Theorem replaced_client_goes_deaf es c a b random c1 :
  tunnel_runs config daemonUrl es c -> tc_stopped c = false ->
  tc_control c = Some b -> ready_state c b = WS_OPEN -> a <> b ->
  tunnel_runs config daemonUrl (es ++ [SocketCloses a CONTROL_REPLACED random]) c1 ->
  st_started (status c1) = false /\ st_controlConnected (status c1) = true /\
  forall es' c2, tunnel_runs config daemonUrl ((es ++ [SocketCloses a CONTROL_REPLACED random]) ++ es') c2 -> Forall (fun e => e <> CallStart) es' ->
    st_started (status c2) = false /\
    (forall d, tc_sockets c1 !! d = None -> tc_sockets c2 !! d = None) /\
    (ready_state c2 b <> WS_OPEN -> st_controlConnected (status c2) = false).
Proof.
  intros Hr Hst Hb Hopen Hne Hr1.
  assert (tunnel_step config daemonUrl c (SocketCloses a CONTROL_REPLACED random) = Some c1) as Hstep.
  { apply runs_last in Hr1 as (c0 & Hr0 & _ & Hs). by rewrite (runs_det _ _ _ Hr Hr0). }
  assert (tc_stopped c1 = true /\ tc_control c1 = Some b /\ ready_state c1 b = WS_OPEN) as (Hst1 & Hb1 & Hopen1).
  { cbn [tunnel_step] in Hstep. injection Hstep as <-. set (c0 := set_ready_state c a WS_CLOSED).
    assert (tc_control c0 = Some b /\ tc_stopped c0 = false /\ ready_state c0 b = WS_OPEN) as (E1 & E2 & E3).
    { unfold c0, set_ready_state. destruct (tc_sockets c !! a); [|done]. split_and!; [done..|].
      unfold ready_state, set_socket, update. cbn. by rewrite lookup_insert_ne. }
    clearbody c0. unfold control_closed. rewrite (bool_decide_false (tc_control c0 = Some a)) by congruence. rewrite E2.
    change (CONTROL_REPLACED =? CONTROL_REPLACED) with true. done. }
  split_and!; [unfold status; by rewrite Hst1|unfold status; cbn; by rewrite Hb1, Hopen1|].
  intros es' c2 Hr2 Hall. destruct (stays_runs _ _ _ _ Hr1 Hr2 Hall Hst1) as (Hst2 & Hc2 & Hsock).
  split_and!; [unfold status; by rewrite Hst2|done|]. intros Hgone. unfold status. cbn.
  destruct Hc2 as [-> | ->]; [|done]. rewrite Hb1. by apply Z.eqb_neq.
Qed.
End deaf.
