(* ===== verification/TunnelResponse.v ===== *)
(** A response that is sent in chunks with acknowledgements, from the daemon's answer to the end
    of the job. *)
From S2P Require Import Prelude JsString Utf8 Splice Base64 Json PendingFrames DocStream StreamMux RelayFrame HttpAssembler TunnelPaths TunnelRpc TunnelMessages TunnelClient TunnelEffects.

#[local] Open Scope Z_scope.

Section response.
Context `{JsonHost, Host, UrlHost, TunnelHost, MuxHost}.
Context (config : TunnelClientConfig) (daemonUrl : url).
Implicit Types (c : TunnelClient) (a t j p : nat) (id : jstr).

(** A request [id] that is not canceled, whose response goes to a socket that is open and has
    been sent [sent]. *)
Record sending c (control : nat) id p (sent : list control_message) : Prop := {
  se_socket : exists s, tc_sockets c !! control = Some s /\ cs_readyState s = WS_OPEN /\ cs_sent s = sent;
  se_supports : tc_supportsAcks c = true;
  se_pending : tc_pendingHttp c !! id = Some p;
  se_canceled : pending_canceled c p = false
}.

Lemma sending_same c c' control id p sent :
  tc_sockets c' = tc_sockets c -> tc_supportsAcks c' = tc_supportsAcks c -> tc_pendingHttp c' = tc_pendingHttp c -> tc_pendings c' = tc_pendings c ->
  sending c control id p sent -> sending c' control id p sent.
Proof. intros E1 E2 E3 E4 [Hs Hu Hp Hc]. split; rewrite ?E1, ?E2, ?E3; try done. unfold pending_canceled in *. by rewrite E4. Qed.

Lemma sending_send c control id p sent m : sending c control id p sent -> sending (control_send c control m) control id p (sent ++ [m]).
Proof.
  intros [(s & Hs & Ho & Hsent) Hu Hp Hc]. unfold control_send. rewrite Hs, Ho. cbn [Z.eqb WS_OPEN Pos.eqb]. split; try done.
  eexists. split; [apply lookup_insert_eq|]. split; [done|]. cbn [cs_sent]. unfold update. cbn. by rewrite Hsent.
Qed.

Lemma sending_canceled c control id p sent : sending c control id p sent -> request_canceled c id = false.
Proof. intros [_ _ Hp Hc]. unfold request_canceled. by rewrite Hp. Qed.

(** The job waits for the acknowledgement of a chunk. *)
Record chunk_sent c j (control : nat) (response : TunnelHttpResponseEnvelope) (body : list N) (offset : nat) (sequence : Z) (after : after_send) p
    (sent : list control_message) : Prop := {
  ch_sending : sending c control (hp_id response) p sent;
  ch_job : tc_jobs c !! j = Some (Responding control response body offset sequence Awaiting after);
  ch_ack : exists t, tc_acks c !! hp_id response = Some {| pa_sequence := sequence; pa_job := j; pa_timeout := t |}
}.

(** The job is over. *)
Record response_ended c j (control : nat) id (sent : list control_message) : Prop := {
  re_socket : exists s, tc_sockets c !! control = Some s /\ cs_sent s = sent;
  re_job : tc_jobs c !! j = None;
  re_ack : tc_acks c !! id = None;
  re_pending : tc_pendingHttp c !! id = None
}.

(** The relay acknowledges a chunk, and the job runs. *)
Definition acknowledge j id a sequence : list tunnel_event := [SocketMessage a (SrvChunkAck id sequence); JobRuns j].

(** The rounds of [n] chunks from [sequence] on. *)
Fixpoint acknowledge_all j id a sequence (n : nat) : list tunnel_event :=
  match n with O => [] | S n => acknowledge j id a sequence ++ acknowledge_all j id a (sequence + 1) n end.

Lemma tunnel_steps_app c es es' : tunnel_steps config daemonUrl c (es ++ es') = (c' ← tunnel_steps config daemonUrl c es; tunnel_steps config daemonUrl c' es').
Proof. revert c. induction es as [|e es IH]; intros c; [done|]. cbn [app tunnel_steps]. destruct (tunnel_step config daemonUrl c e); [apply IH|done]. Qed.

Section loop.
Context (j control : nat) (response : TunnelHttpResponseEnvelope) (body : list N) (p : nat).
Let id := hp_id response.
Let after := AfterProxy (Some p).
Let send c offset sequence := continue_send (response_loop (response_fuel body) c j control response body offset sequence after) j control id after.

Lemma loop_sends c offset sequence sent :
  sending c control id p sent -> tc_acks c !! id = None -> (offset < length body)%nat -> 0 < chunk_room id sequence ->
  chunk_sent (send c offset sequence) j control response body offset sequence after p
    (sent ++ [CtlResponseChunk id sequence (encodeBase64Bytes (body_chunk id body offset sequence))]).
Proof.
  intros Hs Ha Ho Hr. unfold send, response_fuel. cbn [response_loop]. fold id. rewrite (sending_canceled _ _ _ _ _ Hs).
  rewrite (proj2 (Nat.ltb_lt _ _)) by done. rewrite (proj2 (Z.leb_gt _ _)) by done. rewrite (se_supports _ _ _ _ _ Hs).
  unfold sendHttpResponseChunk. rewrite bool_decide_eq_false_2 by (by rewrite Ha; intros [? ?]). cbn [set_timer continue_send].
  match goal with |- context [control_send ?x control ?m] => set (c1 := x); set (msg := m) end.
  assert (sending c1 control id p sent) as Hs1 by by apply (sending_same c). split.
  - apply (sending_same (control_send c1 control msg)); try done. by apply sending_send.
  - apply lookup_insert_eq.
  - exists (tc_next c). cbn. transitivity (tc_acks c1 !! id); [|apply lookup_insert_eq]. unfold control_send. by repeat case_match.
Qed.

Lemma chunks_end c offset sequence sent :
  sending c control id p sent -> tc_acks c !! id = None -> (length body <= offset)%nat ->
  response_ended (send c offset sequence) j control id (sent ++ [CtlResponseEnd id sequence]).
Proof.
  intros Hs Ha Ho. unfold send, response_fuel. cbn [response_loop]. fold id. rewrite (sending_canceled _ _ _ _ _ Hs).
  rewrite (proj2 (Nat.ltb_ge _ _)) by done. cbn [continue_send close_send].
  pose proof (sending_send _ _ _ _ _ (CtlResponseEnd id sequence) Hs) as Hs1.
  assert (tc_acks (control_send c control (CtlResponseEnd id sequence)) !! id = None) as Ha1 by (unfold control_send; by repeat case_match).
  revert Hs1 Ha1. generalize (control_send c control (CtlResponseEnd id sequence)). intros c1 [(s & Hk & _ & Hsent) _ Hp _] Ha1.
  unfold close_send, after, drop_pending. rewrite bool_decide_eq_true_2 by done. split; [by exists s|apply lookup_delete_eq|done|apply lookup_delete_eq].
Qed.

Lemma loop_goes_on c offset sequence sent :
  sending c control id p sent -> tc_acks c !! id = None -> 0 < chunk_room id sequence ->
  if (offset <? length body)%nat
  then chunk_sent (send c offset sequence) j control response body offset sequence after p
         (sent ++ [CtlResponseChunk id sequence (encodeBase64Bytes (body_chunk id body offset sequence))])
  else response_ended (send c offset sequence) j control id (sent ++ [CtlResponseEnd id sequence]).
Proof. destruct (Nat.ltb_spec offset (length body)); intros; [by apply loop_sends|by apply chunks_end]. Qed.

Lemma acknowledged_round c a offset sequence sent :
  chunk_sent c j control response body offset sequence after p sent ->
  exists c1, sending c1 control id p sent /\ tc_acks c1 !! id = None /\
    tunnel_steps config daemonUrl c (acknowledge j id a sequence) =
    Some (send c1 (offset + length (body_chunk id body offset sequence)) (sequence + 1)).
Proof.
  intros [Hs Hj (t & Ha)]. cbn [acknowledge tunnel_steps tunnel_step handleControlMessage mbind option_bind].
  unfold resolveHttpResponseChunkAck. fold id in Ha. rewrite Ha. cbn [pa_sequence pa_job pa_timeout]. rewrite Z.eqb_refl. cbn [negb].
  set (c0 := clear_timer c t <| tc_acks := delete id (tc_acks c) |>).
  unfold settle_ack. change (tc_jobs c0) with (tc_jobs c). rewrite Hj.
  set (c1 := job_set c0 j (Responding control response body offset sequence Resolved after)). exists c1.
  split; [by apply (sending_same c)|]. split; [apply lookup_delete_eq|]. f_equal.
  assert (tc_jobs c1 !! j = Some (Responding control response body offset sequence Resolved after)) as Hj1 by apply lookup_insert_eq.
  unfold job_runs. rewrite Hj1. unfold resume_response. rewrite Hj1. done.
Qed.

(** Once every chunk is acknowledged, the rest of the body is sent, then the end. *)
Lemma rounds_complete fuel a : forall c offset sequence sent,
  short_id id -> 0 <= sequence -> sequence + byteLength body + 1 <= 2 ^ 53 + Z.of_nat offset -> (offset < length body)%nat -> (length body < offset + fuel)%nat ->
  chunk_sent c j control response body offset sequence after p sent ->
  exists parts c', tunnel_steps config daemonUrl c (acknowledge_all j id a sequence (S (length parts))) = Some c' /\
    concat parts = drop (offset + length (body_chunk id body offset sequence)) body /\ Forall (fun part => part <> []) parts /\
    response_ended c' j control id (sent ++ piece_messages id (sequence + 1) parts ++ [CtlResponseEnd id (sequence + 1 + Z.of_nat (length parts))]).
Proof.
  induction fuel as [|fuel IH]; [lia|]. intros c offset sequence sent Hid Hs Hl Ho Hf Hc. unfold byteLength in *.
  pose proof (room_positive id sequence Hid ltac:(lia)) as Hr.
  assert (0 < length (body_chunk id body offset sequence))%nat as Hn by (unfold body_chunk; rewrite length_take, length_drop; lia).
  destruct (acknowledged_round c a offset sequence sent Hc) as (c1 & Hs1 & Ha1 & Hstep).
  set (next := (offset + length (body_chunk id body offset sequence))%nat) in *.
  assert (next = offset + length (body_chunk id body offset sequence))%nat as En by done.
  pose proof (room_positive id (sequence + 1) Hid ltac:(lia)) as Hr1.
  pose proof (loop_goes_on c1 next (sequence + 1) sent Hs1 Ha1 Hr1) as Hg. destruct (Nat.ltb_spec next (length body)) as [Hlt|Hge].
  - destruct (IH _ next (sequence + 1) _ Hid ltac:(lia) ltac:(unfold byteLength; lia) Hlt ltac:(lia) Hg) as (parts & c' & Hst & Hparts & Hne & Hend).
    exists (body_chunk id body next (sequence + 1) :: parts), c'. cbn [length]. cbn [acknowledge_all]. rewrite tunnel_steps_app, Hstep.
    cbn [mbind option_bind]. split; [exact Hst|]. split; [|split].
    + cbn [concat]. rewrite Hparts, <- drop_drop. apply take_drop_length.
    + constructor; [|done]. intros E. apply (f_equal length) in E. unfold body_chunk in E. rewrite length_take, length_drop in E. cbn [length] in E. lia.
    + rewrite piece_messages_cons. rewrite <- app_assoc in Hend. cbn [app] in Hend |- *.
      by replace (sequence + 1 + Z.of_nat (S (length parts))) with (sequence + 1 + 1 + Z.of_nat (length parts)) by lia.
  - exists [], (continue_send (response_loop (response_fuel body) c1 j control response body next (sequence + 1) after) j control id after).
    cbn [length]. cbn [acknowledge_all]. rewrite tunnel_steps_app, Hstep. cbn [mbind option_bind]. split; [done|].
    split; [symmetry; by apply drop_ge|]. split; [done|]. cbn [piece_messages imap app]. by rewrite Z.add_0_r.
Qed.
End loop.

(** C12: A response of the daemon that is too large for one frame reaches the relay whole: when the
    relay acknowledges the chunks as they come, the control socket is sent the start of the
    response, chunks that are numbered in order and whose bodies make up the daemon's body,
    and the end; then the request is over and nothing of it is left. *)
Theorem acknowledged_response_completes c j control envelope p t sent a (status : Z) headers body content :
  tc_jobs c !! j = Some (ProxyFetching control envelope p t) -> sending c control (hr_id envelope) p sent ->
  tc_acks c !! hr_id envelope = None -> short_id (hr_id envelope) ->
  materializedResponseBody content = Some body -> Forall (fun b => is_byte b = true) body -> TUNNEL_WS_FRAME_BYTE_LIMIT < byteLength body < 2 ^ 53 ->
  exists parts c',
    tunnel_steps config daemonUrl c (Fetched j (FetchOk status headers content) :: acknowledge_all j (hr_id envelope) a 0 (length parts)) = Some c' /\
    concat parts = body /\ Forall (fun part => part <> []) parts /\
    response_ended c' j control (hr_id envelope)
      (sent ++ CtlResponseStart (hr_id envelope) status (serializableResponseHeaders headers) (byteLength body)
         :: piece_messages (hr_id envelope) 0 parts ++ [CtlResponseEnd (hr_id envelope) (Z.of_nat (length parts))]).
Proof.
  intros Hj Hs Ha Hid Hm Hb Hl. cbn [tunnel_steps tunnel_step mbind option_bind]. unfold proxy_fetched, proxy_response. rewrite Hj, Hm.
  set (response := {| hp_id := hr_id envelope; hp_status := status; hp_headers := serializableResponseHeaders headers;
                      hp_bodyB64 := Some (encodeBase64Bytes body) |}).
  assert (hr_id envelope = hp_id response /\ hp_status response = status /\ hp_headers response = serializableResponseHeaders headers /\
    hp_bodyB64 response = Some (encodeBase64Bytes body)) as (Eid & Est & Ehd & Ebd) by done. clearbody response. rewrite Eid in *. rewrite <- Est, <- Ehd.
  set (c1 := clear_timer c t). assert (sending c1 control (hp_id response) p sent) as Hs1 by by apply (sending_same c).
  assert (tc_acks c1 !! hp_id response = None) as Ha1 by done.
  unfold send_proxied. rewrite (se_pending _ _ _ _ _ Hs1), (sending_canceled _ _ _ _ _ Hs1).
  unfold sendHttpResponse. rewrite Ebd.
  assert (byteLength body <= jlen (encodeBase64Bytes body)) as Hlen.
  { unfold jlen, byteLength, encodeBase64Bytes. rewrite btoa_count. pose proof (Nat.div_mod (length body + 2) 3 ltac:(lia)).
    pose proof (Nat.mod_upper_bound (length body + 2) 3 ltac:(lia)). lia. }
  destruct (encodeBase64Bytes body) as [|u b64] eqn:E; [unfold jlen, TUNNEL_WS_FRAME_BYTE_LIMIT in *; cbn in Hlen; lia|]. rewrite <- E in *.
  rewrite (proj2 (Z.leb_gt _ _)) by (unfold byteLength in *; lia). rewrite (sending_canceled _ _ _ _ _ Hs1), E, <- E, decodeBase64Bytes_encode by done.
  set (start := CtlResponseStart _ _ _ _). pose proof (sending_send _ _ _ _ _ start Hs1) as Hs2.
  assert (tc_acks (control_send c1 control start) !! hp_id response = None) as Ha2 by (unfold control_send; by repeat case_match).
  revert Hs2 Ha2. generalize (control_send c1 control start). intros c2 Hs2 Ha2.
  assert (0 < length body)%nat as Hpos by (unfold byteLength, TUNNEL_WS_FRAME_BYTE_LIMIT in *; lia).
  pose proof (room_positive (hp_id response) 0 Hid ltac:(lia)) as Hr.
  pose proof (loop_sends j control response body p c2 0 0 _ Hs2 Ha2 Hpos Hr) as Hsent.
  destruct (rounds_complete j control response body p (S (length body)) a _ _ _ _ Hid ltac:(done) ltac:(unfold byteLength in *; lia) Hpos ltac:(lia) Hsent)
    as (parts & c' & Hst & Hparts & Hne & Hend).
  exists (body_chunk (hp_id response) body 0 0 :: parts), c'. split; [exact Hst|]. split; [|split].
  - cbn [concat]. rewrite Hparts. apply (take_drop_length _ body).
  - constructor; [|done]. intros En. apply (f_equal length) in En. unfold body_chunk in En. rewrite length_take, length_drop in En. cbn [length] in En. lia.
  - rewrite piece_messages_cons. rewrite <- !app_assoc in Hend. cbn [app length] in Hend |- *. rewrite Nat2Z.inj_succ. rewrite <- Z.add_1_l. exact Hend.
Qed.
End response.
