(* ===== verification/ExampleHistory.v ===== *)
(** A small git on which the properties of the file history are applied: it stages the
    text it is given, makes commits of it, lists them by path and shows their text. *)
From S2P Require Import Prelude JsString Utf8 NodePath Json VaultPath FileSystem IsoDate AuditLog FolderMetadata HistoryData Sha256 FileHistory HistoryPending HistoryFlush HistoryCommits HistoryRead ExampleVault.

(** * The host *)

#[export] Instance c_dates : DateHost := {|
  date_parse := fun s =>
    if jeqb s (toISOString 1700000000000) then Some 1700000000000%Z
    else if jeqb s (toISOString 1700000100000) then Some 1700000100000%Z
    else if jeqb s (toISOString 1700000400000) then Some 1700000400000%Z else None;
  number_parse := fun _ => NaN
|}.

Lemma c_uuid_fresh : uuid_fresh.
Proof.
  intros i j [= Hij]. assert (read_int (dec (Z.of_N i)) = read_int (dec (Z.of_N j))) as Heq.
  { destruct i, j; cbn [dec Z.of_N Z.to_N]; by rewrite <- ?Hij. }
  rewrite !read_int_dec in Heq. injection Heq. lia.
Qed.

(** * The small git *)

Record small_commit := { sc_id : jstr; sc_message : jstr; sc_path : jstr; sc_text : list N }.
(** Newest commit first. *)
Record small_repo := {
  sr_commits : list small_commit; sr_text : list N; sr_path : jstr; sr_journal : list git_call }.

(** The place of a commit in the order of commits, from one; zero for no commit. *)
Fixpoint small_age (cs : list small_commit) (id : jstr) : nat :=
  match cs with
  | [] => 0
  | c :: cs => if jeqb (sc_id c) id then S (length cs) else small_age cs id
  end.

Definition ok_out (f : tree) (r : small_repo) (out : list N) : child_exit * (tree * small_repo) := (Exited 0 out, (f, r)).

Definition log_line (c : small_commit) : list N :=
  encode (sc_id c ++ FIELD_SEPARATOR :: js "2024-01-01T00:00:00Z" ++ FIELD_SEPARATOR :: sc_message c ++ [COMMIT_SEPARATOR; LF]).

(** The commits of the path, before [rev] when there is one. *)
Definition small_log (r : small_repo) (rev : option jstr) (path : jstr) : list N :=
  let before := match rev with
                | None => sr_commits r
                | Some rev => List.filter (fun c => Nat.ltb (small_age (sr_commits r) (sc_id c))
                                             (small_age (sr_commits r) (removelast rev))) (sr_commits r)
                end in
  flat_map log_line (List.filter (fun c => jeqb (sc_path c) path) before).

(** [log_descends], as a test. *)
Definition descends (r : small_repo) (rev : option jstr) (out : list N) : bool :=
  match rev with
  | None => true
  | Some rev => forallb (fun record => Nat.ltb (small_age (sr_commits r) (lr_commitId record))
                                         (small_age (sr_commits r) (removelast rev))) (parse_log (decode out))
  end.

#[local] Arguments descends : simpl never.
#[local] Arguments small_log : simpl never.

Definition small_show (r : small_repo) (object : jstr) : option (list N) :=
  if starts_with object (js ":0:") then Some (sr_text r)
  else c ← find (fun c => jeqb (sc_id c ++ 58%N :: sc_path c) object) (sr_commits r); Some (sc_text c).

Definition small_process `{NodeHost} (c : git_call) (w : world) (r : small_repo) : child_exit * (tree * small_repo) :=
  let f := w_fs w in
  match drop 2 (gc_args c) with
  | sub :: args =>
      if jeqb sub (js "commit") then
        match args with
        | [_; subject; _; body] =>
            ok_out f {| sr_commits := {| sc_id := js "c" ++ dec (Z.of_nat (length (sr_commits r)));
                                         sc_message := subject ++ LF :: LF :: body; sc_path := sr_path r; sc_text := sr_text r |}
                                        :: sr_commits r;
                        sr_text := sr_text r; sr_path := sr_path r; sr_journal := sr_journal r ++ [c] |} []
        | _ => (Exited 129 [], (f, {| sr_commits := sr_commits r; sr_text := sr_text r; sr_path := sr_path r;
                                      sr_journal := sr_journal r ++ [c] |}))
        end
      else if jeqb sub (js "init") then ok_out (<[[js "vault"; js ".git"] := NDir 1]> f) r []
      else if jeqb sub (js "hash-object") then
        match node_at f (path_key (default [] (last args))) with
        | Some (NFile b _ _ _) =>
            ok_out f {| sr_commits := sr_commits r; sr_text := b; sr_path := sr_path r; sr_journal := sr_journal r |}
              (repeat 97%N 40)
        | _ => (Exited 128 [], (f, r))
        end
      else if jeqb sub (js "update-index") then
        ok_out f {| sr_commits := sr_commits r; sr_text := sr_text r; sr_path := default [] (last args);
                    sr_journal := sr_journal r |} []
      else if jeqb sub (js "show") then
        match small_show r (default [] (last args)) with Some out => ok_out f r out | None => (Exited 128 [], (f, r)) end
      else if jeqb sub (js "log") then
        let '(rev, path) := match args with
                            | [_; _; rev; _; path; _] => (Some rev, path)
                            | [_; _; _; path; _] => (None, path)
                            | _ => (None, [])
                            end in
        let out := small_log r rev path in
        if descends r rev out then ok_out f r out else (Exited 128 [], (f, r))
      else ok_out f r []
  | [] => (Exited 1 [], (f, r))
  end.

#[export] Instance small_git : GitTool := {| repo := small_repo; git_process := small_process |}.

Lemma small_journals : journals sr_journal.
Proof.
  intros [args env] w r. cbn [git_process small_git]. unfold small_process, is_commit. cbn [gc_args].
  destruct args as [|? [|? [|sub args]]]; cbn [drop lookup list_lookup from_option]; try by rewrite app_nil_r.
  destruct (jeqb sub (js "commit")); [by repeat case_match|]. rewrite app_nil_r. repeat case_match; done.
Qed.

(** The commits of the journal that this git has answered. *)
Definition well_formed_commit (c : git_call) : bool := Nat.eqb (length (drop 3 (gc_args c))) 4.
Definition answered_journal (r : small_repo) : list git_call := List.filter well_formed_commit (sr_journal r).

Lemma small_journals_answered : journals_answered answered_journal.
Proof.
  intros [args env] w r. cbn [git_process small_git]. unfold small_process, is_commit, answered_journal, well_formed_commit. cbn [gc_args].
  destruct args as [|? [|? [|sub args]]]; cbn [drop lookup list_lookup from_option andb]; try by rewrite app_nil_r.
  change (js "commit") with (js "commit"). destruct (jeqb sub (js "commit")) eqn:E; cbn [andb].
  - destruct args as [|? [|? [|? [|? [|? ?]]]]]; cbn [snd fst ok_out sr_journal]; by rewrite List.filter_app.
  - rewrite app_nil_r. repeat case_match; done.
Qed.

Lemma small_log_descends : log_descends (fun r => small_age (sr_commits r)).
Proof.
  intros root current rev w r. cbn [git_process small_git]. unfold small_process, log_call, git_args, log_args.
  cbn [gc_args app drop]. change (jeqb (js "log") (js "commit")) with false. cbv iota.
  change (jeqb (js "log") (js "init")) with false. change (jeqb (js "log") (js "hash-object")) with false.
  change (jeqb (js "log") (js "update-index")) with false. change (jeqb (js "log") (js "show")) with false.
  change (jeqb (js "log") (js "log")) with true. cbv iota. destruct rev as [rev|];
    [change (option_list (Some rev)) with [rev]|change (option_list None) with (@nil jstr)]; cbn [app]; cbv beta iota zeta.
  - destruct (descends r (Some rev) (small_log r (Some rev) current)) eqn:Ed; unfold ok_out; (split; [done|]); intros c out [= ->] [= <-].
    unfold descends in Ed. apply forallb_Forall in Ed. eapply Forall_impl; [exact Ed|]. intros x Hx.
    change (js "^") with [94%N] in Hx. cbv beta in Hx. rewrite removelast_last in Hx. by apply Nat.ltb_lt.
  - cbn [descends]. split; done.
Qed.

Definition small_start : small_repo := {| sr_commits := []; sr_text := []; sr_path := []; sr_journal := [] |}.

(** * A history *)

Definition example_root_path : jstr := js "/vault".
Definition note : jstr := js "a.md".
Definition example_actor (name : jstr) : VaultActor :=
  {| a_kind := AcUser; a_id := None; a_name := Some name; a_client := None |}.
Definition version (op : FileHistoryOperation) (text name : jstr) (t : Z) : RecordFileHistoryInput :=
  {| ri_path := note; ri_operation := op; ri_actor := Some (example_actor name); ri_content := text;
     ri_now := Some t; ri_coalesceWindowMs := None |}.
Definition flush_all : FlushFileHistoryInput := {| fl_paths := None; fl_now := None |}.

Definition start : history_state := empty_history vault_world small_start.
Definition first_bucket : list RecordFileHistoryInput :=
  [version HCreate (js "alpha") (js "Ada") 1700000100000; version HUpdate (js "beta") (js "Bob") 1700000150000;
   version HUpdate (js "gamma") (js "Ada") 1700000160000].
Definition waiting_ops : list history_op := map (RecordOp example_root_path) first_bucket.
(** Evaluated here, once. *)
Definition waiting_state : history_state := Eval vm_compute in fold_left run_history_op waiting_ops start.
Definition flushed_state : history_state := Eval vm_compute in
  fold_left run_history_op
    [FlushOp example_root_path flush_all;
     RecordOp example_root_path (version HUpdate (js "delta") (js "Eve") 1700000400000);
     FlushOp example_root_path flush_all] waiting_state.

Definition list_all : ListFileHistoryInput := {| lh_path := note; lh_before := None; lh_beforeId := None; lh_limit := None |}.

(** Two versions are committed and none waits; the newest first, each with its own
    operation, size and contributors. *)
Example history_listed :
  match listFileHistory 5 example_root_path list_all flushed_state with
  | (Ok (VOk page), _) =>
      map (fun e => (he_operation e, he_size e, he_createdAt e, map a_name (default [] (he_contributors e)))) (hp_entries page)
      = [(HUpdate, Int 5, toISOString 1700000400000, [Some (js "Eve")]);
         (HCreate, Int 5, toISOString 1700000100000, [Some (js "Ada"); Some (js "Bob")])]
      /\ hp_hasMore page = false
  | _ => False
  end.
Proof. vm_compute. done. Qed.

(** The text of the first version, although the second is the last. *)
Example history_read :
  match readFileHistoryVersion 5 example_root_path {| rv_path := note; rv_id := js "pending-id0" |} flushed_state with
  | (Ok (VOk v), _) => hv_available v = true /\ hv_content v = Some (js "gamma") /\ he_pending (hv_entry v) = None
  | _ => False
  end.
Proof. vm_compute. done. Qed.

(** * Witnesses *)

Lemma history_ops_keep_pending_witness :
  history_ok (fold_left run_history_op (waiting_ops ++ [FlushOp example_root_path flush_all]) start).
Proof. exact (history_ops_keep_pending c_uuid_fresh vault_world small_start (waiting_ops ++ [FlushOp example_root_path flush_all])). Defined.

Lemma flush_removes_committed_witness :
  exists r s', flushFileHistory example_root_path flush_all waiting_state = (r, s') /\
    root_pending s' example_root_path = [] /\ length (commits answered_journal s') = 1 /\ is_ok r = true.
Proof.
  assert (exists sel, selectPendingEntries (root_pending waiting_state example_root_path) (fl_paths flush_all) = Ok sel)
    as [sel Hsel] by (vm_compute; eauto).
  destruct (flush_removes_committed (H3 := small_git) answered_journal example_root_path flush_all waiting_state sel small_journals_answered Hsel)
    as (r & s' & k & staged & Hrun & _).
  exists r, s'. split; [exact Hrun|].
  assert ((flushFileHistory example_root_path flush_all waiting_state).2 = s') as <- by by rewrite Hrun.
  assert ((flushFileHistory example_root_path flush_all waiting_state).1 = r) as <- by by rewrite Hrun.
  repeat split; by vm_compute.
Defined.

Lemma lex_anti a b : locale_compare (Host := c_host) a b = Gt -> locale_compare (Host := c_host) b a <> Gt.
Proof. cbn [locale_compare c_host]. intros Hab. rewrite lex_compare_opp, Hab. done. Qed.

(** An answer, from a test of it that evaluates. *)
Lemma answer_of {E A S} (p : A -> bool) (r : result E (VaultResult A) * S) :
  match r.1 with Ok (VOk v) => p v | _ => false end = true -> exists v, r = (Ok (VOk v), r.2) /\ p v = true.
Proof. destruct r as [[[v| ]|] s]; try done. by exists v. Qed.

Definition one_flushed (v : FlushFileHistoryValue) : bool := negb (fv_unavailable v) && Nat.eqb (fv_flushed v) 1.

Lemma flushFileHistory_commits_witness :
  exists sel staged, length sel = 1 /\
    commits sr_journal (flushFileHistory example_root_path flush_all waiting_state).2
    = zip_with (fun (ke : jstr * PendingHistoryEntry) t => commit_call example_root_path None ke.2 t) sel staged.
Proof.
  destruct (answer_of one_flushed (flushFileHistory example_root_path flush_all waiting_state)) as (v & Hrun & Hv);
    [by vm_compute|]. apply andb_true_iff in Hv as [Hav%negb_true_iff Hn%Nat.eqb_eq].
  destruct (flushFileHistory_commits (H3 := small_git) sr_journal small_journals example_root_path flush_all waiting_state v _ lex_anti Hrun Hav)
    as (sel & staged & _ & _ & _ & Hflushed & Hc).
  exists sel, staged. split; [congruence|]. rewrite Hc.
  assert (commits sr_journal waiting_state = []) as -> by by vm_compute. apply app_nil_l.
Defined.

Lemma versions_coalesce_witness :
  exists s' e, record_all example_root_path first_bucket start = (Ok tt, s') /\
    root_pending s' example_root_path = [(pendingKey note (toISOString 1700000100000), e)] /\ pe_operation e = HCreate.
Proof.
  destruct (versions_coalesce example_root_path note (toISOString 1700000100000) first_bucket
    (version HUpdate (js "gamma") (js "Ada") 1700000160000) start) as (s' & e & Hrun & Hroot & Hof & _).
  - repeat apply Forall_cons_2; try apply Forall_nil_2; (split; [by vm_compute|eexists; split; [reflexivity|by vm_compute]]).
  - done.
  - by vm_compute.
  - exists s', e. split_and!; [done|by rewrite Hroot|]. by rewrite (eof_operation _ _ _ _ _ _ Hof).
Defined.

Definition answered {A S} (r : result hexn (list A) * S) : list A := match r.1 with Ok l => l | Err _ => [] end.
Definition found : list FileHistoryEntry := Eval vm_compute in answered (history_entries 5 example_root_path note flushed_state).

Lemma found_run : history_entries 5 example_root_path note flushed_state = (Ok found, flushed_state).
Proof. vm_cast_no_check (eq_refl (Ok found : result hexn (list FileHistoryEntry), flushed_state)). Qed.

Lemma found_orderly : orderly found.
Proof.
  split; [|done|].
  - assert (forallb (fun e => bool_decide (is_Some (entry_time e))) found = true) as Hb by by vm_compute.
    apply forallb_Forall in Hb. eapply Forall_impl; [exact Hb|]. intros e He. by apply bool_decide_eq_true in He.
  - refine (bool_decide_eq_true_1 _ _). by vm_compute.
Qed.

(** One entry a page. *)
Lemma list_pages_enumerate_witness :
  exists l, list_pages 3 5 example_root_path note (Some (Int 1)) None None flushed_state = (Ok l, flushed_state) /\ length l = 2.
Proof.
  destruct (list_pages_enumerate 3 5 example_root_path note (Some (Int 1)) found flushed_state) as (l & Hl & Hperm & _).
  - by vm_compute.
  - exact found_run.
  - exact found_orderly.
  - by vm_compute.
  - by vm_compute; lia.
  - exists l. split; [exact Hl|]. rewrite Hperm. by vm_compute.
Defined.

Definition chain : list CommittedHistoryRecord := Eval vm_compute in answered (readCommittedHistory 5 example_root_path note flushed_state).

Lemma chain_run : readCommittedHistory 5 example_root_path note flushed_state = (Ok chain, flushed_state).
Proof. vm_cast_no_check (eq_refl (Ok chain : result hexn (list CommittedHistoryRecord), flushed_state)). Qed.

Lemma readCommittedHistory_chain_witness :
  length chain = 2 /\ NoDup (map (fun r => he_commitId (cr_entry r)) chain).
Proof.
  split; [by vm_compute|].
  destruct (readCommittedHistory_chain 5 example_root_path note flushed_state chain flushed_state) as [Hnd _];
    [by vm_compute|exact chain_run|exact Hnd].
Defined.

Lemma readCommittedHistory_terminates_witness :
  exists n l s', forall fuel, n <= fuel -> readCommittedHistory fuel example_root_path note flushed_state = (Ok l, s').
Proof. exact (readCommittedHistory_terminates _ small_log_descends example_root_path note flushed_state). Defined.

Definition first_version : ReadFileHistoryVersionInput := {| rv_path := note; rv_id := js "pending-id0" |}.

Lemma readFileHistoryVersion_outcomes_witness :
  exists v, readFileHistoryVersion 5 example_root_path first_version flushed_state
            = (Ok (VOk v), (readFileHistoryVersion 5 example_root_path first_version flushed_state).2) /\
    he_path (hv_entry v) = note.
Proof.
  destruct (answer_of hv_available (readFileHistoryVersion 5 example_root_path first_version flushed_state)) as (v & Hrun & _);
    [by vm_compute|]. exists v. split; [exact Hrun|].
  assert (validateVaultPath Posix (rv_path first_version) PKFile = Ok note) as Hnote by by vm_compute.
  destruct (readFileHistoryVersion_outcomes 5 example_root_path first_version note flushed_state _ _ Hnote Hrun) as (_ & Hp & _).
  exact Hp.
Defined.
