(* ===== verification/Examples.v ===== *)
(** The properties of the vault, applied to the example vault of [ExampleVault.v]. *)
From S2P Require Import Prelude JsString Utf8 NodePath Json VaultPath Splice Artifact FileSystem IsoDate AuditLog FolderMetadata.
From S2P Require Import VaultOps VaultCalls Confinement CallEffects VaultView VaultErrors MetadataStore VaultListing Search ExampleVault.

(** * Paths and splices *)

Lemma valid_path_not_internal_witness : isInternalVaultPath (js "notes/a.md") = false.
Proof. apply (valid_path_not_internal Posix PKFile (js "notes/a.md")). by vm_compute. Defined.

Lemma resolveVaultPath_valid_witness :
  resolveVaultPath (js "/home/u") (js "vault") (js "notes/a.md")
    = Ok (resolve (js "/home/u") [js "vault"] ++ slash :: js "notes/a.md").
Proof.
  apply (resolveVaultPath_valid Posix PKFile); [by vm_compute|by vm_compute|].
  by apply (validate_ok Posix PKFile (js "notes/a.md") (js "notes/a.md")); vm_compute.
Defined.

Lemma resolveVaultPath_contained_witness :
  js "/v/notes/b.md" = resolve (js "/") [js "v"] \/ exists t, js "/v/notes/b.md" = resolve (js "/") [js "v"] ++ slash :: t.
Proof. apply (resolveVaultPath_contained (js "/") (js "v") (js "notes/./x/../b.md")). by vm_compute. Defined.

Lemma findAllSubstringOffsets_occurrences_witness :
  findAllSubstringOffsets (js "banana") (js "ana") = occurrences (js "banana") (js "ana").
Proof. by apply (findAllSubstringOffsets_occurrences (js "banana") (js "ana")). Defined.

(** * Confinement *)

Definition write_b : WriteFileInput := {| wi_path := js "drafts/b.md"; wi_content := js "new"; wi_overwrite := false |}.
Definition write_a : WriteFileInput := {| wi_path := js "notes/a.md"; wi_content := js "new"; wi_overwrite := false |}.
Definition delete_a : DeleteFileInput := {| dfi_path := js "notes/a.md"; dfi_permanent := false |}.
Definition delete_notes : DeleteFolderInput :=
  {| dpi_path := js "notes"; dpi_recursive := true; dpi_permanent := false |}.
Definition move_a : MoveInput :=
  {| mi_fromPath := js "notes/a.md"; mi_toPath := js "c.md"; mi_kind := EkFile; mi_overwrite := false |}.
Definition move_notes : MoveInput :=
  {| mi_fromPath := js "notes"; mi_toPath := js "ideas"; mi_kind := EkFolder; mi_overwrite := false |}.
Definition move_a_onto_a : MoveInput :=
  {| mi_fromPath := js "notes/a.md"; mi_toPath := js "notes/a.md"; mi_kind := EkFile; mi_overwrite := true |}.

Definition some_calls : list vault_call :=
  [CWrite write_b; CMove move_notes; CDeleteFile {| dfi_path := js "drafts/b.md"; dfi_permanent := false |}; CListMetadata].

Lemma operations_stay_in_vault_witness :
  vault_tree vault_base (w_fs (run_calls vault_ctx some_calls vault_world)) /\
  forall k, below vault_base k = false ->
    w_fs (run_calls vault_ctx some_calls vault_world) !! k = w_fs vault_world !! k.
Proof. exact (operations_stay_in_vault vault_ctx vault_base example_root c_uuid_plain some_calls vault_world example_tree). Defined.

(** * The refinements *)

Ltac answered call :=
  let v := fresh "v" in let Hv := fresh "Hv" in
  destruct (answer call ltac:(vm_compute; reflexivity)) as [v Hv]; exists v; split; [exact Hv|].

Lemma writeVaultFile_refines_witness :
  let r := writeVaultFile vault_ctx write_b vault_world in
  exists v, r = (Ok (VOk v), r.2) /\
    forall k, view vault_base (w_fs r.2) k
      = spec_write [js "drafts"; js "b.md"] (js "new") (view vault_base (w_fs vault_world)) k.
Proof.
  intros r. answered r.
  exact (proj1 (writeVaultFile_refines vault_ctx vault_base example_root _ _ _ _ example_tree Hv)).
Defined.

Lemma writeVaultFile_readVaultFile_witness :
  let r := writeVaultFile vault_ctx write_b vault_world in
  exists v, r = (Ok (VOk v), r.2) /\
    readVaultFile vault_ctx (js "drafts/b.md") r.2 =
      (Ok (VOk {| rf_path := js "drafts/b.md"; rf_content := js "new";
                  rf_size := wf_size v; rf_mtimeMs := wf_mtimeMs v |}), r.2).
Proof.
  intros r. answered r.
  apply (writeVaultFile_readVaultFile vault_ctx vault_base example_root write_b vault_world v r.2 example_tree Hv);
    by vm_compute.
Defined.

Definition write_png : WriteRawInput := {| wri_path := js "a.png"; wri_bytes := [137; 80; 0]%N; wri_overwrite := false |}.

Lemma writeVaultRawFile_refines_witness :
  let r := writeVaultRawFile vault_ctx write_png vault_world in
  exists v, r = (Ok (VOk v), r.2) /\
    forall k, view vault_base (w_fs r.2) k
      = spec_write [js "a.png"] [137; 80; 0]%N (view vault_base (w_fs vault_world)) k.
Proof.
  intros r. answered r.
  exact (proj1 (writeVaultRawFile_refines vault_ctx vault_base example_root _ _ _ _ example_tree Hv)).
Defined.

Lemma makeVaultFolder_refines_witness :
  let r := makeVaultFolder vault_ctx (js "x/y") vault_world in
  exists v, r = (Ok (VOk v), r.2) /\
    forall k, view vault_base (w_fs r.2) k
      = spec_folders [js "x"; js "y"] (view vault_base (w_fs vault_world)) k.
Proof.
  intros r. answered r.
  exact (proj1 (makeVaultFolder_refines vault_ctx vault_base example_root _ _ _ _ example_tree Hv)).
Defined.

Lemma deleteVaultFile_refines_witness :
  let r := deleteVaultFile vault_ctx delete_a vault_world in
  exists v, r = (Ok (VOk v), r.2) /\
    forall k, view vault_base (w_fs r.2) k
      = spec_remove [js "notes"; js "a.md"] (view vault_base (w_fs vault_world)) k.
Proof.
  intros r. answered r.
  exact (proj1 (proj2 (deleteVaultFile_refines vault_ctx vault_base example_root c_uuid_plain _ _ _ _ example_tree Hv))).
Defined.

Lemma deleteVaultFolder_refines_witness :
  let r := deleteVaultFolder vault_ctx delete_notes vault_world in
  exists v, r = (Ok (VOk v), r.2) /\
    forall k, view vault_base (w_fs r.2) k = spec_remove [js "notes"] (view vault_base (w_fs vault_world)) k.
Proof.
  intros r. answered r.
  exact (proj1 (proj2 (proj2 (deleteVaultFolder_refines vault_ctx vault_base example_root c_uuid_plain
    _ _ _ _ example_tree c_readdir_order Hv)))).
Defined.

Lemma moveVaultPath_refines_witness :
  let r := moveVaultPath vault_ctx move_notes vault_world in
  exists v, r = (Ok (VOk v), r.2) /\
    forall k, view vault_base (w_fs r.2) k
      = spec_move [js "notes"] [js "ideas"] (spec_remove [js "ideas"] (view vault_base (w_fs vault_world))) k.
Proof.
  intros r. answered r.
  exact (proj1 (moveVaultPath_refines vault_ctx vault_base example_root c_uuid_plain _ _ _ _ example_tree Hv)).
Defined.

Lemma moveVaultPath_onto_itself_destroys_witness :
  moveVaultPath vault_ctx move_a_onto_a vault_world =
    (Err (ExNode ENOENT), set_fs (remove_tree vault_files (vault_base ++ [js "notes"; js "a.md"])) vault_world).
Proof.
  refine (moveVaultPath_onto_itself_destroys vault_ctx vault_base example_root move_a_onto_a
    (NFile note_text 5 5 7) vault_world example_tree _ eq_refl eq_refl eq_refl _ eq_refl).
  - by apply (validate_ok Posix PKFile (js "notes/a.md") (js "notes/a.md")); vm_compute.
  - by vm_compute.
Defined.

(** * Errors *)

Lemma readVaultFile_outcomes_witness :
  readVaultFile vault_ctx (js "notes/missing.md") vault_world
    = (Ok (VFail not_found (js "file not found")), vault_world).
Proof.
  etransitivity; [apply (readVaultFile_outcomes vault_ctx vault_base example_root); apply example_tree|].
  by vm_compute.
Defined.

Lemma writeVaultFile_refusals_witness :
  writeVaultFile vault_ctx write_a vault_world = (Ok (VFail already_exists (js "file already exists")), vault_world).
Proof.
  refine (proj1 (proj2 (proj2 (writeVaultFile_refusals vault_ctx vault_base example_root write_a vault_world _) _) _) _ _).
  - apply example_tree.
  - by vm_compute.
  - by vm_compute.
  - by vm_compute; eexists.
  - reflexivity.
Defined.

Definition move_missing : MoveInput :=
  {| mi_fromPath := js "ghost.md"; mi_toPath := js "c.md"; mi_kind := EkFile; mi_overwrite := false |}.

Lemma moveVaultPath_refusals_witness :
  moveVaultPath vault_ctx move_missing vault_world = (Ok (VFail not_found (js "file not found")), vault_world).
Proof.
  refine (proj1 (proj2 (moveVaultPath_refusals vault_ctx vault_base example_root move_missing vault_world _ _ _) _ _) _).
  - apply example_tree.
  - by apply (validate_ok Posix PKFile (js "ghost.md") (js "ghost.md")); vm_compute.
  - by apply (validate_ok Posix PKFile (js "c.md") (js "c.md")); vm_compute.
  - done.
  - by vm_compute.
  - by vm_compute.
Defined.

(** * Folder metadata *)

Definition red : FolderMetadataInput := {| in_color := Some (VStr (js "#F00")) |}.

Lemma setFolderMetadata_getFolderMetadata_witness :
  let r := setFolderMetadata vault_ctx (js "notes") red vault_world in
  exists v, r = (Ok (VOk v), r.2) /\
    getFolderMetadata vault_ctx (js "notes") r.2 =
      (Ok (VOk {| fv_path := js "notes"; fv_metadata := fv_metadata v; fv_audit := None |}), r.2).
Proof.
  intros r. answered r.
  edestruct (setFolderMetadata_getFolderMetadata vault_ctx vault_base example_root c_uuid_plain c_yaml_round_trip
    (js "notes") red example_map vault_world v r.2 example_tree example_metadata example_stored) as [Hget _].
  - by vm_compute.
  - by vm_compute.
  - by vm_compute.
  - exact Hv.
  - exact Hget.
Defined.

Lemma moveVaultPath_moves_metadata_witness :
  let r := moveVaultPath vault_ctx move_notes vault_world in
  exists m', listFolderMetadata vault_ctx r.2 = (Ok (VOk m'), r.2) /\
    fm_own m' !! js "ideas" = fm_own example_map !! js "notes".
Proof.
  intros r. destruct (answer r ltac:(vm_compute; reflexivity)) as [v Hv].
  edestruct (moveVaultPath_moves_metadata vault_ctx vault_base example_root c_uuid_plain
    c_yaml_round_trip move_notes example_map vault_world v r.2 example_tree example_metadata example_stored)
    as (m' & Hm' & Hk).
  - by vm_compute.
  - by vm_compute.
  - by vm_compute.
  - intros k u s Hk Hs. cbn [fm_own example_map own_map] in Hk. apply lookup_singleton_Some in Hk as [<- _].
    vm_compute in Hs. injection Hs as <-. by vm_compute.
  - reflexivity.
  - exact Hv.
  - exists m'. split; [exact Hm'|]. exact (Hk (js "ideas") eq_refl).
Defined.

Lemma deleteVaultFolder_drops_metadata_witness :
  let r := deleteVaultFolder vault_ctx delete_notes vault_world in
  exists m', listFolderMetadata vault_ctx r.2 = (Ok (VOk m'), r.2) /\ fm_own m' !! js "notes" = None.
Proof.
  intros r. destruct (answer r ltac:(vm_compute; reflexivity)) as [v Hv].
  edestruct (deleteVaultFolder_drops_metadata vault_ctx vault_base example_root c_uuid_plain
    c_yaml_round_trip delete_notes example_map vault_world v r.2 example_tree example_metadata example_stored)
    as (m' & Hm' & Hk).
  - exact Hv.
  - exists m'. split; [exact Hm'|]. etransitivity; [exact (Hk (js "notes"))|by vm_compute].
Defined.

(** * Listing and search *)

Definition list_all : ListInput := {| li_under := None; li_depth := None; li_entryCap := None |}.

Lemma listVaultTree_complete_witness :
  exists l, NoDup (map ve_path l) /\ (forall e, e ∈ l <-> listed vault_base (w_fs vault_world) [] DEFAULT_DEPTH e) /\
    listVaultTree vault_ctx list_all vault_world =
      (Ok (if (Z.of_nat (length l) <? DEFAULT_ENTRY_CAP)%Z then VOk (attachFolderMetadata l example_map)
           else VFail entry_cap_exceeded (js "tree exceeds " ++ dec DEFAULT_ENTRY_CAP ++ js " entries")), vault_world).
Proof.
  refine (listVaultTree_complete vault_ctx vault_base example_root list_all example_map vault_world
    example_tree c_readdir_order eq_refl eq_refl _ example_metadata).
  exists 1%Z. by vm_compute.
Defined.

Lemma getVaultInfo_counts_witness :
  exists l, NoDup (map ve_path l) /\ (forall e, e ∈ l <-> listed vault_base (w_fs vault_world) [] MAX_SAFE_INTEGER e) /\
    getVaultInfo vault_ctx vault_world =
      (Ok (if (Z.of_nat (length l) <? DEFAULT_ENTRY_CAP)%Z
           then VOk {| rootName := js "vault"; fileCount := count_kind EkFile l; folderCount := count_kind EkFolder l |}
           else VFail entry_cap_exceeded (js "vault exceeds 5000 entries")), vault_world).
Proof. exact (getVaultInfo_counts vault_ctx vault_base example_root vault_world example_tree c_readdir_order). Defined.

Definition search_beta : SearchInput :=
  {| si_q := js "Beta"; si_under := None; si_context := None; si_limit := None; si_offset := None |}.

Lemma searchVaultFiles_page_witness :
  exists files r, searchVaultFiles (VaultOps.root vault_ctx) search_beta vault_world = (Ok r, vault_world) /\
    sr_total r = Z.of_nat (length (flat_map (fun p => file_hits (js "beta") 2 p
      (content_of vault_base (w_fs vault_world) p)) files)) /\ NoDup files.
Proof.
  destruct (searchVaultFiles_page (VaultOps.root vault_ctx) vault_base example_root search_beta vault_world
    example_tree c_readdir_order ltac:(by vm_compute) ltac:(by vm_compute) ltac:(exists 1%Z; by vm_compute))
    as (files & r & Hr & _ & Ht & _ & _ & Hnd & _).
  exists files, r. split; [exact Hr|]. split; [exact Ht|exact Hnd].
Defined.

Lemma search_hit_quotes_line_witness :
  exists before after, split_on 10%N note_text = before ++ js "beta gamma" :: after.
Proof.
  edestruct (search_hit_quotes_line (js "beta") 0 (js "notes/a.md") note_text) as (before & after & Hs & _).
  - apply list_elem_of_here.
  - exists before, after. exact Hs.
Defined.

(** * Audit *)

Definition example_entry : AuditEntry := {|
  ae_id := js "id0"; ae_ts := js "2024-01-01T00:00:00.000Z"; ae_actor := bare_actor AcSystem; ae_operation := OpWrite;
  ae_entityKind := EkFile; ae_path := js "notes/a.md"; ae_fromPath := None; ae_toPath := None; ae_summary := js "wrote" |}.

Lemma audit_line_round_trip_witness :
  json_parse (default [] (stringify (entry_value example_entry))) = Some (entry_value example_entry).
Proof. apply (audit_line_round_trip example_entry); by vm_compute. Defined.
