(* ===== verification/ExampleSession.v ===== *)
(** Document sessions at concrete inputs: a document that is its text, a session on it, the
    properties applied to it, and what happens in the situations the properties exclude. *)
From S2P Require Import Prelude JsString Utf8 Splice Base64 Json Sha256 SessionProtocol SessionMessages ExampleVault DocSession DocSessionProps DocSessionLiveness DocSessionReconcile.

(** * A document that is its text *)

Definition apply_operation (t : jstr) (op : text_operation) : jstr :=
  match op with
  | TextInsert i c => take i t ++ c ++ drop i t
  | TextDelete i n => take i t ++ drop (i + n) t
  | TextDelta delta => apply_delta delta t
  end.

Definition units (d : list N) : jstr := List.filter is_unit d.
Definition becomes (d : list N) (t : jstr) : list N * bool := (t, negb (jeqb (units t) (units d))).

(** The state of a document is the UTF-8 of its text, an update brings a whole text. *)
#[export] Instance text_yjs : Yjs := {|
  ydoc := list N;
  y_new := [];
  y_text := units;
  y_transact d ops := becomes d (fold_left apply_operation ops (units d));
  y_applyUpdate d u := (becomes d (decode u), false);
  y_encodeStateVector d := encode (units d);
  y_encodeStateAsUpdate d := encode (units d)
|}.

#[export] Instance whole_diff : FastDiff := {| fast_diff a b := [(DiffDelete, a); (DiffInsert, b)] |}.

Lemma units_jstr d : is_jstr (units d) = true.
Proof. unfold is_jstr, units. apply forallb_forall. intros x [_ Hx]%filter_In. done. Qed.

Lemma units_id c : is_jstr c = true -> units c = c.
Proof. unfold units, is_jstr. induction c as [|x c IH]; [done|]. cbn. intros [-> Hc]%andb_true_iff. by rewrite IH. Qed.

#[export] Instance text_yjs_laws : YjsLaws.
Proof.
  split.
  - exact units_jstr.
  - done.
  - intros d ops d' [= <- Hq]. by apply negb_false_iff, jeqb_eq in Hq.
  - intros d u d' threw [= <- Hq _]. by apply negb_false_iff, jeqb_eq in Hq.
  - intros d c Hd Hc. cbn in *. rewrite Hd. cbn. rewrite app_nil_r. by apply units_id.
  - intros d c Hc. unfold y_text, y_transact, text_yjs, becomes. cbn [fst fold_left apply_operation]. rewrite drop_ge, !take_0 by lia.
    cbn. rewrite app_nil_r. by apply units_id.
Qed.

Lemma apply_delta_jstr delta t : is_jstr t = true -> delta_fits delta t -> is_jstr (apply_delta delta t) = true.
Proof.
  revert t. induction delta as [|[n|c|n] delta IH]; cbn; intros t Ht Hfit; [done|..]; destruct_and?.
  - rewrite <- (take_drop n t), is_jstr_app in Ht. to_prop. rewrite is_jstr_app, IH by done. by rewrite andb_true_r.
  - unfold proper in *. to_prop. by rewrite is_jstr_app, IH, andb_true_r by done.
  - rewrite <- (take_drop n t), is_jstr_app in Ht. to_prop. by apply IH.
Qed.

#[export] Instance text_yjs_delta : YjsDeltaLaw.
Proof. split. intros d delta Hfit. cbn in *. apply units_id, apply_delta_jstr; [apply units_jstr|done]. Qed.

#[export] Instance whole_diff_laws : FastDiffLaws.
Proof. split; intros a b; cbn; rewrite ?app_nil_r; [done..|]. intros. by repeat constructor. Qed.

(** * Messages *)

(** Numbers in groups of seven bits, the lowest first; strings and bytes after their length. *)
Fixpoint write_groups (fuel : nat) (n : N) : list N :=
  match fuel with
  | O => []
  | S fuel => (if n <? 128 then [n] else (n mod 128 + 128) :: write_groups fuel (n / 128))%N
  end.
Fixpoint read_groups (bs : list N) : option (N * list N) :=
  match bs with
  | [] => None
  | b :: bs => if (b <? 128)%N then Some (b, bs) else '(n, bs) ← read_groups bs; Some (b - 128 + 128 * n, bs)%N
  end.
Definition write_number (n : N) : list N := write_groups (S (N.to_nat (N.size n))) n.
Definition read_sized (bs : list N) : option (list N * list N) :=
  '(n, bs) ← read_groups bs;
  if (N.of_nat (length bs) <? n)%N then None else Some (take (N.to_nat n) bs, drop (N.to_nat n) bs).

#[export] Instance lib0 : Lib0 := {|
  writeVarUint := write_number;
  writeVarString s := write_number (N.of_nat (length (encode s))) ++ encode s;
  writeVarUint8Array b := write_number (N.of_nat (length b)) ++ b;
  readVarUint := read_groups;
  readVarString bs := '(b, bs) ← read_sized bs; Some (decode b, bs);
  readVarUint8Array := read_sized
|}.

Lemma read_write_groups fuel n rest : (n < 2 ^ N.of_nat fuel)%N -> 0 < fuel -> read_groups (write_groups fuel n ++ rest) = Some (n, rest).
Proof.
  revert n. induction fuel as [|fuel IH]; intros n Hn Hf; [lia|]. cbn [write_groups].
  destruct (N.ltb_spec n 128); cbn [app read_groups].
  - by rewrite (proj2 (N.ltb_lt n 128)) by done.
  - pose proof (N.mod_lt n 128 ltac:(lia)). rewrite (proj2 (N.ltb_ge (n mod 128 + 128) 128)) by apply N.le_add_l.
    rewrite Nat2N.inj_succ, N.pow_succ_r' in Hn. destruct fuel as [|fuel]; [cbn in Hn; lia|].
    rewrite IH; [|apply N.Div0.div_lt_upper_bound; lia|lia]. cbn. do 2 f_equal. pose proof (N.div_mod n 128 ltac:(lia)). rewrite N.add_sub. rewrite N.add_comm. symmetry. exact H1.
Qed.

Lemma read_write_number n rest : read_groups (write_number n ++ rest) = Some (n, rest).
Proof. apply read_write_groups; [|lia]. rewrite Nat2N.inj_succ, N.pow_succ_r'. rewrite N2Nat.id. pose proof (N.size_gt n). lia. Qed.

Lemma read_write_sized b rest : read_sized ((write_number (N.of_nat (length b)) ++ b) ++ rest) = Some (b, rest).
Proof.
  unfold read_sized. rewrite <- app_assoc, read_write_number. cbn. rewrite (proj2 (N.ltb_ge (N.of_nat (length (b ++ rest))) (N.of_nat (length b)))) by (rewrite length_app; lia).
  by rewrite Nat2N.id, take_app_length, drop_app_length.
Qed.

#[export] Instance lib0_laws : Lib0Laws.
Proof.
  split; intros.
  - apply read_write_number.
  - unfold readVarString, writeVarString, lib0. rewrite read_write_sized. cbn [mbind option_bind]. by rewrite decode_encode.
  - apply read_write_sized.
Qed.

Definition moved_event : DocumentSessionEvent :=
  {| ev_kind := DocMoved; ev_path := js "b.md"; ev_ts := Int 7; ev_fromPath := Some (js "a.md"); ev_toPath := Some (js "b.md");
     ev_attribution := Some LOCAL_USER_DOCUMENT_UPDATE_ATTRIBUTION; ev_persistedContent := None |}.

Lemma decode_encode_updates_witness :
  exists body, has_body (encodeAckedSyncUpdate {| au_ackId := js "a1"; au_update := [1; 200]%N |} ++ []) MESSAGE_ACKED_SYNC_UPDATE body /\
    decodeAckedSyncUpdate body = Ok (Some {| au_ackId := js "a1"; au_update := [1; 200]%N |}).
Proof.
  exact (proj1 (decode_encode_updates (js "a1") (Int 5) LOCAL_AGENT_DOCUMENT_UPDATE_ATTRIBUTION [1; 200]%N []
    eq_refl ltac:(done) eq_refl eq_refl eq_refl ltac:(repeat constructor))).
Defined.

Lemma decode_encode_event_witness :
  exists body, has_body (encodeSessionEvent moved_event ++ [0%N]) MESSAGE_SESSION_EVENT body /\
    decodeSessionEvent body = Ok (Some {| ev_kind := DocMoved; ev_path := js "b.md"; ev_ts := Int 7;
      ev_fromPath := Some (js "a.md"); ev_toPath := Some (js "b.md"); ev_attribution := None; ev_persistedContent := None |}).
Proof. exact (decode_encode_event moved_event [0%N] eq_refl). Defined.

(** * A session *)

Fixpoint session_trace `{Yjs, FastDiff, JsonHost} (w : world) (es : list event) : option world :=
  match es with [] => Some w | e :: es => w' ← session_step w e; session_trace w' es end.

Definition note : jstr := js "/v/n.md".
Definition start (state : option jstr) (content : jstr) : world :=
  new_world (new_session note (js "n.md") state []) (<[note := encode content]> ∅).

Definition open_events (state : bool) : list event :=
  [EvOpen false; EvOpenGo IoRead; EvOpenGo IoOk] ++ (if state then [EvOpenGo IoRead; EvOpenGo IoOk; EvOpenGo IoRename; EvOpenGo IoOk] else [EvOpenGo IoOk])
  ++ [EvOpenGo IoOk].

(** One turn of the persist loop in which all goes well, without and with a file for snapshots. *)
Definition turn : list event := map EvPersistGo [IoRead; IoOk; IoRename; IoOk; IoOk; IoOk].
Definition turn_with_state : list event := map EvPersistGo [IoRead; IoOk; IoRename; IoOk; IoRename; IoOk; IoOk].
Definition edit (content : jstr) : event := EvApplyContent content None.
Definition state_path : jstr := js "/v/.kb1/doc-session-state/n.json".

(** What can be seen of a world. *)
Record view := {
  v_text : jstr;
  v_file : option jstr;
  v_saved : option jstr;
  v_flushes : list flush_state;
  v_at_rest : bool;
  v_failure : bool;
  v_deleted : bool;
  v_kinds : list DocumentSessionEventKind
}.
Definition view_of (w : world) : view :=
  let s := w_session w in
  {| v_text := currentContent s; v_file := decode <$> w_disk w !! note; v_saved := ss_lastWrittenContent s;
     v_flushes := map fst (w_flushes w); v_at_rest := match ss_persist s with PersistNone => true | _ => false end;
     v_failure := ss_failureError s; v_deleted := ss_deleted s; v_kinds := map ev_kind (ss_events s) |}.
Definition run (state : option jstr) (es : list event) : option view :=
  view_of <$> session_trace (start state (js "a")) (open_events (bool_decide (state <> None)) ++ es).

Definition late : list event :=
  [edit (js "ab")] ++ map EvPersistGo [IoRead; IoOk; IoRename; IoOk; IoError; IoOk; IoOk] ++
  [EvFlushGo 0; edit (js "abc")] ++ map EvPersistGo [IoRead; IoOk; IoRename; IoOk; IoOk; IoOk] ++
  [EvFlushGo 1] ++ turn_with_state ++ [EvPersistGo IoOk; EvFlushGo 1].
Definition gap : list event := [edit (js "ab")] ++ turn ++ [edit (js "abc"); EvPersistGo IoOk; EvFlushGo 0; EvFlushGo 1; EvFlush].
Definition stale : list event :=
  [EvPoll; EvCheckGo IoRead; edit (js "ab")] ++ turn ++ [EvPersistGo IoOk; EvFlushGo 0; EvCheckGo IoOk; EvCheckGo IoOk; EvCheckGo IoOk].
Definition removed : list event :=
  [edit (js "ab"); EvPersistGo IoRead; EvPersistGo IoOk; EvExternal note None; EvPoll; EvCheckGo IoRead; EvCheckGo IoOk; EvCheckGo IoOk]
  ++ map EvPersistGo [IoRename; IoOk; IoOk; IoOk; IoOk].
Definition overtaken : list event :=
  [edit (js "ab"); EvExternal note (Some (encode (js "x")))] ++ map EvPersistGo [IoRead; IoOk; IoOk; IoOk; IoOk] ++ [EvFlushGo 0].
Definition twice : list event :=
  [EvOpen false; EvOpenGo IoRead; EvOpenGo IoOk; EvOpenGo IoRead; EvOpenGo IoOk; EvOpenGo IoError; EvOpenGo IoOk].

(** * Calm runs *)

Definition calmb (w : world) (e : event) (w' : world) : bool :=
  negb (ss_persistRequested (w_session w') && match ss_persist (w_session w') with PersistExiting _ => true | _ => false end) &&
  match e with
  | EvExternal path _ => bool_decide (path <> ss_filePath (w_session w))
  | EvCheckGo IoOk =>
      match ss_check (w_session w) with
      | CheckReadDone disk => bool_decide (disk = ReadThrew) || bool_decide (disk = read_disk w (ss_filePath (w_session w)))
      | _ => true
      end
  | EvPersistGo IoError =>
      match ss_persist (w_session w) with
      | PersistRunning _ (AtWrite _ _ wr) => negb (wr_renamed wr)
      | PersistRunning _ (AtSnapshot _ _ _) => false
      | _ => true
      end
  | EvOpenGo IoError => match ss_open (w_session w) with OpenSnapshot _ _ => false | _ => true end
  | EvFlush => ss_opened (w_session w)
  | EvClosed => false
  | _ => true
  end.

Lemma calmb_sound w e w' : calmb w e w' = true -> calm w e w'.
Proof.
  unfold calmb, calm, in_the_gap. intros [Hg He]%andb_true_iff. split.
  - intros [Hq Hp]. rewrite Hq in Hg. by destruct (ss_persist _).
  - destruct e as [| []| []| []| | | | | | | | | | | | | |]; try done; try (by apply bool_decide_eq_true in He).
    + destruct (ss_open _); try done. all: intros u d b Hu; injection Hu as _ _ Hx; discriminate.
    + by destruct (ss_open _).
    + destruct (ss_persist (w_session w)) as [|? []|]; try done. by apply negb_true_iff in He.
    + intros disk Hd. rewrite Hd in He. apply orb_true_iff in He. by rewrite !bool_decide_eq_true in He.
Qed.

Fixpoint calm_trace (w : world) (es : list event) : option world :=
  match es with
  | [] => Some w
  | e :: es => w' ← session_step w e; if calmb w e w' then calm_trace w' es else None
  end.

Lemma calm_trace_runs w0 w es w' : calm_runs w0 w -> calm_trace w es = Some w' -> calm_runs w0 w'.
Proof.
  revert w. induction es as [|e es IH]; intros w Hr; cbn; [by intros [= <-]|].
  destruct (session_step w e) as [w1|] eqn:E; [|done]. cbn. destruct (calmb w e w1) eqn:Ec; [|done].
  apply IH. eapply calm_more; [exact Hr|exact E|by apply calmb_sound].
Qed.

(** * What the session promises, on one run *)

Definition fresh_world : world := start None (js "a").
Definition saving : list event := open_events false ++ [edit (js "ab")] ++ turn ++ [EvPersistGo IoOk; EvFlushGo 0].
Definition editing : list event := open_events false ++ [edit (js "ab")].
Definition saved_world : world := Eval vm_compute in default fresh_world (calm_trace fresh_world saving).
Definition edited_world : world := Eval vm_compute in default fresh_world (calm_trace fresh_world editing).
Definition read_world : world := Eval vm_compute in default fresh_world (session_step edited_world (EvPersistGo IoRead)).

Lemma fresh_world_fresh : fresh fresh_world.
Proof. do 5 eexists. split; [reflexivity|]. by split. Qed.


Lemma edited_world_runs : calm_runs fresh_world edited_world.
Proof. refine (calm_trace_runs fresh_world fresh_world editing _ (calm_start _) _). vm_cast_no_check (eq_refl (Some edited_world)). Qed.



Lemma text_changes_by_clients_witness :
  session_step edited_world (EvPersistGo IoRead) = Some read_world /\ currentContent (w_session read_world) = js "ab".
Proof.
  assert (session_step edited_world (EvPersistGo IoRead) = Some read_world) as Hs by (vm_cast_no_check (eq_refl (Some read_world))).
  split; [exact Hs|].
  refine (text_changes_by_clients fresh_world edited_world (EvPersistGo IoRead) read_world fresh_world_fresh edited_world_runs eq_refl Hs _ eq_refl).
  apply calmb_sound. vm_cast_no_check (eq_refl true).
Defined.


Lemma createFastDiffYTextDelta_applies_witness :
  apply_delta (createFastDiffYTextDelta (js "ab") (js "abc")) (js "ab") = js "abc".
Proof. exact (proj2 (createFastDiffYTextDelta_applies (js "ab") (js "abc") eq_refl eq_refl)). Defined.

Lemma reconcile_takes_file_witness :
  exists s' kind,
    reconcileExternalContent (w_session saved_world) (js "x") (hashContent (js "x")) false =
      (s', Some (kind, writeStateSnapshot s' (hashContent (js "x")))) /\ currentContent s' = js "x".
Proof.
  destruct (reconcile_takes_file (w_session saved_world) (js "x") (hashContent (js "x")) eq_refl eq_refl)
    as (s' & kind & Hr & Ht & _). by exists s', kind.
Defined.

(** * What happens outside of those promises *)

(** a persist that fails after its rename is taken for someone else's write: the next
    one finds the session's own text in the file, drops what was typed since, and the flush
    of that edit succeeds. *)
Theorem late_failure_drops_edit :
  run (Some state_path) late = Some
    {| v_text := js "ab"; v_file := Some (js "ab"); v_saved := Some (js "ab");
       v_flushes := [FlushDone false; FlushDone true]; v_at_rest := true; v_failure := false; v_deleted := false;
       v_kinds := [PersistFailure; ExternalChange; PersistRecovered; ContentPersisted] |}.
Proof. by vm_compute. Qed.

(** a request that comes between the end of the loop and the [finally] of its promise is
    forgotten: nothing persists the edit, and its flush succeeds, as do later ones. *)
Theorem gap_request_forgotten :
  run None gap = Some
    {| v_text := js "abc"; v_file := Some (js "ab"); v_saved := Some (js "ab");
       v_flushes := [FlushDone true; FlushDone true; FlushDone true]; v_at_rest := true; v_failure := false; v_deleted := false;
       v_kinds := [ContentPersisted] |}.
Proof. by vm_compute. Qed.

(** A check that read the file before a persist wrote it takes the old text back. *)
Lemma stale_check_reverts :
  run None stale = Some
    {| v_text := js "a"; v_file := Some (js "ab"); v_saved := Some (js "a"); v_flushes := [FlushDone true]; v_at_rest := true;
       v_failure := false; v_deleted := false; v_kinds := [ContentPersisted; ExternalMerge] |}.
Proof. by vm_compute. Qed.

(** A file removed while it is written is there again, though the document is deleted. *)
Lemma deleted_file_resurrected :
  run None removed = Some
    {| v_text := js "ab"; v_file := Some (js "ab"); v_saved := Some (js "ab"); v_flushes := [FlushWaiting 0 false];
       v_at_rest := true; v_failure := false; v_deleted := true; v_kinds := [DocDeleted; ContentPersisted] |}.
Proof. by vm_compute. Qed.

(** An edit that meets another program's write is dropped, and its flush succeeds. *)
Lemma external_edit_overtakes :
  run None overtaken = Some
    {| v_text := js "x"; v_file := Some (js "x"); v_saved := Some (js "x"); v_flushes := [FlushDone true]; v_at_rest := true;
       v_failure := false; v_deleted := false; v_kinds := [ExternalChange] |}.
Proof. by vm_compute. Qed.

(** Opening again after the snapshot could not be written has the text twice. *)
Lemma open_retry_doubles :
  view_of <$> session_trace (start (Some state_path) (js "a")) (twice ++ open_events true) = Some
    {| v_text := js "aa"; v_file := Some (js "a"); v_saved := Some (js "a"); v_flushes := []; v_at_rest := true;
       v_failure := false; v_deleted := false; v_kinds := [] |}.
Proof. by vm_compute. Qed.
