(* ===== verification/ExampleSocket.v ===== *)
(** Sockets of a document session at concrete inputs: runs of a server with one socket. *)
From S2P Require Import Prelude JsString Utf8 Splice Base64 Json Sha256 SessionProtocol ExampleVault DocSession DocSessionProps DocSessionAcks SessionSocket SessionSocketProps ExampleSession.

(** The clients of a text are its letters. *)
#[export] Instance text_sync : YjsSync := {|
  messageYjsSyncStep1 := 0;
  messageYjsSyncStep2 := 1;
  messageYjsUpdate := 2;
  writeSyncStep1 d := write_number 0 ++ writeVarUint8Array (encode (units d));
  writeSyncStep2 d sv := Some (write_number 1 ++ writeVarUint8Array (encode (units d)));
  writeUpdate u := write_number 2 ++ writeVarUint8Array u;
  y_clients := units
|}.

(** * Runs *)

Definition server_calmb (sv : server) (e : server_event) (sv' : server) : bool :=
  negb (ss_persistRequested (w_session (sv_world sv')) && match ss_persist (w_session (sv_world sv')) with PersistExiting _ => true | _ => false end) &&
  match e with
  | SvSession e => calmb (sv_world sv) e (sv_world sv')
  | SvClose _ => ss_opened (w_session (sv_world sv))
  | _ => true
  end.


Fixpoint server_trace (sv : server) (es : list server_event) : option server :=
  match es with [] => Some sv | e :: es => sv' ← server_step sv e; server_trace sv' es end.

Fixpoint server_calm_trace (sv : server) (es : list server_event) : option server :=
  match es with
  | [] => Some sv
  | e :: es => sv' ← server_step sv e; if server_calmb sv e sv' then server_calm_trace sv' es else None
  end.


Definition start_server : server := {| sv_world := start None (js "a"); sv_bindings := [] |}.
Definition connected : list server_event := SvConnect None :: map SvSession (open_events false) ++ [SvOpened 0].
Definition acked_update (ackId content : jstr) : server_event :=
  SvMessage 0 (Some (encodeAckedSyncUpdate {| au_ackId := ackId; au_update := encode content |})).
Definition go (es : list event) : list server_event := map SvSession es.

(** What was sent, as its kind, with the ids of acknowledgements. *)
Inductive kind_sent := KUpdate | KSync | KSynced | KEvent (kind : DocumentSessionEventKind) | KAck (ackId : jstr).
Definition kind_of_sent (m : sent) : kind_sent :=
  match m with
  | SentAttributed _ => KUpdate | SentSync _ => KSync | SentSynced => KSynced
  | SentEvent e => KEvent (ev_kind e) | SentAck ack _ => KAck (sa_ackId ack)
  end.
Definition server_view (sv : server) : view * list (list kind_sent) :=
  (view_of (sv_world sv), map (fun b => map kind_of_sent (bd_sent b)) (sv_bindings sv)).

(** A write that fails, with a second update while it is under way that is persisted. *)
Definition stale_failure : list server_event :=
  connected ++ [acked_update (js "u1") (js "ab")] ++ go [EvPersistGo IoRead; EvPersistGo IoOk] ++ [acked_update (js "u2") (js "abc")]
  ++ go [EvPersistGo IoError; EvPersistGo IoOk] ++ go turn ++ go [EvPersistGo IoOk; EvFlushGo 0; EvFlushGo 1]
  ++ [SvSettled 0 (js "u1") 0; SvSettled 0 (js "u2") 1].
(** Another program writes the file while an update waits to be persisted. *)
Definition dropped : list server_event :=
  connected ++ [acked_update (js "u1") (js "ab")] ++ go [EvExternal note (Some (encode (js "x")))]
  ++ go (map EvPersistGo [IoRead; IoOk; IoOk; IoOk; IoOk]) ++ go [EvFlushGo 0] ++ [SvSettled 0 (js "u1") 0].

(** * What the sockets are promised, on one run *)

Definition connected_server : server := Eval vm_compute in default start_server (server_trace start_server connected).
Definition the_binding (sv : server) : binding := default (new_binding 0 None) (sv_bindings sv !! 0).



Lemma divergent_update_refused_witness :
  processSyncMessage (sv_world connected_server) (the_binding connected_server)
    (Some (carried (CarriedAcked (js "u1")) (encode (js "xyz")) ++ [])) =
  (sv_world connected_server, close_socket (the_binding connected_server) closeUnsafeDivergence).
Proof.
  apply (divergent_update_refused (sv_world connected_server) (the_binding connected_server) (CarriedAcked (js "u1")) (encode (js "xyz")) []
    (js "xyz") true); try reflexivity.
  - by split_and!.
  - by split.
  - by repeat constructor.
  - done.
  - done.
  - intros client Hc Hx. apply list_elem_of_In in Hc, Hx. cbn in Hc, Hx. naive_solver.
Defined.

(** * What happens outside of those promises *)

(** a text that has been saved may never be acknowledged: when a write fails and the next
    one of the same loop succeeds, the promise of the loop is rejected all the same, both
    acknowledgements are deferred after the event they would have gone out with, and the
    session is at rest. *)
Theorem saved_without_ack :
  server_view <$> server_calm_trace start_server stale_failure = Some
    ({| v_text := js "abc"; v_file := Some (js "abc"); v_saved := Some (js "abc"); v_flushes := [FlushDone false; FlushDone false];
        v_at_rest := true; v_failure := false; v_deleted := false; v_kinds := [PersistFailure; PersistRecovered; ContentPersisted] |},
     [[KSync; KEvent PersistFailure; KEvent PersistRecovered; KEvent ContentPersisted]]).
Proof. by vm_compute. Qed.

(** An update that meets another program's write is dropped, and acknowledged. *)
Lemma dropped_update_acknowledged :
  server_view <$> server_trace start_server dropped = Some
    ({| v_text := js "x"; v_file := Some (js "x"); v_saved := Some (js "x"); v_flushes := [FlushDone true]; v_at_rest := true;
        v_failure := false; v_deleted := false; v_kinds := [ExternalChange] |},
     [[KSync; KEvent ExternalChange; KAck (js "u1")]]).
Proof. by vm_compute. Qed.
