(* ===== verification/ExampleTunnel.v ===== *)
(** The tunnel client at concrete inputs: the witnesses of its theorems, and runs that show what
    goes wrong. *)
From Stdlib Require Import QArith.
From S2P Require Import Prelude JsString Utf8 Splice Base64 Json PendingFrames PendingRequests DocStream StreamMux StreamMuxDelivery RelayFrame ExampleVault HttpAssembler TunnelPaths TunnelRpc TunnelMessages TunnelClient TunnelEffects TunnelClientProps TunnelClientWork TunnelClientRuns TunnelClientDeaf TunnelResponse.

#[local] Open Scope Z_scope.

(** * Hosts *)

(** URLs with a protocol, an origin and a path: ["//host/..."] is on another origin. *)
Record simple_url := { su_protocol : jstr; su_origin : jstr; su_pathname : jstr }.

Definition simple_resolve (path : jstr) (base : simple_url) : option simple_url :=
  match path with
  | (47 :: 47 :: rest)%N => Some {| su_protocol := su_protocol base; su_origin := su_protocol base ++ js "//" ++ rest; su_pathname := js "/" |}
  | (47 :: _)%N => Some {| su_protocol := su_protocol base; su_origin := su_origin base; su_pathname := path |}
  | _ => None
  end.

#[export] Instance simple_urls : UrlHost := {|
  url := simple_url;
  url_resolve := simple_resolve;
  url_protocol := su_protocol;
  url_origin := su_origin;
  url_pathname := su_pathname;
  url_set_protocol u s := {| su_protocol := s; su_origin := su_origin u; su_pathname := su_pathname u |};
  url_set_pathname u s := {| su_protocol := su_protocol u; su_origin := su_origin u; su_pathname := s |};
  url_set_search u s := u
|}.

#[export] Instance no_gzip : TunnelHost := {| gunzipSync := fun _ => None; gunzip_error := js "Error: incorrect header check"; to_number := fun _ => Int 3 |}.
#[export] Existing Instance quiet_sockets.

Definition daemon : url := {| su_protocol := js "http:"; su_origin := js "http://127.0.0.1:4317"; su_pathname := js "/" |}.
Definition client_config : TunnelClientConfig :=
  {| cf_token := js "token"; cf_daemonVersion := None; cf_daemonBuild := None; cf_daemonInstanceId := js "instance" |}.

(** * Runs *)

(** A step that a WebSocket can make. *)
Definition ok_event (c : TunnelClient) (e : tunnel_event) : bool :=
  match e with
  | SocketOpens a => ready_state c a =? WS_CONNECTING
  | SocketMessage a _ => (ready_state c a =? WS_OPEN) || (ready_state c a =? WS_CLOSING)
  | SocketCloses a _ _ => negb (ready_state c a =? WS_CLOSED)
  | Loopback (EvLoopbackOpen _ | EvLoopbackMessage _ _ | EvLoopbackClose _ _ _ | EvLoopbackError _ | EvReady _ _) => true
  | Loopback _ => false
  | _ => true
  end.

Lemma ok_event_sound c e : ok_event c e = true -> tunnel_event_ok c e.
Proof.
  destruct e; cbn [ok_event tunnel_event_ok]; try done; rewrite ?orb_true_iff, ?negb_true_iff, ?Z.eqb_eq, ?Z.eqb_neq; try done.
  by destruct e.
Qed.

Fixpoint tunnel_trace (c : TunnelClient) (es : list tunnel_event) : option TunnelClient :=
  match es with
  | [] => Some c
  | e :: es => if ok_event c e then c' ← tunnel_step client_config daemon c e; tunnel_trace c' es else None
  end.

Lemma tunnel_trace_runs es0 c0 es c : tunnel_runs client_config daemon es0 c0 -> tunnel_trace c0 es = Some c -> tunnel_runs client_config daemon (es0 ++ es) c.
Proof.
  revert es0 c0. induction es as [|e es IH]; intros es0 c0 Hr; cbn [tunnel_trace]; [rewrite app_nil_r; by intros [= <-]|].
  destruct (ok_event c0 e) eqn:Eo; [|done]. destruct (tunnel_step client_config daemon c0 e) as [c1|] eqn:E; [|done]. cbn [mbind option_bind]. intros Ht.
  rewrite (cons_middle e es0 es), app_assoc. eapply IH; [|exact Ht]. econstructor; [exact Hr|by apply ok_event_sound|exact E].
Qed.

Lemma trace_runs es c : tunnel_trace new_client es = Some c -> tunnel_runs client_config daemon es c.
Proof. apply (tunnel_trace_runs []). constructor. Qed.

(** The client after a run, and the run that leads to it. *)
Ltac run_of es := apply (trace_runs es); vm_compute; reflexivity.

(** * A client that replaces itself *)

(** The client is stopped and started before its first socket has closed.  That close schedules
    a second connection beside the one that is open; when the relay replaces the older of the
    two, the client takes it for its own end. *)
Definition restarted : list tunnel_event :=
  [CallStart; SocketOpens 0; CallStop; CallStart; SocketOpens 2; SocketCloses 0 1001 0%Q; TimerFires 4; SocketOpens 5;
   SocketCloses 2 CONTROL_REPLACED 0%Q].

Definition deaf : TunnelClientStatus := {| st_started := false; st_controlConnected := false; st_reconnectScheduled := false |}.

(** After that the loss of the newer connection reconnects nothing. *)
Example restarted_client_is_deaf :
  exists c', tunnel_runs client_config daemon (restarted ++ [SocketCloses 5 1006 0%Q]) c' /\ status c' = deaf /\ tc_timers c' = ∅.
Proof. eexists. split; [run_of (restarted ++ [SocketCloses 5 1006 0%Q])|]. by vm_compute. Qed.

(** * Frames that are lost while no control socket is open *)

Definition hello_text : list N := encode (js "hi").
Definition disconnected : list tunnel_event :=
  [CallStart; SocketOpens 0; SocketMessage 0 (SrvOpen (js "s") (js "/doc") []); Loopback (EvReady 0 WS_OPEN); Loopback (EvLoopbackOpen 0);
   SocketCloses 0 1006 0%Q; Loopback (EvLoopbackMessage 0 (WsText (js "hi"))); TimerFires 2; SocketOpens 3;
   Loopback (EvLoopbackMessage 0 (WsText (js "hi")))].

Definition is_data (m : control_message) : bool := match m with CtlMux (MData _) => true | _ => false end.
Definition data_sent (c : TunnelClient) : list control_message :=
  filter (fun m => is_data m = true) (concat (cs_sent <$> (map_to_list (tc_sockets c)).*2)).

(** The stream outlives the control socket: the frame that its daemon sends in between is
    dropped, the next one is sent under the next number, and the relay sees a gap. *)
Example frames_lost_while_disconnected :
  exists c, tunnel_runs client_config daemon disconnected c /\
    data_sent c = [CtlMux (MData (data_frame (js "s") 1 hello_text true))].
Proof. eexists. split; [run_of disconnected|]. by vm_compute. Qed.

(** * A stream to another origin *)

Definition foreign : list tunnel_event :=
  [CallStart; SocketOpens 0; SocketMessage 0 (SrvOpen (js "s") (js "//elsewhere/doc") [(js "cookie", js "c")])].

(** [openDocumentLoopback] has none of the guards of [proxyHttp]. *)
Example stream_to_another_origin :
  exists c l, tunnel_runs client_config daemon foreign c /\ tc_loopbacks c = [l] /\ lo_origin l <> url_origin daemon /\ lo_headers l = [(js "cookie", js "c"); (js "accept-encoding", js "identity")].
Proof. eexists _, _. split; [run_of foreign|]. split; [vm_compute; reflexivity|]. split; [vm_compute; discriminate|by vm_compute]. Qed.

(** * Requests without an answer *)

(** A request whose path is not a URL is dropped: nothing is sent and nothing is left that
    would send. *)
Lemma unparsed_request_unanswered `{JsonHost, Host, UrlHost, TunnelHost, MuxHost} (daemonUrl : url) c control envelope c' :
  url_resolve (hr_path envelope) daemonUrl = None -> tc_jobs c !! tc_next c = None ->
  handleControlMessage daemonUrl c control (SrvRequest envelope) = Some c' ->
  tc_sockets c' = tc_sockets c /\ tc_jobs c' = tc_jobs c.
Proof.
  intros Hu Hj. cbn [handleControlMessage]. unfold proxyAndSendHttpResponse. cbn [new_job]. rewrite Hu. intros [= <-]. split; [done|].
  cbn. by apply delete_id.
Qed.

(** * Witnesses *)

Definition request_of (path : jstr) : TunnelHttpRequestEnvelope :=
  {| hr_id := js "r"; hr_method := js "GET"; hr_path := path; hr_headers := []; hr_bodyB64 := None |}.

Definition connected : list tunnel_event := [CallStart; SocketOpens 0].

Lemma started_client_connects_witness :
  exists c, tunnel_runs client_config daemon connected c /\
    ((exists a s, tc_control c = Some a /\ tc_sockets c !! a = Some s /\ cs_readyState s <> WS_CLOSED) \/
     exists t delayMs, tc_timers c !! t = Some (ReconnectTimer delayMs)).
Proof.
  eexists. split; [run_of connected|]. apply (started_client_connects client_config daemon connected); [run_of connected|by vm_compute].
Defined.

Definition requested : list tunnel_event :=
  connected ++ [SocketMessage 0 (SrvRequest (request_of (js "/api/ops/%73napshot.zip"))); SocketMessage 0 (SrvRequest (request_of (js "/api/vaults")))].

Lemma relay_reaches_no_private_path_witness :
  exists c f, tunnel_runs client_config daemon requested c /\ tc_fetches c = [f] /\
    (existsb asks_snapshot requested = true /\ df_snapshot f = true \/
     df_snapshot f = false /\ df_origin f = url_origin daemon /\ daemonRoutingPath (df_pathname f) ∉ PRIVATE_DAEMON_HTTP_PATHS).
Proof.
  eexists _, _. split; [run_of requested|]. split; [by vm_compute|].
  eapply (relay_reaches_no_private_path client_config daemon requested); [run_of requested|]. apply list_elem_of_singleton. reflexivity.
Defined.

Definition called : list tunnel_event :=
  connected ++ [SocketMessage 0 (SrvFrame (frame_value (RelayRpcRequestFrame (js "q") (js "vault.list") None None None)))].

Definition before_replaced : list tunnel_event := take 8 restarted.

(** The hypotheses hold after [before_replaced]. *)
Lemma replaced_client_goes_deaf_witness :
  exists c1, tunnel_runs client_config daemon (before_replaced ++ [SocketCloses 2 CONTROL_REPLACED 0%Q]) c1 /\
    st_started (status c1) = false /\ st_controlConnected (status c1) = true /\
    forall es' c2, tunnel_runs client_config daemon ((before_replaced ++ [SocketCloses 2 CONTROL_REPLACED 0%Q]) ++ es') c2 ->
      Forall (fun e => e <> CallStart) es' ->
      st_started (status c2) = false /\
      (forall d, tc_sockets c1 !! d = None -> tc_sockets c2 !! d = None) /\
      (ready_state c2 5 <> WS_OPEN -> st_controlConnected (status c2) = false).
Proof.
  eexists. split; [run_of (before_replaced ++ [SocketCloses 2 CONTROL_REPLACED 0%Q])|].
  eapply (replaced_client_goes_deaf client_config daemon before_replaced _ 2 5 0%Q).
  - run_of before_replaced.
  - reflexivity.
  - reflexivity.
  - reflexivity.
  - done.
  - run_of (before_replaced ++ [SocketCloses 2 CONTROL_REPLACED 0%Q]).
Defined.

Lemma relay_calls_bounded_witness :
  exists c, tunnel_runs client_config daemon called c /\ size (tc_pendingRpc c) = 1%nat /\
    (Z.of_nat (size (filter (fun jx => live jx.2) (tc_rpcs c))) <= RELAY_PENDING_REQUEST_LIMIT /\
     Z.of_nat (size (tc_pendingRpc c)) <= RELAY_PENDING_REQUEST_LIMIT /\
     (forall j x, tc_rpcs c !! j = Some x -> live x -> tc_pendingRpc c !! rq_id (rj_request x) = Some j) /\
     forall id j, tc_pendingRpc c !! id = Some j -> exists x, tc_rpcs c !! j = Some x /\ rq_id (rj_request x) = id).
Proof.
  eexists. split; [run_of called|]. split; [by vm_compute|]. apply (relay_calls_bounded client_config daemon called). run_of called.
Defined.

(** The daemon's snapshot has three bytes; its first piece waits for its acknowledgement. *)
Definition streaming : list tunnel_event :=
  connected ++ [SocketMessage 0 (SrvReady (Some [TUNNEL_FEATURES HTTP_RESPONSE_CHUNK_ACKS_V1])); SocketMessage 0 (SrvSnapshot (js "r"));
    SnapshotFetched 2 (SnapshotOk 200 [(js "content-length", js "3")] true []); SnapshotRead 2 (ReadBytes [1; 2; 3]%N)].

Lemma waiting_chunk_ends_witness :
  exists c x, tunnel_runs client_config daemon streaming c /\ tc_jobs c !! 2%nat = Some x /\ waiting x = true /\
    exists id pending control m,
      tc_acks c !! id = Some pending /\ pa_job pending = 2%nat /\ awaits x control id (pa_sequence pending) m /\
      (exists c' y, tunnel_step client_config daemon c (TimerFires (pa_timeout pending)) = Some c' /\ tc_jobs c' !! 2%nat = Some y /\ waiting y = false) /\
      (forall a, exists c' y, tunnel_step client_config daemon c (SocketMessage a (SrvChunkAck id (pa_sequence pending))) = Some c' /\
        tc_jobs c' !! 2%nat = Some y /\ waiting y = false).
Proof.
  eexists _, _. split; [run_of streaming|]. split; [vm_compute; reflexivity|]. split; [done|].
  eapply (waiting_chunk_ends client_config daemon streaming); [run_of streaming|vm_compute; reflexivity|done].
Defined.

(** Four probes go unanswered. *)
Definition unanswered : list tunnel_event :=
  connected ++ [TimerFires 1; TimerFires 2; TimerFires 1; TimerFires 3; TimerFires 1; TimerFires 4; TimerFires 1; TimerFires 5].

Lemma control_terminated_after_misses_witness :
  exists c, tunnel_runs client_config daemon unanswered c /\ terminated c 0 = true /\
    exists es1 es2 c1 n, unanswered = es1 ++ es2 /\ tunnel_runs client_config daemon es1 c1 /\
      missed_heartbeats client_config daemon es1 = Some (c1, n) /\
      (CONTROL_HEARTBEAT_MISSES_BEFORE_RECONNECT <= n)%nat /\ terminated c1 0 = true /\ tc_control c1 = Some 0%nat.
Proof.
  eexists. split; [run_of unanswered|]. split; [vm_compute; reflexivity|].
  eapply (control_terminated_after_misses client_config daemon unanswered); [run_of unanswered|by vm_compute].
Defined.

(** A body of 262145 bytes. *)
Definition large_body : list N := repeat 65%N (N.to_nat 262145).

Definition fetching : list tunnel_event :=
  connected ++ [SocketMessage 0 (SrvReady (Some [TUNNEL_FEATURES HTTP_RESPONSE_CHUNK_ACKS_V1])); SocketMessage 0 (SrvRequest (request_of (js "/api/vaults")))].

Lemma acknowledged_response_completes_witness :
  exists c sent, tunnel_runs client_config daemon fetching c /\ length sent = 1%nat /\
    exists parts c',
      tunnel_steps client_config daemon c (Fetched 2 (FetchOk 200 [] large_body) :: acknowledge_all 2 (js "r") 0 0 (length parts)) = Some c' /\
      concat parts = large_body /\ Forall (fun part => part <> []) parts /\
      response_ended c' 2 0 (js "r")
        (sent ++ CtlResponseStart (js "r") 200 [] (byteLength large_body) :: piece_messages (js "r") 0 parts ++ [CtlResponseEnd (js "r") (Z.of_nat (length parts))]).
Proof.
  eexists _, [_]. split; [run_of fetching|]. split; [done|].
  assert (byteLength large_body = 262145) as Hlen by (unfold byteLength, large_body; rewrite repeat_length, N_nat_Z; reflexivity).
  eapply (acknowledged_response_completes client_config daemon _ 2 0 (request_of (js "/api/vaults")) 3 4 _ 0 200 [] large_body large_body).
  - vm_compute. reflexivity.
  - split; [eexists; split_and!; by vm_compute|by vm_compute..].
  - by vm_compute.
  - split; [done|]. by vm_compute.
  - unfold large_body. generalize (N.to_nat 262145). by intros [|[|n]].
  - apply Forall_forall. intros b Hb%list_elem_of_In%repeat_spec. by subst.
  - rewrite Hlen. clear. split; reflexivity.
Defined.

(** The pieces of a request, out of order, one of them twice. *)
Definition upload_start : TunnelHttpRequestStartEnvelope :=
  {| hs_id := js "r"; hs_method := js "PUT"; hs_path := js "/api/files"; hs_headers := []; hs_totalBytes := 3 |}.
Definition upload_chunk (sequence : Z) (part : list N) : assembler_op :=
  AChunk {| hc_id := js "r"; hc_sequence := sequence; hc_bodyB64 := encodeBase64Bytes part |}.
Definition upload_end : TunnelHttpRequestEndEnvelope := {| he_id := js "r"; he_chunks := 2 |}.
Definition upload_chunks : list assembler_op := [upload_chunk 1 [3]%N; upload_chunk 0 [1; 2]%N; upload_chunk 1 [3]%N].

Lemma complete_request_assembled_witness :
  exists a', assembler_end (assemble ([] ++ AStart upload_start :: upload_chunks)) upload_end =
    (a', Some {| hr_id := js "r"; hr_method := js "PUT"; hr_path := js "/api/files"; hr_headers := [];
                 hr_bodyB64 := Some (encodeBase64Bytes [1; 2; 3]%N) |}) /\ a' !! js "r" = None.
Proof.
  apply (complete_request_assembled [] upload_chunks upload_start [[1; 2]; [3]]%N upload_end); try done.
  - by repeat constructor.
  - repeat constructor; intros _; [exists 1%nat, [3]%N|exists 0%nat, [1; 2]%N|exists 1%nat, [3]%N]; done.
  - intros [|[|k]] Hk; [exists {| hc_id := js "r"; hc_sequence := 0; hc_bodyB64 := encodeBase64Bytes [1; 2]%N |}
      |exists {| hc_id := js "r"; hc_sequence := 1; hc_bodyB64 := encodeBase64Bytes [3]%N |}|cbn in Hk; lia]; (split; [|done]);
      unfold upload_chunks, upload_chunk; rewrite !elem_of_cons; auto.
Defined.
