(* ===== verification/ExampleManager.v ===== *)
(** The manager of document sessions at concrete inputs: two documents of which one is used and
    moved and the other closed when it is idle, the manager closed at last, the move that fails
    after its session has taken the new path, and moves of a folder of which one session
    fails. *)
From S2P Require Import Prelude JsString Utf8 NodePath Json Sha256 SessionProtocol ExampleVault DocSession ExampleSession SessionManager SessionManagerProps SessionManagerTable SessionManagerRuns SessionManagerUses SessionManagerServed.

Definition vault_root : jstr := js "/v".
Definition path_a : jstr := js "a.md".
Definition path_b : jstr := js "b.md".
Definition path_c : jstr := js "c.md".

(** The session of [b.md], open. *)
Definition opened_b : session :=
  new_session (toFilePath vault_root path_b) path_b (Some (toStateFilePath vault_root path_b)) [] <| ss_opened := true |>.

Definition manager_events : list manager_event :=
  [ CallAccess path_a Attach; AccessRuns 0;                          (* session 1, client 2 *)
    CallAccess path_b (WithSession None); AccessRuns 3;              (* session 4, operation 5 *)
    SessionRuns 4 opened_b; OperationEnds 5;                         (* timer 6 *)
    CallMutation (MoveSession path_a path_c);                        (* mutation 8 *)
    IdleTimerFires 6;                                                (* mutation 10 *)
    MutationStarts 8; MutationGoes 8 (AStat true false); MutationGoes 8 ARebinds;
    MutationGoes 8 (ADone true); MutationStarts 10;
    MutationGoes 10 (ADone true);
    CallMutation CloseAll;                                           (* mutation 11 *)
    MutationStarts 11; MutationGoes 11 (ADone true); MutationGoes 11 (ADone true); MutationGoes 11 (ACloses 1 true) ].

Definition manager_after (n : nat) : manager := default new_manager (calm_run vault_root [] new_manager (take n manager_events)).

Lemma manager_reached n : bool_decide (is_Some (calm_run vault_root [] new_manager (take n manager_events))) = true ->
  calm_run vault_root [] new_manager (take n manager_events) = Some (manager_after n).
Proof. intros [g Hg]%bool_decide_eq_true_1. unfold manager_after. by rewrite Hg. Qed.

Definition phase_of (n i : nat) : option mutation_phase := sm_phase <$> mg_mutations (manager_after n) !! i.
Example phases : (phase_of 11 8, phase_of 11 10, phase_of 13 8, phase_of 13 10, phase_of 14 10, phase_of 19 11) =
  (Some (MMoving 1 true), Some MWaiting, Some (MSettled false), Some (MClosing 4), Some (MSettled false), Some (MSettled false)).
Proof. by vm_compute. Qed.
Example tables : (mg_sessions (manager_after 11), mg_sessions (manager_after 12), mg_sessions (manager_after 13), mg_sessions (manager_after 19)) =
  ([(path_a, 1%nat); (path_b, 4%nat)], [(path_b, 4%nat); (path_c, 1%nat)], [(path_c, 1%nat)], []).
Proof. by vm_compute. Qed.

Lemma used_sessions_served_witness : exists k, get_session (manager_after 11) k = Some 1%nat.
Proof.
  apply (used_sessions_served vault_root [] (take 11 manager_events)).
  - apply manager_reached. by vm_compute.
  - by vm_compute.
  - by vm_compute.
  - left. exists 2%nat, {| cl_session := 1; cl_path := path_a; cl_released := false |}. split; [vm_compute; reflexivity|done].
Defined.

Definition object_after (n a : nat) : session := default opened_b (mg_objects (manager_after n) !! a).
Lemma object_reached n a : bool_decide (is_Some (mg_objects (manager_after n) !! a)) = true -> mg_objects (manager_after n) !! a = Some (object_after n a).
Proof. intros [s Hs]%bool_decide_eq_true_1. unfold object_after. by rewrite Hs. Qed.

(** The session that moves has its new path while it is in the table under the old one. *)
Lemma sessions_own_files_witness :
  ss_filePath (object_after 11 1) = toFilePath vault_root (ss_eventPath (object_after 11 1)) /\
  (ss_eventPath (object_after 11 1) = ss_eventPath (object_after 11 4) -> 1%nat = 4%nat) /\
  (ss_eventPath (object_after 11 1) = path_a \/
   exists i x, mg_mutations (manager_after 11) !! i = Some x /\ active x = true /\ rebinds x 1 (ss_eventPath (object_after 11 1))).
Proof.
  apply (sessions_own_files vault_root [] (take 11 manager_events) (manager_after 11) path_a path_b);
    [apply manager_reached| | |apply object_reached|apply object_reached]; vm_compute; reflexivity.
Defined.
Example new_path : ss_eventPath (object_after 11 1) = path_c.
Proof. by vm_compute. Qed.

Lemma idle_close_alone_witness : exists x, mg_mutations (manager_after 13) !! 10%nat = Some x /\
  isSessionInUse (manager_after 13) 4 = false /\ (forall k, get_session (manager_after 13) k <> Some 4%nat) /\
  get_session (manager_after 13) path_b = None /\ hasPathReservation (manager_after 13) path_b = true.
Proof.
  eexists. split; [vm_compute; reflexivity|]. eapply (idle_close_alone vault_root [] (take 13 manager_events) (manager_after 13) 10); [apply manager_reached|..]; vm_compute; reflexivity.
Defined.

Lemma reserved_paths_refused_witness : exists e, getSession vault_root [] (manager_after 11) path_c None = (manager_after 11, Err e).
Proof.
  eapply (reserved_paths_refused vault_root [] (take 11 manager_events) (manager_after 11) 8 _ (Exact [path_a; path_c]));
    [apply manager_reached; vm_compute; reflexivity|vm_compute; reflexivity..].
Defined.

Lemma mutations_in_order_witness : exists j y, (j <= 10)%nat /\ mg_mutations (manager_after 11) !! j = Some y /\
  (active y = true \/ can_start (manager_after 11) y = true).
Proof.
  eapply (mutations_in_order vault_root [] (take 11 manager_events) (manager_after 11) 10); [apply manager_reached|..]; vm_compute; reflexivity.
Defined.

Lemma closed_manager_empty_witness : mg_sessions (manager_after 19) = [] /\
  (forall i x, mg_mutations (manager_after 19) !! i = Some x -> is_settled x = true) /\
  forall k override, getSession vault_root [] (manager_after 19) k override = (manager_after 19, Err ManagerClosed).
Proof. apply (closed_manager_empty vault_root [] (take 19 manager_events)); [apply manager_reached|]; vm_compute; reflexivity. Defined.

(** * A move that fails late *)

(** The session has taken its new path when its content cannot be written there. *)
Definition failed_move : list manager_event :=
  [ CallAccess path_a Attach; AccessRuns 0; CallMutation (MoveSession path_a path_c);
    MutationStarts 4; MutationGoes 4 (AStat true false); MutationGoes 4 ARebinds; MutationGoes 4 (ADone false);
    CallAccess path_c Attach; AccessRuns 5 ].

Definition failed_manager : manager := default new_manager (manager_run vault_root [] new_manager failed_move).
Definition failed_session (a : nat) : session := default opened_b (mg_objects failed_manager !! a).

(** The run is not calm: the manager keeps the session under the path it has left, and gives the
    next client of the new path a second session of the same file. *)
Example failed_move_splits_session :
  bool_decide (is_Some (manager_run vault_root [] new_manager failed_move)) = true /\
  bool_decide (calm_run vault_root [] new_manager failed_move = None) = true /\
  get_session failed_manager path_a = Some 1%nat /\ get_session failed_manager path_c = Some 6%nat /\
  isSessionInUse failed_manager 1 = true /\ isSessionInUse failed_manager 6 = true /\
  ss_filePath (failed_session 1) = toFilePath vault_root path_c /\ ss_filePath (failed_session 6) = toFilePath vault_root path_c.
Proof. repeat (split; [vm_compute; reflexivity|]). vm_compute. reflexivity. Qed.

(** * A session that moves late *)

(** The move of [f] to [g] with its two sessions: the folder has moved on disk and both have
    taken their new paths.  Then the first cannot be written there: [Promise.all] rejects at
    once, the mutation settles and its paths are free, while the second still moves. *)
Definition path_fa : jstr := js "f/a.md".
Definition path_fb : jstr := js "f/b.md".
Definition path_gb : jstr := js "g/b.md".
Definition opened_fb : session :=
  new_session (toFilePath vault_root path_fb) path_fb (Some (toStateFilePath vault_root path_fb)) [] <| ss_opened := true |>.

Definition folder_fails (move : nat) : list manager_event :=
  [ MutationStarts move; MutationGoes move (AStat false true); MutationGoes move (ADone true); MutationGoes move (ADone true);
    MutationGoes move (AMoverRebinds 1); MutationGoes move (AMoverRebinds 4); MutationGoes move (AMoverEnds 1 false) ].

Definition both_attached : list manager_event :=
  [ CallAccess path_fa Attach; AccessRuns 0;                         (* session 1, client 2 *)
    CallAccess path_fb Attach; AccessRuns 3; SessionRuns 4 opened_fb (* session 4, client 5 *) ].

(** A client attaches at the new path before the second session has moved. *)
Definition attached_between : list manager_event :=
  both_attached ++ CallMutation (MoveSubtree (js "f") (js "g")) :: folder_fails 7 ++
  [ CallAccess path_gb Attach; AccessRuns 8;                         (* session 9, client 10 *)
    MutationGoes 7 (AMoverEnds 4 true) ].

(** The second session becomes idle during the move, and is closed. *)
Definition closed_between : list manager_event :=
  both_attached ++ [ CallRelease 5 (* timer 6 *); CallMutation (MoveSubtree (js "f") (js "g")) ] ++ folder_fails 8 ++
  [ IdleTimerFires 6; MutationStarts 10; MutationGoes 8 (AMoverEnds 4 true) ].

(** The manager closes before the second session has moved. *)
Definition all_closed_between : list manager_event :=
  both_attached ++ CallMutation (MoveSubtree (js "f") (js "g")) :: folder_fails 7 ++
  [ CallMutation CloseAll; MutationStarts 8; MutationGoes 8 (ADone true); MutationGoes 8 (ADone true);
    MutationGoes 8 (ACloses 1 true); MutationGoes 8 (ACloses 4 true); MutationGoes 7 (AMoverEnds 4 true) ].

Definition manager_of (es : list manager_event) : manager := default new_manager (manager_run vault_root [] new_manager es).

(** The session that the client of the new path holds is dropped from the table. *)
Example late_mover_drops_session :
  bool_decide (is_Some (manager_run vault_root [] new_manager attached_between)) = true /\
  bool_decide (calm_run vault_root [] new_manager attached_between = None) = true /\
  mg_clients (manager_of attached_between) !! 10%nat = Some {| cl_session := 9; cl_path := path_gb; cl_released := false |} /\
  isSessionInUse (manager_of attached_between) 9 = true /\ mg_sessions (manager_of attached_between) = [(path_fa, 1%nat); (path_gb, 4%nat)].
Proof. repeat (split; [vm_compute; reflexivity|]). vm_compute. reflexivity. Qed.

(** The session comes back into the table while it is being closed. *)
Example late_mover_of_closing_session :
  bool_decide (is_Some (manager_run vault_root [] new_manager closed_between)) = true /\
  (sm_phase <$> mg_mutations (manager_of closed_between) !! 10%nat) = Some (MClosing 4) /\
  get_session (manager_of closed_between) path_gb = Some 4%nat.
Proof. repeat (split; [vm_compute; reflexivity|]). vm_compute. reflexivity. Qed.

(** A manager that has closed has a session in its table. *)
Example late_mover_of_closed_manager :
  bool_decide (is_Some (manager_run vault_root [] new_manager all_closed_between)) = true /\
  mg_closed (manager_of all_closed_between) = true /\ mg_sessions (manager_of all_closed_between) = [(path_gb, 4%nat)].
Proof. repeat (split; [vm_compute; reflexivity|]). vm_compute. reflexivity. Qed.
